(** * mfer-node: the overlay state engine (package [mferstate])

    A shallow embedding of the overlay stack ([OverlayState]), of its
    upstream fetchers and request coalescer, and of the EVM-facing facade
    ([OverlayStateDB]), followed by the properties of the engine.

    Conventions of the embedding.
    - Go's [[]byte] is [list byte]; [common.Address] ([20]byte) and
      [common.Hash] ([32]byte) are byte lists as well, the fixed widths being
      used only where the code relies on them ([BytesToHash]).
    - [map[string][]byte] is [gmap string (list byte)]; a Go [string] built
      from bytes is [string_of_list_byte].
    - [*big.Int] is [Z]; [uint64] and [int64] are [Z] with the wrap-around
      written out.
    - The RPC client is a [Net]: the script of the outcomes of the coming
      transport calls together with the trace of what was sent so far.  Code
      that may panic or loop for ever returns [None]. *)

From Stdlib Require Import ZArith NArith List Strings.Byte String Lia.
From stdpp Require Import gmap strings list fin_maps.

Open Scope Z_scope.

(** ** Go primitives *)

Module Go.

#[global] Instance byte_eq_dec : EqDecision byte := Byte.byte_eq_dec.

#[global] Program Instance byte_countable : Countable byte :=
  {| encode b := encode (Byte.to_N b);
     decode p := n ← decode p; Byte.of_N n |}.
Next Obligation.
  intros b. cbn. rewrite decode_encode. cbn. apply Byte.of_to_N.
Qed.

(** [uint64(x)]: the low 64 bits. *)
Definition uint64 (x : Z) : Z := x mod 2 ^ 64.

(** [int64(x)]: the low 64 bits read as a two's complement number. *)
Definition int64 (x : Z) : Z :=
  let u := x mod 2 ^ 64 in if u <? 2 ^ 63 then u else u - 2 ^ 64.

(** The byte of a number below 256. *)
Definition byte_of_N (n : N) : byte :=
  match Byte.of_N n with Some b => b | None => x00 end.

(** Big-endian digits of [n] in base 256, most significant first, in front
    of [acc]; [fuel] bounds the number of digits. *)
Fixpoint be_digits (fuel : nat) (n : N) (acc : list byte) : list byte :=
  match fuel with
  | O => acc
  | S fuel' =>
      if (n =? 0)%N then acc
      else be_digits fuel' (n / 256)%N (byte_of_N (n mod 256)%N :: acc)
  end.

(** [big.Int.Bytes]: the big-endian bytes of the absolute value, with no
    leading zero (the empty slice for 0). *)
Definition Bytes (x : Z) : list byte :=
  let n := Z.abs_N x in be_digits (N.to_nat (N.size n)) n [].

(** [new(big.Int).SetBytes]: the bytes read as a big-endian unsigned
    number. *)
Definition SetBytes (b : list byte) : Z :=
  Z.of_N (fold_left (fun acc d => (acc * 256 + Byte.to_N d)%N) b 0%N).

(** [big.Int.Uint64] on a non-negative number: its low 64 bits. *)
Definition Uint64 (x : Z) : Z := x mod 2 ^ 64.

(** [common.HashLength]. *)
Definition HashLength : nat := 32.

(** [common.BytesToHash]: keep the last 32 bytes, pad on the left. *)
Definition BytesToHash (b : list byte) : list byte :=
  let b' := drop (length b - HashLength) b in
  replicate (HashLength - length b') x00 ++ b'.

(** [common.Hash{}.Bytes()]: 32 zero bytes. *)
Definition zeroHash : list byte := replicate HashLength x00.

End Go.

Import Go.

(** ** Canonical scratchpad keys *)

Abbreviation Address := (list byte) (only parsing).
Abbreviation Hash := (list byte) (only parsing).

(** [crypto.Keccak256Hash([]byte("mfersafe-scratchpad-balance"))]. *)
Definition BALANCE_KEY : list byte :=
  [xea; xc6; x7d; x5d; xbb; x1e; x18; xd2;
   x11; x57; x72; x8d; xbf; xbd; x97; x7c;
   xe1; x0f; xf6; x38; x1b; x78; x76; xeb;
   xf0; x37; x45; x0d; x16; xa8; xe1; xf6].

(** [crypto.Keccak256Hash([]byte("mfersafe-scratchpad-nonce"))]. *)
Definition NONCE_KEY : list byte :=
  [x27; x3e; x27; xe5; xf0; xcc; xae; x93;
   xb6; x6f; x5c; x6d; x72; xd6; xff; x05;
   x3b; xca; x7a; xaa; xaa; x34; x50; x22;
   xe9; x41; x29; x5f; xab; x8a; x24; x4c].

(** [crypto.Keccak256Hash([]byte("mfersafe-scratchpad-code"))]. *)
Definition CODE_KEY : list byte :=
  [x65; x9f; xe6; x77; xe6; x7d; x26; x42;
   x1d; x3c; xde; x84; x81; x87; x11; x4c;
   x81; x95; x2d; xf4; x47; xa9; xaf; xbb;
   x6b; x11; xbf; x66; x19; x3b; xd5; x4c].

(** [crypto.Keccak256Hash([]byte("mfersafe-scratchpad-codehash"))]. *)
Definition CODEHASH_KEY : list byte :=
  [x73; x24; xc0; x41; xf9; x23; x19; x90;
   x81; x33; x7d; xb2; xc0; x9f; x8c; x02;
   xcc; xe8; xf0; x40; xd0; xd3; xe1; xa3;
   x2f; xc7; xa7; xd8; x2c; xee; xab; x60].

(** [crypto.Keccak256Hash([]byte("mfersafe-scratchpad-state"))]. *)
Definition STATE_KEY : list byte :=
  [x2c; x1d; x13; xca; x79; x06; xa0; x07;
   xee; xf7; x20; x73; x54; xd5; x46; x76;
   x11; x85; xe9; x8a; xf8; x95; xfa; xcc;
   xd4; x13; x90; x5d; xf8; xd9; xfd; xc2].

(** [crypto.Keccak256Hash([]byte("mfersafe-suicide-state"))]. *)
Definition SUICIDE_KEY : list byte :=
  [x21; xfc; xc7; x68; xbb; x98; xf0; x4e;
   xee; x64; x21; x83; xe3; xac; x0e; xb0;
   x75; x88; x7f; x13; x12; x3f; x6c; x55;
   xf9; xf2; x36; x7b; x63; x34; x94; xa3].

Definition calcKey (op : Hash) (account : Address) : string :=
  string_of_list_byte (op ++ account).

Definition calcStateKey (account : Address) (key : Hash) : string :=
  let getStateKey := calcKey STATE_KEY account in
  (getStateKey ++ string_of_list_byte key)%string.

Inductive RequestType : Type :=
| GET_BALANCE
| GET_NONCE
| GET_CODE
| GET_CODEHASH
| GET_STATE.

#[global] Instance RequestType_eq_dec : EqDecision RequestType.
Proof. solve_decision. Defined.

(** The [switch action] at the head of [get]. *)
Definition scratchpadKeyOf (action : RequestType) (account : Address)
    (key : Hash) : string :=
  match action with
  | GET_BALANCE => calcKey BALANCE_KEY account
  | GET_NONCE => calcKey NONCE_KEY account
  | GET_CODE => calcKey CODE_KEY account
  | GET_CODEHASH => calcKey CODEHASH_KEY account
  | GET_STATE => calcStateKey account key
  end.

(** ** The RPC client *)

(** A Go [error] value. *)
Definition error : Type := string.

(** One element of a JSON-RPC batch: the method and its arguments. *)
Inductive BatchElem : Type :=
| eth_getTransactionCount_req (account : Address) (hexBN : Z)
| eth_getBalance_req (account : Address) (hexBN : Z)
| eth_getCode_req (account : Address) (hexBN : Z)
| eth_getStorageAt_req (account : Address) (key : Hash) (hexBN : Z).

(** What the engine does to the outside world. *)
Inductive Event : Type :=
| EvBatchCall (elems : list BatchElem) (err : option error)
| EvSleep (ms : Z).

(** The transport: [script] gives the outcome of the coming calls of
    [BatchCallContext], a transport error or [None] for success; once the
    script is used up every call succeeds.  [trace] is the history. *)
Record Net : Type := mkNet {
  script : list (option error);
  trace : list Event
}.

(** What the upstream node answers at a block. *)
Record Upstream : Type := mkUpstream {
  eth_getTransactionCount : Address -> Z -> Z;
  eth_getBalance : Address -> Z -> N;
  eth_getCode : Address -> Z -> list byte;
  eth_getStorageAt : Address -> Hash -> Z -> Hash
}.

(** What the engine takes from outside: [crypto.Keccak256Hash] and the
    upstream node behind the RPC client. *)
Class Env : Type := mkEnv {
  Keccak256Hash : list byte -> Hash;
  up : Upstream
}.

(** Computations that talk to the transport and may fail to return. *)
Definition M (A : Type) : Type := Net -> option (A * Net).

#[global] Instance M_ret : MRet M := fun A a net => Some (a, net).

#[global] Instance M_bind : MBind M := fun A B f m net =>
  match m net with
  | Some (a, net') => f a net'
  | None => None
  end.

(** A panic, or a loop that never ends. *)
Definition noReturn {A : Type} : M A := fun _ => None.

(** [s.ec.BatchCallContext(s.ctx, elems)]. *)
Definition BatchCallContext (elems : list BatchElem) : M (option error) :=
  fun net =>
    match script net with
    | [] => Some (None, mkNet [] (trace net ++ [EvBatchCall elems None]))
    | o :: rest => Some (o, mkNet rest (trace net ++ [EvBatchCall elems o]))
    end.

(** [time.Sleep]. *)
Definition Sleep (ms : Z) : M unit :=
  fun net => Some (tt, mkNet (script net) (trace net ++ [EvSleep ms])).

(** The Go slice expression [l[b:e]]; out of range it panics. *)
Definition slice {A : Type} (l : list A) (b e : Z) : M (list A) :=
  if (0 <=? b) && (b <=? e) && (e <=? Z.of_nat (length l))
  then mret (take (Z.to_nat (e - b)) (drop (Z.to_nat b) l))
  else noReturn.

(** ** Data of the engine *)

(** [types.Log] and [types.Receipt] of go-ethereum; the engine stores them
    and touches only [Receipt.Logs]. *)
Record Log : Type := mkLog {
  Log_Address : Address;
  Log_Topics : list Hash;
  Log_Data : list byte
}.

Record Receipt : Type := mkReceipt {
  Receipt_Status : Z;
  Receipt_TxHash : Hash;
  Receipt_GasUsed : Z;
  Receipt_Logs : list Log
}.

Record StorageReq : Type := mkStorageReq {
  Req_Address : Address;
  Req_Key : Hash;
  Req_Value : Hash;
  Req_Error : option error
}.

Record FetchedAccountResult : Type := mkFetched {
  Account : Address;
  Balance : Z;
  CodeHash : Hash;
  Nonce : Z;
  Code : list byte
}.

(** The fields of [OverlayState] other than [parent].  Not modelled: the
    mutexes and channels (one goroutine runs the model), [ctx], [ec] and
    [conn] (the [Net]), and [stateID], a random label used in log lines
    only.  [bn] is a pointer, nil in every layer made by [Derive]. *)
Record Layer : Type := mkLayer {
  bn : option Z;
  scratchPad : gmap string (list byte);
  batchSize : Z;
  accessedAccounts : gmap (list byte) bool;
  txLogs : gmap (list byte) (list Log);
  receipts : gmap (list byte) Receipt;
  currentTxHash : Hash;
  currentBlockHash : Hash;
  deriveCnt : Z;
  rpcCnt : Z;
  reason : string
}.

(** An [*OverlayState] with its chain of parents: [Root] has [parent == nil]. *)
Inductive OverlayState : Type :=
| Root (l : Layer)
| Derived (l : Layer) (parent : OverlayState).

Definition withScratchPad (l : Layer) (pad : gmap string (list byte)) : Layer :=
  mkLayer (bn l) pad (batchSize l) (accessedAccounts l) (txLogs l)
    (receipts l) (currentTxHash l) (currentBlockHash l) (deriveCnt l)
    (rpcCnt l) (reason l).

Definition withAccessedAccounts (l : Layer) (acc : gmap (list byte) bool) : Layer :=
  mkLayer (bn l) (scratchPad l) (batchSize l) acc (txLogs l)
    (receipts l) (currentTxHash l) (currentBlockHash l) (deriveCnt l)
    (rpcCnt l) (reason l).

Definition withTxLogs (l : Layer) (logs : gmap (list byte) (list Log)) : Layer :=
  mkLayer (bn l) (scratchPad l) (batchSize l) (accessedAccounts l) logs
    (receipts l) (currentTxHash l) (currentBlockHash l) (deriveCnt l)
    (rpcCnt l) (reason l).

Definition withReceipts (l : Layer) (rs : gmap (list byte) Receipt) : Layer :=
  mkLayer (bn l) (scratchPad l) (batchSize l) (accessedAccounts l) (txLogs l)
    rs (currentTxHash l) (currentBlockHash l) (deriveCnt l)
    (rpcCnt l) (reason l).

Definition withCurrentTx (l : Layer) (txHash blockHash : Hash) : Layer :=
  mkLayer (bn l) (scratchPad l) (batchSize l) (accessedAccounts l) (txLogs l)
    (receipts l) txHash blockHash (deriveCnt l) (rpcCnt l) (reason l).

Definition withRpcCnt (l : Layer) (cnt : Z) : Layer :=
  mkLayer (bn l) (scratchPad l) (batchSize l) (accessedAccounts l) (txLogs l)
    (receipts l) (currentTxHash l) (currentBlockHash l) (deriveCnt l)
    cnt (reason l).

Definition withBatchSize (l : Layer) (size : Z) : Layer :=
  mkLayer (bn l) (scratchPad l) size (accessedAccounts l) (txLogs l)
    (receipts l) (currentTxHash l) (currentBlockHash l) (deriveCnt l)
    (rpcCnt l) (reason l).

(** The struct a pointer [s] points to. *)
Definition this (s : OverlayState) : Layer :=
  match s with
  | Root l => l
  | Derived l _ => l
  end.

(** Assignment to the fields of [*s]. *)
Definition update (f : Layer -> Layer) (s : OverlayState) : OverlayState :=
  match s with
  | Root l => Root (f l)
  | Derived l p => Derived (f l) p
  end.

Definition NewOverlayState (blockNumber : Z) (size : Z) : OverlayState :=
  Root (mkLayer (Some blockNumber) ∅ size ∅ ∅ ∅ zeroHash zeroHash 0 0 EmptyString).

Definition Derive (s : OverlayState) (why : string) : OverlayState :=
  Derived
    (mkLayer None ∅ 0 ∅ ∅ ∅ (currentTxHash (this s)) (currentBlockHash (this s))
       (int64 (deriveCnt (this s) + 1)) 0 why)
    s.

(** [s.Parent()]; [None] is the nil pointer. *)
Definition Parent (s : OverlayState) : option OverlayState :=
  match s with
  | Root _ => None
  | Derived _ p => Some p
  end.

Fixpoint getRootState (s : OverlayState) : OverlayState :=
  match s with
  | Root l => Root l
  | Derived _ p => getRootState p
  end.

Definition DeriveFromRoot (s : OverlayState) : OverlayState :=
  Derive (getRootState s) "from root".

(** ** Upstream fetcher and request coalescer *)

Section Engine.

Context {env : Env}.

(** The block argument of every request:
    [hexutil.EncodeBig(big.NewInt(int64( *s.bn )))]. *)
Definition hexBN (blockNumber : Z) : Z := int64 blockNumber.

(** The window loop of [loadStateBatchRPC]. *)
Fixpoint stateWindows (fuel : nat) (reqs : list BatchElem) (step begin : Z)
    : M (option error) :=
  match fuel with
  | O => noReturn
  | S fuel' =>
      if begin <? Z.of_nat (length reqs) then
        let end_ :=
          if begin + step >? Z.of_nat (length reqs)
          then Z.of_nat (length reqs) else begin + step in
        window ← slice reqs begin end_;
        err ← BatchCallContext window;
        match err with
        | Some e => mret (Some e)
        | None => stateWindows fuel' reqs step (begin + step)
        end
      else mret None
  end.

Definition storageElem (blockNumber : Z) (r : StorageReq) : BatchElem :=
  eth_getStorageAt_req (Req_Address r) (Req_Key r) (hexBN blockNumber).

Definition storageAnswer (blockNumber : Z) (r : StorageReq) : StorageReq :=
  mkStorageReq (Req_Address r) (Req_Key r)
    (eth_getStorageAt up (Req_Address r) (Req_Key r) (hexBN blockNumber))
    (Req_Error r).

Definition loadStateBatchRPC (s : Layer) (storageReqs : list StorageReq)
    : M (option error * list StorageReq * Layer) :=
  let s := withRpcCnt s (int64 (rpcCnt s + 1)) in
  match bn s with
  | None => noReturn
  | Some blockNumber =>
      let reqs := map (storageElem blockNumber) storageReqs in
      let step := batchSize s in
      err ← stateWindows (S (length reqs)) reqs step 0;
      match err with
      | Some e => mret (Some e, storageReqs, s)
      | None => mret (None, map (storageAnswer blockNumber) storageReqs, s)
      end
  end.

(** The retry loop inside a window of [loadAccountBatchRPC]. *)
Fixpoint accountAttempts (fuel : nat) (window : list BatchElem) (rpcTries : Z)
    : M (option error * Z) :=
  match fuel with
  | O => noReturn
  | S fuel' =>
      err ← BatchCallContext window;
      match err with
      | Some e =>
          let rpcTries := rpcTries + 1 in
          if rpcTries >? 5 then mret (Some e, rpcTries)
          else _ ← Sleep 100; accountAttempts fuel' window rpcTries
      | None => mret (None, rpcTries)
      end
  end.

(** The window loop of [loadAccountBatchRPC]. *)
Fixpoint accountWindows (fuel : nat) (batchElem : list BatchElem)
    (step begin rpcTries : Z) : M (option error) :=
  match fuel with
  | O => noReturn
  | S fuel' =>
      if begin <? Z.of_nat (length batchElem) then
        let end_ :=
          if begin + step >? Z.of_nat (length batchElem)
          then Z.of_nat (length batchElem) else begin + step in
        window ← slice batchElem begin end_;
        '(err, rpcTries) ← accountAttempts fuel' window rpcTries;
        match err with
        | Some e => mret (Some e)
        | None => accountWindows fuel' batchElem step (begin + step) rpcTries
        end
      else mret None
  end.

Definition accountElems (blockNumber : Z) (account : Address) : list BatchElem :=
  [ eth_getTransactionCount_req account (hexBN blockNumber);
    eth_getBalance_req account (hexBN blockNumber);
    eth_getCode_req account (hexBN blockNumber) ].

(** [result[i]] once its three requests are answered and the code hash is
    derived; [Account] is never assigned and keeps its zero value. *)
Definition accountAnswer (blockNumber : Z) (account : Address)
    : FetchedAccountResult :=
  let code := eth_getCode up account (hexBN blockNumber) in
  mkFetched (replicate 20 x00)
    (Z.of_N (eth_getBalance up account (hexBN blockNumber)))
    (if (length code =? 0)%nat then zeroHash else Keccak256Hash code)
    (uint64 (eth_getTransactionCount up account (hexBN blockNumber)))
    code.

Definition markAccessed (acc : gmap (list byte) bool) (accounts : list Address)
    : gmap (list byte) bool :=
  foldl (fun m account => <[account := true]> m) acc accounts.

Definition loadAccountBatchRPC (s : Layer) (accounts : list Address)
    : M (list FetchedAccountResult * option error * Layer) :=
  match bn s with
  | None => noReturn
  | Some blockNumber =>
      let batchElem := flat_map (accountElems blockNumber) accounts in
      let s := withAccessedAccounts s (markAccessed (accessedAccounts s) accounts) in
      let step := batchSize s in
      err ← accountWindows (length batchElem + 7) batchElem step 0 0;
      match err with
      | Some e => mret ([], Some e, s)
      | None => mret (map (accountAnswer blockNumber) accounts, None, s)
      end
  end.

(** The loops of [timeSlot] around the two fetchers: after a failure they
    sleep a second and call again, for ever. *)
Fixpoint storageRetry (fuel : nat) (s : Layer) (pending : list StorageReq)
    : M (list StorageReq * Layer) :=
  match fuel with
  | O => noReturn
  | S fuel' =>
      '(err, filled, s) ← loadStateBatchRPC s pending;
      match err with
      | Some _ => _ ← Sleep 1000; storageRetry fuel' s pending
      | None => mret (filled, s)
      end
  end.

Fixpoint accountRetry (fuel : nat) (s : Layer) (accounts : list Address)
    : M (list FetchedAccountResult * Layer) :=
  match fuel with
  | O => noReturn
  | S fuel' =>
      '(accResult, err, s) ← loadAccountBatchRPC s accounts;
      match err with
      | Some _ => _ ← Sleep 1000; accountRetry fuel' s accounts
      | None => mret (accResult, s)
      end
  end.

(** A loop that runs until the transport lets a call through: every failed
    round uses up an entry of the script, so one round more than the script
    is long is all it can take. *)
Definition untilUp {A : Type} (loop : nat -> M A) : M A :=
  fun net => loop (S (length (script net))) net.

(** One storage tick of [timeSlot]: [queue] holds the requests waiting in
    [storageReqChan] when the ticker fires; the result is what is sent back
    on the reply channels, in order. *)
Definition storageTick (s : Layer) (queue : list StorageReq)
    : M (list StorageReq * Layer) :=
  let storageReqLen := length queue in
  let storageReqPending := queue in
  if (0 <? storageReqLen)%nat
  then untilUp (fun fuel => storageRetry fuel s storageReqPending)
  else mret (storageReqPending, s).

(** One account tick of [timeSlot]. *)
Definition accountTick (s : Layer) (queue : list FetchedAccountResult)
    : M (list FetchedAccountResult * Layer) :=
  let accReqLen := length queue in
  let accounts := map Account queue in
  if (0 <? accReqLen)%nat
  then untilUp (fun fuel => accountRetry fuel s accounts)
  else mret ([], s).

(** [loadState] and [loadAccount]: the request goes through the queue, is
    served by the next tick and answered on its reply channel. *)
Definition loadState (s : Layer) (account : Address) (key : Hash)
    : M (Hash * Layer) :=
  '(replies, s) ← storageTick s [mkStorageReq account key zeroHash None];
  match replies with
  | result :: _ => mret (Req_Value result, s)
  | [] => noReturn
  end.

Definition loadAccount (s : Layer) (account : Address)
    : M (FetchedAccountResult * Layer) :=
  '(replies, s) ←
    accountTick s [mkFetched account 0 zeroHash 0 []];
  match replies with
  | result :: _ => mret (result, s)
  | [] => noReturn
  end.

(** ** The read path *)

(** [if _, ok := pad[k]; !ok { pad[k] = v }]. *)
Definition fill (k : string) (v : list byte) (pad : gmap string (list byte))
    : gmap string (list byte) :=
  match pad !! k with
  | Some _ => pad
  | None => <[k := v]> pad
  end.

Fixpoint get (s : OverlayState) (account : Address) (action : RequestType)
    (key : Hash) : M (list byte * option error * OverlayState) :=
  let scratchpadKey := scratchpadKeyOf action account key in
  match s with
  | Root l =>
      match scratchPad l !! scratchpadKey with
      | Some val => mret (val, None, s)
      | None =>
          match action with
          | GET_STATE =>
              '(result, l) ← loadState l account key;
              let l := withScratchPad l (<[scratchpadKey := result]> (scratchPad l)) in
              mret (result, None, Root l)
          | GET_BALANCE | GET_NONCE | GET_CODE | GET_CODEHASH =>
              '(result, l) ← loadAccount l account;
              let nonce := uint64 (Nonce result) in
              let balance := Balance result in
              let codeHash := CodeHash result in
              let pad := fill (calcKey BALANCE_KEY account) (Bytes balance) (scratchPad l) in
              let pad := fill (calcKey NONCE_KEY account) (Bytes (int64 nonce)) pad in
              let pad := fill (calcKey CODE_KEY account) (Code result) pad in
              let pad := fill (calcKey CODEHASH_KEY account) codeHash pad in
              let res := default [] (pad !! scratchpadKey) in
              mret (res, None, Root (withScratchPad l pad))
          end
      end
  | Derived l p =>
      match scratchPad l !! scratchpadKey with
      | Some val => mret (val, None, s)
      | None =>
          '(res, err, p) ← get p account action key;
          mret (res, err, Derived l p)
      end
  end.

(** ** The state-DB facade *)

(** [OverlayStateDB]; [cacheFilePath], [maxKeyCache] and [stateBN] serve the
    warm-up of the cache file only and are left out with it. *)
Record OverlayStateDB : Type := mkDB {
  refundGas : Z;
  state : OverlayState
}.

Definition withState (db : OverlayStateDB) (s : OverlayState) : OverlayStateDB :=
  mkDB (refundGas db) s.

(** [db.state.scratchPad[k] = v]. *)
Definition store (db : OverlayStateDB) (k : string) (v : list byte)
    : OverlayStateDB :=
  withState db
    (update (fun l => withScratchPad l (<[k := v]> (scratchPad l))) (state db)).

Definition GetOverlayDepth (db : OverlayStateDB) : Z :=
  deriveCnt (this (state db)).

Definition NewOverlayStateDB (blockNumber : Z) (size : Z) : OverlayStateDB :=
  mkDB 0 (Derive (NewOverlayState blockNumber size) "protect underlying").

(** The getters share [db.state.get] followed by [log.Panic(err)] on an
    error. *)
Definition read (db : OverlayStateDB) (account : Address)
    (action : RequestType) (key : Hash) : M (list byte * OverlayStateDB) :=
  '(val, err, s) ← get (state db) account action key;
  match err with
  | Some _ => noReturn
  | None => mret (val, withState db s)
  end.

Definition CreateAccount (db : OverlayStateDB) (account : Address)
    : OverlayStateDB := db.

Definition SubBalance (db : OverlayStateDB) (account : Address) (delta : Z)
    : M OverlayStateDB :=
  '(bal, db) ← read db account GET_BALANCE zeroHash;
  let balB := SetBytes bal in
  let post := balB - delta in
  mret (store db (calcKey BALANCE_KEY account) (Bytes post)).

Definition AddBalance (db : OverlayStateDB) (account : Address) (delta : Z)
    : M OverlayStateDB :=
  '(bal, db) ← read db account GET_BALANCE zeroHash;
  let balB := SetBytes bal in
  let post := balB + delta in
  mret (store db (calcKey BALANCE_KEY account) (Bytes post)).

Definition GetBalance (db : OverlayStateDB) (account : Address)
    : M (Z * OverlayStateDB) :=
  '(bal, db) ← read db account GET_BALANCE zeroHash;
  mret (SetBytes bal, db).

Definition SetBalance (db : OverlayStateDB) (account : Address) (balance : Z)
    : OverlayStateDB :=
  store db (calcKey BALANCE_KEY account) (Bytes balance).

Definition GetNonce (db : OverlayStateDB) (account : Address)
    : M (Z * OverlayStateDB) :=
  '(nonce, db) ← read db account GET_NONCE zeroHash;
  let nonceB := SetBytes nonce in
  mret (Uint64 nonceB, db).

Definition SetNonce (db : OverlayStateDB) (account : Address) (nonce : Z)
    : OverlayStateDB :=
  store db (calcKey NONCE_KEY account) (Bytes (int64 nonce)).

Definition GetCodeHash (db : OverlayStateDB) (account : Address)
    : M (Hash * OverlayStateDB) :=
  '(codehash, db) ← read db account GET_CODEHASH zeroHash;
  mret (BytesToHash codehash, db).

Definition SetCodeHash (db : OverlayStateDB) (account : Address) (codeHash : Hash)
    : OverlayStateDB :=
  store db (calcKey CODEHASH_KEY account) codeHash.

Definition GetCode (db : OverlayStateDB) (account : Address)
    : M (list byte * OverlayStateDB) :=
  read db account GET_CODE zeroHash.

Definition SetCode (db : OverlayStateDB) (account : Address) (code : list byte)
    : OverlayStateDB :=
  store db (calcKey CODE_KEY account) code.

Definition GetCodeSize (db : OverlayStateDB) (account : Address)
    : M (Z * OverlayStateDB) :=
  '(code, db) ← read db account GET_CODE zeroHash;
  mret (Z.of_nat (length code), db).

Definition AddRefund (db : OverlayStateDB) (delta : Z) : OverlayStateDB :=
  mkDB (uint64 (refundGas db + delta)) (state db).

Definition SubRefund (db : OverlayStateDB) (delta : Z) : OverlayStateDB :=
  mkDB (uint64 (refundGas db - delta)) (state db).

Definition GetRefund (db : OverlayStateDB) : Z := refundGas db.

Definition GetCommittedState (db : OverlayStateDB) (account : Address)
    (key : Hash) : M (Hash * OverlayStateDB) :=
  '(val, db) ← read db account GET_STATE key;
  mret (BytesToHash val, db).

Definition GetState (db : OverlayStateDB) (account : Address) (key : Hash)
    : M (Hash * OverlayStateDB) :=
  GetCommittedState db account key.

Definition SetState (db : OverlayStateDB) (account : Address) (key value : Hash)
    : OverlayStateDB :=
  store db (calcStateKey account key) value.

Definition Suicide (db : OverlayStateDB) (account : Address)
    : bool * OverlayStateDB :=
  (true, store db (calcKey SUICIDE_KEY account) [x01]).

Definition HasSuicided (db : OverlayStateDB) (account : Address) : bool :=
  match scratchPad (this (state db)) !! calcKey SUICIDE_KEY account with
  | Some val => bool_decide (val = [x01])
  | None => false
  end.

Definition Empty (db : OverlayStateDB) (account : Address)
    : M (bool * OverlayStateDB) :=
  '(code, db) ← GetCode db account;
  '(nonce, db) ← GetNonce db account;
  '(balance, db) ← GetBalance db account;
  mret ((length code =? 0)%nat && (nonce =? 0) && (Z.sgn balance =? 0), db).

Definition Exist (db : OverlayStateDB) (account : Address)
    : M (bool * OverlayStateDB) :=
  '(empty, db) ← Empty db account;
  mret (negb empty, db).

(** *** Snapshots *)

(** A revision id is a Go [int]; [int] has 64 bits, so the conversions
    [int(deriveCnt)] and [int64(revisionID)] change nothing and are not
    written. *)

(** The walk of [RevertToSnapshot]; stepping past the root dereferences the
    nil pointer. *)
Fixpoint revertWalk (tmpState : OverlayState) (revisionID : Z)
    : option OverlayState :=
  if int64 (deriveCnt (this tmpState) + 1) =? revisionID
  then Some tmpState
  else
    match tmpState with
    | Root _ => None
    | Derived _ p => revertWalk p revisionID
    end.

Definition RevertToSnapshot (db : OverlayStateDB) (revisionID : Z)
    : option OverlayStateDB :=
  tmpState ← Parent (state db);
  s ← revertWalk tmpState revisionID;
  Some (withState db s).

Definition Snapshot (db : OverlayStateDB) : Z * OverlayStateDB :=
  let newOverlayState := Derive (state db) "snapshot" in
  let revisionID := deriveCnt (this newOverlayState) in
  (revisionID, withState db newOverlayState).

(** [for k, v := range pad { parentState.scratchPad[k] = v }], with [l] the
    struct behind [parentState]. *)
Definition pour (pad : gmap string (list byte)) (l : Layer) : Layer :=
  withScratchPad l
    (map_fold (fun k v parentPad => <[k := v]> parentPad) (scratchPad l) pad).

(** The loop of [MergeTo] from its second round on: [parentState] is the
    layer that receives [pad], the scratchpad of the layer below it, and
    becomes [currState].  At the root with another depth than [revisionID]
    the next round dereferences the nil pointer. *)
Fixpoint mergeWalk (pad : gmap string (list byte)) (parentState : OverlayState)
    (revisionID : Z) : option OverlayState :=
  match parentState with
  | Root l =>
      let l := pour pad l in
      if deriveCnt l =? revisionID then Some (Root l) else None
  | Derived l p =>
      let l := pour pad l in
      if deriveCnt l =? revisionID then Some (Derived l p)
      else mergeWalk (scratchPad l) p revisionID
  end.

Definition MergeTo (db : OverlayStateDB) (revisionID : Z)
    : option OverlayStateDB :=
  let currState := state db in
  if deriveCnt (this currState) =? revisionID then Some db
  else
    match currState with
    | Root _ => None
    | Derived l parentState =>
        s ← mergeWalk (scratchPad l) parentState revisionID;
        Some (withState db s)
    end.

(** *** Statistics *)

Definition CacheSize (db : OverlayStateDB) : Z :=
  let root := getRootState (state db) in
  map_fold
    (fun k v size => size + (Z.of_nat (String.length k) + Z.of_nat (length v)))
    0 (scratchPad (this root)).

Definition RPCRequestCount (db : OverlayStateDB) : Z :=
  rpcCnt (this (getRootState (state db))).

(** *** Logs and receipts *)

Definition AddLog (db : OverlayStateDB) (vLog : Log) : OverlayStateDB :=
  withState db
    (update
       (fun l =>
          let tx := currentTxHash l in
          withTxLogs l (<[tx := default [] (txLogs l !! tx) ++ [vLog]]> (txLogs l)))
       (state db)).

(** The loop of [GetLogs]. *)
Fixpoint logsWalk (tmpStateDB : OverlayState) (txHash : Hash) (logs : list Log)
    : list Log :=
  let logs :=
    match txLogs (this tmpStateDB) !! txHash with
    | Some found => found ++ logs
    | None => logs
    end in
  match tmpStateDB with
  | Root _ => logs
  | Derived _ p => logsWalk p txHash logs
  end.

Definition GetLogs (db : OverlayStateDB) (txHash : Hash) : list Log :=
  logsWalk (state db) txHash [].

Definition AddReceipt (db : OverlayStateDB) (txHash : Hash) (receipt : Receipt)
    : OverlayStateDB :=
  withState db
    (update (fun l => withReceipts l (<[txHash := receipt]> (receipts l)))
       (state db)).

Definition setLogs (receipt : Receipt) (logs : list Log) : Receipt :=
  mkReceipt (Receipt_Status receipt) (Receipt_TxHash receipt)
    (Receipt_GasUsed receipt) logs.

(** The loop of [GetReceipt]; the receipt found is a shared object, so the
    assignment to its [Logs] shows in the layer that holds it. *)
Fixpoint receiptWalk (tmpStateDB : OverlayState) (txHash : Hash)
    (logs : list Log) : option Receipt * OverlayState :=
  match tmpStateDB with
  | Root _ => (None, tmpStateDB)
  | Derived l p =>
      match receipts l !! txHash with
      | Some receipt =>
          let receipt := setLogs receipt logs in
          (Some receipt,
           Derived (withReceipts l (<[txHash := receipt]> (receipts l))) p)
      | None =>
          let '(found, p) := receiptWalk p txHash logs in
          (found, Derived l p)
      end
  end.

Definition GetReceipt (db : OverlayStateDB) (txHash : Hash)
    : option Receipt * OverlayStateDB :=
  let '(found, s) := receiptWalk (state db) txHash (GetLogs db txHash) in
  (found, withState db s).

Definition StartLogCollection (db : OverlayStateDB) (txHash blockHash : Hash)
    : OverlayStateDB :=
  withState db (update (fun l => withCurrentTx l txHash blockHash) (state db)).

Fixpoint setRootBatchSize (s : OverlayState) (size : Z) : OverlayState :=
  match s with
  | Root l => Root (withBatchSize l size)
  | Derived l p => Derived l (setRootBatchSize p size)
  end.

Definition SetBatchSize (db : OverlayStateDB) (size : Z) : OverlayStateDB :=
  withState db (setRootBatchSize (state db) size).

End Engine.

(** ** Vocabulary of the properties *)

Section Vocabulary.

Context {env : Env}.

(** The layers of a chain, the current one first and the root last. *)
Fixpoint layers (s : OverlayState) : list Layer :=
  match s with
  | Root l => [l]
  | Derived l p => l :: layers p
  end.

(** The value of [k] in the deepest layer (the one closest to the current
    layer) whose scratchpad contains [k]. *)
Definition shadowed (s : OverlayState) (k : string) : option (list byte) :=
  head (omap (fun l => scratchPad l !! k) (layers s)).

(** The layers above the root, the current one first. *)
Fixpoint overlays (s : OverlayState) : list Layer :=
  match s with
  | Root _ => []
  | Derived l p => l :: overlays p
  end.

(** The root can fetch: it holds the pinned block and a positive batch
    size. *)
Definition canFetch (s : OverlayState) : Prop :=
  is_Some (bn (this (getRootState s))) ∧ 0 < batchSize (this (getRootState s)).

Definition pinnedBlock (s : OverlayState) : Z :=
  default 0 (bn (this (getRootState s))).

(** The code hash that goes with a code. *)
Definition codeHashOf (code : list byte) : Hash :=
  match code with
  | [] => zeroHash
  | _ => Keccak256Hash code
  end.

(** What the upstream node holds at block [blockNumber] for a read, in the
    encoding of the scratchpad. *)
Definition upstreamValue (blockNumber : Z) (action : RequestType)
    (account : Address) (key : Hash) : list byte :=
  match action with
  | GET_BALANCE => Bytes (Z.of_N (eth_getBalance up account (hexBN blockNumber)))
  | GET_NONCE =>
      Bytes (int64 (uint64 (eth_getTransactionCount up account (hexBN blockNumber))))
  | GET_CODE => eth_getCode up account (hexBN blockNumber)
  | GET_CODEHASH => codeHashOf (eth_getCode up account (hexBN blockNumber))
  | GET_STATE => eth_getStorageAt up account key (hexBN blockNumber)
  end.

(** The chain [s] with [r] in the place of its root. *)
Fixpoint graft (s : OverlayState) (r : OverlayState) : OverlayState :=
  match s with
  | Root _ => r
  | Derived l p => Derived l (graft p r)
  end.

(** The four account entries, each written where the scratchpad has none. *)
Definition accountPad (blockNumber : Z) (account : Address)
    (pad : gmap string (list byte)) : gmap string (list byte) :=
  fill (calcKey CODEHASH_KEY account)
    (upstreamValue blockNumber GET_CODEHASH account zeroHash)
    (fill (calcKey CODE_KEY account)
       (upstreamValue blockNumber GET_CODE account zeroHash)
       (fill (calcKey NONCE_KEY account)
          (upstreamValue blockNumber GET_NONCE account zeroHash)
          (fill (calcKey BALANCE_KEY account)
             (upstreamValue blockNumber GET_BALANCE account zeroHash) pad))).

(** The address part of a scratchpad key. *)
Definition addressOf (k : string) : list byte := drop 32 (list_byte_of_string k).

(** The entry a fetch of the account of [k] writes under [k]. *)
Definition entryOf (b : Z) (k : string) : option (list byte) :=
  if decide (k = calcKey BALANCE_KEY (addressOf k))
  then Some (upstreamValue b GET_BALANCE (addressOf k) zeroHash)
  else if decide (k = calcKey NONCE_KEY (addressOf k))
  then Some (upstreamValue b GET_NONCE (addressOf k) zeroHash)
  else if decide (k = calcKey CODE_KEY (addressOf k))
  then Some (upstreamValue b GET_CODE (addressOf k) zeroHash)
  else if decide (k = calcKey CODEHASH_KEY (addressOf k))
  then Some (upstreamValue b GET_CODEHASH (addressOf k) zeroHash)
  else None.

Definition accountPads (b : Z) (accounts : list (list byte))
    (pad : gmap string (list byte)) : gmap string (list byte) :=
  foldr (accountPad b) pad accounts.

(** The root layer [l] after it fetched [accounts], with request counter
    [cnt] and accessed accounts [acc]. *)
Definition warmRoot (b : Z) (accounts : list (list byte)) (cnt : Z)
    (acc : gmap (list byte) bool) (l : Layer) : Layer :=
  withScratchPad (withAccessedAccounts (withRpcCnt l cnt) acc)
    (accountPads b accounts (scratchPad l)).

(** The chain [s] with such a root. *)
Definition withAccounts (accounts : list (list byte)) (cnt : Z)
    (acc : gmap (list byte) bool) (s : OverlayState) : OverlayState :=
  graft s (Root (warmRoot (pinnedBlock s) accounts cnt acc (this (getRootState s)))).

(** What the layers above the root hold under [k], the current layer
    first. *)
Definition overlaid (s : OverlayState) (k : string) : option (list byte) :=
  head (omap (fun l => scratchPad l !! k) (overlays s)).

(** The facade over the chain with a warmer root. *)
Definition warmDB (accounts : list (list byte)) (cnt : Z)
    (acc : gmap (list byte) bool) (db : OverlayStateDB) : OverlayStateDB :=
  mkDB (refundGas db) (withAccounts accounts cnt acc (state db)).

(** The layer the root becomes after a fetch. *)
Definition warmed (b : Z) (account : Address) (action : RequestType) (key : Hash)
    (cnt : Z) (acc : gmap (list byte) bool) (l : Layer) : Layer :=
  withScratchPad (withAccessedAccounts (withRpcCnt l cnt) acc)
    match action with
    | GET_STATE =>
        <[scratchpadKeyOf action account key := upstreamValue b action account key]>
          (scratchPad l)
    | _ => accountPad b account (scratchPad l)
    end.

(** No layer above the root holds the key of the read, and the root holds
    it, if at all, as fetched from upstream: nothing was written to it
    locally. *)
Definition untouched (s : OverlayState) (action : RequestType)
    (account : Address) (key : Hash) : Prop :=
  let k := scratchpadKeyOf action account key in
  Forall (fun l => scratchPad l !! k = None) (overlays s) ∧
  ∀ v, scratchPad (this (getRootState s)) !! k = Some v →
       v = upstreamValue (pinnedBlock s) action account key.

(** The four account entries of the root are all there, and the code hash
    is the one of the code. *)
Definition accountCached (root : Layer) (account : Address) : Prop :=
  is_Some (scratchPad root !! calcKey BALANCE_KEY account) ∧
  is_Some (scratchPad root !! calcKey NONCE_KEY account) ∧
  ∃ code,
    scratchPad root !! calcKey CODE_KEY account = Some code ∧
    scratchPad root !! calcKey CODEHASH_KEY account = Some (codeHashOf code).

(** None of the four account entries is in the root. *)
Definition accountUnseen (root : Layer) (account : Address) : Prop :=
  scratchPad root !! calcKey BALANCE_KEY account = None ∧
  scratchPad root !! calcKey NONCE_KEY account = None ∧
  scratchPad root !! calcKey CODE_KEY account = None ∧
  scratchPad root !! calcKey CODEHASH_KEY account = None.

(** Nothing was written locally to the account: no layer above the root
    holds any of its four entries, and the root holds none of them or holds
    them as fetched. *)
Definition unwrittenAccount (s : OverlayState) (account : Address) : Prop :=
  Forall
    (fun l =>
       scratchPad l !! calcKey BALANCE_KEY account = None ∧
       scratchPad l !! calcKey NONCE_KEY account = None ∧
       scratchPad l !! calcKey CODE_KEY account = None ∧
       scratchPad l !! calcKey CODEHASH_KEY account = None)
    (overlays s) ∧
  (accountUnseen (this (getRootState s)) account ∨
   accountCached (this (getRootState s)) account).

(** The writes of the facade that need no read. *)
Inductive Write : Type :=
| W_SetBalance (account : Address) (balance : Z)
| W_SetNonce (account : Address) (nonce : Z)
| W_SetCode (account : Address) (code : list byte)
| W_SetCodeHash (account : Address) (codeHash : Hash)
| W_SetState (account : Address) (key value : Hash)
| W_Suicide (account : Address)
| W_AddLog (vLog : Log)
| W_AddReceipt (txHash : Hash) (receipt : Receipt).

Definition write (db : OverlayStateDB) (w : Write) : OverlayStateDB :=
  match w with
  | W_SetBalance account balance => SetBalance db account balance
  | W_SetNonce account nonce => SetNonce db account nonce
  | W_SetCode account code => SetCode db account code
  | W_SetCodeHash account codeHash => SetCodeHash db account codeHash
  | W_SetState account key value => SetState db account key value
  | W_Suicide account => snd (Suicide db account)
  | W_AddLog vLog => AddLog db vLog
  | W_AddReceipt txHash receipt => AddReceipt db txHash receipt
  end.

(** All the writes, with the two that read the balance first. *)
Inductive Op : Type :=
| O_Write (w : Write)
| O_AddBalance (account : Address) (delta : Z)
| O_SubBalance (account : Address) (delta : Z).

Definition perform (db : OverlayStateDB) (o : Op) : M OverlayStateDB :=
  match o with
  | O_Write w => mret (write db w)
  | O_AddBalance account delta => AddBalance db account delta
  | O_SubBalance account delta => SubBalance db account delta
  end.

Fixpoint performAll (db : OverlayStateDB) (ops : list Op) : M OverlayStateDB :=
  match ops with
  | [] => mret db
  | o :: ops => db ← perform db o; performAll db ops
  end.

(** The writes that go to the scratchpad, as opposed to the log and receipt
    tables. *)
Definition toScratchPad (o : Op) : bool :=
  match o with
  | O_Write (W_AddLog _) | O_Write (W_AddReceipt _ _) => false
  | _ => true
  end.

(** What a caller can ask a facade. *)
Inductive Query : Type :=
| Q_GetBalance (account : Address)
| Q_GetNonce (account : Address)
| Q_GetCode (account : Address)
| Q_GetCodeHash (account : Address)
| Q_GetCodeSize (account : Address)
| Q_GetState (account : Address) (key : Hash)
| Q_GetCommittedState (account : Address) (key : Hash)
| Q_HasSuicided (account : Address)
| Q_Exist (account : Address)
| Q_Empty (account : Address)
| Q_GetRefund
| Q_GetLogs (txHash : Hash)
| Q_GetReceipt (txHash : Hash)
| Q_GetOverlayDepth
| Q_RPCRequestCount
| Q_CacheSize.

Inductive Answer : Type :=
| A_Int (n : Z)
| A_Bytes (b : list byte)
| A_Bool (b : bool)
| A_Logs (logs : list Log)
| A_Receipt (receipt : option Receipt).

Definition answering {A : Type} (wrap : A -> Answer)
    (m : M (A * OverlayStateDB)) : M (Answer * OverlayStateDB) :=
  '(a, db) ← m; mret (wrap a, db).

Definition ask (db : OverlayStateDB) (q : Query) : M (Answer * OverlayStateDB) :=
  match q with
  | Q_GetBalance account => answering A_Int (GetBalance db account)
  | Q_GetNonce account => answering A_Int (GetNonce db account)
  | Q_GetCode account => answering A_Bytes (GetCode db account)
  | Q_GetCodeHash account => answering A_Bytes (GetCodeHash db account)
  | Q_GetCodeSize account => answering A_Int (GetCodeSize db account)
  | Q_GetState account key => answering A_Bytes (GetState db account key)
  | Q_GetCommittedState account key =>
      answering A_Bytes (GetCommittedState db account key)
  | Q_HasSuicided account => mret (A_Bool (HasSuicided db account), db)
  | Q_Exist account => answering A_Bool (Exist db account)
  | Q_Empty account => answering A_Bool (Empty db account)
  | Q_GetRefund => mret (A_Int (GetRefund db), db)
  | Q_GetLogs txHash => mret (A_Logs (GetLogs db txHash), db)
  | Q_GetReceipt txHash =>
      let '(found, db) := GetReceipt db txHash in mret (A_Receipt found, db)
  | Q_GetOverlayDepth => mret (A_Int (GetOverlayDepth db), db)
  | Q_RPCRequestCount => mret (A_Int (RPCRequestCount db), db)
  | Q_CacheSize => mret (A_Int (CacheSize db), db)
  end.

(** The result [r] of a fetcher with the scratchpad of the layer it returns
    set to [pad]. *)
Definition repad {X : Type} (pad : gmap string (list byte))
    (r : option (X * Layer * Net)) : option (X * Layer * Net) :=
  match r with
  | Some ((x, l), net') => Some ((x, withScratchPad l pad), net')
  | None => None
  end.

(** The facade with the current layer poured into its parent. *)
Definition merged (db : OverlayStateDB) : OverlayStateDB :=
  match state db with
  | Root _ => db
  | Derived c p => mkDB (refundGas db) (update (pour (scratchPad c)) p)
  end.

(** A step of the overlay stack as a computation: a walk that runs off the
    chain does not return. *)
Definition stack (r : option OverlayStateDB) : M OverlayStateDB :=
  match r with
  | Some db => mret db
  | None => noReturn
  end.

(** [id = Snapshot(); W; RevertToSnapshot(id)]. *)
Definition snapshotWritesRevert (db : OverlayStateDB) (W : list Write)
    : M OverlayStateDB :=
  let '(id, db) := Snapshot db in
  let db := foldl write db W in
  stack (RevertToSnapshot db id).

(** [Snapshot(); W; MergeTo(id)], with [id] the depth of the layer the
    snapshot was taken on. *)
Definition snapshotOpsMerge (db : OverlayStateDB) (W : list Op)
    : M OverlayStateDB :=
  let id := GetOverlayDepth db in
  let '(_, db) := Snapshot db in
  db ← performAll db W;
  stack (MergeTo db id).

(** [id = Snapshot(); W; RevertToSnapshot(id)] for writes of any kind. *)
Definition snapshotOpsRevert (db : OverlayStateDB) (W : list Op)
    : M OverlayStateDB :=
  let '(id, db) := Snapshot db in
  db ← performAll db W;
  stack (RevertToSnapshot db id).

(** What a computation on a facade answers. *)
Definition answer {A : Type} (m : M (A * OverlayStateDB)) (net : Net) : option A :=
  match m net with
  | Some ((a, _), _) => Some a
  | None => None
  end.

(** The first receipt for [txHash] in a list of layers. *)
Definition firstReceipt (ls : list Layer) (txHash : Hash) : option Receipt :=
  head (omap (fun l => receipts l !! txHash) ls).

(** The logs of [txHash] over the chain, the root's first. *)
Definition logsRootToLeaf (s : OverlayState) (txHash : Hash) : list Log :=
  concat (map (fun l => default [] (txLogs l !! txHash)) (reverse (layers s))).

(** The events of a trace. *)
Definition batchCalls (tr : list Event) : list (list BatchElem) :=
  omap (fun ev => match ev with EvBatchCall elems _ => Some elems | _ => None end) tr.

Definition failures (tr : list Event) : list error :=
  omap (fun ev => match ev with EvBatchCall _ (Some e) => Some e | _ => None end) tr.

Definition sleeps (tr : list Event) : list Z :=
  omap (fun ev => match ev with EvSleep ms => Some ms | _ => None end) tr.

(** [⌈n / b⌉]. *)
Definition ceilDiv (n b : Z) : Z := (n + b - 1) / b.

(** The transport went from [net] to [net'] and [tr] is what happened in
    between: the script is used up from its head, a failed call takes an
    entry of it, and a used-up script stays so, with no failure. *)
Definition advances (net net' : Net) (tr : list Event) : Prop :=
  trace net' = trace net ++ tr ∧
  (length (script net') ≤ length (script net))%nat ∧
  (failures tr ≠ [] → (length (script net') < length (script net))%nat) ∧
  (script net = [] → script net' = [] ∧ failures tr = []).

(** Batch calls that went through, one a window. *)
Definition passed (ws : list (list BatchElem)) : list Event :=
  map (fun w => EvBatchCall w None) ws.

(** What the fetch of one window leaves on the trace when it is called
    again after a failure: every failed call of the window with the pause
    taken after it, then the last call of it, with its outcome. *)
Definition attempts (pause : Z) (w : list BatchElem) (es : list error)
    (o : option error) : list Event :=
  concat (map (fun e => [EvBatchCall w (Some e); EvSleep pause]) es)
  ++ [EvBatchCall w o].

(** Windows fetched one after the other, each until it goes through. *)
Definition served (pause : Z) (ws : list (list BatchElem)) (ess : list (list error))
    : list Event :=
  concat (zip_with (fun w es => attempts pause w es None) ws ess).

(** A round of a fetcher without retry that fails: the windows that went
    through, the call that failed, and the pause taken before the next
    round. *)
Definition failedRound (pause : Z)
    (r : list (list BatchElem) * list BatchElem * error) : list Event :=
  passed (fst (fst r)) ++ [EvBatchCall (snd (fst r)) (Some (snd r)); EvSleep pause].

(** The windows [ws] followed by [w] are the head of the requests [elems],
    each of them with at least one and at most [step] requests. *)
Definition windowsOf (step : Z) (elems : list BatchElem)
    (ws : list (list BatchElem)) : Prop :=
  Forall (fun w => 0 < Z.of_nat (length w) ≤ step) ws ∧
  ∃ rest, concat ws ++ rest = elems.

End Vocabulary.

(** ** Clones and the state diff *)

(** [common.AddressLength] and [common.BytesToAddress]: keep the last 20
    bytes, pad on the left. *)
Definition AddressLength : nat := 20.

Definition BytesToAddress (b : list byte) : list byte :=
  let b' := drop (length b - AddressLength) b in
  replicate (AddressLength - length b') x00 ++ b'.

(** [OverrideAccount]: each field a pointer, nil when not set. *)
Record OverrideAccount : Type := mkOverride {
  Override_Nonce : option Z;
  Override_Code : option (list byte);
  Override_Balance : option Z;
  Override_State : option (gmap (list byte) (list byte));
  Override_StateDiff : option (gmap (list byte) (list byte))
}.

(** [StateOverride]: a map from addresses to pointers to overrides. *)
Abbreviation StateOverride := (gmap (list byte) OverrideAccount) (only parsing).

Section Exporting.

Context {env : Env}.

(** [Clone] and [CloneFromRoot]: a new facade on a fresh layer over the
    current layer, or over the root.  The clone shares its ancestors with
    the original; the model gives the clone's own view of the chain. *)
Definition Clone (db : OverlayStateDB) : OverlayStateDB :=
  mkDB 0 (Derive (state db) "clone").

Definition CloneFromRoot (db : OverlayStateDB) : OverlayStateDB :=
  mkDB 0 (DeriveFromRoot (state db)).

(** The loop of [getMergedScratchPad]: the layers above the root, the
    current one first; an entry already in the result is kept. *)
Fixpoint mergedWalk (tmpState : OverlayState)
    (mergedScratchPad : gmap string (list byte)) : gmap string (list byte) :=
  match tmpState with
  | Root _ => mergedScratchPad
  | Derived l p =>
      mergedWalk p (map_fold fill mergedScratchPad (scratchPad l))
  end.

Definition getMergedScratchPad (db : OverlayStateDB) : gmap string (list byte) :=
  mergedWalk (state db) ∅.

(** One round of the loop of [GetStateDiff], on the key [k]; a slice
    expression out of range panics. *)
Definition exportEntry (k : string) (acc : M (StateOverride * OverlayStateDB))
    : M (StateOverride * OverlayStateDB) :=
  '(accounts, clonedState) ← acc;
  let kb := list_byte_of_string k in
  tag ← slice kb 0 32;
  let key := BytesToHash tag in
  addr ← slice kb 32 (32 + 20);
  let account := BytesToAddress addr in
  let '(override, accounts) :=
    match accounts !! account with
    | None =>
        let tmp := mkOverride None None None None None in
        (tmp, <[account := tmp]> accounts)
    | Some _override => (_override, accounts)
    end in
  if decide (key = BALANCE_KEY) then
    '(balance, clonedState) ← GetBalance clonedState account;
    let override :=
      mkOverride (Override_Nonce override) (Override_Code override) (Some balance)
        (Override_State override) (Override_StateDiff override) in
    mret (<[account := override]> accounts, clonedState)
  else if decide (key = NONCE_KEY) then
    '(nonce, clonedState) ← GetNonce clonedState account;
    let override :=
      mkOverride (Some nonce) (Override_Code override) (Override_Balance override)
        (Override_State override) (Override_StateDiff override) in
    mret (<[account := override]> accounts, clonedState)
  else if decide (key = CODE_KEY) then
    '(code, clonedState) ← GetCode clonedState account;
    let override :=
      mkOverride (Override_Nonce override) (Some code) (Override_Balance override)
        (Override_State override) (Override_StateDiff override) in
    mret (<[account := override]> accounts, clonedState)
  else if decide (key = STATE_KEY) then
    slot ← slice kb (32 + 20) (32 + 20 + 32);
    let stateKey := BytesToHash slot in
    '(stateValue, clonedState) ← GetState clonedState account stateKey;
    let stateDiff := default ∅ (Override_StateDiff override) in
    let override :=
      mkOverride (Override_Nonce override) (Override_Code override)
        (Override_Balance override) (Override_State override)
        (Some (<[stateKey := stateValue]> stateDiff)) in
    mret (<[account := override]> accounts, clonedState)
  else mret (accounts, clonedState).

(** [GetStateDiff]: the clone reads through the root it shares with the
    facade, so the facade comes back with the root as the reads left it. *)
Definition GetStateDiff (db : OverlayStateDB) : M (StateOverride * OverlayStateDB) :=
  let mergedScratchPad := getMergedScratchPad db in
  let clonedState := CloneFromRoot db in
  let clonedState :=
    withState clonedState
      (update (fun l => withScratchPad l mergedScratchPad) (state clonedState)) in
  '(accounts, clonedState) ←
    map_fold (fun k _ acc => exportEntry k acc) (mret (∅, clonedState))
      mergedScratchPad;
  mret (accounts, withState db (graft (state db) (getRootState (state clonedState)))).

End Exporting.

(** ** The key cache and the reset of the state *)

(** [encoding/hex]: the value of a hex digit, of either case. *)
Definition fromHexChar (c : Ascii.ascii) : option N :=
  let n := Ascii.N_of_ascii c in
  if ((48 <=? n) && (n <=? 57))%N then Some (n - 48)%N
  else if ((97 <=? n) && (n <=? 102))%N then Some (n - 97 + 10)%N
  else if ((65 <=? n) && (n <=? 70))%N then Some (n - 65 + 10)%N
  else None.

(** [common.Hex2Bytes]: [hex.DecodeString] with its error dropped, which
    leaves the bytes decoded before the first invalid digit; a last digit
    without its pair is left out. *)
Fixpoint Hex2Bytes (str : string) : list byte :=
  match str with
  | String p (String q rest) =>
      match fromHexChar p, fromHexChar q with
      | Some a, Some b => byte_of_N (N.lor (N.shiftl a 4) b) :: Hex2Bytes rest
      | _, _ => []
      end
  | _ => []
  end.

Definition hextable : string := "0123456789abcdef"%string.

Definition hexDigit (n : N) : Ascii.ascii :=
  default Ascii.zero (String.get (N.to_nat n) hextable).

(** [common.Bytes2Hex]: [hex.EncodeToString], two lower-case digits a
    byte. *)
Fixpoint Bytes2Hex (d : list byte) : string :=
  match d with
  | [] => EmptyString
  | v :: rest =>
      String (hexDigit (N.shiftr (Byte.to_N v) 4))
        (String (hexDigit (N.land (Byte.to_N v) 15)) (Bytes2Hex rest))
  end.

(** The fields of [OverlayStateDB] that serve the warm-up, and the file
    behind [cacheFilePath] as the warm-up meets it: [None] when
    [os.OpenFile] fails, else the lines a [bufio.Scanner] reads from it,
    one a call of [Scan]. *)
Record KeyCache : Type := mkKeyCache {
  maxKeyCache : Z;
  stateBN : option Z;
  cacheFile : option (list string)
}.

(** The scan loop of [resetScratchPad]: every line read, up to
    [maxKeyCache] of them, names a storage slot to fetch. *)
Fixpoint scanKeys (lines : list string) (keyCacheCnt maxKeyCache : Z)
    (pad : gmap string (list byte)) : gmap string (list byte) :=
  match lines with
  | [] => pad
  | txt :: lines =>
      if keyCacheCnt >=? maxKeyCache then pad
      else
        let pad :=
          <[(string_of_list_byte STATE_KEY
               ++ string_of_list_byte (Hex2Bytes txt))%string := []]> pad in
        scanKeys lines (uint64 (keyCacheCnt + 1)) maxKeyCache pad
  end.

(** The string of a line feed. *)
Definition newline : string := String (Ascii.ascii_of_N 10) EmptyString.

(** The body of the loop over the scratchpad: a storage key marks its
    account as accessed, adds a request and a line of the file to come. *)
Definition prefetchEntry (key : string) (_ : list byte)
    (acc : gmap (list byte) bool * list StorageReq * string)
    : gmap (list byte) bool * list StorageReq * string :=
  let '(accessed, reqs, cachedStr) := acc in
  let keyBytes := list_byte_of_string key in
  if decide (length keyBytes = (32 + 20 + 32)%nat
             ∧ BytesToHash (take 32 keyBytes) = STATE_KEY)
  then
    let acc := BytesToAddress (take 20 (drop 32 keyBytes)) in
    let key := BytesToHash (drop (32 + 20) keyBytes) in
    (<[acc := true]> accessed,
     reqs ++ [mkStorageReq acc key zeroHash None],
     (cachedStr ++ (Bytes2Hex (drop 32 keyBytes) ++ newline))%string)
  else (accessed, reqs, cachedStr).

Definition storeSlot (pad : gmap string (list byte)) (result : StorageReq)
    : gmap string (list byte) :=
  let stateKey := calcStateKey (Req_Address result) (Req_Key result) in
  <[stateKey := Req_Value result]> pad.

Definition storeAccount (pad : gmap string (list byte))
    (fetched : Address * FetchedAccountResult) : gmap string (list byte) :=
  let '(account, result) := fetched in
  let nonce := uint64 (Nonce result) in
  let balance := Balance result in
  let codeHash := CodeHash result in
  let pad := <[calcKey BALANCE_KEY account := Bytes balance]> pad in
  let pad := <[calcKey NONCE_KEY account := Bytes (int64 nonce)]> pad in
  let pad := <[calcKey CODE_KEY account := Code result]> pad in
  <[calcKey CODEHASH_KEY account := codeHash]> pad.

Section Warmup.

Context {env : Env}.

(** [resetScratchPad], on the layer [db.state] points to; the result holds
    the content of the file when it returns.  A failure of the slot fetch
    panics, a failure of the account fetch is logged and ends the warm-up;
    the results of [Truncate], [Seek] and [WriteString] are not looked at
    and the model takes them to succeed. *)
Definition resetScratchPad (db : OverlayStateDB) (kc : KeyCache)
    (clearKeyCache : bool) : M (OverlayStateDB * string) :=
  let s := this (state db) in
  match cacheFile kc with
  | None => noReturn
  | Some lines =>
      if clearKeyCache then
        let s := withScratchPad s ∅ in
        let s := withAccessedAccounts s ∅ in
        mret (withState db (update (fun _ => s) (state db)), EmptyString)
      else
        let s := withScratchPad s (scanKeys lines 0 (maxKeyCache kc) (scratchPad s)) in
        let '(accessed, reqs, cachedStr) :=
          map_fold prefetchEntry (accessedAccounts s, [], EmptyString) (scratchPad s) in
        let s := withAccessedAccounts s accessed in
        '(err, reqs, s) ← loadStateBatchRPC s reqs;
        match err with
        | Some _ => noReturn
        | None =>
            let s := withScratchPad s (foldl storeSlot (scratchPad s) reqs) in
            let accounts :=
              map_fold (fun k _ accounts => accounts ++ [k]) [] (accessedAccounts s) in
            '(accountResults, err, s) ← loadAccountBatchRPC s accounts;
            match err with
            | Some _ =>
                mret (withState db (update (fun _ => s) (state db)), cachedStr)
            | None =>
                let s :=
                  withScratchPad s
                    (foldl storeAccount (scratchPad s) (zip accounts accountResults)) in
                mret (withState db (update (fun _ => s) (state db)), cachedStr)
            end
        end
  end.

(** [InitState]: back to the root, warmed up on demand, under a new
    layer.  The file is [None] in the result when it was not touched. *)
Definition InitState (db : OverlayStateDB) (kc : KeyCache)
    (fetchNewState clearCache : bool) : M (OverlayStateDB * option string) :=
  let reason := "reset and protect underlying"%string in
  let db := withState db (getRootState (state db)) in
  match stateBN kc with
  | None => noReturn
  | Some _ =>
      '(db, content) ←
        (if fetchNewState
         then '(db, content) ← resetScratchPad db kc clearCache;
              mret (db, Some content)
         else mret (db, None));
      mret (withState db (Derive (state db) reason), content)
  end.

End Warmup.

(** ** More vocabulary *)

(** The scratchpad entry a setter writes, if it writes one. *)
Definition written (w : Write) : option string :=
  match w with
  | W_SetBalance account _ => Some (calcKey BALANCE_KEY account)
  | W_SetNonce account _ => Some (calcKey NONCE_KEY account)
  | W_SetCode account _ => Some (calcKey CODE_KEY account)
  | W_SetCodeHash account _ => Some (calcKey CODEHASH_KEY account)
  | W_SetState account key _ => Some (calcStateKey account key)
  | W_Suicide account => Some (calcKey SUICIDE_KEY account)
  | W_AddLog _ | W_AddReceipt _ _ => None
  end.

(** Snapshots taken one on top of the other, each followed by the writes
    of one list of [Ws]. *)
Definition nested (db : OverlayStateDB) (Ws : list (list Write)) : OverlayStateDB :=
  foldl (fun db W => foldl write (snd (Snapshot db)) W) db Ws.

(** What a fetch of one window leaves on the trace when the transport
    fails [es] in a row and then answers: each failed [call] followed by the
    pause taken after it, then the call that goes through. *)
Definition outage (call : option error -> Event) (pause : nat -> Z)
    (es : list error) : list Event :=
  concat (imap (fun i e => [call (Some e); EvSleep (pause i)]) es) ++ [call None].

(** A second after every sixth failure in a row, 100 ms after the others. *)
Definition pauseAfter (i : nat) : Z :=
  if Z.of_nat (S i) mod 6 =? 0 then 1000 else 100.

(** The address part of a scratchpad key. *)
Definition keyAccount (k : string) : list byte :=
  take 20 (drop 32 (list_byte_of_string k)).

(** The keys the setters write for addresses of 20 bytes and slots of 32. *)
Definition canonical (k : string) : Prop :=
  ∃ a, length a = 20%nat ∧
    (k = calcKey BALANCE_KEY a ∨ k = calcKey NONCE_KEY a ∨ k = calcKey CODE_KEY a ∨
     k = calcKey CODEHASH_KEY a ∨ k = calcKey SUICIDE_KEY a ∨
     ∃ slot, length slot = 32%nat ∧ k = calcStateKey a slot).

Definition canonicalOverlays (s : OverlayState) : Prop :=
  Forall (fun l => ∀ k, is_Some (scratchPad l !! k) → canonical k) (overlays s).

(** The override of [account] in [accounts], the empty one when [accounts]
    has none. *)
Definition overrideOf (accounts : StateOverride) (account : list byte)
    : OverrideAccount :=
  default (mkOverride None None None None None) (accounts !! account).

(** [accounts] is the export of the entries [view]: an address has an
    override exactly when [view] has an entry of it; the balance, the nonce
    and the code are those of its entries, decoded as the getters do; the
    storage is given as a diff, never as a full state, with the value of
    every slot of the address. *)
Definition exported (view : string -> option (list byte))
    (accounts : StateOverride) : Prop :=
  ∀ a, length a = 20%nat →
    (is_Some (accounts !! a) ↔ ∃ k, is_Some (view k) ∧ keyAccount k = a) ∧
    Override_Balance (overrideOf accounts a)
    = SetBytes <$> view (calcKey BALANCE_KEY a) ∧
    Override_Nonce (overrideOf accounts a)
    = (fun v => Uint64 (SetBytes v)) <$> view (calcKey NONCE_KEY a) ∧
    Override_Code (overrideOf accounts a) = view (calcKey CODE_KEY a) ∧
    Override_State (overrideOf accounts a) = None ∧
    (∀ slot, length slot = 32%nat →
       (sd ← Override_StateDiff (overrideOf accounts a); sd !! slot)
       = BytesToHash <$> view (calcStateKey a slot)) ∧
    (Override_StateDiff (overrideOf accounts a) = None ↔
     ∀ slot, length slot = 32%nat → view (calcStateKey a slot) = None).

(** A storage key, as the warm-up tells it from the other entries. *)
Definition stateKey (k : string) : Prop :=
  length (list_byte_of_string k) = (32 + 20 + 32)%nat
  ∧ BytesToHash (take 32 (list_byte_of_string k)) = STATE_KEY.

#[global] Instance stateKey_dec (k : string) : Decision (stateKey k) :=
  ltac:(unfold stateKey; apply _).

(** The request the warm-up makes for a storage key, and its line in the
    key file. *)
Definition slotReq (k : string) : StorageReq :=
  let keyBytes := list_byte_of_string k in
  mkStorageReq (BytesToAddress (take 20 (drop 32 keyBytes)))
    (BytesToHash (drop (32 + 20) keyBytes)) zeroHash None.

Definition keyLine (k : string) : string :=
  Bytes2Hex (drop 32 (list_byte_of_string k)).

(** The scratchpad key a line of the key file stands for. *)
Definition lineKey (txt : string) : string :=
  (string_of_list_byte STATE_KEY ++ string_of_list_byte (Hex2Bytes txt))%string.

(** The storage keys of a scratchpad, in the order the warm-up meets
    them. *)
Definition cachedSlots (pad : gmap string (list byte)) : list string :=
  filter stateKey (reverse (map_to_list pad).*1).

(** The content of a key file with the given lines. *)
Definition fileOf (lines : list string) : string :=
  foldr (fun txt rest => (txt ++ newline ++ rest)%string) EmptyString lines.

Section Refreshed.

Context {env : Env}.

(** The four entries of an account with their upstream values. *)
Definition accountEntries (b : Z) (a : list byte) : list (string * list byte) :=
  [ (calcKey BALANCE_KEY a, upstreamValue b GET_BALANCE a zeroHash);
    (calcKey NONCE_KEY a, upstreamValue b GET_NONCE a zeroHash);
    (calcKey CODE_KEY a, upstreamValue b GET_CODE a zeroHash);
    (calcKey CODEHASH_KEY a, upstreamValue b GET_CODEHASH a zeroHash) ].

End Refreshed.

(** ** A small world for the examples *)

Definition alice : Address := replicate 20 x0a.

Definition slot7 : Hash := replicate 31 x00 ++ [x07].

Definition tx1 : Hash := replicate 32 x11.

(** Every account holds 100 wei, has nonce 3 and the code [60 00]; every
    storage slot holds its own key. *)
Definition sampleUpstream : Upstream :=
  mkUpstream (fun _ _ => 3) (fun _ _ => 100%N) (fun _ _ => [x60; x00])
    (fun _ key _ => key).

(** In the examples [BytesToHash] stands for the hash function, which is not
    run here. *)
Definition sampleEnv : Env := mkEnv BytesToHash sampleUpstream.

(** A facade as [NewOverlayStateDB] makes it, pinned to block 17 with batches
    of 100, on a transport that never fails. *)
Definition sampleDB : OverlayStateDB := NewOverlayStateDB 17 100.

Definition sampleNet : Net := mkNet [] [].

Definition sampleLog : Log := mkLog alice [slot7] [x2a].

Definition sampleReceipt : Receipt := mkReceipt 1 tx1 21000 [].

Definition sampleRoot : Layer := this (getRootState (state sampleDB)).

Definition sampleState : OverlayState := state sampleDB.

(** The trace and the request counter a fetch leaves. *)
Definition outcome {A : Type} (m : M (A * Layer)) (net : Net)
    : option (A * Z * list Event) :=
  match m net with
  | Some ((a, l), net') => Some (a, rpcCnt l, trace net')
  | None => None
  end.

Definition flaky (n : nat) : Net := mkNet (replicate n (Some "timeout"%string)) [].

Definition suicidedBelow : OverlayStateDB :=
  snd (Snapshot (snd (Suicide sampleDB alice))).

(** [n] requests for the slots 0, 1, ... of one account. *)
Definition burst (n : nat) : list StorageReq :=
  map (fun i => mkStorageReq alice (BytesToHash (Bytes (Z.of_nat i))) zeroHash None)
    (seq 0 n).

(** A facade with a log of [tx1] in one layer and the receipt of [tx1] in
    the snapshot above it. *)
Definition sampleLogged : OverlayStateDB :=
  AddReceipt
    (snd (Snapshot (AddLog (StartLogCollection sampleDB tx1 zeroHash) sampleLog)))
    tx1 sampleReceipt.

(** Two snapshots with writes on [sampleDB], and their merge into the first
    layer. *)
Definition sampleStack : OverlayStateDB :=
  nested sampleDB [[W_SetBalance alice 5; W_SetNonce alice 9]; [W_SetBalance alice 7]].

Definition sampleMerged : OverlayStateDB :=
  default sampleDB (MergeTo sampleStack 1).

(** A facade with a local balance, code and storage slot of [alice]. *)
Definition sampleWrites : OverlayStateDB :=
  SetState (SetCode (SetBalance sampleDB alice 5) alice [x60]) alice slot7 tx1.

(** A transport that fails the coming calls with the given errors. *)
Definition failing (es : list error) : Net := mkNet (map Some es) [].

(** A key file of one line, the slot [slot7] of [alice], with room for ten
    keys, on a facade made by [NewOverlayStateDB] for block 17. *)
Definition sampleKeyCache : KeyCache :=
  mkKeyCache 10 (Some 17) (Some [Bytes2Hex (alice ++ slot7)]).

(** A transport that lets [n] calls through and then fails with the given
    errors. *)
Definition failingAfter (n : nat) (es : list error) : Net :=
  mkNet (replicate n None ++ map Some es) [].

(** ** Properties of the Go primitives *)

Lemma int64_succ_ne (d : Z) : int64 (d + 1) ≠ d.
Proof.
  unfold int64.
  pose proof (Z.mod_pos_bound (d + 1) (2 ^ 64) ltac:(lia)) as Hb.
  pose proof (Z.div_mod (d + 1) (2 ^ 64) ltac:(lia)) as Hd.
  change (2 ^ 64) with 18446744073709551616 in *.
  change (2 ^ 63) with 9223372036854775808.
  destruct (Z.ltb_spec ((d + 1) mod 18446744073709551616) 9223372036854775808); lia.
Qed.


Lemma uint64_small (v : Z) : 0 ≤ v < 2 ^ 64 → uint64 v = v.
Proof. intros Hv. unfold uint64. now apply Z.mod_small. Qed.

Lemma byte_of_N_to_N (n : N) : (n < 256)%N → Byte.to_N (byte_of_N n) = n.
Proof.
  intros Hn. unfold byte_of_N.
  destruct (Byte.of_N n) as [b|] eqn:E.
  - now apply Byte.to_of_N.
  - apply Byte.of_N_None_iff in E. lia.
Qed.

(** The digits written in front of [acc] read back as the number. *)
Lemma be_digits_value (fuel : nat) :
  ∀ (n : N) (acc : list byte),
    (n < 2 ^ N.of_nat fuel)%N →
    fold_left (fun a d => (a * 256 + Byte.to_N d)%N) (be_digits fuel n acc) 0%N
    = fold_left (fun a d => (a * 256 + Byte.to_N d)%N) acc n.
Proof.
  induction fuel as [|fuel IH]; intros n acc Hn.
  - cbn in Hn. assert (n = 0%N) as -> by lia. reflexivity.
  - cbn [be_digits]. destruct (N.eqb_spec n 0) as [->|Hne]; [reflexivity|].
    rewrite IH.
    + cbn [fold_left]. rewrite byte_of_N_to_N by (apply N.mod_lt; lia).
      f_equal. rewrite N.mul_comm. symmetry. apply N.div_mod. lia.
    + rewrite Nat2N.inj_succ, N.pow_succ_r' in Hn.
      apply N.Div0.div_lt_upper_bound. lia.
Qed.

Lemma SetBytes_Bytes (x : Z) : SetBytes (Bytes x) = Z.abs x.
Proof.
  unfold SetBytes, Bytes.
  rewrite be_digits_value.
  - cbn [fold_left]. apply N2Z.inj_abs_N.
  - rewrite N2Nat.id. destruct (Z.abs_N x) as [|p] eqn:E; [cbn; lia|].
    apply N.size_gt.
Qed.

Lemma string_of_list_byte_inj (a b : list byte) :
  string_of_list_byte a = string_of_list_byte b → a = b.
Proof.
  intros H. apply (f_equal list_byte_of_string) in H.
  now rewrite !list_byte_of_string_of_list_byte in H.
Qed.

(** ** The transport *)

Ltac munfold := unfold mbind, M_bind, mret, M_ret in *.

Section Transport.

Context {env : Env}.

Lemma failures_app (a b : list Event) : failures (a ++ b) = failures a ++ failures b.
Proof. apply omap_app. Qed.

Lemma sleeps_app (a b : list Event) : sleeps (a ++ b) = sleeps a ++ sleeps b.
Proof. apply omap_app. Qed.

Lemma batchCalls_app (a b : list Event) :
  batchCalls (a ++ b) = batchCalls a ++ batchCalls b.
Proof. apply omap_app. Qed.

Lemma advances_refl (net : Net) : advances net net [].
Proof.
  unfold advances. rewrite app_nil_r. repeat split; try lia; try done.
Qed.

Lemma advances_trans (net net1 net2 : Net) (tr1 tr2 : list Event) :
  advances net net1 tr1 → advances net1 net2 tr2 →
  advances net net2 (tr1 ++ tr2).
Proof.
  intros (Ht1 & Hl1 & Hf1 & He1) (Ht2 & Hl2 & Hf2 & He2).
  unfold advances. rewrite Ht2, Ht1, app_assoc, failures_app.
  repeat split; try lia.
  - intros Hne.
    destruct (failures tr1) eqn:E1; destruct (failures tr2) eqn:E2;
      try done; try (specialize (Hf1 ltac:(done))); try (specialize (Hf2 ltac:(done))); lia.
  - destruct (He1 H) as [Hs1 _]. now destruct (He2 Hs1).
  - destruct (He1 H) as [Hs1 ->]. destruct (He2 Hs1) as [_ ->]. done.
Qed.

Lemma BatchCallContext_spec (elems : list BatchElem) (net : Net) :
  ∃ err net',
    BatchCallContext elems net = Some (err, net') ∧
    advances net net' [EvBatchCall elems err].
Proof.
  unfold BatchCallContext, advances.
  destruct (script net) as [|o rest] eqn:E.
  - eexists None, _. split; [reflexivity|]. cbn. repeat split; try lia; done.
  - eexists o, _. split; [reflexivity|]. cbn. repeat split; try lia; try done.
Qed.

Lemma Sleep_spec (ms : Z) (net : Net) :
  ∃ net', Sleep ms net = Some (tt, net') ∧ advances net net' [EvSleep ms].
Proof.
  eexists. split; [reflexivity|]. unfold advances. cbn.
  repeat split; try lia; done.
Qed.

Lemma slice_ok {A : Type} (l : list A) (b e : Z) (net : Net) :
  0 ≤ b → b ≤ e → e ≤ Z.of_nat (length l) →
  slice l b e net = Some (take (Z.to_nat (e - b)) (drop (Z.to_nat b) l), net).
Proof.
  intros Hb He Hl. unfold slice.
  destruct (Z.leb_spec 0 b); [|lia].
  destruct (Z.leb_spec b e); [|lia].
  destruct (Z.leb_spec e (Z.of_nat (length l))); [|lia].
  reflexivity.
Qed.

Lemma ceilDiv_zero (b : Z) : 0 < b → ceilDiv 0 b = 0.
Proof. intros Hb. unfold ceilDiv. apply Z.div_small. lia. Qed.

Lemma ceilDiv_step (n b : Z) :
  0 < b → 0 < n → ceilDiv n b = 1 + ceilDiv (Z.max 0 (n - b)) b.
Proof.
  intros Hb Hn. unfold ceilDiv.
  destruct (Z.max_spec 0 (n - b)) as [[Hlt ->]|[Hge ->]].
  - replace (n + b - 1) with (n - b + b - 1 + 1 * b) by lia.
    rewrite Z.div_add by lia. lia.
  - replace (n + b - 1) with (n - 1 + 1 * b) by lia.
    rewrite Z.div_add by lia.
    rewrite (Z.div_small (n - 1)) by lia.
    rewrite (Z.div_small (0 + b - 1)) by lia. lia.
Qed.

Lemma stateWindows_spec (fuel : nat) :
  ∀ (reqs : list BatchElem) (step begin : Z) (net : Net),
    0 < step → 0 ≤ begin →
    (Z.to_nat (Z.of_nat (length reqs) - begin) < fuel)%nat →
    ∃ err net' tr,
      stateWindows fuel reqs step begin net = Some (err, net') ∧
      advances net net' tr ∧
      sleeps tr = [] ∧
      Forall (fun b => Z.of_nat (length b) ≤ step) (batchCalls tr) ∧
      match err with
      | Some e => failures tr = [e]
      | None =>
          failures tr = [] ∧
          concat (batchCalls tr) = drop (Z.to_nat begin) reqs ∧
          Z.of_nat (length (batchCalls tr))
          = ceilDiv (Z.max 0 (Z.of_nat (length reqs) - begin)) step
      end.
Proof.
  induction fuel as [|fuel IH]; intros reqs step begin net Hstep Hbegin Hfuel; [lia|].
  cbn [stateWindows].
  destruct (Z.ltb_spec begin (Z.of_nat (length reqs))) as [Hlt|Hge].
  - set (end_ := if begin + step >? Z.of_nat (length reqs) then _ else _).
    assert (Hend : begin < end_ ∧ end_ ≤ Z.of_nat (length reqs) ∧ end_ ≤ begin + step
                    ∧ (end_ < begin + step → end_ = Z.of_nat (length reqs))).
    { subst end_. destruct (Z.gtb_spec (begin + step) (Z.of_nat (length reqs))); lia. }
    munfold. rewrite slice_ok by lia.
    destruct (BatchCallContext_spec (take (Z.to_nat (end_ - begin)) (drop (Z.to_nat begin) reqs)) net)
      as (err & net1 & -> & Hadv).
    destruct err as [e|].
    + eexists (Some e), net1, _. split; [reflexivity|]. split; [exact Hadv|].
      cbn. repeat split; try done.
      constructor; [|constructor].
      rewrite length_take. lia.
    + destruct (IH reqs step (begin + step) net1 Hstep ltac:(lia) ltac:(lia))
        as (err & net2 & tr & -> & Hadv2 & Hsl & Hall & Hres).
      eexists err, net2, _. split; [reflexivity|].
      split; [exact (advances_trans _ _ _ _ _ Hadv Hadv2)|].
      rewrite sleeps_app, batchCalls_app, failures_app. cbn.
      split; [exact Hsl|].
      split.
      { constructor; [rewrite length_take; lia | exact Hall]. }
      destruct err as [e|]; [exact Hres|].
      destruct Hres as (Hf & Hcat & Hcnt).
      split; [exact Hf|]. split.
      * rewrite Hcat.
        destruct (Z.ltb_spec end_ (begin + step)) as [Hshort|Hfull].
        -- destruct Hend as (_ & _ & _ & Heq). specialize (Heq Hshort).
           rewrite (drop_ge reqs (Z.to_nat (begin + step))) by lia.
           rewrite app_nil_r. apply take_ge. rewrite length_drop. lia.
        -- assert (end_ = begin + step) as -> by lia.
           replace (Z.to_nat (begin + step)) with (Z.to_nat begin + Z.to_nat (begin + step - begin))%nat by lia.
           rewrite <- drop_drop. apply take_drop.
      * rewrite Nat2Z.inj_succ, Hcnt.
        rewrite (ceilDiv_step (Z.max 0 (Z.of_nat (length reqs) - begin)) step) by lia.
        replace (Z.max 0 (Z.of_nat (length reqs) - begin) - step)
          with (Z.of_nat (length reqs) - (begin + step)) by lia.
        lia.
  - munfold. eexists None, net, []. split; [reflexivity|].
    split; [apply advances_refl|]. cbn.
    repeat split; try done.
    + rewrite drop_ge by lia. reflexivity.
    + rewrite Z.max_l by lia. now rewrite ceilDiv_zero.
Qed.

Lemma loadStateBatchRPC_spec (s : Layer) (reqs : list StorageReq) (net : Net) (b : Z) :
  bn s = Some b → 0 < batchSize s →
  ∃ err out net' tr,
    loadStateBatchRPC s reqs net
    = Some ((err, out, withRpcCnt s (int64 (rpcCnt s + 1))), net') ∧
    advances net net' tr ∧
    sleeps tr = [] ∧
    Forall (fun w => Z.of_nat (length w) ≤ batchSize s) (batchCalls tr) ∧
    match err with
    | Some e => failures tr = [e] ∧ out = reqs
    | None =>
        failures tr = [] ∧
        out = map (storageAnswer b) reqs ∧
        concat (batchCalls tr) = map (storageElem b) reqs ∧
        Z.of_nat (length (batchCalls tr)) = ceilDiv (Z.of_nat (length reqs)) (batchSize s)
    end.
Proof.
  intros Hbn Hstep. unfold loadStateBatchRPC. cbn [bn withRpcCnt batchSize].
  rewrite Hbn. munfold.
  destruct (stateWindows_spec (S (length (map (storageElem b) reqs)))
              (map (storageElem b) reqs) (batchSize s) 0 net Hstep ltac:(lia) ltac:(lia))
    as (err & net' & tr & -> & Hadv & Hsl & Hall & Hres).
  destruct err as [e|].
  - eexists (Some e), reqs, net', tr.
    split; [reflexivity|]. split; [exact Hadv|]. done.
  - destruct Hres as (Hf & Hcat & Hcnt).
    eexists None, _, net', tr.
    split; [reflexivity|]. split; [exact Hadv|].
    repeat split; try done.
    rewrite Hcnt, length_map. f_equal. lia.
Qed.

Lemma storageRetry_spec (fuel : nat) :
  ∀ (s : Layer) (pending : list StorageReq) (net : Net) (b : Z),
    bn s = Some b → 0 < batchSize s →
    (length (script net) < fuel)%nat →
    ∃ cnt net' tr,
      storageRetry fuel s pending net
      = Some ((map (storageAnswer b) pending, withRpcCnt s cnt), net') ∧
      advances net net' tr ∧
      (script net = [] →
       cnt = int64 (rpcCnt s + 1) ∧
       sleeps tr = [] ∧
       Forall (fun w => Z.of_nat (length w) ≤ batchSize s) (batchCalls tr) ∧
       concat (batchCalls tr) = map (storageElem b) pending ∧
       Z.of_nat (length (batchCalls tr))
       = ceilDiv (Z.of_nat (length pending)) (batchSize s)).
Proof.
  induction fuel as [|fuel IH]; intros s pending net b Hbn Hstep Hfuel; [lia|].
  cbn [storageRetry]. munfold.
  destruct (loadStateBatchRPC_spec s pending net b Hbn Hstep)
    as (err & out & net1 & tr1 & -> & Hadv1 & Hsl1 & Hall1 & Hres).
  destruct err as [e|].
  - destruct Hres as [Hf ->].
    destruct (Sleep_spec 1000 net1) as (net2 & -> & Hadv2).
    pose proof Hadv1 as (_ & _ & Hlt & Hnil).
    rewrite Hf in Hlt. specialize (Hlt ltac:(done)).
    pose proof Hadv2 as (_ & Hle2 & _ & _).
    destruct (IH (withRpcCnt s (int64 (rpcCnt s + 1))) pending net2 b Hbn Hstep ltac:(lia))
      as (cnt & net3 & tr3 & -> & Hadv3 & _).
    eexists cnt, net3, _. split; [reflexivity|].
    split; [exact (advances_trans _ _ _ _ _ Hadv1 (advances_trans _ _ _ _ _ Hadv2 Hadv3))|].
    intros Hs. destruct (Hnil Hs) as [_ Hf']. rewrite Hf in Hf'. done.
  - destruct Hres as (Hf & -> & Hcat & Hcnt).
    eexists _, net1, tr1. split; [reflexivity|]. split; [exact Hadv1|].
    intros _. repeat split; done.
Qed.

Lemma storageTick_spec (s : Layer) (queue : list StorageReq) (net : Net) (b : Z) :
  bn s = Some b → 0 < batchSize s →
  ∃ cnt net' tr,
    storageTick s queue net
    = Some ((map (storageAnswer b) queue,
             withRpcCnt s (if decide (queue = []) then rpcCnt s else cnt)), net') ∧
    advances net net' tr ∧
    (script net = [] →
     cnt = int64 (rpcCnt s + 1) ∧
     sleeps tr = [] ∧
     Forall (fun w => Z.of_nat (length w) ≤ batchSize s) (batchCalls tr) ∧
     concat (batchCalls tr) = map (storageElem b) queue ∧
     Z.of_nat (length (batchCalls tr))
     = ceilDiv (Z.of_nat (length queue)) (batchSize s)).
Proof.
  intros Hbn Hstep. unfold storageTick.
  destruct queue as [|r queue].
  - cbn. munfold. eexists (int64 (rpcCnt s + 1)), net, [].
    split; [destruct s; reflexivity|]. split; [apply advances_refl|].
    intros _. cbn. repeat split; try done. now rewrite ceilDiv_zero.
  - cbn [length Nat.ltb Nat.leb]. unfold untilUp.
    destruct (storageRetry_spec (S (length (script net))) s (r :: queue) net b Hbn Hstep ltac:(lia))
      as (cnt & net' & tr & -> & Hadv & Hquiet).
    eexists cnt, net', tr. split; [reflexivity|]. split; [exact Hadv|exact Hquiet].
Qed.

Lemma loadState_spec (s : Layer) (account key : list byte) (net : Net) (b : Z) :
  bn s = Some b → 0 < batchSize s →
  ∃ cnt net' tr,
    loadState s account key net
    = Some ((eth_getStorageAt up account key (hexBN b), withRpcCnt s cnt), net') ∧
    advances net net' tr.
Proof.
  intros Hbn Hstep. unfold loadState. munfold.
  destruct (storageTick_spec s [mkStorageReq account key zeroHash None] net b Hbn Hstep)
    as (cnt & net' & tr & -> & Hadv & _).
  cbn. eexists cnt, net', tr. split; [reflexivity|exact Hadv].
Qed.

Lemma accountAttempts_spec (fuel : nat) :
  ∀ (window : list BatchElem) (t : Z) (net : Net),
    0 ≤ t ≤ 5 → 6 - t ≤ Z.of_nat fuel →
    ∃ err t' net' tr,
      accountAttempts fuel window t net = Some ((err, t'), net') ∧
      advances net net' tr ∧
      t' = t + Z.of_nat (length (failures tr)) ∧
      Forall (eq window) (batchCalls tr) ∧
      match err with
      | Some e =>
          t' = 6 ∧ last (failures tr) = Some e ∧
          sleeps tr = replicate (length (failures tr) - 1) 100
      | None =>
          t' ≤ 5 ∧ sleeps tr = replicate (length (failures tr)) 100
      end.
Proof.
  induction fuel as [|fuel IH]; intros window t net Ht Hfuel; [lia|].
  cbn [accountAttempts]. munfold.
  destruct (BatchCallContext_spec window net) as (err & net1 & -> & Hadv1).
  destruct err as [e|].
  - destruct (Z.gtb_spec (t + 1) 5) as [Hout|Hin].
    + eexists (Some e), (t + 1), net1, _.
      split; [reflexivity|]. split; [exact Hadv1|]. cbn.
      repeat split; try done; try lia. constructor; done.
    + destruct (Sleep_spec 100 net1) as (net2 & -> & Hadv2).
      destruct (IH window (t + 1) net2 ltac:(lia) ltac:(lia))
        as (err & t' & net3 & tr & -> & Hadv3 & Ht' & Hall & Hres).
      eexists err, t', net3, _. split; [reflexivity|].
      split; [exact (advances_trans _ _ _ _ _ Hadv1 (advances_trans _ _ _ _ _ Hadv2 Hadv3))|].
      rewrite !failures_app, !sleeps_app, !batchCalls_app. cbn.
      split; [lia|]. split; [constructor; done|].
      destruct err as [e'|].
      * destruct Hres as (H6 & Hlast & Hsl).
        split; [exact H6|].
        destruct (failures tr) as [|f fs] eqn:Ef; [cbn in Ht'; lia|].
        split; [exact Hlast|].
        rewrite Hsl. cbn. now rewrite Nat.sub_0_r.
      * destruct Hres as (H5 & Hsl). split; [exact H5|].
        now rewrite Hsl.
  - eexists None, t, net1, _. split; [reflexivity|]. split; [exact Hadv1|].
    cbn. repeat split; try done; try lia. constructor; done.
Qed.

Lemma accountWindows_spec (fuel : nat) :
  ∀ (batchElem : list BatchElem) (step begin t : Z) (net : Net),
    0 < step → 0 ≤ begin → 0 ≤ t ≤ 5 →
    (Z.to_nat (Z.of_nat (length batchElem) - begin) + 7 ≤ fuel)%nat →
    ∃ err net' tr,
      accountWindows fuel batchElem step begin t net = Some (err, net') ∧
      advances net net' tr ∧
      match err with
      | Some e =>
          t + Z.of_nat (length (failures tr)) = 6 ∧
          last (failures tr) = Some e ∧
          sleeps tr = replicate (length (failures tr) - 1) 100
      | None =>
          t + Z.of_nat (length (failures tr)) ≤ 5 ∧
          sleeps tr = replicate (length (failures tr)) 100
      end.
Proof.
  induction fuel as [|fuel IH]; intros batchElem step begin t net Hstep Hbegin Ht Hfuel; [lia|].
  cbn [accountWindows].
  destruct (Z.ltb_spec begin (Z.of_nat (length batchElem))) as [Hlt|Hge].
  - set (end_ := if begin + step >? Z.of_nat (length batchElem) then _ else _).
    assert (Hend : begin < end_ ∧ end_ ≤ Z.of_nat (length batchElem)).
    { subst end_. destruct (Z.gtb_spec (begin + step) (Z.of_nat (length batchElem))); lia. }
    munfold. rewrite slice_ok by lia.
    destruct (accountAttempts_spec fuel
                (take (Z.to_nat (end_ - begin)) (drop (Z.to_nat begin) batchElem)) t net Ht ltac:(lia))
      as (err & t' & net1 & tr1 & -> & Hadv1 & Ht' & _ & Hres).
    destruct err as [e|].
    + destruct Hres as (H6 & Hlast & Hsl).
      eexists (Some e), net1, tr1. split; [reflexivity|]. split; [exact Hadv1|].
      repeat split; try done. lia.
    + destruct Hres as (H5 & Hsl).
      destruct (IH batchElem step (begin + step) t' net1 Hstep ltac:(lia) ltac:(lia) ltac:(lia))
        as (err & net2 & tr2 & -> & Hadv2 & Hres2).
      eexists err, net2, _. split; [reflexivity|].
      split; [exact (advances_trans _ _ _ _ _ Hadv1 Hadv2)|].
      rewrite failures_app, sleeps_app, length_app, Hsl.
      destruct err as [e|].
      * destruct Hres2 as (H6 & Hlast & Hsl2).
        assert (failures tr2 ≠ []) as Hne.
        { intros E. rewrite E in H6. cbn in H6. lia. }
        split; [lia|]. split.
        -- rewrite last_app. rewrite Hlast. reflexivity.
        -- rewrite Hsl2, <- replicate_add. f_equal.
           destruct (failures tr2); [done|]. cbn. lia.
      * destruct Hres2 as (H5' & Hsl2). split; [lia|].
        now rewrite Hsl2, <- replicate_add.
  - munfold. eexists None, net, []. split; [reflexivity|].
    split; [apply advances_refl|]. cbn. split; [lia|done].
Qed.

Lemma loadAccountBatchRPC_spec (s : Layer) (accounts : list (list byte)) (net : Net) (b : Z) :
  bn s = Some b → 0 < batchSize s →
  ∃ err out net' tr,
    loadAccountBatchRPC s accounts net
    = Some ((out, err,
             withAccessedAccounts s (markAccessed (accessedAccounts s) accounts)), net') ∧
    advances net net' tr ∧
    match err with
    | Some e =>
        length (failures tr) = 6%nat ∧ last (failures tr) = Some e ∧
        sleeps tr = replicate 5 100 ∧ out = []
    | None =>
        (length (failures tr) ≤ 5)%nat ∧
        sleeps tr = replicate (length (failures tr)) 100 ∧
        out = map (accountAnswer b) accounts
    end.
Proof.
  intros Hbn Hstep. unfold loadAccountBatchRPC. rewrite Hbn.
  cbn [batchSize withAccessedAccounts]. munfold.
  destruct (accountWindows_spec (length (flat_map (accountElems b) accounts) + 7)
              (flat_map (accountElems b) accounts) (batchSize s) 0 0 net
              Hstep ltac:(lia) ltac:(lia) ltac:(lia))
    as (err & net' & tr & -> & Hadv & Hres).
  destruct err as [e|].
  - destruct Hres as (H6 & Hlast & Hsl).
    eexists (Some e), [], net', tr. split; [reflexivity|]. split; [exact Hadv|].
    assert (length (failures tr) = 6%nat) as Hlen by lia.
    rewrite Hlen in Hsl. done.
  - destruct Hres as (H5 & Hsl).
    eexists None, _, net', tr. split; [reflexivity|]. split; [exact Hadv|].
    repeat split; try done. lia.
Qed.

Lemma accountRetry_spec (fuel : nat) :
  ∀ (s : Layer) (accounts : list (list byte)) (net : Net) (b : Z),
    bn s = Some b → 0 < batchSize s →
    (length (script net) < fuel)%nat →
    ∃ acc net' tr,
      accountRetry fuel s accounts net
      = Some ((map (accountAnswer b) accounts, withAccessedAccounts s acc), net') ∧
      advances net net' tr.
Proof.
  induction fuel as [|fuel IH]; intros s accounts net b Hbn Hstep Hfuel; [lia|].
  cbn [accountRetry]. munfold.
  destruct (loadAccountBatchRPC_spec s accounts net b Hbn Hstep)
    as (err & out & net1 & tr1 & -> & Hadv1 & Hres).
  destruct err as [e|].
  - destruct Hres as (H6 & _).
    destruct (Sleep_spec 1000 net1) as (net2 & -> & Hadv2).
    pose proof Hadv1 as (_ & _ & Hlt & _).
    assert (failures tr1 ≠ []) as Hne by (destruct (failures tr1); done).
    specialize (Hlt Hne).
    pose proof Hadv2 as (_ & Hle2 & _ & _).
    destruct (IH (withAccessedAccounts s (markAccessed (accessedAccounts s) accounts))
                accounts net2 b Hbn Hstep ltac:(lia))
      as (acc & net3 & tr3 & -> & Hadv3).
    eexists acc, net3, _. split; [reflexivity|].
    exact (advances_trans _ _ _ _ _ Hadv1 (advances_trans _ _ _ _ _ Hadv2 Hadv3)).
  - destruct Hres as (_ & _ & ->).
    eexists _, net1, tr1. split; [reflexivity|exact Hadv1].
Qed.

Lemma loadAccount_spec (s : Layer) (account : list byte) (net : Net) (b : Z) :
  bn s = Some b → 0 < batchSize s →
  ∃ acc net' tr,
    loadAccount s account net
    = Some ((accountAnswer b account, withAccessedAccounts s acc), net') ∧
    advances net net' tr.
Proof.
  intros Hbn Hstep. unfold loadAccount, accountTick. munfold.
  cbn [length Nat.ltb Nat.leb map Account]. unfold untilUp.
  destruct (accountRetry_spec (S (length (script net))) s [account] net b Hbn Hstep ltac:(lia))
    as (acc & net' & tr & -> & Hadv).
  cbn. eexists acc, net', tr. split; [reflexivity|exact Hadv].
Qed.

End Transport.

(** ** The read path *)

(** Keys of different domains differ: their tags do, at the first byte. *)
Ltac key_ne :=
  let H := fresh in
  intros H; unfold calcKey, calcStateKey, BALANCE_KEY, NONCE_KEY, CODE_KEY, CODEHASH_KEY,
    STATE_KEY, SUICIDE_KEY in H;
  apply string_of_list_byte_inj in H; cbn [app] in H; discriminate H.

Lemma balance_ne_nonce (a a' : list byte) : calcKey BALANCE_KEY a ≠ calcKey NONCE_KEY a'.
Proof. key_ne. Qed.

Lemma balance_ne_code (a a' : list byte) : calcKey BALANCE_KEY a ≠ calcKey CODE_KEY a'.
Proof. key_ne. Qed.

Lemma balance_ne_codehash (a a' : list byte) : calcKey BALANCE_KEY a ≠ calcKey CODEHASH_KEY a'.
Proof. key_ne. Qed.

Lemma nonce_ne_code (a a' : list byte) : calcKey NONCE_KEY a ≠ calcKey CODE_KEY a'.
Proof. key_ne. Qed.

Lemma nonce_ne_codehash (a a' : list byte) : calcKey NONCE_KEY a ≠ calcKey CODEHASH_KEY a'.
Proof. key_ne. Qed.

Lemma code_ne_codehash (a a' : list byte) : calcKey CODE_KEY a ≠ calcKey CODEHASH_KEY a'.
Proof. key_ne. Qed.

(** Settle the [decide]s between account keys in the goal. *)
Ltac keys_clash :=
  exfalso;
  first [ eapply balance_ne_nonce | eapply balance_ne_code
        | eapply balance_ne_codehash | eapply nonce_ne_code
        | eapply nonce_ne_codehash | eapply code_ne_codehash ];
  eassumption.

Ltac decide_keys := repeat (case_decide; try keys_clash; try done).

Section ReadPath.

Context {env : Env}.

Lemma fill_lookup (k k' : string) (v : list byte) (pad : gmap string (list byte)) :
  fill k v pad !! k' =
  match pad !! k' with
  | Some x => Some x
  | None => if decide (k = k') then Some v else None
  end.
Proof.
  unfold fill. destruct (pad !! k) as [x|] eqn:E.
  - destruct (pad !! k') eqn:E'; [done|]. case_decide; [congruence|done].
  - rewrite lookup_insert. case_decide.
    + subst. now rewrite E.
    + now destruct (pad !! k').
Qed.

Lemma fill_union (c pad : gmap string (list byte)) (k : string) (v : list byte) :
  c ∪ fill k v pad = fill k v (c ∪ pad).
Proof.
  apply map_eq. intros i.
  rewrite lookup_union, !fill_lookup, lookup_union.
  destruct (c !! i), (pad !! i); cbn; try done; case_decide; done.
Qed.

Lemma accountPad_union (c pad : gmap string (list byte)) (b : Z) (a : list byte) :
  c ∪ accountPad b a pad = accountPad b a (c ∪ pad).
Proof. unfold accountPad. now rewrite !fill_union. Qed.

Lemma accountPad_lookup (b : Z) (a : list byte) (pad : gmap string (list byte)) (k : string) :
  accountPad b a pad !! k =
  match pad !! k with
  | Some x => Some x
  | None =>
      if decide (calcKey BALANCE_KEY a = k) then Some (upstreamValue b GET_BALANCE a zeroHash)
      else if decide (calcKey NONCE_KEY a = k) then Some (upstreamValue b GET_NONCE a zeroHash)
      else if decide (calcKey CODE_KEY a = k) then Some (upstreamValue b GET_CODE a zeroHash)
      else if decide (calcKey CODEHASH_KEY a = k) then Some (upstreamValue b GET_CODEHASH a zeroHash)
      else None
  end.
Proof.
  unfold accountPad. rewrite !fill_lookup.
  destruct (pad !! k); [done|].
  repeat case_decide; done.
Qed.

Lemma uint64_idem (x : Z) : uint64 (uint64 x) = uint64 x.
Proof. unfold uint64. apply Z.mod_mod. lia. Qed.

Lemma accountPad_answer (b : Z) (a : list byte) (pad : gmap string (list byte)) :
  let result := accountAnswer b a in
  fill (calcKey CODEHASH_KEY a) (CodeHash result)
    (fill (calcKey CODE_KEY a) (Code result)
       (fill (calcKey NONCE_KEY a) (Bytes (int64 (uint64 (Nonce result))))
          (fill (calcKey BALANCE_KEY a) (Bytes (Balance result)) pad)))
  = accountPad b a pad.
Proof.
  cbn. unfold accountPad, upstreamValue. rewrite uint64_idem.
  destruct (eth_getCode up a (hexBN b)); reflexivity.
Qed.

Lemma shadowed_Root (l : Layer) (k : string) : shadowed (Root l) k = scratchPad l !! k.
Proof. unfold shadowed. cbn. now destruct (scratchPad l !! k). Qed.

Lemma shadowed_Derived (l : Layer) (p : OverlayState) (k : string) :
  shadowed (Derived l p) k =
  match scratchPad l !! k with Some v => Some v | None => shadowed p k end.
Proof. unfold shadowed. cbn. now destruct (scratchPad l !! k). Qed.

Lemma get_hit (s : OverlayState) :
  ∀ account action key net v,
    shadowed s (scratchpadKeyOf action account key) = Some v →
    get s account action key net = Some ((v, None, s), net).
Proof.
  induction s as [l|l p IH]; intros account action key net v Hv.
  - rewrite shadowed_Root in Hv. cbn [get]. rewrite Hv. reflexivity.
  - rewrite shadowed_Derived in Hv. cbn [get].
    destruct (scratchPad l !! _) as [x|] eqn:E.
    + now inversion Hv.
    + munfold. rewrite (IH _ _ _ _ _ Hv). reflexivity.
Qed.

Lemma get_root_miss (l : Layer) (account : list byte) (action : RequestType)
    (key : list byte) (net : Net) (b : Z) :
  bn l = Some b → 0 < batchSize l →
  scratchPad l !! scratchpadKeyOf action account key = None →
  ∃ cnt acc net' tr,
    get (Root l) account action key net
    = Some ((upstreamValue b action account key, None,
             Root (withScratchPad (withAccessedAccounts (withRpcCnt l cnt) acc)
                     match action with
                     | GET_STATE =>
                         <[scratchpadKeyOf action account key :=
                             upstreamValue b action account key]> (scratchPad l)
                     | _ => accountPad b account (scratchPad l)
                     end)), net') ∧
    advances net net' tr ∧
    (action ≠ GET_STATE → cnt = rpcCnt l).
Proof.
  intros Hbn Hstep Hmiss. cbn [get]. rewrite Hmiss.
  destruct action.
  1-4: munfold;
    destruct (loadAccount_spec l account net b Hbn Hstep) as (acc & net' & tr & -> & Hadv);
    cbn [withAccessedAccounts scratchPad];
    rewrite accountPad_answer, accountPad_lookup, Hmiss;
    exists (rpcCnt l), acc, net', tr; (split; [|split; [exact Hadv|reflexivity]]);
    cbn [scratchpadKeyOf];
    decide_keys;
    destruct l; reflexivity.
  munfold.
  destruct (loadState_spec l account key net b Hbn Hstep) as (cnt & net' & tr & -> & Hadv).
  exists cnt, (accessedAccounts l), net', tr.
  split; [|split; [exact Hadv|done]].
  destruct l; reflexivity.
Qed.

Lemma getRootState_graft (s : OverlayState) (l : Layer) :
  getRootState (graft s (Root l)) = Root l.
Proof. induction s as [l0|l0 p IH]; cbn; [reflexivity|exact IH]. Qed.

Lemma overlays_graft (s : OverlayState) (l : Layer) :
  overlays (graft s (Root l)) = overlays s.
Proof. induction s as [l0|l0 p IH]; cbn; [reflexivity|now rewrite IH]. Qed.

Lemma getRootState_Root (s : OverlayState) : getRootState s = Root (this (getRootState s)).
Proof. induction s as [l|l p IH]; cbn; [reflexivity|exact IH]. Qed.

Lemma graft_root (s : OverlayState) : graft s (getRootState s) = s.
Proof. induction s as [l|l p IH]; cbn; [reflexivity|now rewrite IH]. Qed.

Lemma deriveCnt_graft (s : OverlayState) (l : Layer) :
  deriveCnt l = deriveCnt (this (getRootState s)) →
  deriveCnt (this (graft s (Root l))) = deriveCnt (this s).
Proof. destruct s; cbn; [done|reflexivity]. Qed.

(** A read that no layer can serve goes to the root; the layers above are
    left as they are. *)
Lemma get_descend (s : OverlayState) :
  ∀ account action key net,
    Forall (fun l => scratchPad l !! scratchpadKeyOf action account key = None)
      (overlays s) →
    get s account action key net =
    match get (getRootState s) account action key net with
    | Some ((v, err, r), net') => Some ((v, err, graft s r), net')
    | None => None
    end.
Proof.
  induction s as [l|l p IH]; intros account action key net Hmiss.
  - cbn [getRootState graft]. destruct (get (Root l) account action key net) as [[[[v e] r] n]|]; reflexivity.
  - cbn [overlays] in Hmiss. apply Forall_cons in Hmiss as [Hl Hp].
    cbn [get getRootState]. rewrite Hl. munfold. rewrite (IH _ _ _ _ Hp).
    destruct (get (getRootState p) account action key net) as [[[[v e] r] n]|]; reflexivity.
Qed.

Lemma shadowed_overlays (s : OverlayState) (k : string) :
  Forall (fun l => scratchPad l !! k = None) (overlays s) →
  shadowed s k = scratchPad (this (getRootState s)) !! k.
Proof.
  induction s as [l|l p IH]; intros H.
  - apply shadowed_Root.
  - cbn [overlays] in H. apply Forall_cons in H as [Hl Hp].
    rewrite shadowed_Derived, Hl. cbn. exact (IH Hp).
Qed.

Lemma shadowed_None (s : OverlayState) (k : string) :
  shadowed s k = None →
  Forall (fun l => scratchPad l !! k = None) (overlays s) ∧
  scratchPad (this (getRootState s)) !! k = None.
Proof.
  induction s as [l|l p IH]; intros H.
  - rewrite shadowed_Root in H. split; [constructor|exact H].
  - rewrite shadowed_Derived in H.
    destruct (scratchPad l !! k) eqn:E; [done|].
    destruct (IH H) as [Ho Hr]. split; [constructor; done|exact Hr].
Qed.

Lemma warmed_lookup (b : Z) (account : list byte) (action : RequestType) (key : list byte)
    (cnt : Z) (acc : gmap (list byte) bool) (l : Layer) :
  scratchPad l !! scratchpadKeyOf action account key = None →
  scratchPad (warmed b account action key cnt acc l) !! scratchpadKeyOf action account key
  = Some (upstreamValue b action account key).
Proof.
  intros Hmiss. unfold warmed. cbn [scratchPad withScratchPad].
  destruct action; cbn [scratchpadKeyOf] in *;
    try (rewrite accountPad_lookup, Hmiss;
         decide_keys).
  apply lookup_insert_eq.
Qed.

Lemma warmed_keeps (b : Z) (account : list byte) (action : RequestType) (key : list byte)
    (cnt : Z) (acc : gmap (list byte) bool) (l : Layer) (k : string) (v : list byte) :
  scratchPad l !! scratchpadKeyOf action account key = None →
  scratchPad l !! k = Some v →
  scratchPad (warmed b account action key cnt acc l) !! k = Some v.
Proof.
  intros Hmiss Hk. unfold warmed. cbn [scratchPad withScratchPad].
  destruct action; try (rewrite accountPad_lookup, Hk; done).
  rewrite lookup_insert_ne; [exact Hk|]. intros E. rewrite E in Hmiss. congruence.
Qed.

Lemma get_miss (s : OverlayState) (account : list byte) (action : RequestType)
    (key : list byte) (net : Net) :
  canFetch s →
  shadowed s (scratchpadKeyOf action account key) = None →
  ∃ cnt acc net' tr,
    get s account action key net
    = Some ((upstreamValue (pinnedBlock s) action account key, None,
             graft s (Root (warmed (pinnedBlock s) account action key cnt acc
                              (this (getRootState s))))), net') ∧
    advances net net' tr ∧
    (action ≠ GET_STATE → cnt = rpcCnt (this (getRootState s))).
Proof.
  intros [[b Hbn] Hstep] Hnone.
  destruct (shadowed_None _ _ Hnone) as [Ho Hr].
  rewrite (get_descend s _ _ _ _ Ho).
  rewrite (getRootState_Root s).
  destruct (get_root_miss _ account action key net b Hbn Hstep Hr)
    as (cnt & acc & net' & tr & -> & Hadv & Hcnt).
  unfold pinnedBlock. rewrite <- (getRootState_Root s), Hbn. cbn [default].
  exists cnt, acc, net', tr. split; [reflexivity|]. split; [exact Hadv|exact Hcnt].
Qed.

Lemma canFetch_graft_warmed (s : OverlayState) b account action key cnt acc :
  canFetch s →
  canFetch (graft s (Root (warmed b account action key cnt acc (this (getRootState s))))).
Proof.
  unfold canFetch. rewrite getRootState_graft. cbn. done.
Qed.

Lemma pinnedBlock_graft_warmed (s : OverlayState) b account action key cnt acc :
  pinnedBlock (graft s (Root (warmed b account action key cnt acc (this (getRootState s)))))
  = pinnedBlock s.
Proof. unfold pinnedBlock. rewrite getRootState_graft. reflexivity. Qed.

(** Every read returns, and leaves the chain able to fetch. *)
Lemma get_total (s : OverlayState) (account : list byte) (action : RequestType)
    (key : list byte) (net : Net) :
  canFetch s →
  ∃ v s' net',
    get s account action key net = Some ((v, None, s'), net') ∧
    canFetch s' ∧
    overlays s' = overlays s ∧
    deriveCnt (this s') = deriveCnt (this s).
Proof.
  intros Hcan.
  destruct (shadowed s (scratchpadKeyOf action account key)) as [v|] eqn:E.
  - exists v, s, net. split; [now apply get_hit|done].
  - destruct (get_miss s account action key net Hcan E) as (cnt & acc & net' & tr & Hget & _).
    eexists _, _, net'. split; [exact Hget|].
    split; [now apply canFetch_graft_warmed|].
    split; [apply overlays_graft|].
    now apply deriveCnt_graft.
Qed.

End ReadPath.

(** ** The facade *)

Section Facade.

Context {env : Env}.

Lemma this_update (f : Layer → Layer) (s : OverlayState) : this (update f s) = f (this s).
Proof. now destruct s. Qed.

Lemma overlays_Derive (s : OverlayState) (why : string) :
  overlays (Derive s why) = this (Derive s why) :: overlays s.
Proof. reflexivity. Qed.

Lemma shadowed_top (s : OverlayState) (k : string) (v : list byte) :
  scratchPad (this s) !! k = Some v → shadowed s k = Some v.
Proof.
  destruct s as [l|l p]; cbn [this]; intros H.
  - now rewrite shadowed_Root.
  - now rewrite shadowed_Derived, H.
Qed.

(** C1, the shadow law, for the keys the read pipeline serves (balance,
    nonce, code, code hash, storage slot): a read at the current layer returns
    the value of the deepest layer whose scratchpad holds the key, and leaves
    chain and transport as they are; when no layer holds it and the root can
    fetch, the read returns the upstream value at the pinned block, which is
    then in the root scratchpad.  The suicide flag is outside this law:
    [HasSuicided] looks at the scratchpad of the current layer alone. *)
Theorem shadow_law_of_get (s : OverlayState) (account : list byte)
    (action : RequestType) (key : list byte) (net : Net) :
  let k := scratchpadKeyOf action account key in
  (∀ v, shadowed s k = Some v →
        get s account action key net = Some ((v, None, s), net)) ∧
  (shadowed s k = None → canFetch s →
   ∃ s' net' tr,
     get s account action key net
     = Some ((upstreamValue (pinnedBlock s) action account key, None, s'), net') ∧
     advances net net' tr ∧
     overlays s' = overlays s ∧
     scratchPad (this (getRootState s')) !! k
     = Some (upstreamValue (pinnedBlock s) action account key)) ∧
  (∀ db, HasSuicided db account = true ↔
         scratchPad (this (state db)) !! calcKey SUICIDE_KEY account = Some [x01]).
Proof.
  intros k. split; [|split].
  - intros v Hv. now apply get_hit.
  - intros Hnone Hcan.
    destruct (get_miss s account action key net Hcan Hnone)
      as (cnt & acc & net' & tr & Hget & Hadv & _).
    eexists _, net', tr. split; [exact Hget|]. split; [exact Hadv|].
    split; [apply overlays_graft|].
    rewrite getRootState_graft. cbn [this].
    apply warmed_lookup. now destruct (shadowed_None _ _ Hnone).
  - intros db. unfold HasSuicided.
    destruct (scratchPad (this (state db)) !! calcKey SUICIDE_KEY account) as [v|].
    + rewrite bool_decide_eq_true. split; congruence.
    + split; discriminate.
Qed.

(** A read of something never written locally gives what upstream holds. *)
Lemma read_untouched (db : OverlayStateDB) (account : list byte)
    (action : RequestType) (key : list byte) (net : Net) :
  canFetch (state db) → untouched (state db) action account key →
  ∃ s' net',
    read db account action key net
    = Some ((upstreamValue (pinnedBlock (state db)) action account key,
             withState db s'), net') ∧
    overlays s' = overlays (state db).
Proof.
  intros Hcan [Ho Hr]. unfold read. munfold.
  pose proof (shadowed_overlays _ _ Ho) as Hsh.
  destruct (scratchPad (this (getRootState (state db))) !! scratchpadKeyOf action account key)
    as [v|] eqn:E.
  - rewrite (get_hit _ _ _ _ net v Hsh). rewrite (Hr v eq_refl).
    eexists _, net. split; reflexivity.
  - destruct (get_miss _ account action key net Hcan Hsh) as (cnt & acc & net' & tr & -> & _).
    eexists _, net'. split; [reflexivity|apply overlays_graft].
Qed.

Lemma read_top (db : OverlayStateDB) (account : list byte)
    (action : RequestType) (key : list byte) (net : Net) (v : list byte) :
  scratchPad (this (state db)) !! scratchpadKeyOf action account key = Some v →
  read db account action key net = Some ((v, db), net).
Proof.
  intros H. unfold read. munfold.
  rewrite (get_hit _ _ _ _ net v (shadowed_top _ _ _ H)).
  now destruct db.
Qed.

Lemma store_lookup (db : OverlayStateDB) (k : string) (v : list byte) :
  scratchPad (this (state (store db k v))) !! k = Some v.
Proof.
  unfold store. cbn [state withState]. rewrite this_update. cbn [scratchPad withScratchPad].
  apply lookup_insert_eq.
Qed.

(** C9, [SubBalance] on an account with no local write to its balance: it
    returns (no panic), and [GetBalance] in the same layer then gives the
    absolute value of the upstream balance minus [delta], the scratchpad
    storing magnitudes only; this is the upstream balance minus [delta]
    whenever [delta] does not exceed that balance. *)
Theorem SubBalance_subtracts_from_upstream (db : OverlayStateDB)
    (account : list byte) (delta : Z) (net : Net) :
  canFetch (state db) →
  untouched (state db) GET_BALANCE account zeroHash →
  let U := Z.of_N (eth_getBalance up account (hexBN (pinnedBlock (state db)))) in
  ∃ db1 net1,
    SubBalance db account delta net = Some (db1, net1) ∧
    GetBalance db1 account net1 = Some ((Z.abs (U - delta), db1), net1) ∧
    (delta ≤ U → GetBalance db1 account net1 = Some ((U - delta, db1), net1)).
Proof.
  intros Hcan Hun U. unfold SubBalance. munfold.
  destruct (read_untouched db account GET_BALANCE zeroHash net Hcan Hun) as (s' & net1 & -> & _).
  cbn [upstreamValue]. fold U. rewrite SetBytes_Bytes.
  eexists _, net1. split; [reflexivity|].
  assert (∀ d, GetBalance (store (withState db s') (calcKey BALANCE_KEY account) (Bytes d)) account net1
               = Some ((Z.abs d, store (withState db s') (calcKey BALANCE_KEY account) (Bytes d)), net1)) as Hget.
  { intros d. unfold GetBalance. munfold.
    rewrite (read_top _ account GET_BALANCE zeroHash net1 (Bytes d)) by apply store_lookup.
    now rewrite SetBytes_Bytes. }
  rewrite (Z.abs_eq U) by lia. split; [apply Hget|].
  intros Hle. rewrite Hget. now rewrite Z.abs_eq by lia.
Qed.


Lemma accountPad_cached (b : Z) (account : list byte) (l : Layer)
    (cnt : Z) (acc : gmap (list byte) bool) (action : RequestType) (key : list byte) :
  action ≠ GET_STATE →
  accountUnseen l account →
  accountCached (warmed b account action key cnt acc l) account.
Proof.
  intros Hact (HB & HN & HC & HH).
  assert (scratchPad (warmed b account action key cnt acc l)
          = accountPad b account (scratchPad l)) as Hpad.
  { unfold warmed. destruct action; try done; now destruct Hact. }
  unfold accountCached. rewrite Hpad, !accountPad_lookup, HB, HN, HC, HH.
  decide_keys.
  split; [eauto|]. split; [eauto|].
  eexists. split; [reflexivity|]. reflexivity.
Qed.

Lemma read_account_coherent (db : OverlayStateDB) (account : list byte)
    (action : RequestType) (net : Net) :
  action ≠ GET_STATE →
  canFetch (state db) →
  unwrittenAccount (state db) account →
  ∃ v db' net',
    read db account action zeroHash net = Some ((v, db'), net') ∧
    accountCached (this (getRootState (state db'))) account.
Proof.
  intros Hact Hcan [Ho Hroot]. unfold read. munfold.
  assert (Forall (fun l => scratchPad l !! scratchpadKeyOf action account zeroHash = None)
            (overlays (state db))) as Hmiss.
  { eapply Forall_impl; [exact Ho|]. intros l (HB & HN & HC & HH).
    destruct action; cbn [scratchpadKeyOf]; try done; now destruct Hact. }
  pose proof (shadowed_overlays _ _ Hmiss) as Hsh.
  destruct Hroot as [Hunseen|Hcached].
  - assert (shadowed (state db) (scratchpadKeyOf action account zeroHash) = None) as Hnone.
    { rewrite Hsh. destruct Hunseen as (HB & HN & HC & HH).
      destruct action; cbn [scratchpadKeyOf]; try done; now destruct Hact. }
    destruct (get_miss _ account action zeroHash net Hcan Hnone) as (cnt & acc & net' & tr & -> & _).
    eexists _, _, net'. split; [reflexivity|].
    cbn [state withState]. rewrite getRootState_graft. cbn [this].
    now apply accountPad_cached.
  - assert (is_Some (shadowed (state db) (scratchpadKeyOf action account zeroHash))) as [v Hv].
    { rewrite Hsh. destruct Hcached as (HB & HN & code & HC & HH).
      destruct action; cbn [scratchpadKeyOf]; eauto; now destruct Hact. }
    rewrite (get_hit _ _ _ _ net v Hv).
    eexists v, _, net. split; [reflexivity|]. exact Hcached.
Qed.

(** C4, account coherence: on an account with no local writes, each of
    [GetBalance], [GetNonce], [GetCode] and [GetCodeHash] returns and leaves
    all four entries of the account in the root scratchpad, the code hash
    being the hash of the code there, or the zero hash for the empty code. *)
Theorem account_triple_coherence (db : OverlayStateDB) (account : list byte) (net : Net) :
  canFetch (state db) →
  unwrittenAccount (state db) account →
  (∃ v db' net', GetBalance db account net = Some ((v, db'), net') ∧
                 accountCached (this (getRootState (state db'))) account) ∧
  (∃ v db' net', GetNonce db account net = Some ((v, db'), net') ∧
                 accountCached (this (getRootState (state db'))) account) ∧
  (∃ v db' net', GetCode db account net = Some ((v, db'), net') ∧
                 accountCached (this (getRootState (state db'))) account) ∧
  (∃ v db' net', GetCodeHash db account net = Some ((v, db'), net') ∧
                 accountCached (this (getRootState (state db'))) account).
Proof.
  intros Hcan Hun.
  repeat split.
  - destruct (read_account_coherent db account GET_BALANCE net ltac:(done) Hcan Hun)
      as (v & db' & net' & Hr & Hc).
    unfold GetBalance. munfold. rewrite Hr. eauto.
  - destruct (read_account_coherent db account GET_NONCE net ltac:(done) Hcan Hun)
      as (v & db' & net' & Hr & Hc).
    unfold GetNonce. munfold. rewrite Hr. eauto.
  - destruct (read_account_coherent db account GET_CODE net ltac:(done) Hcan Hun)
      as (v & db' & net' & Hr & Hc).
    unfold GetCode. rewrite Hr. eauto.
  - destruct (read_account_coherent db account GET_CODEHASH net ltac:(done) Hcan Hun)
      as (v & db' & net' & Hr & Hc).
    unfold GetCodeHash. munfold. rewrite Hr. eauto.
Qed.

Lemma HasSuicided_store (db : OverlayStateDB) (account : list byte) :
  HasSuicided (store db (calcKey SUICIDE_KEY account) [x01]) account = true.
Proof. unfold HasSuicided. rewrite store_lookup. now apply bool_decide_eq_true. Qed.

Lemma HasSuicided_Snapshot (db : OverlayStateDB) (account : list byte) :
  HasSuicided (snd (Snapshot db)) account = false.
Proof. reflexivity. Qed.

Lemma withState_state (db : OverlayStateDB) : withState db (state db) = db.
Proof. now destruct db. Qed.

(** Reverting right after the snapshot, whatever was stored in the new
    layer. *)
Lemma revert_child (db : OverlayStateDB) (child : Layer) :
  deriveCnt child = int64 (deriveCnt (this (state db)) + 1) →
  RevertToSnapshot (withState db (Derived child (state db))) (deriveCnt child) = Some db.
Proof.
  intros Hd. unfold RevertToSnapshot. cbn [state withState Parent mbind option_bind].
  destruct (state db) as [l|l p] eqn:E; cbn [revertWalk this] in *;
    rewrite Hd, Z.eqb_refl; cbn; rewrite <- E; now destruct db.
Qed.

(** C7, [Suicide] is scoped to the layer: it returns true and puts the
    flag [01] into the current layer only, after which [HasSuicided] is true;
    in the child made by a following [Snapshot] it is false; and reverting
    to a snapshot id taken before the suicide, from the layer of the suicide
    or from its child, gives back the facade of before the snapshot, where
    [HasSuicided] is false if it was false then. *)
Theorem suicide_is_layer_scoped (db : OverlayStateDB) (account : list byte) :
  (fst (Suicide db account) = true ∧
   scratchPad (this (state (snd (Suicide db account)))) !! calcKey SUICIDE_KEY account
   = Some [x01] ∧
   scratchPad (this (state (snd (Suicide db account))))
   = <[calcKey SUICIDE_KEY account := [x01]]> (scratchPad (this (state db))) ∧
   tail (layers (state (snd (Suicide db account)))) = tail (layers (state db)) ∧
   HasSuicided (snd (Suicide db account)) account = true ∧
   HasSuicided (snd (Snapshot (snd (Suicide db account)))) account = false) ∧
  (let '(id, db1) := Snapshot db in
   let db2 := snd (Suicide db1 account) in
   let db3 := snd (Snapshot db2) in
   HasSuicided db2 account = true ∧
   HasSuicided db3 account = false ∧
   RevertToSnapshot db3 id = Some db ∧
   RevertToSnapshot db2 id = Some db ∧
   (HasSuicided db account = false →
    ∀ db', RevertToSnapshot db3 id = Some db' ∨ RevertToSnapshot db2 id = Some db' →
           HasSuicided db' account = false)).
Proof.
  split.
  - split; [reflexivity|]. split; [apply store_lookup|].
    split; [now destruct db as [g [l|l p]]|].
    split; [now destruct db as [g [l|l p]]|].
    split; [apply HasSuicided_store|reflexivity].
  - cbn [Snapshot].
    assert (RevertToSnapshot
              (snd (Suicide (withState db (Derive (state db) "snapshot")) account))
              (deriveCnt (this (Derive (state db) "snapshot"))) = Some db) as H2.
    { destruct db as [g s]. unfold RevertToSnapshot. cbn.
      destruct s; cbn; now rewrite Z.eqb_refl. }
    assert (RevertToSnapshot
              (snd (Snapshot (snd (Suicide (withState db (Derive (state db) "snapshot")) account))))
              (deriveCnt (this (Derive (state db) "snapshot"))) = Some db) as H3.
    { destruct db as [g s]. unfold RevertToSnapshot. cbn.
      destruct (Z.eqb_spec (int64 (int64 (deriveCnt (this s) + 1) + 1)) (int64 (deriveCnt (this s) + 1))) as [E|_].
      - now apply int64_succ_ne in E.
      - destruct s; cbn; now rewrite Z.eqb_refl. }
    split; [apply HasSuicided_store|]. split; [reflexivity|].
    split; [exact H3|]. split; [exact H2|].
    intros Hfalse db' [H|H]; congruence.
Qed.

Lemma logsWalk_spec (s : OverlayState) :
  ∀ (txHash : list byte) (logs : list Log),
    logsWalk s txHash logs = logsRootToLeaf s txHash ++ logs.
Proof.
  unfold logsRootToLeaf.
  induction s as [l|l p IH]; intros txHash logs; cbn [logsWalk layers this].
  - cbn. rewrite app_nil_r. now destruct (txLogs l !! txHash).
  - rewrite IH, reverse_cons, map_app, concat_app. cbn.
    rewrite app_nil_r, <- app_assoc. now destruct (txLogs l !! txHash).
Qed.

Lemma receiptWalk_spec (s : OverlayState) :
  ∀ (txHash : list byte) (logs : list Log),
    fst (receiptWalk s txHash logs)
    = (fun r => setLogs r logs) <$> firstReceipt (overlays s) txHash.
Proof.
  unfold firstReceipt.
  induction s as [l|l p IH]; intros txHash logs; cbn [receiptWalk overlays]; [reflexivity|].
  cbn [omap list_omap]. destruct (receipts l !! txHash) as [r|] eqn:E; [reflexivity|].
  specialize (IH txHash logs).
  destruct (receiptWalk p txHash logs) as [found p']. exact IH.
Qed.

Lemma firstReceipt_skip (ls1 ls2 : list Layer) (txHash : list byte) :
  Forall (fun l => receipts l !! txHash = None) ls1 →
  firstReceipt (ls1 ++ ls2) txHash = firstReceipt ls2 txHash.
Proof.
  unfold firstReceipt. induction 1 as [|l ls1 Hl _ IH]; [reflexivity|].
  cbn [app omap list_omap]. now rewrite Hl.
Qed.

(** C8: [GetLogs] is the concatenation of the logs of the transaction over
    the chain, the root's first and the current layer's last; [GetReceipt]
    is the first receipt found from the current layer towards the root among
    the layers above the root, with [Logs] set to [GetLogs] and its other
    fields as stored, and nil when none of these layers has one, whatever the
    root holds. *)
Theorem logs_and_receipts_walk_the_chain (db : OverlayStateDB) (txHash : list byte) :
  GetLogs db txHash = logsRootToLeaf (state db) txHash ∧
  fst (GetReceipt db txHash)
  = (fun r => setLogs r (GetLogs db txHash)) <$> firstReceipt (overlays (state db)) txHash ∧
  (firstReceipt (overlays (state db)) txHash = None → fst (GetReceipt db txHash) = None) ∧
  (∀ above l below r,
     overlays (state db) = above ++ l :: below →
     Forall (fun l' => receipts l' !! txHash = None) above →
     receipts l !! txHash = Some r →
     ∃ r',
       fst (GetReceipt db txHash) = Some r' ∧
       Receipt_Logs r' = GetLogs db txHash ∧
       Receipt_Status r' = Receipt_Status r ∧
       Receipt_TxHash r' = Receipt_TxHash r ∧
       Receipt_GasUsed r' = Receipt_GasUsed r) ∧
  (Forall (fun l => receipts l !! txHash = None) (overlays (state db)) →
   fst (GetReceipt db txHash) = None).
Proof.
  assert (fst (GetReceipt db txHash)
          = (fun r => setLogs r (GetLogs db txHash)) <$> firstReceipt (overlays (state db)) txHash) as H.
  { unfold GetReceipt.
    pose proof (receiptWalk_spec (state db) txHash (GetLogs db txHash)) as Hw.
    destruct (receiptWalk (state db) txHash (GetLogs db txHash)) as [found s']. exact Hw. }
  split; [|split; [|split; [|split]]].
  - unfold GetLogs. rewrite logsWalk_spec. apply app_nil_r.
  - exact H.
  - intros Hnone. rewrite H, Hnone. reflexivity.
  - intros above l below r Hov Habove Hr.
    rewrite H, Hov, (firstReceipt_skip above (l :: below) txHash Habove).
    unfold firstReceipt. cbn [omap list_omap]. rewrite Hr. cbn [head fmap option_fmap option_map].
    eexists. split; [reflexivity|]. cbn [setLogs Receipt_Logs Receipt_Status Receipt_TxHash
                                         Receipt_GasUsed]. done.
  - intros Hall. rewrite H.
    rewrite <- (app_nil_r (overlays (state db))), (firstReceipt_skip _ [] txHash Hall).
    reflexivity.
Qed.

(** The writes land in the layer of the snapshot and nowhere else. *)
Lemma write_child (db : OverlayStateDB) (w : Write) (c : Layer) (p : OverlayState) :
  state db = Derived c p →
  ∃ c', write db w = mkDB (refundGas db) (Derived c' p) ∧ deriveCnt c' = deriveCnt c.
Proof.
  intros Hs. destruct db as [g s]. cbn in Hs. subst s.
  destruct w; cbn; eexists; (split; [reflexivity|reflexivity]).
Qed.

Lemma writes_child (W : list Write) :
  ∀ (db : OverlayStateDB) (c : Layer) (p : OverlayState),
    state db = Derived c p →
    ∃ c', foldl write db W = mkDB (refundGas db) (Derived c' p) ∧ deriveCnt c' = deriveCnt c.
Proof.
  induction W as [|w W IH]; intros db c p Hs; cbn [foldl].
  - exists c. destruct db; cbn in *. now subst.
  - destruct (write_child db w c p Hs) as (c1 & Hw & Hd1).
    destruct (IH (write db w) c1 p ltac:(now rewrite Hw)) as (c2 & HW & Hd2).
    exists c2. rewrite HW, Hw. cbn. split; [reflexivity|congruence].
Qed.


End Facade.

(** ** Merging a snapshot *)

Section Merge.

Context {env : Env}.

(** Copying the entries one by one gives the union in which they win. *)
Lemma pour_union (pad : gmap string (list byte)) (l : Layer) :
  pour pad l = withScratchPad l (pad ∪ scratchPad l).
Proof.
  unfold pour. f_equal.
  apply (map_fold_weak_ind (fun r m => r = m ∪ scratchPad l)).
  - now rewrite (left_id_L ∅ (∪)).
  - intros i x m r _ ->. now rewrite insert_union_l.
Qed.

Lemma update_pour (pad : gmap string (list byte)) (s : OverlayState) :
  update (pour pad) s
  = update (fun l => withScratchPad l (pad ∪ scratchPad l)) s.
Proof. destruct s; cbn [update]; now rewrite pour_union. Qed.

Lemma loadStateBatchRPC_frame (s : Layer) (pad : gmap string (list byte))
    (reqs : list StorageReq) (net : Net) :
  loadStateBatchRPC (withScratchPad s pad) reqs net
  = repad pad (loadStateBatchRPC s reqs net).
Proof.
  unfold loadStateBatchRPC. cbn [bn withScratchPad withRpcCnt batchSize rpcCnt].
  destruct (bn s) as [b|]; [|reflexivity]. munfold.
  destruct (stateWindows _ _ _ _ net) as [[[e|] net']|]; reflexivity.
Qed.

Lemma storageRetry_frame (fuel : nat) :
  ∀ (s : Layer) (pad : gmap string (list byte)) (pending : list StorageReq) (net : Net),
    storageRetry fuel (withScratchPad s pad) pending net
    = repad pad (storageRetry fuel s pending net).
Proof.
  induction fuel as [|fuel IH]; intros s pad pending net; [reflexivity|].
  cbn [storageRetry]. munfold. rewrite loadStateBatchRPC_frame.
  destruct (loadStateBatchRPC s pending net) as [[[[e out] s'] net']|]; [|reflexivity].
  cbn [repad]. destruct e as [e|]; [|reflexivity].
  destruct (Sleep 1000 net') as [[[] net'']|]; [|reflexivity].
  apply IH.
Qed.

Lemma loadState_frame (s : Layer) (pad : gmap string (list byte))
    (account key : list byte) (net : Net) :
  loadState (withScratchPad s pad) account key net
  = repad pad (loadState s account key net).
Proof.
  unfold loadState, storageTick. cbn [length Nat.ltb Nat.leb]. unfold untilUp. munfold.
  rewrite storageRetry_frame.
  destruct (storageRetry _ s _ net) as [[[replies s'] net']|]; [|reflexivity].
  cbn [repad]. destruct replies; reflexivity.
Qed.

Lemma loadAccountBatchRPC_frame (s : Layer) (pad : gmap string (list byte))
    (accounts : list (list byte)) (net : Net) :
  loadAccountBatchRPC (withScratchPad s pad) accounts net
  = repad pad (loadAccountBatchRPC s accounts net).
Proof.
  unfold loadAccountBatchRPC.
  cbn [bn withScratchPad withAccessedAccounts batchSize accessedAccounts].
  destruct (bn s) as [b|]; [|reflexivity]. munfold.
  destruct (accountWindows _ _ _ _ _ net) as [[[e|] net']|]; reflexivity.
Qed.

Lemma accountRetry_frame (fuel : nat) :
  ∀ (s : Layer) (pad : gmap string (list byte)) (accounts : list (list byte)) (net : Net),
    accountRetry fuel (withScratchPad s pad) accounts net
    = repad pad (accountRetry fuel s accounts net).
Proof.
  induction fuel as [|fuel IH]; intros s pad accounts net; [reflexivity|].
  cbn [accountRetry]. munfold. rewrite loadAccountBatchRPC_frame.
  destruct (loadAccountBatchRPC s accounts net) as [[[[out e] s'] net']|]; [|reflexivity].
  cbn [repad]. destruct e as [e|]; [|reflexivity].
  destruct (Sleep 1000 net') as [[[] net'']|]; [|reflexivity].
  apply IH.
Qed.

Lemma loadAccount_frame (s : Layer) (pad : gmap string (list byte))
    (account : list byte) (net : Net) :
  loadAccount (withScratchPad s pad) account net
  = repad pad (loadAccount s account net).
Proof.
  unfold loadAccount, accountTick. cbn [length Nat.ltb Nat.leb]. unfold untilUp. munfold.
  rewrite accountRetry_frame.
  destruct (accountRetry _ s _ net) as [[[replies s'] net']|]; [|reflexivity].
  cbn [repad]. destruct replies; reflexivity.
Qed.

Lemma withScratchPad_same (l : Layer) : withScratchPad l (scratchPad l) = l.
Proof. now destruct l. Qed.

(** The fetchers leave the scratchpad alone. *)
Lemma loadAccount_pad (l l' : Layer) (account : list byte) (net net' : Net)
    (result : FetchedAccountResult) :
  loadAccount l account net = Some ((result, l'), net') →
  scratchPad l' = scratchPad l.
Proof.
  intros H. pose proof (loadAccount_frame l (scratchPad l) account net) as Hf.
  rewrite withScratchPad_same, H in Hf. cbn in Hf.
  inversion Hf as [Hl]. now rewrite Hl at 1.
Qed.

Lemma loadState_pad (l l' : Layer) (account key : list byte) (net net' : Net)
    (result : list byte) :
  loadState l account key net = Some ((result, l'), net') →
  scratchPad l' = scratchPad l.
Proof.
  intros H. pose proof (loadState_frame l (scratchPad l) account key net) as Hf.
  rewrite withScratchPad_same, H in Hf. cbn in Hf.
  inversion Hf as [Hl]. now rewrite Hl at 1.
Qed.

Lemma withScratchPad_twice (l : Layer) (p q : gmap string (list byte)) :
  withScratchPad (withScratchPad l p) q = withScratchPad l q.
Proof. reflexivity. Qed.

(** A read in a chain whose current layer received the entries [c], none
    of them under the key read, is the read in the chain without them. *)
Lemma get_union (c : gmap string (list byte)) (s : OverlayState)
    (account : list byte) (action : RequestType) (key : list byte) (net : Net) :
  c !! scratchpadKeyOf action account key = None →
  get (update (fun l => withScratchPad l (c ∪ scratchPad l)) s) account action key net =
  match get s account action key net with
  | Some ((v, err, s'), net') =>
      Some ((v, err, update (fun l => withScratchPad l (c ∪ scratchPad l)) s'), net')
  | None => None
  end.
Proof.
  intros Hc.
  destruct s as [l|l p]; cbn [update get scratchPad withScratchPad];
    rewrite (lookup_union_r c) by exact Hc.
  - destruct (scratchPad l !! scratchpadKeyOf action account key) as [v|] eqn:E; [reflexivity|].
    destruct action; munfold.
    1-4: rewrite loadAccount_frame;
      destruct (loadAccount l account net) as [[[result l'] net']|] eqn:El; [|reflexivity];
      apply loadAccount_pad in El;
      cbn [repad]; rewrite withScratchPad_twice;
      change (scratchPad (withScratchPad l' (c ∪ scratchPad l))) with (c ∪ scratchPad l);
      rewrite <- El, <- !fill_union;
      rewrite (lookup_union_r c) by exact Hc;
      reflexivity.
    rewrite loadState_frame.
    destruct (loadState l account key net) as [[[result l'] net']|] eqn:El; [|reflexivity].
    apply loadState_pad in El.
    cbn [repad]. rewrite withScratchPad_twice.
    change (scratchPad (withScratchPad l' (c ∪ scratchPad l))) with (c ∪ scratchPad l).
    cbn [update scratchPad withScratchPad].
    rewrite <- El, (insert_union_r c) by exact Hc. reflexivity.
  - destruct (scratchPad l !! scratchpadKeyOf action account key) as [v|] eqn:E; [reflexivity|].
    munfold. destruct (get p account action key net) as [[[[v e] p'] net']|]; reflexivity.
Qed.

Lemma get_pour (c : gmap string (list byte)) (s : OverlayState)
    (account : list byte) (action : RequestType) (key : list byte) (net : Net) :
  c !! scratchpadKeyOf action account key = None →
  get (update (pour c) s) account action key net =
  match get s account action key net with
  | Some ((v, err, s'), net') => Some ((v, err, update (pour c) s'), net')
  | None => None
  end.
Proof.
  intros Hc. rewrite update_pour, get_union by exact Hc.
  destruct (get s account action key net) as [[[[v e] s'] net']|]; [|reflexivity].
  now rewrite update_pour.
Qed.

Lemma loadStateBatchRPC_touch (s s' : Layer) (reqs out : list StorageReq)
    (e : option error) (net net' : Net) :
  loadStateBatchRPC s reqs net = Some ((e, out, s'), net') →
  s' = withRpcCnt s (int64 (rpcCnt s + 1)).
Proof.
  unfold loadStateBatchRPC. cbn [bn withRpcCnt batchSize].
  destruct (bn s) as [b|]; [|discriminate]. munfold.
  destruct (stateWindows _ _ _ _ net) as [[[e'|] n]|]; intros H; now inversion H.
Qed.

Lemma storageRetry_touch (fuel : nat) :
  ∀ (s s' : Layer) (pending out : list StorageReq) (net net' : Net),
    storageRetry fuel s pending net = Some ((out, s'), net') →
    deriveCnt s' = deriveCnt s.
Proof.
  induction fuel as [|fuel IH]; intros s s' pending out net net'; [discriminate|].
  cbn [storageRetry]. munfold.
  destruct (loadStateBatchRPC s pending net) as [[[[e o] s1] n1]|] eqn:E; [|discriminate].
  apply loadStateBatchRPC_touch in E. subst s1.
  destruct e as [e|].
  - destruct (Sleep 1000 n1) as [[[] n2]|]; [|discriminate].
    intros H. now apply IH in H.
  - intros H. now inversion H.
Qed.

Lemma loadState_touch (s s' : Layer) (account key result : list byte) (net net' : Net) :
  loadState s account key net = Some ((result, s'), net') →
  deriveCnt s' = deriveCnt s.
Proof.
  unfold loadState, storageTick. cbn [length Nat.ltb Nat.leb]. unfold untilUp. munfold.
  destruct (storageRetry _ s _ net) as [[[replies s1] n1]|] eqn:E; [|discriminate].
  apply storageRetry_touch in E.
  destruct replies; [discriminate|]. intros H. inversion H. now subst.
Qed.

Lemma loadAccountBatchRPC_touch (s s' : Layer) (accounts : list (list byte))
    (out : list FetchedAccountResult) (e : option error) (net net' : Net) :
  loadAccountBatchRPC s accounts net = Some ((out, e, s'), net') →
  deriveCnt s' = deriveCnt s.
Proof.
  unfold loadAccountBatchRPC.
  destruct (bn s) as [b|]; [|discriminate]. munfold.
  destruct (accountWindows _ _ _ _ _ net) as [[[e'|] n]|]; intros H; now inversion H.
Qed.

Lemma accountRetry_touch (fuel : nat) :
  ∀ (s s' : Layer) (accounts : list (list byte)) (out : list FetchedAccountResult)
    (net net' : Net),
    accountRetry fuel s accounts net = Some ((out, s'), net') →
    deriveCnt s' = deriveCnt s.
Proof.
  induction fuel as [|fuel IH]; intros s s' accounts out net net'; [discriminate|].
  cbn [accountRetry]. munfold.
  destruct (loadAccountBatchRPC s accounts net) as [[[[o e] s1] n1]|] eqn:E; [|discriminate].
  apply loadAccountBatchRPC_touch in E.
  destruct e as [e|].
  - destruct (Sleep 1000 n1) as [[[] n2]|]; [|discriminate].
    intros H. apply IH in H. congruence.
  - intros H. inversion H. now subst.
Qed.

Lemma loadAccount_touch (s s' : Layer) (account : list byte)
    (result : FetchedAccountResult) (net net' : Net) :
  loadAccount s account net = Some ((result, s'), net') →
  deriveCnt s' = deriveCnt s.
Proof.
  unfold loadAccount, accountTick. cbn [length Nat.ltb Nat.leb]. unfold untilUp. munfold.
  destruct (accountRetry _ s _ net) as [[[replies s1] n1]|] eqn:E; [|discriminate].
  apply accountRetry_touch in E.
  destruct replies; [discriminate|]. intros H. inversion H. now subst.
Qed.

(** A read changes no depth. *)
Lemma get_deriveCnt (s : OverlayState) :
  ∀ account action key net v e s' net',
    get s account action key net = Some ((v, e, s'), net') →
    deriveCnt (this s') = deriveCnt (this s).
Proof.
  induction s as [l|l p IH]; intros account action key net v e s' net'; cbn [get].
  - destruct (scratchPad l !! _) as [x|].
    + intros H. now inversion H.
    + destruct action; munfold.
      1-4: destruct (loadAccount l account net) as [[[result l1] n1]|] eqn:E; [|discriminate];
        apply loadAccount_touch in E; intros H; inversion H; subst; exact E.
      destruct (loadState l account key net) as [[[result l1] n1]|] eqn:E; [|discriminate].
      apply loadState_touch in E. intros H. inversion H. subst. exact E.
  - destruct (scratchPad l !! _) as [x|].
    + intros H. now inversion H.
    + munfold. destruct (get p account action key net) as [[[[v1 e1] p1] n1]|]; [|discriminate].
      intros H. now inversion H.
Qed.

(** A read from a layer above the root keeps that layer. *)
Lemma get_Derived (c : Layer) (p : OverlayState) account action key net v e s' net' :
  get (Derived c p) account action key net = Some ((v, e, s'), net') →
  ∃ p', s' = Derived c p' ∧ deriveCnt (this p') = deriveCnt (this p).
Proof.
  cbn [get]. destruct (scratchPad c !! _) as [x|].
  - intros H. inversion H. eauto.
  - munfold. destruct (get p account action key net) as [[[[v1 e1] p1] n1]|] eqn:E; [|discriminate].
    intros H. inversion H. subst. apply get_deriveCnt in E. eauto.
Qed.

Lemma read_merged (db : OverlayStateDB) (c : Layer) (p : OverlayState)
    (account : list byte) (action : RequestType) (key : list byte) (net : Net) :
  state db = Derived c p →
  read (merged db) account action key net =
  match read db account action key net with
  | Some ((v, db'), net') => Some ((v, merged db'), net')
  | None => None
  end.
Proof.
  intros Hs. unfold read, merged. rewrite Hs. cbn [state]. munfold.
  destruct (scratchPad c !! scratchpadKeyOf action account key) as [x|] eqn:E.
  - rewrite (get_hit (Derived c p) _ _ _ net x) by (rewrite shadowed_Derived; now rewrite E).
    rewrite (get_hit (update (pour (scratchPad c)) p) _ _ _ net x).
    + cbn. reflexivity.
    + apply shadowed_top. rewrite this_update, pour_union.
      cbn [scratchPad withScratchPad].
      now apply lookup_union_Some_l.
  - rewrite get_pour by exact E. cbn [get]. rewrite E. munfold.
    destruct (get p account action key net) as [[[[v [e|]] p'] net']|]; reflexivity.
Qed.

Lemma store_merged (db : OverlayStateDB) (c : Layer) (p : OverlayState)
    (k : string) (v : list byte) :
  state db = Derived c p →
  store (merged db) k v = merged (store db k v).
Proof.
  intros Hs. unfold store, merged. rewrite Hs. cbn [state withState update scratchPad withScratchPad refundGas].
  f_equal. rewrite !update_pour.
  destruct p as [l|l q]; cbn; now rewrite insert_union_l.
Qed.

Lemma read_Derived (db : OverlayStateDB) (c : Layer) (p : OverlayState)
    account action key net v db' net' :
  state db = Derived c p →
  read db account action key net = Some ((v, db'), net') →
  ∃ p', state db' = Derived c p' ∧ deriveCnt (this p') = deriveCnt (this p).
Proof.
  intros Hs. unfold read. rewrite Hs. munfold.
  destruct (get (Derived c p) account action key net) as [[[[v1 e1] s1] n1]|] eqn:E; [|discriminate].
  apply get_Derived in E as (p' & -> & Hd).
  destruct e1; [discriminate|]. intros H. inversion H. subst. cbn. eauto.
Qed.

Lemma perform_merged (db : OverlayStateDB) (c : Layer) (p : OverlayState)
    (o : Op) (net : Net) :
  toScratchPad o = true →
  state db = Derived c p →
  perform (merged db) o net =
  match perform db o net with
  | Some (db', net') => Some (merged db', net')
  | None => None
  end.
Proof.
  intros Ho Hs.
  destruct o as [w|account delta|account delta]; cbn [perform].
  - munfold. f_equal. f_equal.
    destruct w; try discriminate Ho; cbn [write];
      unfold SetBalance, SetNonce, SetCode, SetCodeHash, SetState, Suicide; cbn [snd];
      now apply (store_merged db c p).
  - unfold AddBalance. munfold. rewrite (read_merged db c p) by exact Hs.
    destruct (read db account GET_BALANCE zeroHash net) as [[[v db'] net']|] eqn:E; [|reflexivity].
    destruct (read_Derived db c p _ _ _ _ _ _ _ Hs E) as (p' & Hs' & _).
    now rewrite (store_merged db' c p').
  - unfold SubBalance. munfold. rewrite (read_merged db c p) by exact Hs.
    destruct (read db account GET_BALANCE zeroHash net) as [[[v db'] net']|] eqn:E; [|reflexivity].
    destruct (read_Derived db c p _ _ _ _ _ _ _ Hs E) as (p' & Hs' & _).
    now rewrite (store_merged db' c p').
Qed.

Lemma store_Derived (db : OverlayStateDB) (c : Layer) (p : OverlayState)
    (k : string) (v : list byte) :
  state db = Derived c p →
  ∃ c', state (store db k v) = Derived c' p ∧ deriveCnt c' = deriveCnt c.
Proof. intros Hs. unfold store. rewrite Hs. cbn. eauto. Qed.

Lemma perform_Derived (db : OverlayStateDB) (c : Layer) (p : OverlayState)
    (o : Op) (net : Net) (db' : OverlayStateDB) (net' : Net) :
  state db = Derived c p →
  perform db o net = Some (db', net') →
  ∃ c' p', state db' = Derived c' p' ∧ deriveCnt c' = deriveCnt c ∧
           deriveCnt (this p') = deriveCnt (this p).
Proof.
  intros Hs.
  destruct o as [w|account delta|account delta]; cbn [perform].
  - munfold. intros H. inversion H. subst.
    destruct (write_child db w c p Hs) as (c' & -> & Hd). cbn. eauto.
  - unfold AddBalance. munfold.
    destruct (read db account GET_BALANCE zeroHash net) as [[[v db1] n1]|] eqn:E; [|discriminate].
    destruct (read_Derived db c p _ _ _ _ _ _ _ Hs E) as (p' & Hs' & Hd').
    intros H. inversion H. subst.
    destruct (store_Derived db1 c p' (calcKey BALANCE_KEY account) (Bytes (SetBytes v + delta)) Hs')
      as (c' & -> & Hd). eauto.
  - unfold SubBalance. munfold.
    destruct (read db account GET_BALANCE zeroHash net) as [[[v db1] n1]|] eqn:E; [|discriminate].
    destruct (read_Derived db c p _ _ _ _ _ _ _ Hs E) as (p' & Hs' & Hd').
    intros H. inversion H. subst.
    destruct (store_Derived db1 c p' (calcKey BALANCE_KEY account) (Bytes (SetBytes v - delta)) Hs')
      as (c' & -> & Hd). eauto.
Qed.

Lemma performAll_merged (W : list Op) :
  ∀ (db : OverlayStateDB) (c : Layer) (p : OverlayState) (net : Net),
    forallb toScratchPad W = true →
    state db = Derived c p →
    performAll (merged db) W net =
    match performAll db W net with
    | Some (db', net') => Some (merged db', net')
    | None => None
    end ∧
    ∀ db' net', performAll db W net = Some (db', net') →
      ∃ c' p', state db' = Derived c' p' ∧ deriveCnt c' = deriveCnt c ∧
               deriveCnt (this p') = deriveCnt (this p).
Proof.
  induction W as [|o W IH]; intros db c p net HW Hs; cbn [performAll].
  - munfold. split; [reflexivity|]. intros db' net' H. inversion H. subst. eauto.
  - cbn [forallb] in HW. apply andb_prop in HW as [Ho HW].
    munfold. rewrite (perform_merged db c p o net Ho Hs).
    destruct (perform db o net) as [[db1 n1]|] eqn:E; [|split; [reflexivity|discriminate]].
    destruct (perform_Derived db c p o net db1 n1 Hs E) as (c1 & p1 & Hs1 & Hd1 & Hp1).
    destruct (IH db1 c1 p1 n1 HW Hs1) as [Heq Hshape].
    split; [exact Heq|].
    intros db' net' H. destruct (Hshape db' net' H) as (c' & p' & Hs' & Hd' & Hp').
    exists c', p'. split; [exact Hs'|]. split; congruence.
Qed.

Lemma canFetch_update (f : Layer → Layer) (s : OverlayState) :
  (∀ l, bn (f l) = bn l ∧ batchSize (f l) = batchSize l) →
  canFetch s → canFetch (update f s).
Proof.
  intros Hf. unfold canFetch. destruct s as [l|l p]; cbn; [|done].
  destruct (Hf l) as [-> ->]. done.
Qed.

Lemma canFetch_store (db : OverlayStateDB) (k : string) (v : list byte) :
  canFetch (state db) → canFetch (state (store db k v)).
Proof. intros H. unfold store. cbn [state withState]. now apply canFetch_update. Qed.

Lemma canFetch_write (db : OverlayStateDB) (w : Write) :
  canFetch (state db) → canFetch (state (write db w)).
Proof.
  intros H. destruct w; cbn [write]; try (now apply canFetch_store);
    cbn [AddLog AddReceipt state withState]; now apply canFetch_update.
Qed.

Lemma read_total (db : OverlayStateDB) account action key net :
  canFetch (state db) →
  ∃ v db' net', read db account action key net = Some ((v, db'), net') ∧
                canFetch (state db').
Proof.
  intros Hcan. unfold read. munfold.
  destruct (get_total (state db) account action key net Hcan) as (v & s' & net' & -> & Hc & _).
  eexists v, _, net'. split; [reflexivity|exact Hc].
Qed.

Lemma perform_total (db : OverlayStateDB) (o : Op) (net : Net) :
  canFetch (state db) →
  ∃ db' net', perform db o net = Some (db', net') ∧ canFetch (state db').
Proof.
  intros Hcan. destruct o as [w|account delta|account delta]; cbn [perform].
  - eexists _, net. split; [reflexivity|now apply canFetch_write].
  - unfold AddBalance. munfold.
    destruct (read_total db account GET_BALANCE zeroHash net Hcan) as (v & db' & net' & -> & Hc).
    eexists _, net'. split; [reflexivity|now apply canFetch_store].
  - unfold SubBalance. munfold.
    destruct (read_total db account GET_BALANCE zeroHash net Hcan) as (v & db' & net' & -> & Hc).
    eexists _, net'. split; [reflexivity|now apply canFetch_store].
Qed.

Lemma performAll_total (W : list Op) :
  ∀ (db : OverlayStateDB) (net : Net),
    canFetch (state db) →
    ∃ db' net', performAll db W net = Some (db', net') ∧ canFetch (state db').
Proof.
  induction W as [|o W IH]; intros db net Hcan; cbn [performAll].
  - eexists db, net. split; [reflexivity|exact Hcan].
  - munfold. destruct (perform_total db o net Hcan) as (db1 & n1 & -> & Hc1).
    apply IH. exact Hc1.
Qed.

Lemma update_pour_empty (s : OverlayState) : update (pour ∅) s = s.
Proof.
  rewrite update_pour.
  destruct s as [l|l p]; cbn; rewrite (left_id_L ∅ (∪));
    now rewrite withScratchPad_same.
Qed.

Lemma MergeTo_child (db : OverlayStateDB) (c : Layer) (p : OverlayState) :
  state db = Derived c p →
  deriveCnt c ≠ deriveCnt (this p) →
  MergeTo db (deriveCnt (this p)) = Some (merged db).
Proof.
  intros Hs Hne. unfold MergeTo, merged. rewrite Hs. cbn [this].
  destruct (Z.eqb_spec (deriveCnt c) (deriveCnt (this p))) as [E|_]; [done|].
  destruct p as [l|l q]; cbn [mergeWalk this update];
    rewrite pour_union; cbn [deriveCnt withScratchPad];
    rewrite Z.eqb_refl; reflexivity.
Qed.

(** C3, merging, for the writes that go to the scratchpad (the setters,
    [Suicide], [AddBalance] and [SubBalance]): [Snapshot()], the writes, then
    [MergeTo(id)] with [id] the depth of the starting layer ends in the same
    facade and transport as the writes applied to the starting layer
    directly; the depth afterwards is [id]; and the run returns whenever the
    root can fetch. *)
Theorem merge_as_direct_writes (db : OverlayStateDB) (W : list Op) (net : Net) :
  forallb toScratchPad W = true →
  snapshotOpsMerge db W net = performAll db W net ∧
  (∀ db' net', snapshotOpsMerge db W net = Some (db', net') →
               GetOverlayDepth db' = GetOverlayDepth db) ∧
  (canFetch (state db) → ∃ db' net', snapshotOpsMerge db W net = Some (db', net')).
Proof.
  intros HW.
  set (dbS := snd (Snapshot db)).
  assert (state dbS = Derived (this (Derive (state db) "snapshot")) (state db)) as HS by reflexivity.
  assert (merged dbS = db) as Hm.
  { unfold merged. rewrite HS. cbn [scratchPad this Derive]. rewrite update_pour_empty.
    now destruct db. }
  destruct (performAll_merged W dbS _ _ net HW HS) as [Heq Hshape].
  rewrite Hm in Heq.
  assert (∀ db1 n1, performAll dbS W net = Some (db1, n1) →
            MergeTo db1 (GetOverlayDepth db) = Some (merged db1) ∧
            GetOverlayDepth (merged db1) = GetOverlayDepth db) as Hmerge.
  { intros db1 n1 H1. destruct (Hshape db1 n1 H1) as (c' & p' & Hs' & Hd' & Hp').
    unfold GetOverlayDepth at 1 3. rewrite <- Hp'. split.
    - apply (MergeTo_child db1 c' p' Hs'). rewrite Hd', Hp'. cbn. apply int64_succ_ne.
    - unfold GetOverlayDepth, merged. rewrite Hs'. cbn [state]. now rewrite this_update. }
  assert (snapshotOpsMerge db W net =
          match performAll dbS W net with
          | Some (db1, n1) => Some (merged db1, n1)
          | None => None
          end) as Hrun.
  { unfold snapshotOpsMerge. cbn [Snapshot]. fold dbS. munfold.
    change (withState db (Derive (state db) "snapshot")) with dbS.
    destruct (performAll dbS W net) as [[db1 n1]|] eqn:E; [|reflexivity].
    destruct (Hmerge db1 n1 eq_refl) as [-> _]. reflexivity. }
  split; [now rewrite Hrun, Heq|]. split.
  - intros db' net'. rewrite Hrun.
    destruct (performAll dbS W net) as [[db1 n1]|] eqn:E; [|discriminate].
    intros H. injection H as <- <-. now destruct (Hmerge db1 n1 eq_refl).
  - intros Hcan. rewrite Hrun.
    destruct (performAll_total W dbS net) as (db1 & n1 & -> & _); [exact Hcan|]. eauto.
Qed.

End Merge.

(** ** Reverting a snapshot *)

Section Warm.

Context {env : Env}.

Lemma addressOf_calcKey (tag a : list byte) :
  length tag = 32%nat → addressOf (calcKey tag a) = a.
Proof.
  intros Hlen. unfold addressOf, calcKey.
  rewrite list_byte_of_string_of_list_byte.
  rewrite drop_app_length'; [reflexivity|now symmetry].
Qed.

Lemma accountPad_entry (b : Z) (a : list byte) (pad : gmap string (list byte)) (k : string) :
  accountPad b a pad !! k =
  match pad !! k with
  | Some x => Some x
  | None => if decide (addressOf k = a) then entryOf b k else None
  end.
Proof.
  rewrite accountPad_lookup. destruct (pad !! k) as [x|]; [reflexivity|].
  unfold entryOf.
  destruct (decide (calcKey BALANCE_KEY a = k)) as [<-|HB].
  { rewrite !addressOf_calcKey by reflexivity. rewrite !decide_True by reflexivity. reflexivity. }
  destruct (decide (calcKey NONCE_KEY a = k)) as [<-|HN].
  { rewrite !addressOf_calcKey by reflexivity. rewrite (decide_True (P := a = a)) by reflexivity.
    rewrite decide_False by (intros E; symmetry in E; revert E; apply balance_ne_nonce).
    rewrite decide_True by reflexivity. reflexivity. }
  destruct (decide (calcKey CODE_KEY a = k)) as [<-|HC].
  { rewrite !addressOf_calcKey by reflexivity. rewrite (decide_True (P := a = a)) by reflexivity.
    rewrite decide_False by (intros E; symmetry in E; revert E; apply balance_ne_code).
    rewrite decide_False by (intros E; symmetry in E; revert E; apply nonce_ne_code).
    rewrite decide_True by reflexivity. reflexivity. }
  destruct (decide (calcKey CODEHASH_KEY a = k)) as [<-|HH].
  { rewrite !addressOf_calcKey by reflexivity. rewrite (decide_True (P := a = a)) by reflexivity.
    rewrite decide_False by (intros E; symmetry in E; revert E; apply balance_ne_codehash).
    rewrite decide_False by (intros E; symmetry in E; revert E; apply nonce_ne_codehash).
    rewrite decide_False by (intros E; symmetry in E; revert E; apply code_ne_codehash).
    rewrite decide_True by reflexivity. reflexivity. }
  destruct (decide (addressOf k = a)) as [<-|Ha]; [|reflexivity].
  rewrite !decide_False by congruence. reflexivity.
Qed.

Lemma accountPads_entry (b : Z) (accounts : list (list byte))
    (pad : gmap string (list byte)) (k : string) :
  accountPads b accounts pad !! k =
  match pad !! k with
  | Some x => Some x
  | None => if decide (addressOf k ∈ accounts) then entryOf b k else None
  end.
Proof.
  induction accounts as [|a accounts IH]; cbn [accountPads foldr].
  - destruct (pad !! k); [reflexivity|]. rewrite decide_False; [reflexivity|]. apply not_elem_of_nil.
  - fold (accountPads b accounts pad). rewrite accountPad_entry, IH.
    destruct (pad !! k) as [x|]; [reflexivity|].
    destruct (decide (addressOf k ∈ a :: accounts)) as [Hin|Hnin];
      destruct (decide (addressOf k ∈ accounts)) as [Hin'|Hnin'];
      destruct (decide (addressOf k = a)) as [Ha|Ha];
      try reflexivity;
      try (now destruct (entryOf b k));
      try (exfalso; apply Hnin; rewrite elem_of_cons; tauto).
    exfalso. apply elem_of_cons in Hin. tauto.
Qed.

Lemma shadowed_overlaid (s : OverlayState) (k : string) :
  shadowed s k =
  match overlaid s k with
  | Some v => Some v
  | None => scratchPad (this (getRootState s)) !! k
  end.
Proof.
  unfold overlaid. induction s as [l|l p IH].
  - now rewrite shadowed_Root.
  - rewrite shadowed_Derived. cbn [overlays omap list_omap getRootState].
    destruct (scratchPad l !! k); [reflexivity|exact IH].
Qed.

Lemma overlaid_graft (s : OverlayState) (l : Layer) (k : string) :
  overlaid (graft s (Root l)) k = overlaid s k.
Proof. unfold overlaid. now rewrite overlays_graft. Qed.

Lemma graft_graft (s : OverlayState) (l1 l2 : Layer) :
  graft (graft s (Root l1)) (Root l2) = graft s (Root l2).
Proof. induction s as [l|l p IH]; cbn; [reflexivity|now rewrite IH]. Qed.

Lemma pinnedBlock_withAccounts accounts cnt acc (s : OverlayState) :
  pinnedBlock (withAccounts accounts cnt acc s) = pinnedBlock s.
Proof. unfold withAccounts, pinnedBlock. now rewrite getRootState_graft. Qed.

Lemma canFetch_withAccounts accounts cnt acc (s : OverlayState) :
  canFetch s → canFetch (withAccounts accounts cnt acc s).
Proof. unfold withAccounts, canFetch. now rewrite getRootState_graft. Qed.

(** What a fetch of an account writes under the key of a read. *)
Lemma entryOf_key (b : Z) (action : RequestType) (account key : list byte) :
  entryOf b (scratchpadKeyOf action account key) =
  match action with
  | GET_STATE => None
  | _ => Some (upstreamValue b action account key)
  end.
Proof.
  unfold entryOf.
  destruct action; cbn [scratchpadKeyOf];
    try rewrite !addressOf_calcKey by reflexivity.
  - now rewrite decide_True.
  - rewrite decide_False by (intros E; symmetry in E; revert E; apply balance_ne_nonce).
    now rewrite decide_True.
  - rewrite decide_False by (intros E; symmetry in E; revert E; apply balance_ne_code).
    rewrite decide_False by (intros E; symmetry in E; revert E; apply nonce_ne_code).
    now rewrite decide_True.
  - rewrite decide_False by (intros E; symmetry in E; revert E; apply balance_ne_codehash).
    rewrite decide_False by (intros E; symmetry in E; revert E; apply nonce_ne_codehash).
    rewrite decide_False by (intros E; symmetry in E; revert E; apply code_ne_codehash).
    now rewrite decide_True.
  - rewrite !decide_False; [reflexivity|..];
      intros E; apply (f_equal (fun k => String.get 0 k)) in E; cbn in E; discriminate E.
Qed.

Lemma entryOf_suicide (b : Z) (account : list byte) :
  entryOf b (calcKey SUICIDE_KEY account) = None.
Proof.
  unfold entryOf. rewrite !addressOf_calcKey by reflexivity.
  rewrite !decide_False; [reflexivity|..]; key_ne.
Qed.

(** Fetching an account again, or in another order, gives the same
    scratchpad. *)
Lemma accountPad_absorbed (b : Z) (accounts : list (list byte)) (a : list byte)
    (pad : gmap string (list byte)) :
  a ∈ accounts →
  accountPads b accounts (accountPad b a pad) = accountPads b accounts pad.
Proof.
  intros Hin. apply map_eq. intros k.
  rewrite !accountPads_entry, accountPad_entry.
  destruct (pad !! k) as [x|]; [reflexivity|].
  destruct (decide (addressOf k = a)) as [Ha|Ha]; [|reflexivity].
  rewrite decide_True by (now rewrite Ha).
  now destruct (entryOf b k).
Qed.

Lemma accountPad_accountPads (b : Z) (accounts : list (list byte)) (a : list byte)
    (pad : gmap string (list byte)) :
  accountPad b a (accountPads b accounts pad) = accountPads b accounts (accountPad b a pad).
Proof.
  apply map_eq. intros k.
  rewrite accountPad_entry, !accountPads_entry, accountPad_entry.
  destruct (pad !! k) as [x|]; [reflexivity|].
  destruct (decide (addressOf k ∈ accounts)), (decide (addressOf k = a));
    destruct (entryOf b k); reflexivity.
Qed.

Lemma insert_accountPads (b : Z) (accounts : list (list byte))
    (pad : gmap string (list byte)) (k : string) (v : list byte) :
  <[k := v]> (accountPads b accounts pad) = accountPads b accounts (<[k := v]> pad).
Proof.
  apply map_eq. intros i.
  rewrite accountPads_entry, !lookup_insert, accountPads_entry.
  case_decide; reflexivity.
Qed.

Lemma root_of_withAccounts accounts cnt acc (s : OverlayState) :
  this (getRootState (withAccounts accounts cnt acc s))
  = warmRoot (pinnedBlock s) accounts cnt acc (this (getRootState s)).
Proof. unfold withAccounts. now rewrite getRootState_graft. Qed.

Lemma withAccounts_graft accounts cnt acc (s : OverlayState) (l : Layer) :
  bn l = bn (this (getRootState s)) →
  withAccounts accounts cnt acc (graft s (Root l))
  = graft s (Root (warmRoot (pinnedBlock s) accounts cnt acc l)).
Proof.
  intros Hbn. unfold withAccounts, pinnedBlock.
  rewrite graft_graft, getRootState_graft. cbn [this]. now rewrite Hbn.
Qed.

Lemma shadowed_withAccounts accounts cnt acc (s : OverlayState) (k : string) :
  shadowed (withAccounts accounts cnt acc s) k =
  match shadowed s k with
  | Some v => Some v
  | None => if decide (addressOf k ∈ accounts) then entryOf (pinnedBlock s) k else None
  end.
Proof.
  rewrite !shadowed_overlaid, root_of_withAccounts.
  unfold withAccounts. rewrite overlaid_graft.
  destruct (overlaid s k) as [v|]; [reflexivity|].
  cbn [warmRoot scratchPad withScratchPad]. rewrite accountPads_entry.
  now destruct (scratchPad (this (getRootState s)) !! k).
Qed.

(** A read answers the same on a chain and on the chain with a warmer
    root, whatever the transports do, and leaves again such a pair. *)
Lemma get_withAccounts (s : OverlayState) accounts cnt acc
    (account : list byte) (action : RequestType) (key : list byte) (net net2 : Net) :
  canFetch s →
  ∃ v s' n accounts' cnt' acc' n2,
    get s account action key net = Some ((v, None, s'), n) ∧
    get (withAccounts accounts cnt acc s) account action key net2
    = Some ((v, None, withAccounts accounts' cnt' acc' s'), n2) ∧
    canFetch s'.
Proof.
  intros Hcan.
  pose proof (shadowed_withAccounts accounts cnt acc s (scratchpadKeyOf action account key)) as Hsh2.
  destruct (shadowed s (scratchpadKeyOf action account key)) as [v|] eqn:Hsh.
  - exists v, s, net, accounts, cnt, acc, net2.
    split; [now apply get_hit|]. split; [now apply get_hit|exact Hcan].
  - destruct (get_miss s account action key net Hcan Hsh)
      as (cnt1 & acc1 & n & tr & Hget & _ & _).
    rewrite entryOf_key in Hsh2.
    assert (Hbn : bn (warmed (pinnedBlock s) account action key cnt1 acc1 (this (getRootState s)))
                  = bn (this (getRootState s))) by reflexivity.
    assert (Hcan' : canFetch (graft s (Root (warmed (pinnedBlock s) account action key cnt1 acc1
                                               (this (getRootState s))))))
      by now apply canFetch_graft_warmed.
    destruct (decide (action ≠ GET_STATE ∧
                      addressOf (scratchpadKeyOf action account key) ∈ accounts))
      as [[Hact Hin]|Hout].
    + (* the warmer root already holds the entry *)
      assert (shadowed (withAccounts accounts cnt acc s) (scratchpadKeyOf action account key)
              = Some (upstreamValue (pinnedBlock s) action account key)) as Hhit.
      { rewrite Hsh2, decide_True by exact Hin. now destruct action. }
      eexists _, _, n, accounts, cnt, acc, net2.
      split; [exact Hget|]. split; [|exact Hcan'].
      rewrite (get_hit _ _ _ _ net2 _ Hhit). do 3 f_equal.
      rewrite withAccounts_graft by exact Hbn.
      unfold withAccounts. f_equal. f_equal.
      assert (addressOf (scratchpadKeyOf action account key) = account) as Ha.
      { destruct action; cbn [scratchpadKeyOf]; try (now apply addressOf_calcKey); done. }
      rewrite Ha in Hin.
      unfold warmRoot, warmed. cbn [scratchPad withScratchPad withAccessedAccounts withRpcCnt].
      replace (match action with
               | GET_STATE => _
               | _ => accountPad (pinnedBlock s) account (scratchPad (this (getRootState s)))
               end) with (accountPad (pinnedBlock s) account (scratchPad (this (getRootState s))))
        by (destruct action; done).
      rewrite accountPad_absorbed by exact Hin.
      now destruct (this (getRootState s)).
    + (* both roots fetch *)
      assert (shadowed (withAccounts accounts cnt acc s) (scratchpadKeyOf action account key)
              = None) as Hmiss2.
      { rewrite Hsh2. destruct (decide (_ ∈ accounts)) as [Hin|]; [|reflexivity].
        destruct action; try reflexivity; exfalso; apply Hout; done. }
      destruct (get_miss _ account action key net2 (canFetch_withAccounts accounts cnt acc s Hcan) Hmiss2)
        as (cnt2 & acc2 & n2 & tr2 & Hget2 & _ & _).
      rewrite pinnedBlock_withAccounts in Hget2.
      eexists _, _, n, accounts, cnt2, acc2, n2.
      split; [exact Hget|]. split; [|exact Hcan'].
      rewrite Hget2. do 3 f_equal.
      rewrite withAccounts_graft by exact Hbn.
      unfold withAccounts at 1. rewrite graft_graft, root_of_withAccounts. f_equal. f_equal.
      unfold warmRoot, warmed. cbn [scratchPad withScratchPad withAccessedAccounts withRpcCnt].
      destruct action; cbn [scratchpadKeyOf];
        rewrite ?accountPad_accountPads, ?insert_accountPads;
        now destruct (this (getRootState s)).
Qed.

Lemma read_warm (db : OverlayStateDB) accounts cnt acc
    (account : list byte) (action : RequestType) (key : list byte) (net net2 : Net) :
  canFetch (state db) →
  ∃ v db' n accounts' cnt' acc' n2,
    read db account action key net = Some ((v, db'), n) ∧
    read (warmDB accounts cnt acc db) account action key net2
    = Some ((v, warmDB accounts' cnt' acc' db'), n2) ∧
    canFetch (state db').
Proof.
  intros Hcan.
  destruct (get_withAccounts (state db) accounts cnt acc account action key net net2 Hcan)
    as (v & s' & n & accounts' & cnt' & acc' & n2 & Hg & Hg2 & Hcan').
  exists v, (withState db s'), n, accounts', cnt', acc', n2.
  unfold read, warmDB. cbn [state]. munfold. rewrite Hg, Hg2.
  split; [reflexivity|]. split; [reflexivity|exact Hcan'].
Qed.

Lemma this_graft (s : OverlayState) (l : Layer) :
  this (graft s (Root l)) = match s with Root _ => l | Derived c _ => c end.
Proof. now destruct s. Qed.

Lemma HasSuicided_warm (db : OverlayStateDB) accounts cnt acc (account : list byte) :
  HasSuicided (warmDB accounts cnt acc db) account = HasSuicided db account.
Proof.
  unfold HasSuicided, warmDB, withAccounts. cbn [state]. rewrite this_graft.
  destruct (state db) as [l|c p]; [|reflexivity].
  cbn [this getRootState warmRoot scratchPad withScratchPad].
  rewrite accountPads_entry, entryOf_suicide.
  destruct (scratchPad l !! calcKey SUICIDE_KEY account); [reflexivity|].
  now destruct (decide _).
Qed.

Lemma logsWalk_graft (s : OverlayState) (l : Layer) :
  txLogs l = txLogs (this (getRootState s)) →
  ∀ txHash logs, logsWalk (graft s (Root l)) txHash logs = logsWalk s txHash logs.
Proof.
  intros Hl. induction s as [l0|c p IH]; intros txHash logs; cbn in *.
  - now rewrite Hl.
  - now rewrite IH.
Qed.

Lemma GetLogs_warm (db : OverlayStateDB) accounts cnt acc (txHash : list byte) :
  GetLogs (warmDB accounts cnt acc db) txHash = GetLogs db txHash.
Proof. unfold GetLogs, warmDB, withAccounts. cbn [state]. now apply logsWalk_graft. Qed.

Lemma GetReceipt_warm (db : OverlayStateDB) accounts cnt acc (txHash : list byte) :
  fst (GetReceipt (warmDB accounts cnt acc db) txHash) = fst (GetReceipt db txHash).
Proof.
  unfold GetReceipt. rewrite GetLogs_warm.
  pose proof (receiptWalk_spec (state (warmDB accounts cnt acc db)) txHash (GetLogs db txHash)) as H2.
  pose proof (receiptWalk_spec (state db) txHash (GetLogs db txHash)) as H1.
  destruct (receiptWalk (state (warmDB accounts cnt acc db)) txHash (GetLogs db txHash)).
  destruct (receiptWalk (state db) txHash (GetLogs db txHash)).
  cbn [fst] in *. rewrite H1, H2. unfold warmDB, withAccounts. cbn [state].
  now rewrite overlays_graft.
Qed.

Lemma Empty_warm (db : OverlayStateDB) accounts cnt acc (account : list byte)
    (net net2 : Net) :
  canFetch (state db) →
  ∃ e db' n accounts' cnt' acc' n2,
    Empty db account net = Some ((e, db'), n) ∧
    Empty (warmDB accounts cnt acc db) account net2
    = Some ((e, warmDB accounts' cnt' acc' db'), n2).
Proof.
  intros Hcan. unfold Empty, GetCode, GetNonce, GetBalance. munfold.
  destruct (read_warm db accounts cnt acc account GET_CODE zeroHash net net2 Hcan)
    as (v1 & db1 & n1 & as1 & c1 & a1 & m1 & -> & -> & Hcan1).
  destruct (read_warm db1 as1 c1 a1 account GET_NONCE zeroHash n1 m1 Hcan1)
    as (v2 & db2 & n2 & as2 & c2 & a2 & m2 & -> & -> & Hcan2).
  destruct (read_warm db2 as2 c2 a2 account GET_BALANCE zeroHash n2 m2 Hcan2)
    as (v3 & db3 & n3 & as3 & c3 & a3 & m3 & -> & -> & Hcan3).
  eexists _, _, _, _, _, _, _. split; reflexivity.
Qed.

(** Every query but the size of the cache is answered alike by a facade
    and by the facade over the warmer root. *)
Lemma ask_warm (db : OverlayStateDB) accounts cnt acc (q : Query) (net net2 : Net) :
  canFetch (state db) →
  q ≠ Q_CacheSize →
  cnt = rpcCnt (this (getRootState (state db))) →
  answer (ask (warmDB accounts cnt acc db) q) net2 = answer (ask db q) net.
Proof.
  intros Hcan Hq Hcnt.
  destruct q; cbn [ask]; unfold answer, answering, GetBalance, GetNonce, GetCode,
    GetCodeHash, GetCodeSize, GetState, GetCommittedState, Exist; munfold.
  1-7: match goal with
       | |- context [read _ ?a ?act ?k _] =>
           destruct (read_warm db accounts cnt acc a act k net net2 Hcan)
             as (v & db' & n & as' & c' & a' & n2 & -> & -> & _)
       end; reflexivity.
  - now rewrite HasSuicided_warm.
  - destruct (Empty_warm db accounts cnt acc account net net2 Hcan)
      as (e & db' & n & as' & c' & a' & n2 & -> & ->). reflexivity.
  - destruct (Empty_warm db accounts cnt acc account net net2 Hcan)
      as (e & db' & n & as' & c' & a' & n2 & -> & ->). reflexivity.
  - reflexivity.
  - now rewrite GetLogs_warm.
  - pose proof (GetReceipt_warm db accounts cnt acc txHash) as H.
    destruct (GetReceipt (warmDB accounts cnt acc db) txHash), (GetReceipt db txHash).
    cbn in *. now rewrite H.
  - unfold GetOverlayDepth, warmDB, withAccounts. cbn [state].
    rewrite deriveCnt_graft; reflexivity.
  - unfold RPCRequestCount, warmDB, withAccounts. cbn [state].
    rewrite getRootState_graft. cbn. now rewrite Hcnt.
  - done.
Qed.

Lemma withAccounts_nil (s : OverlayState) :
  withAccounts [] (rpcCnt (this (getRootState s))) (accessedAccounts (this (getRootState s))) s = s.
Proof.
  unfold withAccounts, warmRoot. cbn [accountPads foldr].
  replace (withScratchPad _ _) with (this (getRootState s)) by now destruct (this (getRootState s)).
  rewrite <- getRootState_Root. apply graft_root.
Qed.

Lemma deriveCnt_withAccounts accounts cnt acc (s : OverlayState) :
  deriveCnt (this (withAccounts accounts cnt acc s)) = deriveCnt (this s).
Proof. unfold withAccounts. now apply deriveCnt_graft. Qed.

(** A read in the layer of the snapshot warms the root at most by the
    account read, and counts no request. *)
Lemma get_warms (s : OverlayState) accounts acc (account : list byte)
    (action : RequestType) (key : list byte) (net : Net) :
  canFetch s → action ≠ GET_STATE →
  ∃ v accounts' acc' n,
    get (withAccounts accounts (rpcCnt (this (getRootState s))) acc s) account action key net
    = Some ((v, None,
             withAccounts accounts' (rpcCnt (this (getRootState s))) acc' s), n).
Proof.
  intros Hcan Hact.
  set (P := withAccounts accounts (rpcCnt (this (getRootState s))) acc s).
  assert (HcanP : canFetch P) by now apply canFetch_withAccounts.
  destruct (shadowed P (scratchpadKeyOf action account key)) as [v|] eqn:Hsh.
  - exists v, accounts, acc, net. now apply get_hit.
  - destruct (get_miss P account action key net HcanP Hsh)
      as (cnt1 & acc1 & n & tr & Hget & _ & Hcnt).
    specialize (Hcnt Hact).
    eexists _, (account :: accounts), acc1, n. rewrite Hget. do 3 f_equal.
    subst P. rewrite pinnedBlock_withAccounts, root_of_withAccounts in *.
    unfold withAccounts at 1. rewrite graft_graft.
    unfold withAccounts. f_equal. f_equal.
    rewrite Hcnt. unfold warmRoot, warmed.
    cbn [scratchPad withScratchPad withAccessedAccounts withRpcCnt rpcCnt accountPads foldr].
    destruct action; try done; now destruct (this (getRootState s)).
Qed.

Lemma read_in_snapshot (db : OverlayStateDB) (c : Layer) (s : OverlayState)
    accounts acc (account : list byte) (action : RequestType) (key : list byte)
    (net : Net) :
  canFetch s → action ≠ GET_STATE →
  state db = Derived c (withAccounts accounts (rpcCnt (this (getRootState s))) acc s) →
  ∃ v db' n accounts' acc',
    read db account action key net = Some ((v, db'), n) ∧
    state db' = Derived c (withAccounts accounts' (rpcCnt (this (getRootState s))) acc' s) ∧
    refundGas db' = refundGas db.
Proof.
  intros Hcan Hact Hs. unfold read. rewrite Hs. cbn [get].
  destruct (scratchPad c !! scratchpadKeyOf action account key) as [x|].
  - munfold. eexists x, _, net, accounts, acc. split; [reflexivity|]. split; reflexivity.
  - munfold.
    destruct (get_warms s accounts acc account action key net Hcan Hact)
      as (v & accounts' & acc' & n & ->).
    eexists v, _, n, accounts', acc'. split; [reflexivity|]. split; reflexivity.
Qed.

Lemma perform_in_snapshot (db : OverlayStateDB) (c : Layer) (s : OverlayState)
    accounts acc (o : Op) (net : Net) :
  canFetch s →
  state db = Derived c (withAccounts accounts (rpcCnt (this (getRootState s))) acc s) →
  ∃ db' n c' accounts' acc',
    perform db o net = Some (db', n) ∧
    state db' = Derived c' (withAccounts accounts' (rpcCnt (this (getRootState s))) acc' s) ∧
    deriveCnt c' = deriveCnt c ∧
    refundGas db' = refundGas db.
Proof.
  intros Hcan Hs. destruct o as [w|account delta|account delta]; cbn [perform].
  - destruct (write_child db w _ _ Hs) as (c' & Hw & Hd).
    exists (write db w), net, c', accounts, acc. rewrite Hw. cbn. done.
  - unfold AddBalance. munfold.
    destruct (read_in_snapshot db c s accounts acc account GET_BALANCE zeroHash net Hcan
                ltac:(done) Hs) as (v & db1 & n & accounts' & acc' & -> & Hs1 & Hg1).
    destruct (store_Derived db1 _ _ (calcKey BALANCE_KEY account) (Bytes (SetBytes v + delta)) Hs1)
      as (c' & Hst & Hd).
    eexists _, n, c', accounts', acc'. split; [reflexivity|]. split; [exact Hst|].
    split; [exact Hd|]. cbn. exact Hg1.
  - unfold SubBalance. munfold.
    destruct (read_in_snapshot db c s accounts acc account GET_BALANCE zeroHash net Hcan
                ltac:(done) Hs) as (v & db1 & n & accounts' & acc' & -> & Hs1 & Hg1).
    destruct (store_Derived db1 _ _ (calcKey BALANCE_KEY account) (Bytes (SetBytes v - delta)) Hs1)
      as (c' & Hst & Hd).
    eexists _, n, c', accounts', acc'. split; [reflexivity|]. split; [exact Hst|].
    split; [exact Hd|]. cbn. exact Hg1.
Qed.

Lemma performAll_in_snapshot (W : list Op) :
  ∀ (db : OverlayStateDB) (c : Layer) (s : OverlayState) accounts acc (net : Net),
    canFetch s →
    state db = Derived c (withAccounts accounts (rpcCnt (this (getRootState s))) acc s) →
    ∃ db' n c' accounts' acc',
      performAll db W net = Some (db', n) ∧
      state db' = Derived c' (withAccounts accounts' (rpcCnt (this (getRootState s))) acc' s) ∧
      deriveCnt c' = deriveCnt c ∧
      refundGas db' = refundGas db.
Proof.
  induction W as [|o W IH]; intros db c s accounts acc net Hcan Hs; cbn [performAll].
  - exists db, net, c, accounts, acc. done.
  - munfold.
    destruct (perform_in_snapshot db c s accounts acc o net Hcan Hs)
      as (db1 & n1 & c1 & as1 & acc1 & -> & Hs1 & Hd1 & Hg1).
    destruct (IH db1 c1 s as1 acc1 n1 Hcan Hs1)
      as (db2 & n2 & c2 & as2 & acc2 & -> & Hs2 & Hd2 & Hg2).
    exists db2, n2, c2, as2, acc2. split; [reflexivity|]. split; [exact Hs2|].
    split; congruence.
Qed.

Lemma revertWalk_here (s : OverlayState) (id : Z) :
  int64 (deriveCnt (this s) + 1) = id → revertWalk s id = Some s.
Proof. intros <-. destruct s; cbn [revertWalk this]; now rewrite Z.eqb_refl. Qed.

(** Revert purity for every kind of write: the facade comes back with, at
    most, a warmer root. *)
Lemma snapshotOpsRevert_warm (db : OverlayStateDB) (W : list Op) (net : Net) :
  canFetch (state db) →
  ∃ dbW netW accounts acc,
    performAll (snd (Snapshot db)) W net = Some (dbW, netW) ∧
    RevertToSnapshot dbW (fst (Snapshot db))
    = Some (warmDB accounts (rpcCnt (this (getRootState (state db)))) acc db).
Proof.
  intros Hcan.
  assert (state (snd (Snapshot db))
          = Derived (this (Derive (state db) "snapshot"))
              (withAccounts [] (rpcCnt (this (getRootState (state db))))
                 (accessedAccounts (this (getRootState (state db)))) (state db))) as Hs
    by now rewrite withAccounts_nil.
  destruct (performAll_in_snapshot W _ _ _ _ _ net Hcan Hs)
    as (dbW & netW & c' & accounts & acc & Hrun & HsW & Hd & Hg).
  exists dbW, netW, accounts, acc. split; [exact Hrun|].
  unfold RevertToSnapshot. rewrite HsW. cbn [Parent mbind option_bind].
  rewrite revertWalk_here by (rewrite deriveCnt_withAccounts; reflexivity).
  cbn. unfold warmDB, withState. now rewrite Hg.
Qed.

(** C2, revert purity.  [id = Snapshot()], any sequence of setter, log and
    receipt writes, then [RevertToSnapshot(id)] returns and gives back the
    very facade it started from, on an untouched transport, so every query
    is answered as before the snapshot.  With [AddBalance] and [SubBalance]
    among the writes, and a root that can fetch, the sequence returns too;
    the revert itself leaves the transport alone, and the facade it gives
    answers every query as the starting one did, the size of the cache
    apart, which the reads of the two may have enlarged. *)
Theorem revert_purity (db : OverlayStateDB) (net : Net) :
  (∀ W : list Write,
     snapshotWritesRevert db W net = Some (db, net) ∧
     ∀ q : Query,
       (db' ← snapshotWritesRevert db W; ask db' q) net = ask db q net) ∧
  (∀ W : list Op,
     canFetch (state db) →
     ∃ dbW netW db',
       performAll (snd (Snapshot db)) W net = Some (dbW, netW) ∧
       RevertToSnapshot dbW (fst (Snapshot db)) = Some db' ∧
       snapshotOpsRevert db W net = Some (db', netW) ∧
       ∀ (q : Query) (n n' : Net),
         q ≠ Q_CacheSize → answer (ask db' q) n' = answer (ask db q) n).
Proof.
  split.
  - intros W.
    assert (snapshotWritesRevert db W net = Some (db, net)) as H.
    { unfold snapshotWritesRevert. cbn [Snapshot].
      destruct (writes_child W (withState db (Derive (state db) "snapshot")) _ _ eq_refl)
        as (c' & -> & Hd).
      cbn [this Derive deriveCnt refundGas withState] in *.
      pose proof (revert_child db c' ltac:(now rewrite Hd)) as Hrev.
      rewrite Hd in Hrev. unfold withState in *. cbn [refundGas] in *.
      rewrite Hrev. reflexivity. }
    split; [exact H|].
    intros q. munfold. now rewrite H.
  - intros W Hcan.
    destruct (snapshotOpsRevert_warm db W net Hcan)
      as (dbW & netW & accounts & acc & Hrun & Hrev).
    eexists dbW, netW, _. split; [exact Hrun|]. split; [exact Hrev|]. split.
    + unfold snapshotOpsRevert.
      change (Snapshot db) with (fst (Snapshot db), snd (Snapshot db)).
      munfold. cbn beta iota. rewrite Hrun, Hrev. reflexivity.
    + intros q n n' Hq. now apply ask_warm.
Qed.

End Warm.

(** ** Batching and retries *)

Section Batching.

Context {env : Env}.


Lemma stateWindows_shape (fuel : nat) :
  ∀ (reqs : list BatchElem) (step begin : Z) (net : Net),
    0 < step → 0 ≤ begin →
    (Z.to_nat (Z.of_nat (length reqs) - begin) < fuel)%nat →
    ∃ err net' ws,
      stateWindows fuel reqs step begin net = Some (err, net') ∧
      Forall (fun w => 0 < Z.of_nat (length w) ≤ step) ws ∧
      match err with
      | None => advances net net' (passed ws) ∧ concat ws = drop (Z.to_nat begin) reqs
      | Some e =>
          ∃ w rest,
            advances net net' (passed ws ++ [EvBatchCall w (Some e)]) ∧
            0 < Z.of_nat (length w) ≤ step ∧
            concat ws ++ w ++ rest = drop (Z.to_nat begin) reqs
      end.
Proof.
  induction fuel as [|fuel IH]; intros reqs step begin net Hstep Hbegin Hfuel; [lia|].
  cbn [stateWindows].
  destruct (Z.ltb_spec begin (Z.of_nat (length reqs))) as [Hlt|Hge].
  - set (end_ := if begin + step >? Z.of_nat (length reqs) then _ else _).
    assert (Hend : begin < end_ ∧ end_ ≤ Z.of_nat (length reqs) ∧ end_ ≤ begin + step
                    ∧ (end_ < begin + step → end_ = Z.of_nat (length reqs))).
    { subst end_. destruct (Z.gtb_spec (begin + step) (Z.of_nat (length reqs))); lia. }
    munfold. rewrite slice_ok by lia.
    set (w := take (Z.to_nat (end_ - begin)) (drop (Z.to_nat begin) reqs)).
    assert (Hw : 0 < Z.of_nat (length w) ≤ step).
    { subst w. rewrite length_take, length_drop. lia. }
    assert (Hsplit : w ++ drop (Z.to_nat (begin + step)) reqs = drop (Z.to_nat begin) reqs).
    { subst w. destruct (Z.ltb_spec end_ (begin + step)) as [Hshort|Hfull].
      - destruct Hend as (_ & _ & _ & Heq). specialize (Heq Hshort).
        rewrite (drop_ge reqs (Z.to_nat (begin + step))) by lia.
        rewrite app_nil_r. apply take_ge. rewrite length_drop. lia.
      - assert (end_ = begin + step) as -> by lia.
        replace (Z.to_nat (begin + step))
          with (Z.to_nat begin + Z.to_nat (begin + step - begin))%nat by lia.
        rewrite <- drop_drop. apply take_drop. }
    destruct (BatchCallContext_spec w net) as (err & net1 & -> & Hadv).
    destruct err as [e|].
    + exists (Some e), net1, []. split; [reflexivity|]. split; [constructor|].
      exists w, (drop (Z.to_nat (begin + step)) reqs).
      split; [exact Hadv|]. split; [exact Hw|exact Hsplit].
    + destruct (IH reqs step (begin + step) net1 Hstep ltac:(lia) ltac:(lia))
        as (err & net2 & ws & -> & Hall & Hres).
      exists err, net2, (w :: ws). split; [reflexivity|].
      split; [constructor; [exact Hw|exact Hall]|].
      destruct err as [e|].
      * destruct Hres as (w' & rest & Hadv2 & Hw' & Hcat).
        exists w', rest. split; [exact (advances_trans _ _ _ _ _ Hadv Hadv2)|].
        split; [exact Hw'|]. cbn [concat]. rewrite <- app_assoc, Hcat. exact Hsplit.
      * destruct Hres as (Hadv2 & Hcat).
        split; [exact (advances_trans _ _ _ _ _ Hadv Hadv2)|].
        cbn [concat]. rewrite Hcat. exact Hsplit.
  - munfold. exists None, net, []. split; [reflexivity|]. split; [constructor|].
    split; [apply advances_refl|]. rewrite drop_ge by lia. reflexivity.
Qed.

Lemma loadStateBatchRPC_shape (s : Layer) (reqs : list StorageReq) (net : Net) (b : Z) :
  bn s = Some b → 0 < batchSize s →
  ∃ err out net' ws,
    loadStateBatchRPC s reqs net
    = Some ((err, out, withRpcCnt s (int64 (rpcCnt s + 1))), net') ∧
    Forall (fun w => 0 < Z.of_nat (length w) ≤ batchSize s) ws ∧
    match err with
    | None =>
        advances net net' (passed ws) ∧ out = map (storageAnswer b) reqs ∧
        concat ws = map (storageElem b) reqs
    | Some e =>
        out = reqs ∧
        ∃ w rest,
          advances net net' (passed ws ++ [EvBatchCall w (Some e)]) ∧
          0 < Z.of_nat (length w) ≤ batchSize s ∧
          concat ws ++ w ++ rest = map (storageElem b) reqs
    end.
Proof.
  intros Hbn Hstep. unfold loadStateBatchRPC. cbn [bn withRpcCnt batchSize].
  rewrite Hbn. munfold.
  destruct (stateWindows_shape (S (length (map (storageElem b) reqs)))
              (map (storageElem b) reqs) (batchSize s) 0 net Hstep ltac:(lia) ltac:(lia))
    as (err & net' & ws & -> & Hall & Hres).
  change (Z.to_nat 0) with 0%nat in Hres. rewrite drop_0 in Hres.
  destruct err as [e|].
  - exists (Some e), reqs, net', ws. split; [reflexivity|]. split; [exact Hall|].
    split; [reflexivity|exact Hres].
  - exists None, (map (storageAnswer b) reqs), net', ws.
    split; [reflexivity|]. split; [exact Hall|].
    destruct Hres as [Hadv Hcat]. done.
Qed.

Lemma accountAttempts_shape (fuel : nat) :
  ∀ (window : list BatchElem) (t : Z) (net : Net),
    0 ≤ t ≤ 5 → 6 - t ≤ Z.of_nat fuel →
    ∃ err t' net' es,
      accountAttempts fuel window t net = Some ((err, t'), net') ∧
      advances net net' (attempts 100 window es err) ∧
      match err with
      | Some _ => t + Z.of_nat (length es) = 5 ∧ t' = 6
      | None => t' = t + Z.of_nat (length es) ∧ t' ≤ 5
      end.
Proof.
  induction fuel as [|fuel IH]; intros window t net Ht Hfuel; [lia|].
  cbn [accountAttempts]. munfold.
  destruct (BatchCallContext_spec window net) as (err & net1 & -> & Hadv1).
  destruct err as [e|].
  - destruct (Z.gtb_spec (t + 1) 5) as [Hout|Hin].
    + exists (Some e), (t + 1), net1, []. split; [reflexivity|].
      split; [exact Hadv1|]. cbn [length]. lia.
    + destruct (Sleep_spec 100 net1) as (net2 & -> & Hadv2).
      destruct (IH window (t + 1) net2 ltac:(lia) ltac:(lia))
        as (err & t' & net3 & es & -> & Hadv3 & Hres).
      exists err, t', net3, (e :: es). split; [reflexivity|]. split.
      * exact (advances_trans _ _ _ _ _ Hadv1 (advances_trans _ _ _ _ _ Hadv2 Hadv3)).
      * cbn [length]. destruct err; lia.
  - exists None, t, net1, []. split; [reflexivity|]. split; [exact Hadv1|].
    cbn [length]. lia.
Qed.

Lemma accountWindows_shape (fuel : nat) :
  ∀ (batchElem : list BatchElem) (step begin t : Z) (net : Net),
    0 < step → 0 ≤ begin → 0 ≤ t ≤ 5 →
    (Z.to_nat (Z.of_nat (length batchElem) - begin) + 7 ≤ fuel)%nat →
    ∃ err net' ws ess,
      accountWindows fuel batchElem step begin t net = Some (err, net') ∧
      length ess = length ws ∧
      Forall (fun w => 0 < Z.of_nat (length w) ≤ step) ws ∧
      match err with
      | None =>
          advances net net' (served 100 ws ess) ∧
          concat ws = drop (Z.to_nat begin) batchElem ∧
          t + Z.of_nat (length (concat ess)) ≤ 5
      | Some e =>
          ∃ w es rest,
            advances net net' (served 100 ws ess ++ attempts 100 w es (Some e)) ∧
            0 < Z.of_nat (length w) ≤ step ∧
            concat ws ++ w ++ rest = drop (Z.to_nat begin) batchElem ∧
            t + Z.of_nat (length (concat ess)) + Z.of_nat (length es) = 5
      end.
Proof.
  induction fuel as [|fuel IH]; intros batchElem step begin t net Hstep Hbegin Ht Hfuel; [lia|].
  cbn [accountWindows].
  destruct (Z.ltb_spec begin (Z.of_nat (length batchElem))) as [Hlt|Hge].
  - set (end_ := if begin + step >? Z.of_nat (length batchElem) then _ else _).
    assert (Hend : begin < end_ ∧ end_ ≤ Z.of_nat (length batchElem) ∧ end_ ≤ begin + step
                    ∧ (end_ < begin + step → end_ = Z.of_nat (length batchElem))).
    { subst end_. destruct (Z.gtb_spec (begin + step) (Z.of_nat (length batchElem))); lia. }
    munfold. rewrite slice_ok by lia.
    set (w := take (Z.to_nat (end_ - begin)) (drop (Z.to_nat begin) batchElem)).
    assert (Hw : 0 < Z.of_nat (length w) ≤ step).
    { subst w. rewrite length_take, length_drop. lia. }
    assert (Hsplit : w ++ drop (Z.to_nat (begin + step)) batchElem
                     = drop (Z.to_nat begin) batchElem).
    { subst w. destruct (Z.ltb_spec end_ (begin + step)) as [Hshort|Hfull].
      - destruct Hend as (_ & _ & _ & Heq). specialize (Heq Hshort).
        rewrite (drop_ge batchElem (Z.to_nat (begin + step))) by lia.
        rewrite app_nil_r. apply take_ge. rewrite length_drop. lia.
      - assert (end_ = begin + step) as -> by lia.
        replace (Z.to_nat (begin + step))
          with (Z.to_nat begin + Z.to_nat (begin + step - begin))%nat by lia.
        rewrite <- drop_drop. apply take_drop. }
    destruct (accountAttempts_shape fuel w t net Ht ltac:(lia))
      as (err & t' & net1 & es & -> & Hadv1 & Hres).
    destruct err as [e|].
    + exists (Some e), net1, [], []. split; [reflexivity|]. split; [reflexivity|].
      split; [constructor|].
      exists w, es, (drop (Z.to_nat (begin + step)) batchElem).
      split; [exact Hadv1|]. split; [exact Hw|]. split; [exact Hsplit|].
      cbn [concat length]. lia.
    + destruct Hres as [-> H5].
      destruct (IH batchElem step (begin + step) (t + Z.of_nat (length es)) net1
                  Hstep ltac:(lia) ltac:(lia) ltac:(lia))
        as (err & net2 & ws & ess & -> & Hlen & Hall & Hres2).
      exists err, net2, (w :: ws), (es :: ess). split; [reflexivity|].
      split; [cbn [length]; now rewrite Hlen|].
      split; [constructor; [exact Hw|exact Hall]|].
      destruct err as [e|].
      * destruct Hres2 as (w' & es' & rest & Hadv2 & Hw' & Hcat & Hcnt).
        exists w', es', rest. split.
        { unfold served. cbn [zip_with concat]. rewrite <- app_assoc.
          exact (advances_trans _ _ _ _ _ Hadv1 Hadv2). }
        split; [exact Hw'|]. split.
        { cbn [concat]. rewrite <- app_assoc, Hcat. exact Hsplit. }
        cbn [concat]. rewrite length_app. lia.
      * destruct Hres2 as (Hadv2 & Hcat & Hcnt). split.
        { unfold served. cbn [zip_with concat].
          exact (advances_trans _ _ _ _ _ Hadv1 Hadv2). }
        split; [cbn [concat]; rewrite Hcat; exact Hsplit|].
        cbn [concat]. rewrite length_app. lia.
  - munfold. exists None, net, [], []. split; [reflexivity|]. split; [reflexivity|].
    split; [constructor|]. split; [apply advances_refl|].
    split; [rewrite drop_ge by lia; reflexivity|]. cbn [concat length]. lia.
Qed.

Lemma loadAccountBatchRPC_shape (s : Layer) (accounts : list (list byte)) (net : Net) (b : Z) :
  bn s = Some b → 0 < batchSize s →
  ∃ err out net' ws ess,
    loadAccountBatchRPC s accounts net
    = Some ((out, err,
             withAccessedAccounts s (markAccessed (accessedAccounts s) accounts)), net') ∧
    length ess = length ws ∧
    Forall (fun w => 0 < Z.of_nat (length w) ≤ batchSize s) ws ∧
    match err with
    | None =>
        advances net net' (served 100 ws ess) ∧
        out = map (accountAnswer b) accounts ∧
        concat ws = flat_map (accountElems b) accounts ∧
        (length (concat ess) ≤ 5)%nat
    | Some e =>
        out = [] ∧
        ∃ w es rest,
          advances net net' (served 100 ws ess ++ attempts 100 w es (Some e)) ∧
          0 < Z.of_nat (length w) ≤ batchSize s ∧
          concat ws ++ w ++ rest = flat_map (accountElems b) accounts ∧
          (length (concat ess) + length es = 5)%nat
    end.
Proof.
  intros Hbn Hstep. unfold loadAccountBatchRPC. rewrite Hbn.
  cbn [batchSize withAccessedAccounts]. munfold.
  destruct (accountWindows_shape (length (flat_map (accountElems b) accounts) + 7)
              (flat_map (accountElems b) accounts) (batchSize s) 0 0 net
              Hstep ltac:(lia) ltac:(lia) ltac:(lia))
    as (err & net' & ws & ess & -> & Hlen & Hall & Hres).
  change (Z.to_nat 0) with 0%nat in Hres. rewrite drop_0 in Hres.
  destruct err as [e|].
  - destruct Hres as (w & es & rest & Hadv & Hw & Hcat & Hcnt).
    exists (Some e), [], net', ws, ess. split; [reflexivity|]. split; [exact Hlen|].
    split; [exact Hall|]. split; [reflexivity|].
    exists w, es, rest. split; [exact Hadv|]. split; [exact Hw|]. split; [exact Hcat|lia].
  - destruct Hres as (Hadv & Hcat & Hcnt).
    exists None, (map (accountAnswer b) accounts), net', ws, ess.
    split; [reflexivity|]. split; [exact Hlen|]. split; [exact Hall|].
    split; [exact Hadv|]. split; [reflexivity|]. split; [exact Hcat|lia].
Qed.

(** The loop of the coalescer around the slot fetch: every failed round is
    followed by a pause of a second and by a new round on the same
    requests, until a round goes through. *)
Lemma storageRetry_shape (fuel : nat) :
  ∀ (s : Layer) (pending : list StorageReq) (net : Net) (b : Z),
    bn s = Some b → 0 < batchSize s →
    (length (script net) < fuel)%nat →
    ∃ s' net' rounds ws,
      storageRetry fuel s pending net
      = Some ((map (storageAnswer b) pending, s'), net') ∧
      advances net net' (concat (map (failedRound 1000) rounds) ++ passed ws) ∧
      Forall (fun r => windowsOf (batchSize s) (map (storageElem b) pending)
                         (fst (fst r) ++ [snd (fst r)])) rounds ∧
      Forall (fun w => 0 < Z.of_nat (length w) ≤ batchSize s) ws ∧
      concat ws = map (storageElem b) pending.
Proof.
  induction fuel as [|fuel IH]; intros s pending net b Hbn Hstep Hfuel; [lia|].
  cbn [storageRetry]. munfold.
  destruct (loadStateBatchRPC_shape s pending net b Hbn Hstep)
    as (err & out & net1 & ws & -> & Hall & Hres).
  destruct err as [e|].
  - destruct Hres as (-> & w & rest & Hadv1 & Hw & Hcat).
    destruct (Sleep_spec 1000 net1) as (net2 & -> & Hadv2).
    pose proof Hadv1 as (_ & _ & Hlt & _).
    assert (failures (passed ws ++ [EvBatchCall w (Some e)]) ≠ []) as Hne.
    { rewrite failures_app. cbn. intros E. apply app_eq_nil in E. destruct E as [_ E].
      discriminate E. }
    specialize (Hlt Hne).
    pose proof Hadv2 as (_ & Hle2 & _ & _).
    destruct (IH (withRpcCnt s (int64 (rpcCnt s + 1))) pending net2 b Hbn Hstep ltac:(lia))
      as (s' & net3 & rounds & ws' & -> & Hadv3 & Hrounds & Hall' & Hcat').
    exists s', net3, ((ws, w, e) :: rounds), ws'. split; [reflexivity|]. split.
    + cbn [map concat]. unfold failedRound at 1. cbn [fst snd].
      pose proof (advances_trans _ _ _ _ _ Hadv1
                    (advances_trans _ _ _ _ _ Hadv2 Hadv3)) as H.
      rewrite <- !app_assoc in H. rewrite <- !app_assoc. exact H.
    + split; [|split; [exact Hall'|exact Hcat']].
      constructor; [|exact Hrounds]. cbn [fst snd]. split.
      * apply Forall_app. split; [exact Hall|]. constructor; [exact Hw|constructor].
      * exists rest. rewrite concat_app. cbn [concat]. rewrite app_nil_r, <- app_assoc.
        exact Hcat.
  - destruct Hres as (Hadv & -> & Hcat).
    exists (withRpcCnt s (int64 (rpcCnt s + 1))), net1, [], ws.
    split; [reflexivity|]. split; [exact Hadv|]. split; [constructor|].
    split; [exact Hall|exact Hcat].
Qed.

(** C6, retries of the fetchers.  [loadAccountBatchRPC] fetches window after
    window; after a failed transport call it sleeps 100 ms and calls again
    with the same window.  One call of it bears five failures over all its
    windows and fails on the sixth, with the error of that one and no
    pause after it, so that a window is called six times at most.
    [loadStateBatchRPC] never sleeps and never calls again: the first failed
    transport call is its last event and fails it.  Calling it again is the
    business of the coalescer: a storage tick repeats the whole fetch, from
    the first window, after a pause of a second, until a round goes
    through. *)
Theorem fetcher_retry_policy (s : Layer) (accounts : list (list byte))
    (reqs : list StorageReq) (net : Net) (b : Z) :
  bn s = Some b → 0 < batchSize s →
  (∃ out err s' net' tr ws ess,
     loadAccountBatchRPC s accounts net = Some ((out, err, s'), net') ∧
     trace net' = trace net ++ tr ∧
     length ess = length ws ∧
     Forall (fun w => 0 < Z.of_nat (length w) ≤ batchSize s) ws ∧
     match err with
     | Some e =>
         length (failures tr) = 6%nat ∧ last (failures tr) = Some e ∧
         sleeps tr = replicate 5 100 ∧ out = [] ∧
         ∃ w es rest,
           tr = served 100 ws ess ++ attempts 100 w es (Some e) ∧
           (length (concat ess) + length es = 5)%nat ∧
           0 < Z.of_nat (length w) ≤ batchSize s ∧
           concat ws ++ w ++ rest = flat_map (accountElems b) accounts
     | None =>
         (length (failures tr) ≤ 5)%nat ∧
         sleeps tr = replicate (length (failures tr)) 100 ∧
         out = map (accountAnswer b) accounts ∧
         tr = served 100 ws ess ∧
         concat ws = flat_map (accountElems b) accounts
     end) ∧
  (∃ out err s' net' tr ws,
     loadStateBatchRPC s reqs net = Some ((err, out, s'), net') ∧
     trace net' = trace net ++ tr ∧
     sleeps tr = [] ∧
     Forall (fun w => 0 < Z.of_nat (length w) ≤ batchSize s) ws ∧
     match err with
     | Some e =>
         failures tr = [e] ∧ out = reqs ∧
         ∃ w rest,
           tr = passed ws ++ [EvBatchCall w (Some e)] ∧
           0 < Z.of_nat (length w) ≤ batchSize s ∧
           concat ws ++ w ++ rest = map (storageElem b) reqs
     | None =>
         failures tr = [] ∧ out = map (storageAnswer b) reqs ∧
         tr = passed ws ∧ concat ws = map (storageElem b) reqs
     end) ∧
  (∃ s' net' rounds ws,
     storageTick s reqs net = Some ((map (storageAnswer b) reqs, s'), net') ∧
     trace net' = trace net ++ concat (map (failedRound 1000) rounds) ++ passed ws ∧
     Forall (fun r => windowsOf (batchSize s) (map (storageElem b) reqs)
                        (fst (fst r) ++ [snd (fst r)])) rounds ∧
     Forall (fun w => 0 < Z.of_nat (length w) ≤ batchSize s) ws ∧
     concat ws = map (storageElem b) reqs).
Proof.
  intros Hbn Hstep. split; [|split].
  - destruct (loadAccountBatchRPC_spec s accounts net b Hbn Hstep)
      as (err & out & net' & tr & Hrun & Hadv & Hres).
    destruct (loadAccountBatchRPC_shape s accounts net b Hbn Hstep)
      as (err' & out' & net'' & ws & ess & Hrun' & Hlen & Hall & Hshape).
    rewrite Hrun in Hrun'. injection Hrun' as <- <- <-.
    eexists out, err, _, net', tr, ws, ess. split; [exact Hrun|].
    split; [apply Hadv|]. split; [exact Hlen|]. split; [exact Hall|].
    destruct Hadv as (Htr & _).
    destruct err as [e|].
    + destruct Hres as (H6 & Hlast & Hsl & Hout).
      destruct Hshape as (_ & w & es & rest & Hadv' & Hw & Hcat & Hcnt).
      split; [exact H6|]. split; [exact Hlast|]. split; [exact Hsl|]. split; [exact Hout|].
      exists w, es, rest. destruct Hadv' as (Htr' & _).
      rewrite Htr in Htr'. apply app_inv_head in Htr'. done.
    + destruct Hres as (H5 & Hsl & Hout).
      destruct Hshape as (Hadv' & _ & Hcat & _).
      split; [exact H5|]. split; [exact Hsl|]. split; [exact Hout|].
      destruct Hadv' as (Htr' & _).
      rewrite Htr in Htr'. apply app_inv_head in Htr'. done.
  - destruct (loadStateBatchRPC_spec s reqs net b Hbn Hstep)
      as (err & out & net' & tr & Hrun & Hadv & Hsl & _ & Hres).
    destruct (loadStateBatchRPC_shape s reqs net b Hbn Hstep)
      as (err' & out' & net'' & ws & Hrun' & Hall & Hshape).
    rewrite Hrun in Hrun'. injection Hrun' as <- <- <-.
    eexists out, err, _, net', tr, ws. split; [exact Hrun|].
    split; [apply Hadv|]. split; [exact Hsl|]. split; [exact Hall|].
    destruct Hadv as (Htr & _).
    destruct err as [e|].
    + destruct Hres as (Hf & Hout).
      destruct Hshape as (_ & w & rest & Hadv' & Hw & Hcat).
      split; [exact Hf|]. split; [exact Hout|].
      exists w, rest. destruct Hadv' as (Htr' & _).
      rewrite Htr in Htr'. apply app_inv_head in Htr'. done.
    + destruct Hres as (Hf & Hout & _).
      destruct Hshape as (Hadv' & _ & Hcat).
      split; [exact Hf|]. split; [exact Hout|].
      destruct Hadv' as (Htr' & _).
      rewrite Htr in Htr'. apply app_inv_head in Htr'. done.
  - unfold storageTick. destruct reqs as [|r reqs].
    + cbn [length Nat.ltb Nat.leb]. munfold.
      exists s, net, [], []. cbn [map concat passed app]. rewrite app_nil_r.
      split; [reflexivity|]. repeat split; constructor.
    + cbn [length Nat.ltb Nat.leb]. unfold untilUp.
      destruct (storageRetry_shape (S (length (script net))) s (r :: reqs) net b
                  Hbn Hstep ltac:(lia))
        as (s' & net' & rounds & ws & -> & Hadv & Hrounds & Hall & Hcat).
      exists s', net', rounds, ws. split; [reflexivity|].
      split; [apply Hadv|]. done.
Qed.

End Batching.

(** ** Keys and entries *)

Lemma string_of_list_byte_app (a b : list byte) :
  string_of_list_byte (a ++ b)
  = (string_of_list_byte a ++ string_of_list_byte b)%string.
Proof.
  unfold string_of_list_byte.
  induction a as [|x a IH]; cbn [app map string_of_list_ascii String.append];
    [reflexivity|now rewrite IH].
Qed.

Lemma calcStateKey_bytes (a key : list byte) :
  calcStateKey a key = string_of_list_byte (STATE_KEY ++ a ++ key).
Proof.
  unfold calcStateKey, calcKey. now rewrite <- string_of_list_byte_app, <- app_assoc.
Qed.

Lemma calcKey_inj (tag a a' : list byte) : calcKey tag a = calcKey tag a' → a = a'.
Proof.
  unfold calcKey. intros H. apply string_of_list_byte_inj in H.
  now apply app_inv_head in H.
Qed.

Lemma state_ne_account (tag a a' key : list byte) :
  tag = BALANCE_KEY ∨ tag = NONCE_KEY ∨ tag = CODE_KEY ∨ tag = CODEHASH_KEY
  ∨ tag = SUICIDE_KEY →
  calcStateKey a key ≠ calcKey tag a'.
Proof.
  intros Ht H. rewrite calcStateKey_bytes in H. unfold calcKey in H.
  apply string_of_list_byte_inj in H.
  destruct Ht as [->|[->|[->|[->| ->]]]];
    cbn [app STATE_KEY BALANCE_KEY NONCE_KEY CODE_KEY CODEHASH_KEY SUICIDE_KEY] in H;
    discriminate H.
Qed.

Lemma suicide_ne_account (tag a a' : list byte) :
  tag = BALANCE_KEY ∨ tag = NONCE_KEY ∨ tag = CODE_KEY ∨ tag = CODEHASH_KEY →
  calcKey SUICIDE_KEY a ≠ calcKey tag a'.
Proof.
  intros Ht H. unfold calcKey in H.
  apply string_of_list_byte_inj in H.
  destruct Ht as [->|[->|[->| ->]]];
    cbn [app BALANCE_KEY NONCE_KEY CODE_KEY CODEHASH_KEY SUICIDE_KEY] in H;
    discriminate H.
Qed.

Lemma suicide_ne_read (a : list byte) (action : RequestType) (account key : list byte) :
  calcKey SUICIDE_KEY a ≠ scratchpadKeyOf action account key.
Proof.
  destruct action; cbn [scratchpadKeyOf].
  1-4: apply suicide_ne_account; tauto.
  intros H. symmetry in H. revert H. apply state_ne_account. tauto.
Qed.

(** X1, the scratchpad keys do not collide: for addresses of 20 bytes, two
    reads use the same scratchpad key only if they are of the same kind, on
    the same address and, for storage, of the same slot; and the key of the
    suicide flag is the key of no read. *)
Theorem scratchpad_keys_do_not_collide (action action' : RequestType)
    (a a' key key' : list byte) :
  length a = 20%nat → length a' = 20%nat →
  (scratchpadKeyOf action a key = scratchpadKeyOf action' a' key' →
   action = action' ∧ a = a' ∧ (action = GET_STATE → key = key')) ∧
  calcKey SUICIDE_KEY a ≠ scratchpadKeyOf action' a' key' ∧
  (calcKey SUICIDE_KEY a = calcKey SUICIDE_KEY a' → a = a').
Proof.
  intros Ha Ha'. split; [|split; [apply suicide_ne_read|apply calcKey_inj]].
  intros H.
  destruct action, action'; cbn [scratchpadKeyOf] in H;
    try (exfalso; revert H; first [ key_ne | apply state_ne_account; tauto
      | intros H; symmetry in H; revert H; first [key_ne | apply state_ne_account; tauto] ]).
  1-4: apply calcKey_inj in H; subst; repeat split; intros; discriminate.
  rewrite !calcStateKey_bytes in H. apply string_of_list_byte_inj in H.
  apply app_inv_head in H.
  apply app_inj_1 in H; [|congruence].
  destruct H as [-> ->]. auto.
Qed.

Section Frames.

Context {env : Env}.

Lemma store_as_union (db : OverlayStateDB) (k : string) (v : list byte) :
  store db k v
  = withState db (update (fun l => withScratchPad l ({[k := v]} ∪ scratchPad l)) (state db)).
Proof.
  unfold store. f_equal. destruct (state db); cbn [update]; now rewrite insert_union_singleton_l.
Qed.

(** A read of another entry goes through a write unchanged. *)
Lemma read_store_other (db : OverlayStateDB) (k : string) (v : list byte)
    (account : list byte) (action : RequestType) (key : list byte) (net : Net) :
  k ≠ scratchpadKeyOf action account key →
  read (store db k v) account action key net =
  match read db account action key net with
  | Some ((val, db'), net') => Some ((val, store db' k v), net')
  | None => None
  end.
Proof.
  intros Hk. rewrite store_as_union. unfold read. cbn [state withState]. munfold.
  rewrite get_union by (now apply lookup_singleton_None).
  destruct (get (state db) account action key net) as [[[[val e] s'] net']|]; [|reflexivity].
  destruct e; [reflexivity|].
  rewrite store_as_union. reflexivity.
Qed.

Lemma write_store (db : OverlayStateDB) (w : Write) (k : string) :
  written w = Some k → ∃ v, ∀ db, write db w = store db k v.
Proof.
  destruct w; cbn [written write]; intros [= <-]; eexists; intros; reflexivity.
Qed.

(** X2, a setter changes one entry: a read of any other entry, at once or
    after more reads, returns what it returned without the write, with the
    same upstream traffic, and leaves the facade it would have left, with
    the write on it. *)
Theorem a_write_changes_one_entry (db : OverlayStateDB) (w : Write) (k : string)
    (account : list byte) (action : RequestType) (key : list byte) (net : Net) :
  written w = Some k →
  k ≠ scratchpadKeyOf action account key →
  read (write db w) account action key net =
  match read db account action key net with
  | Some ((val, db'), net') => Some ((val, write db' w), net')
  | None => None
  end.
Proof.
  intros Hw Hk. destruct (write_store db w k Hw) as [v Hv].
  rewrite Hv, read_store_other by exact Hk.
  destruct (read db account action key net) as [[[val db'] net']|]; [|reflexivity].
  now rewrite Hv.
Qed.

(** X3, the setters read back: in the layer of the write, with no upstream
    traffic and no change of the facade, [GetBalance] returns the magnitude
    of the balance set, [GetCode] the code and [GetCodeSize] its length,
    [GetCodeHash] and [GetState] the hash or value set, cut or padded on the
    left to 32 bytes (unchanged when it has 32 bytes). *)
Theorem setters_read_back (db : OverlayStateDB) (account key : list byte)
    (balance : Z) (code h value : list byte) (net : Net) :
  GetBalance (SetBalance db account balance) account net
  = Some ((Z.abs balance, SetBalance db account balance), net) ∧
  GetCode (SetCode db account code) account net
  = Some ((code, SetCode db account code), net) ∧
  GetCodeSize (SetCode db account code) account net
  = Some ((Z.of_nat (length code), SetCode db account code), net) ∧
  GetCodeHash (SetCodeHash db account h) account net
  = Some ((BytesToHash h, SetCodeHash db account h), net) ∧
  GetState (SetState db account key value) account key net
  = Some ((BytesToHash value, SetState db account key value), net) ∧
  (∀ x : list byte, length x = 32%nat → BytesToHash x = x).
Proof.
  unfold GetBalance, GetCode, GetCodeSize, GetCodeHash, GetState, GetCommittedState,
    SetBalance, SetCode, SetCodeHash, SetState.
  repeat split.
  1-5: munfold;
    erewrite read_top by (cbn [scratchpadKeyOf]; apply store_lookup);
    try reflexivity.
  - now rewrite SetBytes_Bytes.
  - intros x Hx. unfold BytesToHash.
    replace (length x - HashLength)%nat with 0%nat by (unfold HashLength; lia).
    rewrite drop_0.
    replace (HashLength - length x)%nat with 0%nat by (unfold HashLength; lia).
    reflexivity.
Qed.

(** [Empty] goes through a write of an entry it does not read. *)
Lemma Empty_store_other (db : OverlayStateDB) (k : string) (v : list byte)
    (account : list byte) (net : Net) :
  (∀ action, k ≠ scratchpadKeyOf action account zeroHash) →
  Empty (store db k v) account net =
  match Empty db account net with
  | Some ((e, db'), net') => Some ((e, store db' k v), net')
  | None => None
  end.
Proof.
  intros Hk. unfold Empty, GetCode, GetNonce, GetBalance. munfold.
  rewrite read_store_other by apply Hk.
  destruct (read db account GET_CODE zeroHash net) as [[[c db1] n1]|]; [|reflexivity].
  rewrite read_store_other by apply Hk.
  destruct (read db1 account GET_NONCE zeroHash n1) as [[[c2 db2] n2]|]; [|reflexivity].
  rewrite read_store_other by apply Hk.
  destruct (read db2 account GET_BALANCE zeroHash n2) as [[[c3 db3] n3]|]; reflexivity.
Qed.

Lemma logsWalk_update (f : Layer → Layer) (s : OverlayState) :
  (∀ l, txLogs (f l) = txLogs l) →
  ∀ txHash logs, logsWalk (update f s) txHash logs = logsWalk s txHash logs.
Proof.
  intros Hf txHash logs. destruct s; cbn [update logsWalk this]; now rewrite Hf.
Qed.

Lemma receiptWalk_update (f : Layer → Layer) (s : OverlayState) :
  (∀ l, receipts (f l) = receipts l) →
  ∀ txHash logs,
    fst (receiptWalk (update f s) txHash logs) = fst (receiptWalk s txHash logs).
Proof.
  intros Hf txHash logs. destruct s as [l|l p]; cbn [update receiptWalk]; [reflexivity|].
  rewrite Hf. destruct (receipts l !! txHash); [reflexivity|].
  now destruct (receiptWalk p txHash logs).
Qed.

Lemma getRootState_update (f : Layer → Layer) (s : OverlayState) :
  this (getRootState (update f s))
  = match s with Root l => f l | Derived _ _ => this (getRootState s) end.
Proof. now destruct s. Qed.

(** X4, [Suicide] marks and nothing more: whatever the layer, a facade
    answers every query but [HasSuicided] of the account (and the size of
    the cache) after [Suicide] as before; balance, nonce, code and storage
    of the account stay. *)
Theorem Suicide_only_sets_the_flag (db : OverlayStateDB) (account : list byte)
    (q : Query) (net : Net) :
  q ≠ Q_HasSuicided account → q ≠ Q_CacheSize →
  answer (ask (snd (Suicide db account)) q) net = answer (ask db q) net.
Proof.
  intros Hq Hc. cbn [Suicide snd].
  destruct q; cbn [ask]; unfold answer, answering, GetBalance, GetNonce, GetCode,
    GetCodeHash, GetCodeSize, GetState, GetCommittedState, Exist; munfold.
  1-7: rewrite read_store_other by apply suicide_ne_read;
    match goal with
    | |- context [read _ ?a ?act ?k _] =>
        destruct (read db a act k net) as [[[v db'] n]|]
    end; reflexivity.
  - f_equal. f_equal. unfold HasSuicided, store. cbn [state withState].
    rewrite this_update. cbn [scratchPad withScratchPad].
    rewrite lookup_insert_ne; [reflexivity|].
    intros H. apply calcKey_inj in H. congruence.
  - rewrite Empty_store_other by (intros; apply suicide_ne_read).
    destruct (Empty db account0 net) as [[[e db'] n]|]; reflexivity.
  - rewrite Empty_store_other by (intros; apply suicide_ne_read).
    destruct (Empty db account0 net) as [[[e db'] n]|]; reflexivity.
  - reflexivity.
  - unfold GetLogs, store. cbn [state withState]. now rewrite logsWalk_update.
  - unfold GetReceipt, GetLogs, store. cbn [state withState].
    rewrite logsWalk_update by reflexivity.
    pose proof (receiptWalk_update
      (fun l => withScratchPad l (<[calcKey SUICIDE_KEY account := [x01]]> (scratchPad l)))
      (state db) (fun _ => eq_refl) txHash (logsWalk (state db) txHash [])) as H.
    destruct (receiptWalk (update _ (state db)) _ _), (receiptWalk (state db) _ _).
    cbn in H. now rewrite H.
  - unfold GetOverlayDepth, store. cbn [state withState]. now rewrite this_update.
  - unfold RPCRequestCount, store. cbn [state withState].
    rewrite getRootState_update. now destruct (state db).
  - done.
Qed.

(** X5, [AddBalance] adds to the balance read: where [GetBalance] returns
    [b], [AddBalance] returns with the same upstream traffic, a following
    [GetBalance] gives [|b + delta|] with no traffic, and for a [delta] that
    is not negative a [SubBalance] of it brings [b] back. *)
Theorem AddBalance_adds_to_the_balance (db db1 : OverlayStateDB)
    (account : list byte) (delta b : Z) (net net1 : Net) :
  GetBalance db account net = Some ((b, db1), net1) →
  ∃ db2,
    AddBalance db account delta net = Some (db2, net1) ∧
    GetBalance db2 account net1 = Some ((Z.abs (b + delta), db2), net1) ∧
    (0 ≤ delta →
     ∃ db3, SubBalance db2 account delta net1 = Some (db3, net1) ∧
            GetBalance db3 account net1 = Some ((b, db3), net1)).
Proof.
  unfold GetBalance, AddBalance, SubBalance. munfold.
  destruct (read db account GET_BALANCE zeroHash net) as [[[bal db'] n']|] eqn:E; [|discriminate].
  intros [= <- <- <-].
  eexists. split; [reflexivity|].
  assert (Hb : 0 ≤ SetBytes bal) by (unfold SetBytes; lia).
  split.
  - erewrite read_top by (cbn [scratchpadKeyOf]; apply store_lookup).
    now rewrite SetBytes_Bytes.
  - intros Hd.
    erewrite read_top by (cbn [scratchpadKeyOf]; apply store_lookup).
    eexists. split; [reflexivity|].
    erewrite read_top by (cbn [scratchpadKeyOf]; apply store_lookup).
    rewrite !SetBytes_Bytes. do 3 f_equal. lia.
Qed.

(** X6, the refund counter is a [uint64] outside the layers: [SubRefund]
    below zero wraps around instead of failing, [AddRefund] and [SubRefund]
    of the same amount cancel, and a refund added inside a snapshot stays
    after [RevertToSnapshot]. *)
Theorem refund_counter_wraps_and_is_not_reverted (db : OverlayStateDB) (d : Z) :
  0 ≤ GetRefund db < 2 ^ 64 →
  GetRefund (SubRefund (AddRefund db d) d) = GetRefund db ∧
  (GetRefund db < d ≤ 2 ^ 64 →
   GetRefund (SubRefund db d) = 2 ^ 64 + GetRefund db - d) ∧
  (let '(id, db1) := Snapshot db in
   ∃ db2, RevertToSnapshot (AddRefund db1 d) id = Some db2 ∧
          state db2 = state db ∧
          GetRefund db2 = uint64 (GetRefund db + d)).
Proof.
  intros Hr. unfold GetRefund, SubRefund, AddRefund, uint64 in *. cbn [refundGas state].
  split; [|split].
  - rewrite Zminus_mod_idemp_l. replace (refundGas db + d - d) with (refundGas db) by lia.
    now apply Z.mod_small.
  - intros Hd.
    replace (refundGas db - d) with (2 ^ 64 + refundGas db - d + (-1) * 2 ^ 64) by lia.
    rewrite Z_mod_plus_full. apply Z.mod_small. lia.
  - cbn [Snapshot]. unfold RevertToSnapshot. cbn [state withState Derive Parent mbind option_bind].
    rewrite revertWalk_here by reflexivity. cbn.
    eexists. split; [reflexivity|]. split; reflexivity.
Qed.

End Frames.

(** ** The layer stack *)

Lemma int64_int64_add (a b : Z) : int64 (int64 a + b) = int64 (a + b).
Proof.
  unfold int64.
  assert (E : (a mod 2 ^ 64 + b) mod 2 ^ 64 = (a + b) mod 2 ^ 64)
    by (now rewrite Zplus_mod_idemp_l).
  destruct (a mod 2 ^ 64 <? 2 ^ 63).
  - now rewrite E.
  - replace (a mod 2 ^ 64 - 2 ^ 64 + b) with (a mod 2 ^ 64 + b + (-1) * 2 ^ 64) by lia.
    now rewrite Z_mod_plus_full, E.
Qed.

Lemma int64_eq_mod (a b : Z) : int64 a = int64 b → a mod 2 ^ 64 = b mod 2 ^ 64.
Proof.
  unfold int64. intros H.
  pose proof (Z.mod_pos_bound a (2 ^ 64) ltac:(lia)).
  pose proof (Z.mod_pos_bound b (2 ^ 64) ltac:(lia)).
  destruct (a mod 2 ^ 64 <? 2 ^ 63) eqn:Ea, (b mod 2 ^ 64 <? 2 ^ 63) eqn:Eb; lia.
Qed.

Section Stack.

Context {env : Env}.

Lemma revertWalk_above (ls : list Layer) (s : OverlayState) (id : Z) :
  Forall (fun l => int64 (deriveCnt l + 1) ≠ id) ls →
  revertWalk (foldr Derived s ls) id = revertWalk s id.
Proof.
  induction 1 as [|l ls Hl _ IH]; [reflexivity|].
  cbn [foldr revertWalk this].
  destruct (Z.eqb_spec (int64 (deriveCnt l + 1)) id); [done|exact IH].
Qed.

Lemma nested_shape (Ws : list (list Write)) :
  ∀ db : OverlayStateDB,
    ∃ ls,
      state (nested db Ws) = foldr Derived (state db) ls ∧
      refundGas (nested db Ws) = refundGas db ∧
      length ls = length Ws ∧
      ∀ i l, ls !! i = Some l →
             deriveCnt l
             = int64 (deriveCnt (this (state db)) + Z.of_nat (length ls - i)).
Proof.
  induction Ws as [|W Ws IH]; intros db.
  - exists []. cbn. repeat split. intros i l H. now rewrite lookup_nil in H.
  - change (nested db (W :: Ws)) with (nested (foldl write (snd (Snapshot db)) W) Ws).
    destruct (writes_child W (snd (Snapshot db)) _ _ eq_refl) as (c & Hc & Hd).
    destruct (IH (foldl write (snd (Snapshot db)) W)) as (ls & Hs & Hr & Hlen & Hdc).
    rewrite Hc in Hs, Hr, Hdc.
    cbn [Snapshot snd withState state refundGas Derive deriveCnt this] in Hs, Hr, Hdc, Hd.
    exists (ls ++ [c]). rewrite foldr_app. cbn [foldr].
    rewrite Hc. cbn [Snapshot snd withState state refundGas].
    split; [exact Hs|]. split; [exact Hr|].
    split; [rewrite length_app; cbn; lia|].
    intros i l Hl. rewrite length_app. cbn [length].
    destruct (decide (i < length ls)%nat) as [Hi|Hi].
    + rewrite lookup_app_l in Hl by exact Hi.
      rewrite (Hdc i l Hl), Hd, int64_int64_add. f_equal. lia.
    + rewrite lookup_app_r in Hl by lia.
      destruct (i - length ls)%nat as [|j] eqn:Ej; cbn in Hl; [|discriminate Hl].
      injection Hl as <-. rewrite Hd. f_equal. lia.
Qed.

(** X7, nested snapshots unwind: with snapshots taken one on top of the
    other, each followed by writes of any kind that need no read,
    [RevertToSnapshot] with the id of any of them gives back exactly the
    facade on which that snapshot was taken, whatever came after (fewer than
    2^64 later snapshots). *)
Theorem revert_unwinds_nested_snapshots (db : OverlayStateDB)
    (Ws1 : list (list Write)) (W : list Write) (Ws2 : list (list Write)) :
  Z.of_nat (length Ws2) < 2 ^ 64 - 1 →
  RevertToSnapshot (nested db (Ws1 ++ W :: Ws2)) (fst (Snapshot (nested db Ws1)))
  = Some (nested db Ws1).
Proof.
  intros Hn. unfold nested at 1. rewrite foldl_app. fold (nested db Ws1).
  set (db1 := nested db Ws1).
  change (foldl _ db1 (W :: Ws2)) with (nested db1 (W :: Ws2)).
  destruct (nested_shape (W :: Ws2) db1) as (ls & Hs & Hr & Hlen & Hdc).
  destruct ls as [|top rest]; [discriminate Hlen|].
  unfold RevertToSnapshot. rewrite Hs. cbn [foldr Parent mbind option_bind].
  rewrite revertWalk_above.
  - rewrite revertWalk_here by reflexivity. cbn [mbind option_bind].
    unfold withState. rewrite Hr. clearbody db1. now destruct db1.
  - apply Forall_lookup_2. intros i l Hl.
    rewrite (Hdc (S i) l Hl). cbn [Snapshot fst Derive this deriveCnt].
    rewrite int64_int64_add. intros E. apply int64_eq_mod in E.
    cbn [length] in Hlen, E |- *.
    apply lookup_lt_Some in Hl.
    set (d := deriveCnt (this (state db1))) in *.
    set (m := Z.of_nat (S (length rest) - S i)) in *.
    assert (Hm : 0 < m < 2 ^ 64) by (cbn [length] in *; lia).
    replace (d + m + 1) with (d + 1 + m) in E by lia.
    rewrite <- (Zplus_mod_idemp_r m) in E.
    rewrite (Z.mod_small m) in E by lia.
    pose proof (Z.mod_pos_bound (d + 1) (2 ^ 64) ltac:(lia)) as Hb.
    pose proof (Z.div_mod (d + 1) (2 ^ 64) ltac:(lia)) as Hd1.
    pose proof (Z.div_mod (d + 1 + m) (2 ^ 64) ltac:(lia)) as Hd2.
    rewrite E in Hd2. nia.
Qed.

(** *** MergeTo *)

Lemma mergeWalk_shadowed (p : OverlayState) :
  ∀ (pad : gmap string (list byte)) (id : Z) (s' : OverlayState),
    mergeWalk pad p id = Some s' →
    deriveCnt (this s') = id ∧
    getRootState s' = update (fun l => withScratchPad l (scratchPad (this (getRootState s'))))
                        (getRootState p) ∧
    ∀ k, shadowed s' k
         = match pad !! k with Some v => Some v | None => shadowed p k end.
Proof.
  induction p as [l|l q IH]; intros pad id s'; cbn [mergeWalk]; rewrite pour_union;
    cbn [deriveCnt withScratchPad scratchPad].
  - destruct (Z.eqb_spec (deriveCnt l) id) as [E|E]; [|discriminate].
    intros [= <-]. cbn [this deriveCnt getRootState update withScratchPad scratchPad].
    split; [exact E|]. split; [reflexivity|].
    intros k. rewrite !shadowed_Root. cbn [scratchPad withScratchPad].
    rewrite lookup_union. destruct (pad !! k), (scratchPad l !! k); reflexivity.
  - destruct (Z.eqb_spec (deriveCnt l) id) as [E|E].
    + intros [= <-]. cbn [this deriveCnt getRootState].
      split; [exact E|]. split.
      { destruct (getRootState q) as [r|r x] eqn:Er; cbn; [now destruct r|].
        rewrite getRootState_Root in Er. discriminate. }
      intros k. rewrite !shadowed_Derived. cbn [scratchPad withScratchPad].
      rewrite lookup_union. destruct (pad !! k), (scratchPad l !! k); reflexivity.
    + intros H. destruct (IH _ _ _ H) as (Hd & Hroot & Hk).
      split; [exact Hd|]. split; [exact Hroot|].
      intros k. rewrite Hk, shadowed_Derived, lookup_union.
      destruct (pad !! k), (scratchPad l !! k); reflexivity.
Qed.

Lemma MergeTo_shadowed (db db' : OverlayStateDB) (id : Z) :
  MergeTo db id = Some db' →
  deriveCnt (this (state db')) = id ∧
  refundGas db' = refundGas db ∧
  getRootState (state db')
  = update (fun l => withScratchPad l (scratchPad (this (getRootState (state db')))))
      (getRootState (state db)) ∧
  ∀ k, shadowed (state db') k = shadowed (state db) k.
Proof.
  unfold MergeTo.
  destruct (Z.eqb_spec (deriveCnt (this (state db))) id) as [E|E].
  - intros [= <-]. split; [exact E|]. split; [reflexivity|]. split; [|reflexivity].
    destruct (getRootState (state db)) as [r|r x] eqn:Er; cbn; [now destruct r|].
    rewrite getRootState_Root in Er. discriminate.
  - destruct (state db) as [l|l p] eqn:Es; [discriminate|].
    destruct (mergeWalk (scratchPad l) p id) as [s'|] eqn:Em; [|discriminate].
    cbn. intros [= <-]. cbn [state withState refundGas].
    destruct (mergeWalk_shadowed _ _ _ _ Em) as (Hd & Hroot & Hk).
    split; [exact Hd|]. split; [reflexivity|]. split; [exact Hroot|].
    intros k. now rewrite Hk, shadowed_Derived.
Qed.

(** X8, [MergeTo] keeps what every read returns: when it returns, the
    current layer has the depth asked for, every key has the value it had
    seen from the layer merged from (an entry of a layer wins over those of
    the layers below it), the refund counter and the request counter are
    the same, and every read answers as before the merge. *)
Theorem MergeTo_keeps_every_read (db db' : OverlayStateDB) (id : Z) :
  MergeTo db id = Some db' →
  GetOverlayDepth db' = id ∧
  GetRefund db' = GetRefund db ∧
  RPCRequestCount db' = RPCRequestCount db ∧
  (∀ k, shadowed (state db') k = shadowed (state db) k) ∧
  (canFetch (state db) →
   ∀ account action key net,
     answer (read db' account action key) net
     = answer (read db account action key) net).
Proof.
  intros H. destruct (MergeTo_shadowed _ _ _ H) as (Hd & Hr & Hroot & Hk).
  split; [exact Hd|]. split; [exact Hr|].
  assert (Hl : ∀ f : Layer → Z, (∀ l pad, f (withScratchPad l pad) = f l) →
               f (this (getRootState (state db'))) = f (this (getRootState (state db)))).
  { intros f Hf. rewrite Hroot. rewrite (getRootState_Root (state db)). cbn. apply Hf. }
  split; [apply (Hl rpcCnt); reflexivity|].
  split; [exact Hk|].
  intros Hcan account action key net.
  assert (Hbn : bn (this (getRootState (state db'))) = bn (this (getRootState (state db)))).
  { rewrite Hroot. rewrite (getRootState_Root (state db)). reflexivity. }
  assert (Hcan' : canFetch (state db')).
  { destruct Hcan as [Hb Hs]. split; [now rewrite Hbn|].
    now rewrite (Hl batchSize) by reflexivity. }
  unfold answer, read. munfold.
  destruct (shadowed (state db) (scratchpadKeyOf action account key)) as [v|] eqn:E.
  - rewrite (get_hit (state db) _ _ _ net v E).
    rewrite <- Hk in E. rewrite (get_hit (state db') _ _ _ net v E). reflexivity.
  - destruct (get_miss (state db) account action key net Hcan E)
      as (cnt & acc & net1 & tr & -> & _).
    rewrite <- Hk in E.
    destruct (get_miss (state db') account action key net Hcan' E)
      as (cnt' & acc' & net1' & tr' & -> & _).
    unfold pinnedBlock. now rewrite Hbn.
Qed.

Lemma mergeWalk_None (p : OverlayState) :
  ∀ (pad : gmap string (list byte)) (id : Z),
    mergeWalk pad p id = None ↔ Forall (fun l => deriveCnt l ≠ id) (layers p).
Proof.
  induction p as [l|l q IH]; intros pad id; cbn [mergeWalk layers]; rewrite pour_union;
    cbn [deriveCnt withScratchPad scratchPad].
  - destruct (Z.eqb_spec (deriveCnt l) id) as [E|E].
    + split; [discriminate|]. intros H. apply Forall_cons_1 in H. tauto.
    + split; [|reflexivity]. intros _. repeat constructor. exact E.
  - destruct (Z.eqb_spec (deriveCnt l) id) as [E|E].
    + split; [discriminate|]. intros H. apply Forall_cons_1 in H. tauto.
    + rewrite IH, Forall_cons. tauto.
Qed.

Lemma revertWalk_None (s : OverlayState) (id : Z) :
  revertWalk s id = None ↔ Forall (fun l => int64 (deriveCnt l + 1) ≠ id) (layers s).
Proof.
  induction s as [l|l q IH]; cbn [revertWalk layers this].
  - destruct (Z.eqb_spec (int64 (deriveCnt l + 1)) id) as [E|E].
    + split; [discriminate|]. intros H. apply Forall_cons_1 in H. tauto.
    + split; [|reflexivity]. intros _. repeat constructor. exact E.
  - destruct (Z.eqb_spec (int64 (deriveCnt l + 1)) id) as [E|E].
    + split; [discriminate|]. intros H. apply Forall_cons_1 in H. tauto.
    + rewrite IH, Forall_cons. tauto.
Qed.

(** X9, a revision id that is not on the chain: [MergeTo] runs off the
    root (a nil dereference) exactly when no layer from the current one to
    the root has the depth asked for, and [RevertToSnapshot] exactly when no
    layer below the current one has that depth less one; on a facade whose
    current layer is the root the latter never returns. *)
Theorem a_revision_off_the_chain_panics (db : OverlayStateDB) (id : Z) :
  (MergeTo db id = None ↔ Forall (fun l => deriveCnt l ≠ id) (layers (state db))) ∧
  (RevertToSnapshot db id = None ↔
   Forall (fun l => int64 (deriveCnt l + 1) ≠ id) (tail (layers (state db)))).
Proof.
  split.
  - unfold MergeTo. destruct (state db) as [l|l p]; cbn [this layers].
    + destruct (Z.eqb_spec (deriveCnt l) id) as [E|E].
      * split; [discriminate|]. intros H. apply Forall_cons_1 in H. tauto.
      * split; [|reflexivity]. intros _. repeat constructor. exact E.
    + destruct (Z.eqb_spec (deriveCnt l) id) as [E|E].
      * split; [discriminate|]. intros H. apply Forall_cons_1 in H. tauto.
      * rewrite Forall_cons, <- (mergeWalk_None p (scratchPad l) id).
        destruct (mergeWalk (scratchPad l) p id); cbn; split; try tauto; try discriminate.
        intros [_ H]. discriminate.
  - unfold RevertToSnapshot. destruct (state db) as [l|l p]; cbn [Parent layers tail mbind option_bind].
    + split; [constructor|reflexivity].
    + rewrite <- revertWalk_None. destruct (revertWalk p id); cbn; split; try tauto; discriminate.
Qed.

(** *** The merged scratchpad *)

Lemma map_fold_fill (acc m : gmap string (list byte)) :
  map_fold fill acc m = acc ∪ m.
Proof.
  apply (map_fold_weak_ind (fun r m => r = acc ∪ m)).
  - now rewrite (right_id_L ∅ (∪)).
  - intros i x m' r Hi ->. apply map_eq. intros k.
    rewrite fill_lookup, !lookup_union.
    destruct (decide (i = k)) as [->|Hne].
    + rewrite lookup_insert_eq, Hi. now destruct (acc !! k).
    + rewrite lookup_insert_ne by exact Hne.
      destruct (acc !! k), (m' !! k); reflexivity.
Qed.

Lemma mergedWalk_lookup (s : OverlayState) :
  ∀ (acc : gmap string (list byte)) (k : string),
    mergedWalk s acc !! k
    = match acc !! k with Some v => Some v | None => overlaid s k end.
Proof.
  unfold overlaid.
  induction s as [l|l p IH]; intros acc k; cbn [mergedWalk overlays omap list_omap].
  - now destruct (acc !! k).
  - rewrite IH, map_fold_fill, lookup_union.
    destruct (acc !! k), (scratchPad l !! k); reflexivity.
Qed.

(** X10, the merged scratchpad is the view of the overlays: under every key
    [getMergedScratchPad] holds the entry of the layer closest to the
    current one among the layers above the root, and nothing for a key that
    only the root holds. *)
Theorem merged_scratchpad_is_the_overlay_view (db : OverlayStateDB) (k : string) :
  getMergedScratchPad db !! k = overlaid (state db) k ∧
  (Forall (fun l => scratchPad l !! k = None) (overlays (state db)) →
   getMergedScratchPad db !! k = None) ∧
  shadowed (state db) k
  = match getMergedScratchPad db !! k with
    | Some v => Some v
    | None => scratchPad (this (getRootState (state db))) !! k
    end.
Proof.
  unfold getMergedScratchPad.
  assert (E : mergedWalk (state db) ∅ !! k = overlaid (state db) k)
    by (now rewrite mergedWalk_lookup, lookup_empty).
  split; [exact E|]. split.
  - rewrite E. unfold overlaid. induction 1 as [|l ls Hl _ IH]; [reflexivity|].
    cbn. now rewrite Hl.
  - rewrite E. apply shadowed_overlaid.
Qed.

End Stack.

(** ** Clones *)

Section CloneProps.

Context {env : Env}.

(** A read through a layer that holds nothing is the read of its parent. *)
Lemma read_over (g g' : Z) (c : Layer) (s : OverlayState)
    (account : list byte) (action : RequestType) (key : list byte) (net : Net) :
  scratchPad c = ∅ →
  read (mkDB g (Derived c s)) account action key net =
  match read (mkDB g' s) account action key net with
  | Some ((v, db'), net') => Some ((v, mkDB g (Derived c (state db'))), net')
  | None => None
  end.
Proof.
  intros Hc. unfold read. cbn [state get]. rewrite Hc, lookup_empty. munfold.
  destruct (get s account action key net) as [[[[v e] s'] net']|]; [|reflexivity].
  destruct e; reflexivity.
Qed.

Lemma Empty_over (g g' : Z) (c : Layer) (s : OverlayState)
    (account : list byte) (net : Net) :
  scratchPad c = ∅ →
  Empty (mkDB g (Derived c s)) account net =
  match Empty (mkDB g' s) account net with
  | Some ((e, db'), net') => Some ((e, mkDB g (Derived c (state db'))), net')
  | None => None
  end.
Proof.
  intros Hc. unfold Empty, GetCode, GetNonce, GetBalance. munfold.
  rewrite (read_over g g') by exact Hc.
  destruct (read (mkDB g' s) account GET_CODE zeroHash net) as [[[v1 [g1 s1]] n1]|];
    [|reflexivity]. cbn [state].
  rewrite (read_over g g1) by exact Hc.
  destruct (read (mkDB g1 s1) account GET_NONCE zeroHash n1) as [[[v2 [g2 s2]] n2]|];
    [|reflexivity]. cbn [state].
  rewrite (read_over g g2) by exact Hc.
  destruct (read (mkDB g2 s2) account GET_BALANCE zeroHash n2) as [[[v3 [g3 s3]] n3]|];
    reflexivity.
Qed.

(** X11, a clone answers as the original: [Clone] gives a facade on a
    fresh layer over the current one, with refund 0 and the depth plus one,
    in which no account has suicided; every other query is answered as by
    the original, and a write to the clone goes to the layer of the clone,
    the chain of the original staying below it as it was. *)
Theorem a_clone_answers_as_the_original (db : OverlayStateDB) :
  GetRefund (Clone db) = 0 ∧
  GetOverlayDepth (Clone db) = int64 (GetOverlayDepth db + 1) ∧
  (∀ account, HasSuicided (Clone db) account = false) ∧
  (∀ W : list Write, Parent (state (foldl write (Clone db) W)) = Some (state db)) ∧
  ∀ (q : Query) (net : Net),
    q ≠ Q_GetRefund → q ≠ Q_GetOverlayDepth → (∀ account, q ≠ Q_HasSuicided account) →
    answer (ask (Clone db) q) net = answer (ask db q) net.
Proof.
  split; [reflexivity|]. split; [reflexivity|]. split; [reflexivity|]. split.
  { intros W. destruct (writes_child W (Clone db) _ _ eq_refl) as (c & -> & _).
    reflexivity. }
  intros q net Hr Hd Hs. destruct db as [g s].
  unfold Clone, Derive. cbn [state].
  set (c := mkLayer _ _ _ _ _ _ _ _ _ _ _).
  assert (Hc : scratchPad c = ∅) by reflexivity.
  destruct q; cbn [ask]; unfold answer, answering, GetBalance, GetNonce, GetCode,
    GetCodeHash, GetCodeSize, GetState, GetCommittedState, Exist; munfold.
  1-7: rewrite (read_over 0 g) by exact Hc;
    match goal with
    | |- context [read _ ?a ?act ?k _] =>
        destruct (read (mkDB g s) a act k net) as [[[v db'] n]|]
    end; reflexivity.
  - now specialize (Hs account).
  - rewrite (Empty_over 0 g) by exact Hc.
    destruct (Empty (mkDB g s) account net) as [[[e db'] n]|]; reflexivity.
  - rewrite (Empty_over 0 g) by exact Hc.
    destruct (Empty (mkDB g s) account net) as [[[e db'] n]|]; reflexivity.
  - done.
  - reflexivity.
  - unfold GetReceipt, GetLogs. cbn [state receiptWalk logsWalk this].
    change (receipts c !! txHash) with (@None Receipt).
    change (txLogs c !! txHash) with (@None (list Log)). cbn match.
    destruct (receiptWalk s txHash (logsWalk s txHash [])); reflexivity.
  - done.
  - reflexivity.
  - reflexivity.
Qed.

Lemma canFetch_root (s : OverlayState) : canFetch s ↔ canFetch (getRootState s).
Proof.
  unfold canFetch. destruct (getRootState s) as [r|r x] eqn:E.
  - reflexivity.
  - rewrite getRootState_Root in E. discriminate.
Qed.

(** X12, a clone from the root sees no overlay: under every key it sees
    what the root holds; its logs are those of the root and it has no
    receipt; and where the root can fetch, a read returns the entry of the
    root or, the root having none, the upstream value, whatever the layers
    of the original hold. *)
Theorem a_clone_from_root_sees_no_overlay (db : OverlayStateDB) :
  let root := this (getRootState (state db)) in
  GetOverlayDepth (CloneFromRoot db) = int64 (deriveCnt root + 1) ∧
  GetRefund (CloneFromRoot db) = 0 ∧
  (∀ k, shadowed (state (CloneFromRoot db)) k = scratchPad root !! k) ∧
  (∀ txHash, GetLogs (CloneFromRoot db) txHash = default [] (txLogs root !! txHash)) ∧
  (∀ txHash, fst (GetReceipt (CloneFromRoot db) txHash) = None) ∧
  (canFetch (state db) →
   ∀ account action key net,
     answer (read (CloneFromRoot db) account action key) net
     = Some (default (upstreamValue (pinnedBlock (state db)) action account key)
               (scratchPad root !! scratchpadKeyOf action account key))).
Proof.
  intros root. unfold CloneFromRoot, DeriveFromRoot.
  rewrite (getRootState_Root (state db)). fold root.
  split; [reflexivity|]. split; [reflexivity|].
  split. { intros k. unfold Derive. cbn [state]. now rewrite shadowed_Derived, shadowed_Root. }
  split. { intros tx. unfold GetLogs. cbn. destruct (txLogs root !! tx); [|reflexivity].
           now rewrite app_nil_r. }
  split; [reflexivity|].
  intros Hcan account action key net.
  assert (Hcan' : canFetch (Root root)).
  { apply canFetch_root in Hcan. now rewrite (getRootState_Root (state db)) in Hcan. }
  unfold answer, Derive. rewrite (read_over 0 0) by reflexivity.
  unfold read. cbn [state]. munfold.
  destruct (scratchPad root !! scratchpadKeyOf action account key) as [v|] eqn:E.
  - rewrite (get_hit (Root root) _ _ _ net v) by (now rewrite shadowed_Root).
    reflexivity.
  - destruct (get_miss (Root root) account action key net Hcan')
      as (cnt & acc & net1 & tr & -> & _); [now rewrite shadowed_Root|].
    reflexivity.
Qed.

(** *** Logs *)

Lemma logsRootToLeaf_update (f : Layer → Layer) (s : OverlayState) (txHash : list byte) :
  logsRootToLeaf (update f s) txHash
  = match s with
    | Root l => default [] (txLogs (f l) !! txHash)
    | Derived l p => logsRootToLeaf p txHash ++ default [] (txLogs (f l) !! txHash)
    end.
Proof.
  unfold logsRootToLeaf. destruct s as [l|l p]; cbn [update layers].
  - cbn. now rewrite app_nil_r.
  - rewrite reverse_cons, map_app, concat_app. cbn. now rewrite app_nil_r.
Qed.

Lemma logsRootToLeaf_top (s : OverlayState) (txHash : list byte) :
  logsRootToLeaf s txHash
  = match s with
    | Root l => default [] (txLogs l !! txHash)
    | Derived l p => logsRootToLeaf p txHash ++ default [] (txLogs l !! txHash)
    end.
Proof.
  pose proof (logsRootToLeaf_update (fun l => l) s txHash) as H.
  now destruct s.
Qed.

(** X13, logs are filed under the transaction in progress: [AddLog] puts
    the log after those [GetLogs] returned for the current transaction hash
    and leaves the logs of every other hash; a snapshot inherits the
    transaction in progress, so that a log added inside a snapshot taken
    after [StartLogCollection] is the last one of that transaction. *)
Theorem logs_append_under_the_current_transaction (db : OverlayStateDB)
    (vLog : Log) (txHash blockHash : list byte) :
  let cur := currentTxHash (this (state db)) in
  GetLogs (AddLog db vLog) cur = GetLogs db cur ++ [vLog] ∧
  (txHash ≠ cur → GetLogs (AddLog db vLog) txHash = GetLogs db txHash) ∧
  currentTxHash (this (state (snd (Snapshot db)))) = cur ∧
  GetLogs (AddLog (snd (Snapshot (StartLogCollection db txHash blockHash))) vLog) txHash
  = GetLogs db txHash ++ [vLog].
Proof.
  intros cur.
  assert (Hadd : ∀ (d : OverlayStateDB) (tx : list byte),
    GetLogs (AddLog d vLog) tx
    = GetLogs d tx ++ (if decide (tx = currentTxHash (this (state d))) then [vLog] else [])).
  { intros d tx. unfold GetLogs, AddLog. cbn [state withState].
    rewrite !logsWalk_spec, !app_nil_r, logsRootToLeaf_update.
    rewrite (logsRootToLeaf_top (state d)).
    destruct (state d) as [l|l p]; cbn [this txLogs withTxLogs];
      (destruct (decide (tx = currentTxHash l)) as [->|Hne];
       [rewrite lookup_insert_eq; cbn; now rewrite ?app_assoc
       |rewrite lookup_insert_ne by congruence; now rewrite app_nil_r]). }
  split; [|split; [|split]].
  - rewrite Hadd. now rewrite decide_True.
  - intros Hne. rewrite Hadd. rewrite decide_False by exact Hne. now rewrite app_nil_r.
  - reflexivity.
  - rewrite Hadd. cbn [Snapshot snd StartLogCollection state withState Derive this currentTxHash].
    rewrite this_update. cbn [withCurrentTx currentTxHash].
    rewrite decide_True by reflexivity. f_equal.
    unfold GetLogs, Derive. cbn [state withState logsWalk this txLogs].
    rewrite lookup_empty.
    now rewrite (logsWalk_update (fun l => withCurrentTx l txHash blockHash) _
                   (fun _ => eq_refl)).
Qed.

End CloneProps.

(** ** The fetchers on a quiet transport and through an outage *)

Section Quiet.

Context {env : Env}.

Lemma BatchCallContext_quiet (elems : list BatchElem) (net : Net) :
  script net = [] →
  BatchCallContext elems net
  = Some (None, mkNet [] (trace net ++ [EvBatchCall elems None])).
Proof. intros H. unfold BatchCallContext. now rewrite H. Qed.

Lemma BatchCallContext_fails (elems : list BatchElem) (net : Net) (e : error)
    (rest : list (option error)) :
  script net = Some e :: rest →
  BatchCallContext elems net
  = Some (Some e, mkNet rest (trace net ++ [EvBatchCall elems (Some e)])).
Proof. intros H. unfold BatchCallContext. now rewrite H. Qed.

Lemma accountWindows_quiet (fuel : nat) :
  ∀ (batchElem : list BatchElem) (step begin t : Z) (net : Net),
    0 < step → 0 ≤ begin → script net = [] →
    (Z.to_nat (Z.of_nat (length batchElem) - begin) + 1 < fuel)%nat →
    ∃ ws,
      accountWindows fuel batchElem step begin t net
      = Some (None, mkNet [] (trace net ++ map (fun w => EvBatchCall w None) ws)) ∧
      concat ws = drop (Z.to_nat begin) batchElem ∧
      Z.of_nat (length ws)
      = ceilDiv (Z.max 0 (Z.of_nat (length batchElem) - begin)) step ∧
      Forall (fun w => Z.of_nat (length w) ≤ step) ws.
Proof.
  induction fuel as [|fuel IH]; intros batchElem step begin t net Hstep Hbegin Hq Hfuel; [lia|].
  cbn [accountWindows].
  destruct (Z.ltb_spec begin (Z.of_nat (length batchElem))) as [Hlt|Hge].
  - set (end_ := if begin + step >? Z.of_nat (length batchElem) then _ else _).
    assert (Hend : begin < end_ ∧ end_ ≤ Z.of_nat (length batchElem) ∧ end_ ≤ begin + step
                    ∧ (end_ < begin + step → end_ = Z.of_nat (length batchElem))).
    { subst end_. destruct (Z.gtb_spec (begin + step) (Z.of_nat (length batchElem))); lia. }
    munfold. rewrite slice_ok by lia.
    destruct fuel as [|fuel']; [lia|]. cbn [accountAttempts]. munfold.
    rewrite BatchCallContext_quiet by exact Hq.
    set (w := take (Z.to_nat (end_ - begin)) (drop (Z.to_nat begin) batchElem)).
    destruct (IH batchElem step (begin + step) t
                (mkNet [] (trace net ++ [EvBatchCall w None]))
                Hstep ltac:(lia) eq_refl ltac:(lia))
      as (ws & -> & Hcat & Hcnt & Hall).
    exists (w :: ws). cbn [trace map]. rewrite <- app_assoc. cbn [app].
    split; [reflexivity|]. split; [|split].
    + cbn [concat]. rewrite Hcat. subst w.
      destruct (Z.ltb_spec end_ (begin + step)) as [Hshort|Hfull].
      * destruct Hend as (_ & _ & _ & Heq). specialize (Heq Hshort).
        rewrite (drop_ge batchElem (Z.to_nat (begin + step))) by lia.
        rewrite app_nil_r. apply take_ge. rewrite length_drop. lia.
      * assert (end_ = begin + step) as -> by lia.
        replace (Z.to_nat (begin + step))
          with (Z.to_nat begin + Z.to_nat (begin + step - begin))%nat by lia.
        rewrite <- drop_drop. apply take_drop.
    + cbn [length]. rewrite Nat2Z.inj_succ, Hcnt.
      rewrite (ceilDiv_step (Z.max 0 (Z.of_nat (length batchElem) - begin)) step) by lia.
      replace (Z.max 0 (Z.of_nat (length batchElem) - begin) - step)
        with (Z.of_nat (length batchElem) - (begin + step)) by lia.
      lia.
    + constructor; [|exact Hall]. subst w. rewrite length_take. lia.
  - munfold. exists []. cbn [map]. rewrite app_nil_r.
    split; [destruct net; cbn in *; now subst|].
    split; [rewrite drop_ge by lia; reflexivity|].
    split; [rewrite Z.max_l by lia; now rewrite ceilDiv_zero|constructor].
Qed.

Lemma markAccessed_lookup (accounts : list (list byte)) :
  ∀ (acc : gmap (list byte) bool) (a : list byte),
    a ∈ accounts ∨ acc !! a = Some true →
    markAccessed acc accounts !! a = Some true.
Proof.
  unfold markAccessed.
  induction accounts as [|x accounts IH]; intros acc a H; cbn [foldl].
  - destruct H as [H|H]; [now apply elem_of_nil in H|exact H].
  - apply IH. destruct (decide (x = a)) as [->|Hne].
    + right. apply lookup_insert_eq.
    + destruct H as [H|H].
      * apply elem_of_cons in H. destruct H as [->|H]; [done|now left].
      * right. now rewrite lookup_insert_ne.
Qed.

Lemma flat_map_accountElems_length (b : Z) (accounts : list (list byte)) :
  Z.of_nat (length (flat_map (accountElems b) accounts)) = 3 * Z.of_nat (length accounts).
Proof. induction accounts as [|a l IH]; cbn [flat_map length app accountElems]; lia. Qed.

Lemma loadAccountBatchRPC_quiet (s : Layer) (accounts : list (list byte)) (net : Net) (b : Z) :
  bn s = Some b → 0 < batchSize s → script net = [] →
  ∃ ws,
    loadAccountBatchRPC s accounts net
    = Some ((map (accountAnswer b) accounts, None,
             withAccessedAccounts s (markAccessed (accessedAccounts s) accounts)),
            mkNet [] (trace net ++ map (fun w => EvBatchCall w None) ws)) ∧
    concat ws = flat_map (accountElems b) accounts ∧
    Z.of_nat (length ws) = ceilDiv (3 * Z.of_nat (length accounts)) (batchSize s) ∧
    Forall (fun w => Z.of_nat (length w) ≤ batchSize s) ws.
Proof.
  intros Hbn Hstep Hq. unfold loadAccountBatchRPC. rewrite Hbn.
  cbn [batchSize withAccessedAccounts]. munfold.
  destruct (accountWindows_quiet (length (flat_map (accountElems b) accounts) + 7)
              (flat_map (accountElems b) accounts) (batchSize s) 0 0 net
              Hstep ltac:(lia) Hq ltac:(lia))
    as (ws & -> & Hcat & Hcnt & Hall).
  exists ws. split; [reflexivity|]. split; [exact Hcat|]. split; [|exact Hall].
  rewrite Hcnt, flat_map_accountElems_length. f_equal. lia.
Qed.


End Quiet.

Section Outage.

Context {env : Env}.

Lemma imap_pause_const (call : option error → Event) (c : Z) (es : list error) :
  ∀ p : nat → Z,
    (∀ i, (i < length es)%nat → p i = c) →
    concat (imap (fun i e => [call (Some e); EvSleep (p i)]) es)
    = flat_map (fun e => [call (Some e); EvSleep c]) es.
Proof.
  induction es as [|e es IH]; intros p Hp; [reflexivity|].
  cbn [imap concat flat_map]. rewrite (Hp 0%nat) by (cbn; lia).
  f_equal. apply (IH (p ∘ S)). intros i Hi. apply Hp. cbn. lia.
Qed.

Lemma withRpcCnt_twice (l : Layer) (c1 c2 : Z) :
  withRpcCnt (withRpcCnt l c1) c2 = withRpcCnt l c2.
Proof. reflexivity. Qed.

Lemma stateWindows_single (elem : BatchElem) (step : Z) (net : Net) :
  0 < step →
  stateWindows 2 [elem] step 0 net = BatchCallContext [elem] net.
Proof.
  intros Hstep. cbn [stateWindows length].
  change (0 <? Z.of_nat 1) with true. cbn match.
  replace (if 0 + step >? Z.of_nat 1 then Z.of_nat 1 else 0 + step) with 1
    by (destruct (Z.gtb_spec (0 + step) (Z.of_nat 1)); lia).
  munfold. rewrite slice_ok by (cbn; lia).
  change (take (Z.to_nat (1 - 0)) (drop (Z.to_nat 0) [elem])) with [elem].
  destruct (BatchCallContext [elem] net) as [[[e|] net']|]; try reflexivity.
  destruct (Z.ltb_spec (0 + step) (Z.of_nat 1)); [lia|reflexivity].
Qed.

Lemma storageRetry_outage (account key : list byte) (b : Z) (es : list error) :
  ∀ (fuel : nat) (l : Layer) (net : Net),
    bn l = Some b → 0 < batchSize l →
    script net = map Some es → (length es < fuel)%nat →
    let call := EvBatchCall [eth_getStorageAt_req account key (hexBN b)] in
    storageRetry fuel l [mkStorageReq account key zeroHash None] net
    = Some (([mkStorageReq account key (eth_getStorageAt up account key (hexBN b)) None],
             withRpcCnt l (int64 (rpcCnt l + Z.of_nat (length es) + 1))),
            mkNet [] (trace net
                      ++ flat_map (fun e => [call (Some e); EvSleep 1000]) es
                      ++ [call None])).
Proof.
  induction es as [|e es IH]; intros fuel l net Hbn Hstep Hs Hfuel call;
    (destruct fuel as [|fuel]; [cbn in Hfuel; lia|]);
    cbn [storageRetry]; unfold loadStateBatchRPC; cbn [bn withRpcCnt batchSize];
    rewrite Hbn; cbn [map length]; munfold;
    rewrite stateWindows_single by exact Hstep;
    cbn [storageElem Req_Address Req_Key].
  - rewrite BatchCallContext_quiet by exact Hs.
    cbn [map storageAnswer Req_Address Req_Key Req_Error length flat_map app].
    do 4 f_equal. cbn. f_equal. lia.
  - rewrite (BatchCallContext_fails _ _ e (map Some es)) by exact Hs.
    unfold Sleep. cbn [script trace].
    rewrite (IH fuel) by (cbn [bn batchSize withRpcCnt script length] in *; try done; lia).
    cbn [trace rpcCnt withRpcCnt flat_map length]. rewrite withRpcCnt_twice.
    rewrite <- (Z.add_assoc (int64 _)), int64_int64_add, <- !app_assoc. cbn [app].
    do 4 f_equal. f_equal. lia.
Qed.

(** X15, a slot read waits out an outage: when the transport fails [f]
    times in a row and then answers, [loadState] returns the upstream value
    after [f] failed calls, each followed by a pause of a second, and one
    call that goes through; every call, failed or not, counts as a request. *)
Theorem a_slot_read_waits_out_an_outage (l : Layer) (account key : list byte)
    (es : list error) (net : Net) (b : Z) :
  bn l = Some b → 0 < batchSize l → script net = map Some es →
  loadState l account key net
  = Some ((eth_getStorageAt up account key (hexBN b),
           withRpcCnt l (int64 (rpcCnt l + Z.of_nat (length es) + 1))),
          mkNet [] (trace net
                    ++ outage (EvBatchCall [eth_getStorageAt_req account key (hexBN b)])
                         (fun _ => 1000) es)).
Proof.
  intros Hbn Hstep Hs. unfold loadState, storageTick. cbn [length Nat.ltb Nat.leb].
  unfold untilUp. munfold.
  rewrite (storageRetry_outage account key b es) by (try done; rewrite Hs, length_map; lia).
  cbn [Req_Value]. unfold outage.
  now rewrite (imap_pause_const _ 1000) by done.
Qed.

End Outage.

Section Outage2.
Context {env : Env}.

Lemma accountAttempts_outage (window : list BatchElem) (es : list error) :
  ∀ (fuel : nat) (t : Z) (net : Net),
    0 ≤ t ≤ 5 → script net = map Some es → (Z.to_nat (5 - t) < fuel)%nat →
    let call := EvBatchCall window in
    let r := Z.to_nat (5 - t) in
    accountAttempts fuel window t net
    = match es !! r with
      | None =>
          Some ((None, t + Z.of_nat (length es)),
                mkNet [] (trace net
                          ++ flat_map (fun e => [call (Some e); EvSleep 100]) es
                          ++ [call None]))
      | Some e =>
          Some ((Some e, 6),
                mkNet (map Some (drop (S r) es))
                  (trace net
                   ++ flat_map (fun e => [call (Some e); EvSleep 100]) (take r es)
                   ++ [call (Some e)]))
      end.
Proof.
  induction es as [|e es IH]; intros fuel t net Ht Hs Hfuel call r;
    (destruct fuel as [|fuel]; [lia|]); cbn [accountAttempts]; munfold.
  - rewrite BatchCallContext_quiet by exact Hs. rewrite lookup_nil.
    cbn [length flat_map app]. do 3 f_equal. lia.
  - rewrite (BatchCallContext_fails _ _ e (map Some es)) by exact Hs.
    destruct (Z.gtb_spec (t + 1) 5) as [Hout|Hin].
    + assert (r = 0%nat) as -> by (subst r; lia).
      cbn [lookup list_lookup take drop flat_map app]. do 3 f_equal. lia.
    + unfold Sleep. cbn [script trace].
      rewrite (IH fuel (t + 1)) by (cbn [script]; try done; lia).
      assert (r = S (Z.to_nat (5 - (t + 1)))) as -> by (subst r; lia).
      cbn [lookup list_lookup trace].
      destruct (es !! Z.to_nat (5 - (t + 1))) as [e'|] eqn:E.
      * cbn [take drop flat_map]. rewrite <- !app_assoc. reflexivity.
      * cbn [flat_map length]. rewrite <- !app_assoc. cbn [app].
        do 3 f_equal. lia.
Qed.

Lemma accountWindows_single (fuel : nat) (window : list BatchElem) (step : Z) (net : Net) :
  Z.of_nat (length window) ≤ step → window ≠ [] →
  accountWindows (S (S fuel)) window step 0 0 net
  = match accountAttempts (S fuel) window 0 net with
    | Some ((err, _), net') => Some (err, net')
    | None => None
    end.
Proof.
  intros Hstep Hne. cbn [accountWindows].
  assert (0 < Z.of_nat (length window)) by (destruct window; [done|cbn; lia]).
  destruct (Z.ltb_spec 0 (Z.of_nat (length window))); [|lia].
  replace (if 0 + step >? Z.of_nat (length window) then Z.of_nat (length window) else 0 + step)
    with (Z.of_nat (length window))
    by (destruct (Z.gtb_spec (0 + step) (Z.of_nat (length window))); lia).
  munfold. rewrite slice_ok by lia.
  rewrite Z.sub_0_r, Nat2Z.id. change (Z.to_nat 0) with 0%nat. rewrite drop_0, firstn_all.
  destruct (accountAttempts (S fuel) window 0 net) as [[[[e|] t] net']|]; try reflexivity.
  destruct (Z.ltb_spec (0 + step) (Z.of_nat (length window))); [lia|reflexivity].
Qed.


Lemma pauseAfter_chunk (j i : nat) :
  pauseAfter (6 * j + i)
  = if decide (Z.of_nat (S i) mod 6 = 0) then 1000 else 100.
Proof.
  unfold pauseAfter.
  replace (Z.of_nat (S (6 * j + i))) with (Z.of_nat (S i) + Z.of_nat j * 6) by lia.
  rewrite Z_mod_plus_full.
  destruct (Z.eqb_spec (Z.of_nat (S i) mod 6) 0); now destruct (decide _).
Qed.

Lemma loadAccountBatchRPC_single (l : Layer) (account : list byte) (net : Net) (b : Z) :
  bn l = Some b → 3 ≤ batchSize l →
  loadAccountBatchRPC l [account] net
  = match accountAttempts 9 (accountElems b account) 0 net with
    | Some ((Some e, _), net') =>
        Some (([], Some e,
               withAccessedAccounts l (<[account := true]> (accessedAccounts l))), net')
    | Some ((None, _), net') =>
        Some (([accountAnswer b account], None,
               withAccessedAccounts l (<[account := true]> (accessedAccounts l))), net')
    | None => None
    end.
Proof.
  intros Hbn Hstep. unfold loadAccountBatchRPC. rewrite Hbn.
  cbn [flat_map app batchSize withAccessedAccounts markAccessed foldl map].
  rewrite app_nil_r. munfold.
  change (length (accountElems b account) + 7)%nat with (S (S 8)).
  rewrite accountWindows_single by (cbn; first [lia|done]).
  destruct (accountAttempts 9 (accountElems b account) 0 net) as [[[[e|] t] net']|];
    reflexivity.
Qed.

Lemma accountRetry_outage (account : list byte) (b : Z) (fuel : nat) :
  ∀ (es : list error) (j : nat) (l : Layer) (net : Net),
    bn l = Some b → 3 ≤ batchSize l →
    script net = map Some es → (length es < fuel)%nat →
    let call := EvBatchCall (accountElems b account) in
    accountRetry fuel l [account] net
    = Some (([accountAnswer b account],
             withAccessedAccounts l (<[account := true]> (accessedAccounts l))),
            mkNet [] (trace net
                      ++ concat (imap (fun i e => [call (Some e);
                                                   EvSleep (pauseAfter (6 * j + i))]) es)
                      ++ [call None])).
Proof.
  induction fuel as [|fuel IH]; intros es j l net Hbn Hstep Hs Hfuel call; [lia|].
  cbn [accountRetry]. munfold.
  rewrite (loadAccountBatchRPC_single l account net b Hbn Hstep).
  rewrite (accountAttempts_outage _ es) by (try done; cbn; lia).
  change (Z.to_nat (5 - 0)) with 5%nat.
  destruct (es !! 5%nat) as [e|] eqn:E.
  - unfold Sleep. cbn [script trace].
    apply lookup_lt_Some in E as Hlen.
    rewrite (IH (drop 6 es) (S j))
      by (cbn [bn batchSize withAccessedAccounts script]; try done; rewrite length_drop; lia).
    cbn [accessedAccounts withAccessedAccounts trace]. rewrite insert_insert_eq.
    do 3 f_equal. rewrite <- !app_assoc. f_equal.
    rewrite <- (take_drop_middle es 5 e E) at 3.
    rewrite imap_app, imap_cons, concat_app. cbn [concat].
    rewrite length_take, Nat.min_l by lia.
    rewrite (imap_pause_const call 100 (take 5 es)).
    2:{ intros i Hi. rewrite length_take in Hi. rewrite pauseAfter_chunk.
        destruct (decide _) as [H0|]; [|reflexivity].
        exfalso. assert (i < 5)%nat by lia.
        destruct i as [|[|[|[|[|i]]]]]; try lia; cbn in H0; discriminate. }
    rewrite <- !app_assoc. f_equal. cbn [app].
    rewrite pauseAfter_chunk. cbn [decide]. change (Z.of_nat (S (5 + 0)) mod 6) with 0.
    rewrite decide_True by reflexivity.
    do 2 f_equal. f_equal. f_equal. apply imap_ext. intros i x _.
    unfold compose.
    replace (6 * S j + i)%nat with (6 * j + (5 + S i))%nat by lia. reflexivity.
  - apply lookup_ge_None in E.
    cbn [trace]. rewrite (imap_pause_const call 100 es); [reflexivity|].
    intros i Hi. rewrite pauseAfter_chunk.
    destruct (decide _) as [H0|]; [|reflexivity].
    exfalso. assert (i < 5)%nat by lia.
    destruct i as [|[|[|[|[|i]]]]]; try lia; cbn in H0; discriminate.
Qed.

(** X16, an account read waits out an outage: with batches of at least
    three requests, when the transport fails [f] times in a row and then
    answers, [loadAccount] returns the upstream account after [f] failed
    calls of the same batch and one that goes through, pausing 100 ms after
    a failure and a second after every sixth; the account is marked as
    accessed. *)
Theorem an_account_read_waits_out_an_outage (l : Layer) (account : list byte)
    (es : list error) (net : Net) (b : Z) :
  bn l = Some b → 3 ≤ batchSize l → script net = map Some es →
  loadAccount l account net
  = Some ((accountAnswer b account,
           withAccessedAccounts l (<[account := true]> (accessedAccounts l))),
          mkNet [] (trace net
                    ++ outage (EvBatchCall (accountElems b account)) pauseAfter es)).
Proof.
  intros Hbn Hstep Hs. unfold loadAccount, accountTick.
  cbn [length Nat.ltb Nat.leb map Account]. unfold untilUp. munfold.
  rewrite (accountRetry_outage account b _ es 0)
    by (try done; rewrite Hs, length_map; lia).
  reflexivity.
Qed.

End Outage2.

Section NoBatch.

Context {env : Env}.

(** With a step below one the window loops make no progress: whatever the
    fuel, they end in a transport error or do not end. *)
Lemma stateWindows_stuck (fuel : nat) :
  ∀ (reqs : list BatchElem) (step : Z) (net net' : Net),
    step ≤ 0 → reqs ≠ [] →
    stateWindows fuel reqs step 0 net ≠ Some (None, net').
Proof.
  induction fuel as [|fuel IH]; intros reqs step net net' Hstep Hne; [discriminate|].
  cbn [stateWindows].
  assert (0 < Z.of_nat (length reqs)) by (destruct reqs; [done|cbn; lia]).
  destruct (Z.ltb_spec 0 (Z.of_nat (length reqs))); [|lia].
  replace (if 0 + step >? Z.of_nat (length reqs) then Z.of_nat (length reqs) else 0 + step)
    with step by (destruct (Z.gtb_spec (0 + step) (Z.of_nat (length reqs))); lia).
  munfold.
  destruct (Z.leb_spec 0 step) as [Hs0|Hs0].
  - assert (step = 0) as -> by lia. rewrite slice_ok by lia.
    match goal with
    | |- context [BatchCallContext ?w net] =>
        destruct (BatchCallContext w net) as [[[e|] net1]|]; [discriminate| |discriminate]
    end.
    change (0 + 0) with 0. now apply IH.
  - unfold slice. destruct (Z.leb_spec 0 step); [lia|]. cbn. discriminate.
Qed.

Lemma accountWindows_stuck (fuel : nat) :
  ∀ (batchElem : list BatchElem) (step t : Z) (net net' : Net),
    step ≤ 0 → batchElem ≠ [] →
    accountWindows fuel batchElem step 0 t net ≠ Some (None, net').
Proof.
  induction fuel as [|fuel IH]; intros batchElem step t net net' Hstep Hne; [discriminate|].
  cbn [accountWindows].
  assert (0 < Z.of_nat (length batchElem)) by (destruct batchElem; [done|cbn; lia]).
  destruct (Z.ltb_spec 0 (Z.of_nat (length batchElem))); [|lia].
  replace (if 0 + step >? Z.of_nat (length batchElem) then Z.of_nat (length batchElem)
           else 0 + step)
    with step by (destruct (Z.gtb_spec (0 + step) (Z.of_nat (length batchElem))); lia).
  munfold.
  destruct (Z.leb_spec 0 step) as [Hs0|Hs0].
  - assert (step = 0) as -> by lia. rewrite slice_ok by lia.
    match goal with
    | |- context [accountAttempts fuel ?w t net] =>
        destruct (accountAttempts fuel w t net) as [[[[e|] t'] net1]|];
          [discriminate| |discriminate]
    end.
    change (0 + 0) with 0. now apply IH.
  - unfold slice. destruct (Z.leb_spec 0 step); [lia|]. cbn. discriminate.
Qed.

Lemma storageRetry_stuck (fuel : nat) :
  ∀ (l : Layer) (pending : list StorageReq) (net : Net),
    batchSize l ≤ 0 → pending ≠ [] →
    storageRetry fuel l pending net = None.
Proof.
  induction fuel as [|fuel IH]; intros l pending net Hstep Hne; [reflexivity|].
  cbn [storageRetry]. unfold loadStateBatchRPC. cbn [bn withRpcCnt batchSize].
  destruct (bn l) as [b|]; [|reflexivity]. munfold.
  pose proof (stateWindows_stuck (S (length (map (storageElem b) pending)))
                (map (storageElem b) pending) (batchSize l) net) as Hstuck.
  destruct (stateWindows _ _ _ 0 net) as [[[e|] net1]|]; [| |reflexivity].
  - unfold Sleep. apply IH; done.
  - exfalso. apply (Hstuck net1 Hstep); [|reflexivity].
    destruct pending; [done|discriminate].
Qed.

Lemma accountRetry_stuck (fuel : nat) :
  ∀ (l : Layer) (accounts : list (list byte)) (net : Net),
    batchSize l ≤ 0 → accounts ≠ [] →
    accountRetry fuel l accounts net = None.
Proof.
  induction fuel as [|fuel IH]; intros l accounts net Hstep Hne; [reflexivity|].
  cbn [accountRetry]. unfold loadAccountBatchRPC.
  destruct (bn l) as [b|]; [|reflexivity]. cbn [batchSize withAccessedAccounts]. munfold.
  pose proof (accountWindows_stuck (length (flat_map (accountElems b) accounts) + 7)
                (flat_map (accountElems b) accounts) (batchSize l) 0 net) as Hstuck.
  destruct (accountWindows _ _ _ 0 0 net) as [[[e|] net1]|]; [| |reflexivity].
  - unfold Sleep. apply IH; done.
  - exfalso. apply (Hstuck net1 Hstep); [|reflexivity].
    destruct accounts; [done|discriminate].
Qed.

Lemma shadowed_setRootBatchSize (s : OverlayState) (size : Z) (k : string) :
  shadowed (setRootBatchSize s size) k = shadowed s k.
Proof.
  induction s as [l|l p IH]; cbn [setRootBatchSize].
  - now rewrite !shadowed_Root.
  - now rewrite !shadowed_Derived, IH.
Qed.

Lemma batchSize_setRootBatchSize (s : OverlayState) (size : Z) :
  batchSize (this (getRootState (setRootBatchSize s size))) = size.
Proof. induction s as [l|l p IH]; cbn; [reflexivity|exact IH]. Qed.

Lemma get_stuck (s : OverlayState) (account : list byte) (action : RequestType)
    (key : list byte) (net : Net) :
  batchSize (this (getRootState s)) ≤ 0 →
  shadowed s (scratchpadKeyOf action account key) = None →
  get s account action key net = None.
Proof.
  intros Hb Hnone. destruct (shadowed_None _ _ Hnone) as [Hov Hroot].
  rewrite get_descend by exact Hov.
  rewrite (getRootState_Root s) in *. cbn [this] in *.
  set (l := this (getRootState s)) in *.
  cbn [get]. rewrite Hroot.
  destruct action; munfold; unfold loadAccount, loadState, accountTick, storageTick, untilUp;
    cbn [length Nat.ltb Nat.leb map]; munfold;
    rewrite ?accountRetry_stuck, ?storageRetry_stuck by done; reflexivity.
Qed.

(** X17, a batch size below one blocks every fetch: the window loops of
    both fetchers then make no progress, whatever the fuel given to the
    model (they end in a transport error or not at all), the retry loops
    around them never return, and so a read of a key that no layer holds
    never returns, in particular after [SetBatchSize] with such a size. *)
Theorem a_batch_size_below_one_blocks_every_fetch (size : Z) :
  size ≤ 0 →
  (∀ fuel reqs net net', reqs ≠ [] →
     stateWindows fuel reqs size 0 net ≠ Some (None, net')) ∧
  (∀ fuel batchElem net net', batchElem ≠ [] →
     accountWindows fuel batchElem size 0 0 net ≠ Some (None, net')) ∧
  (∀ fuel l pending net, batchSize l = size → pending ≠ [] →
     storageRetry fuel l pending net = None) ∧
  (∀ fuel l accounts net, batchSize l = size → accounts ≠ [] →
     accountRetry fuel l accounts net = None) ∧
  ∀ db account action key net,
    shadowed (state db) (scratchpadKeyOf action account key) = None →
    read (SetBatchSize db size) account action key net = None.
Proof.
  intros Hsize. repeat split.
  - intros. now apply stateWindows_stuck.
  - intros. now apply accountWindows_stuck.
  - intros fuel l pending net <- Hne. now apply storageRetry_stuck.
  - intros fuel l accounts net <- Hne. now apply accountRetry_stuck.
  - intros db account action key net Hnone. unfold read, SetBatchSize.
    cbn [state withState]. munfold.
    rewrite get_stuck; [reflexivity| |].
    + now rewrite batchSize_setRootBatchSize.
    + now rewrite shadowed_setRootBatchSize.
Qed.

End NoBatch.

Section OneFetch.

Context {env : Env}.

Lemma loadAccount_quiet (l : Layer) (account : list byte) (net : Net) (b : Z) :
  bn l = Some b → 3 ≤ batchSize l → script net = [] →
  loadAccount l account net
  = Some ((accountAnswer b account,
           withAccessedAccounts l (<[account := true]> (accessedAccounts l))),
          mkNet [] (trace net ++ [EvBatchCall (accountElems b account) None])).
Proof.
  intros Hbn Hstep Hs. unfold loadAccount, accountTick.
  cbn [length Nat.ltb Nat.leb map Account]. unfold untilUp. munfold.
  rewrite (accountRetry_outage account b _ [] 0) by (try done; rewrite Hs; cbn; lia).
  reflexivity.
Qed.

Lemma get_account_miss_quiet (s : OverlayState) (account : list byte)
    (action : RequestType) (key : list byte) (net : Net) (b : Z) :
  action ≠ GET_STATE →
  bn (this (getRootState s)) = Some b → 3 ≤ batchSize (this (getRootState s)) →
  script net = [] →
  shadowed s (scratchpadKeyOf action account key) = None →
  get s account action key net
  = Some ((upstreamValue b action account key, None,
           withAccounts [account] (rpcCnt (this (getRootState s)))
             (<[account := true]> (accessedAccounts (this (getRootState s)))) s),
          mkNet [] (trace net ++ [EvBatchCall (accountElems b account) None])).
Proof.
  intros Hact Hbn Hstep Hs Hnone.
  destruct (shadowed_None _ _ Hnone) as [Ho Hr].
  rewrite (get_descend s _ _ _ _ Ho).
  unfold withAccounts, pinnedBlock. rewrite Hbn. cbn [default].
  rewrite (getRootState_Root s) at 1.
  set (l := this (getRootState s)) in *.
  cbn [get]. rewrite Hr.
  destruct action; [| | | |done]; munfold;
    rewrite (loadAccount_quiet l account net b Hbn Hstep Hs);
    cbn [withAccessedAccounts scratchPad];
    rewrite accountPad_answer, accountPad_lookup, Hr;
    cbn [scratchpadKeyOf]; decide_keys;
    unfold warmRoot, accountPads; cbn [foldr];
    destruct l; reflexivity.
Qed.

Lemma shadowed_fetched (s : OverlayState) (account : list byte)
    (action : RequestType) (cnt : Z) (acc : gmap (list byte) bool) :
  action ≠ GET_STATE →
  shadowed (withAccounts [account] cnt acc s) (scratchpadKeyOf action account zeroHash)
  = Some (default (upstreamValue (pinnedBlock s) action account zeroHash)
            (shadowed s (scratchpadKeyOf action account zeroHash))).
Proof.
  intros Hact. rewrite shadowed_withAccounts.
  destruct (shadowed s (scratchpadKeyOf action account zeroHash)); [reflexivity|].
  rewrite entryOf_key.
  assert (Ha : addressOf (scratchpadKeyOf action account zeroHash) = account)
    by (destruct action; [| | | |done]; apply addressOf_calcKey; reflexivity).
  rewrite Ha, decide_True by (apply elem_of_cons; now left).
  now destruct action.
Qed.

Lemma Uint64_nonce (n : Z) :
  (Uint64 (Z.abs (int64 (uint64 n))) =? 0) = (uint64 n =? 0).
Proof.
  unfold Uint64, int64, uint64.
  pose proof (Z.mod_pos_bound n (2 ^ 64) ltac:(lia)) as Hb.
  rewrite (Z.mod_small (n mod 2 ^ 64)) by lia.
  set (u := n mod 2 ^ 64) in *.
  change (2 ^ 64) with 18446744073709551616 in *.
  change (2 ^ 63) with 9223372036854775808 in *.
  destruct (Z.ltb_spec u 9223372036854775808).
  - rewrite Z.abs_eq, Z.mod_small by lia. reflexivity.
  - rewrite Z.abs_neq by lia.
    rewrite Z.mod_small by lia.
    destruct (Z.eqb_spec (- (u - 18446744073709551616)) 0), (Z.eqb_spec u 0); lia.
Qed.

(** X18, [Empty] of an account whose code no layer holds costs one
    fetch: on a transport that does not fail and with batches of at least
    three requests, [Empty] (and [Exist], its negation) returns after one
    batch call of the three requests of the account, the nonce and the
    balance being read from the cache the call filled; where no layer holds
    the nonce and the balance either, the account is empty exactly when
    upstream its code is empty and its nonce and balance are 0. *)
Theorem Empty_costs_one_fetch (db : OverlayStateDB) (account : list byte)
    (net : Net) (b : Z) :
  bn (this (getRootState (state db))) = Some b →
  3 ≤ batchSize (this (getRootState (state db))) →
  script net = [] →
  shadowed (state db) (calcKey CODE_KEY account) = None →
  ∃ e db',
    let net' := mkNet [] (trace net ++ [EvBatchCall (accountElems b account) None]) in
    Empty db account net = Some ((e, db'), net') ∧
    Exist db account net = Some ((negb e, db'), net') ∧
    (shadowed (state db) (calcKey NONCE_KEY account) = None →
     shadowed (state db) (calcKey BALANCE_KEY account) = None →
     e = (length (eth_getCode up account (hexBN b)) =? 0)%nat
         && (uint64 (eth_getTransactionCount up account (hexBN b)) =? 0)
         && (Z.of_N (eth_getBalance up account (hexBN b)) =? 0)).
Proof.
  intros Hbn Hstep Hs Hcode.
  unfold Exist, Empty, GetCode, GetNonce, GetBalance, read. munfold.
  rewrite (get_account_miss_quiet (state db) account GET_CODE zeroHash net b)
    by (try done).
  cbn [state withState].
  set (s1 := withAccounts _ _ _ (state db)).
  pose proof (shadowed_fetched (state db) account GET_NONCE
                (rpcCnt (this (getRootState (state db))))
                (<[account := true]> (accessedAccounts (this (getRootState (state db)))))
                ltac:(done)) as Hn.
  pose proof (shadowed_fetched (state db) account GET_BALANCE
                (rpcCnt (this (getRootState (state db))))
                (<[account := true]> (accessedAccounts (this (getRootState (state db)))))
                ltac:(done)) as Hb.
  fold s1 in Hn, Hb.
  rewrite (get_hit s1 _ _ _ _ _ Hn). cbn [state withState].
  rewrite (get_hit s1 _ _ _ _ _ Hb).
  eexists _, _. split; [reflexivity|]. split; [reflexivity|].
  intros Hnn Hnb. cbn [scratchpadKeyOf].
  rewrite Hnn, Hnb. cbn [default upstreamValue].
  unfold pinnedBlock. rewrite Hbn. cbn [default from_option id].
  rewrite !SetBytes_Bytes, Uint64_nonce.
  f_equal. rewrite Z.abs_eq by lia.
  destruct (eth_getBalance up account (hexBN b)); reflexivity.
Qed.

End OneFetch.

(** ** The state diff *)

Lemma BytesToHash_32 (x : list byte) : length x = 32%nat → BytesToHash x = x.
Proof.
  intros Hx. unfold BytesToHash.
  replace (length x - HashLength)%nat with 0%nat by (unfold HashLength; lia).
  rewrite drop_0.
  replace (HashLength - length x)%nat with 0%nat by (unfold HashLength; lia).
  reflexivity.
Qed.

Lemma BytesToAddress_20 (x : list byte) : length x = 20%nat → BytesToAddress x = x.
Proof.
  intros Hx. unfold BytesToAddress.
  replace (length x - AddressLength)%nat with 0%nat by (unfold AddressLength; lia).
  rewrite drop_0.
  replace (AddressLength - length x)%nat with 0%nat by (unfold AddressLength; lia).
  reflexivity.
Qed.

(** A key with its three parts: the tag, the address and, for storage,
    the slot. *)
Lemma key_parts (tag a rest : list byte) (net : Net) :
  length tag = 32%nat → length a = 20%nat →
  let kb := list_byte_of_string (string_of_list_byte (tag ++ a ++ rest)) in
  slice kb 0 32 net = Some (tag, net) ∧
  slice kb 32 (32 + 20) net = Some (a, net) ∧
  (length rest = 32%nat → slice kb (32 + 20) (32 + 20 + 32) net = Some (rest, net)) ∧
  keyAccount (string_of_list_byte (tag ++ a ++ rest)) = a.
Proof.
  intros Ht Ha kb. subst kb. unfold keyAccount.
  rewrite list_byte_of_string_of_list_byte.
  repeat split.
  - rewrite slice_ok by (rewrite ?length_app; lia).
    change (Z.to_nat (32 - 0)) with 32%nat. change (Z.to_nat 0) with 0%nat.
    rewrite drop_0, take_app_length'; [reflexivity|now symmetry].
  - rewrite slice_ok by (rewrite ?length_app; lia).
    change (Z.to_nat (32 + 20 - 32)) with 20%nat. change (Z.to_nat 32) with 32%nat.
    rewrite drop_app_length' by (now symmetry).
    rewrite take_app_length'; [reflexivity|now symmetry].
  - intros Hr. rewrite slice_ok by (rewrite ?length_app; lia).
    change (Z.to_nat (32 + 20 + 32 - (32 + 20))) with 32%nat.
    change (Z.to_nat (32 + 20)) with (32 + 20)%nat.
    rewrite <- drop_drop, drop_app_length' by (now symmetry).
    rewrite drop_app_length' by (now symmetry).
    rewrite take_ge by lia. reflexivity.
  - rewrite drop_app_length' by (now symmetry).
    rewrite take_app_length'; [reflexivity|now symmetry].
Qed.

Lemma calcKey_parts (tag a : list byte) :
  calcKey tag a = string_of_list_byte (tag ++ a ++ []).
Proof. unfold calcKey. now rewrite app_nil_r. Qed.

Lemma keyAccount_calcKey (tag a : list byte) :
  length tag = 32%nat → length a = 20%nat → keyAccount (calcKey tag a) = a.
Proof.
  intros Ht Ha. rewrite calcKey_parts.
  apply (key_parts tag a [] (mkNet [] []) Ht Ha).
Qed.

Lemma keyAccount_calcStateKey (a slot : list byte) :
  length a = 20%nat → keyAccount (calcStateKey a slot) = a.
Proof.
  intros Ha. rewrite calcStateKey_bytes.
  apply (key_parts STATE_KEY a slot (mkNet [] []) eq_refl Ha).
Qed.

Lemma calcStateKey_inj (a a' slot slot' : list byte) :
  length a = 20%nat → length a' = 20%nat →
  calcStateKey a slot = calcStateKey a' slot' → a = a' ∧ slot = slot'.
Proof.
  intros Ha Ha' H. rewrite !calcStateKey_bytes in H.
  apply string_of_list_byte_inj, app_inv_head in H.
  apply app_inj_1 in H; [exact H|congruence].
Qed.

Lemma exported_ext (v1 v2 : string → option (list byte)) (accounts : StateOverride) :
  (∀ k, v1 k = v2 k) → exported v1 accounts → exported v2 accounts.
Proof.
  intros Hv H a Ha. destruct (H a Ha) as (H1 & H2 & H3 & H4 & H5 & H6 & H7).
  split; [|split; [|split; [|split; [|split; [|split]]]]].
  - rewrite H1. split; intros (k & Hk & Hka); exists k.
    + rewrite <- Hv. split; [exact Hk|exact Hka].
    + rewrite Hv. split; [exact Hk|exact Hka].
  - now rewrite <- Hv.
  - now rewrite <- Hv.
  - now rewrite <- Hv.
  - exact H5.
  - intros slot Hs. rewrite <- Hv. now apply H6.
  - rewrite H7. split; intros H' slot Hs; [rewrite <- Hv|rewrite Hv]; now apply H'.
Qed.

Lemma exported_empty : exported (fun _ => None) ∅.
Proof.
  intros a Ha. unfold overrideOf. rewrite lookup_empty. cbn.
  repeat split; try done.
  all: try (intros [x Hx]; done).
  all: try (intros (k & [x Hx] & _); done).
Qed.

(** The step of the export: an entry of the address [a'] under a key not
    yet seen, with [upd] what the round does to the override of [a']. *)
Lemma exported_step (m : gmap string (list byte)) (k : string) (x : list byte)
    (accounts accounts1 : StateOverride) (a' : list byte)
    (upd : OverrideAccount → OverrideAccount) :
  length a' = 20%nat → keyAccount k = a' → m !! k = None →
  (∀ a, a ≠ a' → accounts1 !! a = accounts !! a) →
  (∀ o, Override_Balance (upd o)
        = if decide (k = calcKey BALANCE_KEY a') then Some (SetBytes x)
          else Override_Balance o) →
  (∀ o, Override_Nonce (upd o)
        = if decide (k = calcKey NONCE_KEY a') then Some (Uint64 (SetBytes x))
          else Override_Nonce o) →
  (∀ o, Override_Code (upd o)
        = if decide (k = calcKey CODE_KEY a') then Some x else Override_Code o) →
  (∀ o, Override_State (upd o) = Override_State o) →
  (∀ o slot, length slot = 32%nat →
     (sd ← Override_StateDiff (upd o); sd !! slot)
     = if decide (k = calcStateKey a' slot) then Some (BytesToHash x)
       else (sd ← Override_StateDiff o; sd !! slot)) →
  (∀ o, Override_StateDiff (upd o) = None ↔
        Override_StateDiff o = None ∧ ∀ slot, length slot = 32%nat → k ≠ calcStateKey a' slot) →
  exported (fun k' => m !! k') accounts →
  exported (fun k' => <[k := x]> m !! k')
    (<[a' := upd (overrideOf accounts a')]> accounts1).
Proof.
  intros Ha' Hk Hm H1 HB HN HC HS HD HD0 Hexp a Ha.
  assert (Hother : ∀ tag, length tag = 32%nat → a ≠ a' → k ≠ calcKey tag a).
  { intros tag Ht Hne E. apply Hne. rewrite <- Hk, E. symmetry.
    now apply keyAccount_calcKey. }
  assert (Hother' : ∀ slot, a ≠ a' → k ≠ calcStateKey a slot).
  { intros slot Hne E. apply Hne. rewrite <- Hk, E. symmetry.
    now apply keyAccount_calcStateKey. }
  destruct (Hexp a Ha) as (E1 & E2 & E3 & E4 & E5 & E6 & E7).
  assert (Hov : overrideOf (<[a' := upd (overrideOf accounts a')]> accounts1) a
                = if decide (a' = a) then upd (overrideOf accounts a')
                  else overrideOf accounts a).
  { unfold overrideOf at 1. rewrite lookup_insert.
    destruct (decide (a' = a)); [reflexivity|].
    rewrite H1 by congruence. reflexivity. }
  rewrite Hov, lookup_insert. clear Hov.
  destruct (decide (a' = a)) as [->|Hne].
  - split; [|split; [|split; [|split; [|split; [|split]]]]].
    + split; [intros _|intros _; eauto].
      exists k. rewrite lookup_insert_eq. split; [eauto|exact Hk].
    + rewrite HB, lookup_insert. destruct (decide (k = calcKey BALANCE_KEY a)); [reflexivity|exact E2].
    + rewrite HN, lookup_insert. destruct (decide (k = calcKey NONCE_KEY a)); [reflexivity|exact E3].
    + rewrite HC, lookup_insert. destruct (decide (k = calcKey CODE_KEY a)); [reflexivity|exact E4].
    + rewrite HS. exact E5.
    + intros slot Hs. rewrite (HD _ slot Hs), lookup_insert.
      destruct (decide (k = calcStateKey a slot)); [reflexivity|now apply E6].
    + rewrite HD0, E7. split.
      * intros [Hnone Hk'] slot Hs. rewrite lookup_insert_ne by now apply Hk'.
        now apply Hnone.
      * intros Hnone. split.
        -- intros slot Hs. specialize (Hnone slot Hs). rewrite lookup_insert in Hnone.
           destruct (decide (k = calcStateKey a slot)); [discriminate|exact Hnone].
        -- intros slot Hs E. specialize (Hnone slot Hs).
           rewrite E, lookup_insert_eq in Hnone. discriminate.
  - assert (Hne' : a ≠ a') by congruence.
    rewrite (H1 a Hne').
    split; [|split; [|split; [|split; [|split; [|split]]]]].
    + rewrite E1. split; intros (k' & Hk' & Hka); exists k'.
      * rewrite lookup_insert_ne; [done|]. intros ->. congruence.
      * rewrite lookup_insert_ne in Hk'; [done|]. intros ->. congruence.
    + rewrite lookup_insert_ne by (apply Hother; done). exact E2.
    + rewrite lookup_insert_ne by (apply Hother; done). exact E3.
    + rewrite lookup_insert_ne by (apply Hother; done). exact E4.
    + exact E5.
    + intros slot Hs. rewrite lookup_insert_ne by (apply Hother'; done). now apply E6.
    + rewrite E7. split; intros H slot Hs; specialize (H slot Hs).
      * rewrite lookup_insert_ne by (apply Hother'; done). exact H.
      * rewrite lookup_insert_ne in H by (apply Hother'; done). exact H.
Qed.

Ltac no_clash :=
  match goal with
  | |- context [decide (?k1 = ?k2)] =>
      destruct (decide (k1 = k2)) as [?E|_];
      [exfalso; revert E;
       first [ key_ne | apply state_ne_account; tauto
             | let H := fresh in
               intros H; symmetry in H; revert H;
               first [key_ne | apply state_ne_account; tauto] ]
      |]
  end.

Section ExportProps.

Context {env : Env}.

Lemma overrideOf_Some (accounts : StateOverride) (a : list byte) (o : OverrideAccount) :
  accounts !! a = Some o → o = overrideOf accounts a.
Proof. intros E. unfold overrideOf. now rewrite E. Qed.

Lemma overrideOf_None (accounts : StateOverride) (a : list byte) :
  accounts !! a = None → mkOverride None None None None None = overrideOf accounts a.
Proof. intros E. unfold overrideOf. now rewrite E. Qed.

(** The rounds of the export: what is written under the address is
    what [exported] asks for. *)
Ltac export_round Ha' S4 Hm Hexp upd :=
  eexists; split; [reflexivity|];
  apply (exported_step _ _ _ _ _ _ upd Ha' S4 Hm);
  try exact Hexp;
  cbn [Override_Balance Override_Nonce Override_Code Override_State Override_StateDiff];
  try (intros; first [reflexivity | rewrite lookup_insert_ne by congruence; reflexivity]);
  try (intros; first [rewrite decide_True by reflexivity; reflexivity
                     | no_clash; reflexivity]).

Ltac no_slot_written :=
  let o := fresh in
  let H := fresh in
  intros o; split; [intros H; split; [exact H|]|tauto];
  intros; apply not_eq_sym, state_ne_account; tauto.

Lemma exportEntry_step (m : gmap string (list byte)) (k : string) (x : list byte)
    (accounts : StateOverride) (cloned : OverlayStateDB) (net : Net) :
  canonical k → m !! k = None →
  scratchPad (this (state cloned)) !! k = Some x →
  exported (fun k' => m !! k') accounts →
  ∃ accounts',
    exportEntry k (mret (accounts, cloned)) net = Some ((accounts', cloned), net) ∧
    exported (fun k' => <[k := x]> m !! k') accounts'.
Proof.
  intros (a' & Ha' & Hkind) Hm Hx Hexp.
  unfold exportEntry. munfold.
  destruct Hkind as [->|[->|[->|[->|[->|(slot & Hslot & ->)]]]]].
  1-5: match goal with
       | |- context [list_byte_of_string (calcKey ?T ?a)] =>
           destruct (key_parts T a [] net eq_refl Ha') as (S1 & S2 & _ & S4);
           rewrite <- calcKey_parts in S1, S2, S4;
           rewrite S1, S2, (BytesToHash_32 T eq_refl), (BytesToAddress_20 a Ha')
       end.
  6: destruct (key_parts STATE_KEY a' slot net eq_refl Ha') as (S1 & S2 & S3 & S4);
     specialize (S3 Hslot);
     rewrite <- calcStateKey_bytes in S1, S2, S3, S4;
     rewrite S1, S2, (BytesToHash_32 STATE_KEY eq_refl), (BytesToAddress_20 a' Ha').
  all: destruct (accounts !! a') as [o|] eqn:E; cbv zeta;
    repeat (match goal with
            | |- context [decide (?t1 = ?t2)] =>
                destruct (decide (t1 = t2)) as [?|?]; [try discriminate|try congruence]
            end);
    [ try rewrite (overrideOf_Some _ _ _ E) | try rewrite (overrideOf_None _ _ E) ].
  1-2: (* balance *)
    unfold GetBalance; munfold;
    rewrite (read_top cloned a' GET_BALANCE zeroHash net x Hx);
    export_round Ha' S4 Hm Hexp
      (fun o => mkOverride (Override_Nonce o) (Override_Code o) (Some (SetBytes x))
                  (Override_State o) (Override_StateDiff o));
    no_slot_written.
  1-2: (* nonce *)
    unfold GetNonce; munfold;
    rewrite (read_top cloned a' GET_NONCE zeroHash net x Hx);
    export_round Ha' S4 Hm Hexp
      (fun o => mkOverride (Some (Uint64 (SetBytes x))) (Override_Code o)
                  (Override_Balance o) (Override_State o) (Override_StateDiff o));
    no_slot_written.
  1-2: (* code *)
    unfold GetCode; munfold;
    rewrite (read_top cloned a' GET_CODE zeroHash net x Hx);
    export_round Ha' S4 Hm Hexp
      (fun o => mkOverride (Override_Nonce o) (Some x) (Override_Balance o)
                  (Override_State o) (Override_StateDiff o));
    no_slot_written.
  1-4: (* code hash and suicide flag: the override is there, nothing is set *)
    eexists; (split; [reflexivity|]);
    first [ rewrite <- (insert_id accounts a' _ E) at 1;
            rewrite (overrideOf_Some _ _ _ E)
          | idtac ];
    apply (exported_step _ _ _ _ _ _ (fun o : OverrideAccount => o) Ha' S4 Hm);
    try exact Hexp; try (intros; no_clash; reflexivity); try reflexivity;
    no_slot_written.
  (* storage *)
  all: munfold; rewrite S3, (BytesToHash_32 slot Hslot);
    unfold GetState, GetCommittedState; munfold;
    rewrite (read_top cloned a' GET_STATE slot net x Hx);
    export_round Ha' S4 Hm Hexp
      (fun o => mkOverride (Override_Nonce o) (Override_Code o) (Override_Balance o)
                  (Override_State o)
                  (Some (<[slot := BytesToHash x]> (default ∅ (Override_StateDiff o)))));
    try (intros; no_clash; reflexivity).
  all: try (intros o' s Hs; cbn [mbind option_bind]; rewrite lookup_insert;
            destruct (decide (slot = s)) as [->|Hne];
            [now rewrite decide_True by reflexivity|];
            rewrite decide_False
              by (intros H; apply calcStateKey_inj in H; [tauto|done|done]);
            destruct (Override_StateDiff o'); [reflexivity|apply lookup_empty]).
  all: intros o'; split; [discriminate|]; intros [_ H]; exfalso;
    exact (H slot Hslot eq_refl).
Qed.

End ExportProps.

Section StateDiff.

Context {env : Env}.

Lemma overlaid_canonical (s : OverlayState) (k : string) (x : list byte) :
  canonicalOverlays s → overlaid s k = Some x → canonical k.
Proof.
  unfold canonicalOverlays, overlaid.
  induction 1 as [|l ls Hl _ IH]; cbn [omap list_omap]; [discriminate|].
  destruct (scratchPad l !! k) as [v|] eqn:E; [|exact IH].
  intros _. apply Hl. now rewrite E.
Qed.

(** X19, the state diff is the export of the overlays: where the layers
    above the root hold keys of 20-byte addresses and 32-byte slots only, as
    the setters write them, [GetStateDiff] returns with no upstream traffic
    and no change of the facade; an address has an override exactly when
    some layer above the root holds an entry of it (a suicide flag or a code
    hash alone gives an empty override); its balance, nonce and code are
    those the getters return for the entries of the overlays; its storage is
    given slot by slot as a diff, never as a full state; and what only the
    root holds is not exported. *)
Theorem the_state_diff_exports_the_overlays (db : OverlayStateDB) (net : Net) :
  canonicalOverlays (state db) →
  ∃ diff,
    GetStateDiff db net = Some ((diff, db), net) ∧
    exported (overlaid (state db)) diff.
Proof.
  intros Hcan. unfold GetStateDiff.
  set (merged := getMergedScratchPad db).
  set (cloned := withState (CloneFromRoot db) _).
  assert (Hpad : ∀ k, scratchPad (this (state cloned)) !! k = merged !! k) by reflexivity.
  assert (Hview : ∀ k, merged !! k = overlaid (state db) k).
  { intros k. unfold merged, getMergedScratchPad.
    now rewrite mergedWalk_lookup, lookup_empty. }
  assert (Hfold : ∀ m, m ⊆ merged →
    ∃ accounts,
      map_fold (fun k _ acc => exportEntry k acc) (mret (∅, cloned)) m net
      = Some ((accounts, cloned), net) ∧
      exported (fun k => m !! k) accounts).
  { intros m.
    apply (map_fold_weak_ind
             (fun r m => m ⊆ merged →
                ∃ accounts, r net = Some ((accounts, cloned), net) ∧
                            exported (fun k => m !! k) accounts)).
    - intros _. exists ∅. split; [reflexivity|].
      apply (exported_ext (fun _ => None)); [intros k; now rewrite lookup_empty|].
      apply exported_empty.
    - intros k x m' r Hk IH Hsub.
      assert (Hm' : m' ⊆ merged).
      { etrans; [|exact Hsub]. now apply insert_subseteq. }
      assert (Hx : merged !! k = Some x).
      { eapply lookup_weaken; [|exact Hsub]. apply lookup_insert_eq. }
      destruct (IH Hm') as (accounts & Hr & Hexp).
      destruct (exportEntry_step m' k x accounts cloned net) as (accounts' & Hstep & Hexp').
      + apply (overlaid_canonical (state db) k x Hcan). now rewrite <- Hview.
      + exact Hk.
      + now rewrite Hpad.
      + exact Hexp.
      + exists accounts'. split; [|exact Hexp'].
        unfold exportEntry in *. munfold. rewrite Hr. exact Hstep. }
  munfold.
  destruct (Hfold merged ltac:(reflexivity)) as (diff & -> & Hexp).
  exists diff. split.
  - do 3 f_equal. unfold cloned, CloneFromRoot, DeriveFromRoot, Derive.
    cbn [state withState update getRootState].
    rewrite (getRootState_Root (state db)) at 1. cbn [getRootState].
    rewrite <- (getRootState_Root (state db)), graft_root.
    apply withState_state.
  - apply (exported_ext (fun k => merged !! k)); [exact Hview|exact Hexp].
Qed.

End StateDiff.

(** *** The key file and the warm-up *)

Lemma hex_byte (v : byte) :
  match fromHexChar (hexDigit (N.shiftr (Byte.to_N v) 4)),
        fromHexChar (hexDigit (N.land (Byte.to_N v) 15)) with
  | Some a, Some b => byte_of_N (N.lor (N.shiftl a 4) b) = v
  | _, _ => False
  end.
Proof. destruct v; vm_compute; reflexivity. Qed.

Lemma Hex2Bytes_Bytes2Hex (d : list byte) : Hex2Bytes (Bytes2Hex d) = d.
Proof.
  induction d as [|v d IH]; [reflexivity|].
  cbn [Bytes2Hex Hex2Bytes]. pose proof (hex_byte v) as Hv.
  destruct (fromHexChar _); [|done]. destruct (fromHexChar _); [|done].
  now rewrite Hv, IH.
Qed.

Lemma lineKey_bytes (txt : string) :
  lineKey txt = string_of_list_byte (STATE_KEY ++ Hex2Bytes txt).
Proof. unfold lineKey. now rewrite string_of_list_byte_app. Qed.

Lemma lineKey_calcStateKey (txt : string) (a slot : list byte) :
  length a = 20%nat →
  lineKey txt = calcStateKey a slot ↔ Hex2Bytes txt = a ++ slot.
Proof.
  intros Ha. rewrite lineKey_bytes, calcStateKey_bytes. split.
  - intros H. apply string_of_list_byte_inj in H. now apply app_inv_head in H.
  - now intros ->.
Qed.

Lemma stateKey_calcStateKey (a slot : list byte) :
  length a = 20%nat → length slot = 32%nat → stateKey (calcStateKey a slot).
Proof.
  intros Ha Hs. unfold stateKey. rewrite calcStateKey_bytes.
  rewrite list_byte_of_string_of_list_byte. split.
  - rewrite !length_app, Ha, Hs. reflexivity.
  - rewrite take_app_length' by reflexivity. reflexivity.
Qed.

Lemma stateKey_parts (k : string) :
  stateKey k →
  ∃ a slot, length a = 20%nat ∧ length slot = 32%nat ∧ k = calcStateKey a slot
    ∧ a = take 20 (drop 32 (list_byte_of_string k))
    ∧ slot = drop (32 + 20) (list_byte_of_string k).
Proof.
  intros [Hlen Htag].
  exists (take 20 (drop 32 (list_byte_of_string k))), (drop (32 + 20) (list_byte_of_string k)).
  split; [rewrite length_take, length_drop; lia|].
  split; [rewrite length_drop; lia|].
  split; [|done].
  rewrite BytesToHash_32 in Htag by (rewrite length_take; lia).
  rewrite calcStateKey_bytes, <- Htag.
  rewrite <- drop_drop, take_drop, take_drop.
  now rewrite string_of_list_byte_of_string.
Qed.

Lemma stateKey_iff (k : string) :
  stateKey k ↔ ∃ a slot, length a = 20%nat ∧ length slot = 32%nat ∧ k = calcStateKey a slot.
Proof.
  split.
  - intros H. destruct (stateKey_parts k H) as (a & slot & Ha & Hs & Hk & _). eauto.
  - intros (a & slot & Ha & Hs & ->). now apply stateKey_calcStateKey.
Qed.

Lemma slotReq_calcStateKey (a slot : list byte) :
  length a = 20%nat → length slot = 32%nat →
  slotReq (calcStateKey a slot) = mkStorageReq a slot zeroHash None
  ∧ keyLine (calcStateKey a slot) = Bytes2Hex (a ++ slot).
Proof.
  intros Ha Hs. unfold slotReq, keyLine. rewrite calcStateKey_bytes.
  rewrite list_byte_of_string_of_list_byte.
  rewrite <- (drop_drop _ 20 32).
  rewrite !(drop_app_length' STATE_KEY) by reflexivity.
  rewrite take_app_length', drop_app_length' by first [done|now symmetry].
  now rewrite BytesToAddress_20, BytesToHash_32.
Qed.

Lemma account_not_stateKey (tag a : list byte) :
  tag = BALANCE_KEY ∨ tag = NONCE_KEY ∨ tag = CODE_KEY ∨ tag = CODEHASH_KEY
  ∨ tag = SUICIDE_KEY →
  ¬ stateKey (calcKey tag a).
Proof.
  intros Ht H. apply stateKey_iff in H. destruct H as (a' & slot & _ & _ & H).
  symmetry in H. revert H. now apply state_ne_account.
Qed.

Lemma lineKey_keyLine (k : string) : stateKey k → lineKey (keyLine k) = k.
Proof.
  intros H. destruct (stateKey_parts k H) as (a & slot & Ha & Hs & -> & _).
  destruct (slotReq_calcStateKey a slot Ha Hs) as [_ ->].
  apply lineKey_calcStateKey; [done|]. apply Hex2Bytes_Bytes2Hex.
Qed.

(** The loop over the scratchpad, from the entries it meets. *)
Lemma prefetchEntry_step (k : string) (v : list byte)
    (accessed : gmap (list byte) bool) (reqs : list StorageReq) (cachedStr : string) :
  prefetchEntry k v (accessed, reqs, cachedStr)
  = if decide (stateKey k)
    then (<[Req_Address (slotReq k) := true]> accessed, reqs ++ [slotReq k],
          (cachedStr ++ (keyLine k ++ newline))%string)
    else (accessed, reqs, cachedStr).
Proof.
  unfold prefetchEntry. repeat case_decide; try reflexivity; unfold stateKey in *; tauto.
Qed.

Lemma append_assoc (a b c : string) : ((a ++ b) ++ c = a ++ (b ++ c))%string.
Proof.
  induction a as [|x a IH]; [reflexivity|].
  change (String x ((a ++ b) ++ c) = String x (a ++ (b ++ c)))%string.
  now rewrite IH.
Qed.

Lemma append_nil_r (a : string) : (a ++ EmptyString)%string = a.
Proof.
  induction a as [|x a IH]; [reflexivity|].
  change (String x (a ++ EmptyString) = String x a)%string. now rewrite IH.
Qed.

Lemma fileOf_app (l1 l2 : list string) :
  fileOf (l1 ++ l2) = (fileOf l1 ++ fileOf l2)%string.
Proof.
  induction l1 as [|x l1 IH]; cbn [app fileOf foldr]; [reflexivity|].
  fold (fileOf (l1 ++ l2)). fold (fileOf l1).
  now rewrite IH, !append_assoc.
Qed.

Lemma prefetch_fold (acc0 : gmap (list byte) bool) (l : list (string * list byte)) :
  foldr (uncurry prefetchEntry) (acc0, [], EmptyString) l
  = let ks := filter stateKey (reverse l.*1) in
    (markAccessed acc0 (Req_Address <$> (slotReq <$> ks)), slotReq <$> ks,
     fileOf (keyLine <$> ks)).
Proof.
  induction l as [|[k v] l IH]; [reflexivity|].
  cbn [foldr uncurry fmap list_fmap fst]. rewrite IH. cbv zeta.
  rewrite prefetchEntry_step, reverse_cons, filter_app.
  cbn [filter list_filter]. unfold filter at 3. cbn [list_filter].
  case_decide.
  - rewrite !fmap_app. cbn [fmap list_fmap]. unfold markAccessed.
    rewrite foldl_app. cbn [foldl]. rewrite fileOf_app.
    cbn [fileOf foldr]. now rewrite append_nil_r.
  - now rewrite !app_nil_r.
Qed.

Lemma cachedSlots_spec (pad : gmap string (list byte)) :
  NoDup (cachedSlots pad)
  ∧ ∀ k, k ∈ cachedSlots pad ↔ stateKey k ∧ is_Some (pad !! k).
Proof.
  unfold cachedSlots. split.
  - apply NoDup_filter. rewrite reverse_Permutation. apply NoDup_fst_map_to_list.
  - intros k. rewrite list_elem_of_filter, elem_of_reverse, list_elem_of_fmap.
    split.
    + intros [Hs ([k' v] & -> & Hin)]. split; [exact Hs|].
      apply elem_of_map_to_list in Hin. cbn. eauto.
    + intros [Hs [v Hv]]. split; [exact Hs|].
      exists (k, v). split; [reflexivity|now apply elem_of_map_to_list].
Qed.

Lemma accounts_fold (m : gmap (list byte) bool) :
  map_fold (fun k _ accounts => accounts ++ [k]) [] m = reverse (map_to_list m).*1.
Proof.
  rewrite map_fold_foldr.
  induction (map_to_list m) as [|[k v] l IH]; [reflexivity|].
  cbn [foldr uncurry fmap list_fmap fst]. now rewrite IH, reverse_cons.
Qed.

(** The scan loop takes the first [maxKeyCache] lines. *)
Lemma scanKeys_take (lines : list string) :
  ∀ (cnt mk : Z) (pad : gmap string (list byte)),
    0 ≤ cnt → mk < 2 ^ 64 →
    scanKeys lines cnt mk pad
    = foldl (fun pad txt => <[lineKey txt := []]> pad) pad
        (take (Z.to_nat (mk - cnt)) lines).
Proof.
  induction lines as [|txt lines IH]; intros cnt mk pad Hc Hm.
  - now rewrite take_nil.
  - cbn [scanKeys]. destruct (Z.geb_spec cnt mk) as [Hge|Hlt].
    + replace (Z.to_nat (mk - cnt)) with 0%nat by lia. reflexivity.
    + replace (Z.to_nat (mk - cnt)) with (S (Z.to_nat (mk - (cnt + 1)))) by lia.
      cbn [take foldl]. rewrite uint64_small by lia.
      rewrite IH by lia. reflexivity.
Qed.

Lemma foldl_lineKey_lookup (lines : list string) :
  ∀ (pad : gmap string (list byte)) (k : string),
    foldl (fun pad txt => <[lineKey txt := []]> pad) pad lines !! k
    = if decide (k ∈ lineKey <$> lines) then Some [] else pad !! k.
Proof.
  induction lines as [|txt lines IH]; intros pad k; [reflexivity|].
  cbn [foldl fmap list_fmap]. rewrite IH.
  destruct (decide (k ∈ lineKey <$> lines)) as [Hin|Hnin].
  - rewrite decide_True; [reflexivity|]. apply elem_of_cons. now right.
  - destruct (decide (k = lineKey txt)) as [->|Hne].
    + rewrite decide_True by (apply elem_of_cons; now left).
      apply lookup_insert_eq.
    + rewrite decide_False by (rewrite elem_of_cons; tauto).
      now rewrite lookup_insert_ne.
Qed.

Lemma foldl_insert_lookup (g : string → list byte) (kvs : list (string * list byte)) :
  Forall (fun kv => kv.2 = g kv.1) kvs →
  ∀ (pad : gmap string (list byte)) (k : string),
    foldl (fun pad kv => <[kv.1 := kv.2]> pad) pad kvs !! k
    = if decide (k ∈ kvs.*1) then Some (g k) else pad !! k.
Proof.
  induction 1 as [|[k' v] kvs Hv _ IH]; intros pad k; [reflexivity|].
  cbn [foldl fmap list_fmap fst snd] in *. rewrite IH.
  destruct (decide (k ∈ kvs.*1)) as [Hin|Hnin].
  - rewrite decide_True; [reflexivity|]. apply elem_of_cons. now right.
  - destruct (decide (k = k')) as [->|Hne].
    + rewrite decide_True by (apply elem_of_cons; now left).
      rewrite lookup_insert_eq. now rewrite Hv.
    + rewrite decide_False by (rewrite elem_of_cons; tauto).
      now rewrite lookup_insert_ne.
Qed.

Lemma calcKey_inj2 (t t' a a' : list byte) :
  length t = length t' → calcKey t a = calcKey t' a' → t = t' ∧ a = a'.
Proof.
  intros Hl H. unfold calcKey in H. apply string_of_list_byte_inj in H.
  now apply app_inj_1 in H.
Qed.

Lemma slotReq_key (k : string) :
  stateKey k → calcStateKey (Req_Address (slotReq k)) (Req_Key (slotReq k)) = k.
Proof.
  intros H. destruct (stateKey_parts k H) as (a & slot & Ha & Hs & -> & _).
  destruct (slotReq_calcStateKey a slot Ha Hs) as [-> _]. reflexivity.
Qed.

Section WarmupProps.

Context {env : Env}.

(** What the slot fetch leaves in the scratchpad. *)
Lemma foldl_storeSlot_lookup (b : Z) (ks : list string) (pad : gmap string (list byte))
    (k : string) :
  Forall stateKey ks →
  foldl storeSlot pad (storageAnswer b <$> (slotReq <$> ks)) !! k
  = if decide (k ∈ ks)
    then Some (upstreamValue b GET_STATE (Req_Address (slotReq k)) (Req_Key (slotReq k)))
    else pad !! k.
Proof.
  intros Hks.
  set (g := fun k => upstreamValue b GET_STATE (Req_Address (slotReq k)) (Req_Key (slotReq k))).
  assert (Hfold : ∀ pad,
    foldl storeSlot pad (storageAnswer b <$> (slotReq <$> ks))
    = foldl (fun pad kv => <[kv.1 := kv.2]> pad) pad ((fun k => (k, g k)) <$> ks)).
  { induction Hks as [|x ks Hx _ IH]; intros pad'; [reflexivity|].
    cbn [fmap list_fmap foldl]. rewrite <- IH. f_equal.
    unfold storeSlot. cbn [storageAnswer Req_Address Req_Key Req_Value fst snd].
    now rewrite slotReq_key. }
  rewrite Hfold, (foldl_insert_lookup g).
  - rewrite <- list_fmap_compose.
    replace (fst ∘ (fun k => (k, g k))) with (@id string) by reflexivity.
    now rewrite list_fmap_id.
  - apply Forall_fmap, Forall_forall. now intros.
Qed.

Lemma storeAccount_answer (b : Z) (a : list byte) (pad : gmap string (list byte)) :
  storeAccount pad (a, accountAnswer b a)
  = foldl (fun pad kv => <[kv.1 := kv.2]> pad) pad (accountEntries b a).
Proof.
  cbn [foldl accountEntries fst snd]. unfold storeAccount, upstreamValue.
  cbn [accountAnswer Nonce Balance CodeHash Code]. rewrite uint64_idem.
  destruct (eth_getCode up a (hexBN b)); reflexivity.
Qed.

Lemma foldl_storeAccount (b : Z) (accounts : list (list byte)) :
  ∀ pad,
    foldl storeAccount pad (zip accounts (accountAnswer b <$> accounts))
    = foldl (fun pad kv => <[kv.1 := kv.2]> pad) pad (accounts ≫= accountEntries b).
Proof.
  induction accounts as [|a accounts IH]; intros pad; [reflexivity|].
  cbn [fmap list_fmap zip zip_with foldl mbind list_bind].
  rewrite foldl_app, <- storeAccount_answer. apply IH.
Qed.

Lemma accountEntries_value (b : Z) (accounts : list (list byte)) :
  Forall (fun kv => kv.2 = default [] (entryOf b kv.1)) (accounts ≫= accountEntries b).
Proof.
  apply Forall_forall. intros [k v] Hin.
  apply list_elem_of_bind in Hin. destruct Hin as (a & Hin & _).
  unfold accountEntries in Hin. cbn [fst snd].
  repeat (apply elem_of_cons in Hin; destruct Hin as [[= -> ->]|Hin]);
    [..|now apply elem_of_nil in Hin].
  - now rewrite (entryOf_key b GET_BALANCE a zeroHash).
  - now rewrite (entryOf_key b GET_NONCE a zeroHash).
  - now rewrite (entryOf_key b GET_CODE a zeroHash).
  - now rewrite (entryOf_key b GET_CODEHASH a zeroHash).
Qed.

Lemma accountEntries_keys (b : Z) (accounts : list (list byte)) (k : string) :
  k ∈ (accounts ≫= accountEntries b).*1
  ↔ ∃ a, a ∈ accounts ∧
      (k = calcKey BALANCE_KEY a ∨ k = calcKey NONCE_KEY a ∨
       k = calcKey CODE_KEY a ∨ k = calcKey CODEHASH_KEY a).
Proof.
  rewrite list_elem_of_fmap. split.
  - intros ([k' v] & -> & Hin). apply list_elem_of_bind in Hin.
    destruct Hin as (a & Hin & Ha). exists a. split; [exact Ha|].
    unfold accountEntries in Hin. cbn [fst].
    repeat (apply elem_of_cons in Hin; destruct Hin as [[= -> ->]|Hin]);
      [tauto..|now apply elem_of_nil in Hin].
  - intros (a & Ha & Hk).
    assert (∃ v, (k, v) ∈ accountEntries b a) as [v Hv].
    { unfold accountEntries.
      destruct Hk as [->|[->|[->| ->]]]; eexists; rewrite !elem_of_cons; eauto 6. }
    exists (k, v). split; [reflexivity|]. apply list_elem_of_bind. eauto.
Qed.

(** What the account fetch leaves in the scratchpad. *)
Lemma foldl_storeAccount_lookup (b : Z) (accounts : list (list byte))
    (pad : gmap string (list byte)) (k : string) :
  foldl storeAccount pad (zip accounts (accountAnswer b <$> accounts)) !! k
  = if decide (k ∈ (accounts ≫= accountEntries b).*1)
    then Some (default [] (entryOf b k)) else pad !! k.
Proof.
  rewrite foldl_storeAccount.
  apply (foldl_insert_lookup (fun k => default [] (entryOf b k))), accountEntries_value.
Qed.

Lemma loadStateBatchRPC_quiet (s : Layer) (reqs : list StorageReq) (net : Net) (b : Z) :
  bn s = Some b → 0 < batchSize s → script net = [] →
  ∃ net' tr,
    loadStateBatchRPC s reqs net
    = Some ((None, storageAnswer b <$> reqs, withRpcCnt s (int64 (rpcCnt s + 1))), net') ∧
    script net' = [] ∧ advances net net' tr ∧ sleeps tr = [].
Proof.
  intros Hbn Hstep Hq.
  destruct (loadStateBatchRPC_spec s reqs net b Hbn Hstep)
    as (err & out & net' & tr & Hrun & Hadv & Hsl & _ & Hres).
  destruct Hadv as (Htr & Hlen & Hf & He). destruct (He Hq) as [Hq' Hnf].
  destruct err as [e|].
  - destruct Hres as [Hfe _]. rewrite Hnf in Hfe. discriminate Hfe.
  - destruct Hres as (_ & -> & _). exists net', tr.
    split; [exact Hrun|]. split; [exact Hq'|]. split; [|exact Hsl].
    repeat split; try done.
Qed.

(** The warm-up with its two loops over the maps worked out: first the
    slots of the scratchpad and of the key file, then the accounts. *)
Lemma resetScratchPad_prefetch (g : Z) (l : Layer) (kc : KeyCache)
    (lines : list string) (net : Net) :
  cacheFile kc = Some lines → maxKeyCache kc < 2 ^ 64 →
  let pad1 :=
    foldl (fun pad txt => <[lineKey txt := []]> pad) (scratchPad l)
      (take (Z.to_nat (maxKeyCache kc)) lines) in
  let ks := cachedSlots pad1 in
  let l1 :=
    withAccessedAccounts (withScratchPad l pad1)
      (markAccessed (accessedAccounts l) (Req_Address <$> (slotReq <$> ks))) in
  resetScratchPad (mkDB g (Root l)) kc false net
  = match loadStateBatchRPC l1 (slotReq <$> ks) net with
    | Some ((None, reqs, s), net1) =>
        let s := withScratchPad s (foldl storeSlot (scratchPad s) reqs) in
        let accounts := reverse (map_to_list (accessedAccounts s)).*1 in
        match loadAccountBatchRPC s accounts net1 with
        | Some ((accountResults, None, s), net2) =>
            Some ((mkDB g (Root (withScratchPad s
                     (foldl storeAccount (scratchPad s) (zip accounts accountResults)))),
                   fileOf (keyLine <$> ks)), net2)
        | Some ((_, Some _, s), net2) => Some ((mkDB g (Root s), fileOf (keyLine <$> ks)), net2)
        | None => None
        end
    | _ => None
    end.
Proof.
  intros Hfile Hmk pad1 ks l1. subst l1.
  unfold resetScratchPad. rewrite Hfile. cbn [state this].
  cbn [scratchPad withScratchPad accessedAccounts].
  rewrite scanKeys_take by lia. rewrite Z.sub_0_r. fold pad1.
  rewrite map_fold_foldr, prefetch_fold. cbv zeta. fold (cachedSlots pad1). fold ks.
  munfold.
  destruct (loadStateBatchRPC _ _ net) as [[[[err reqs] s] net1]|];
    [|reflexivity].
  destruct err as [e|]; [reflexivity|].
  cbn [accessedAccounts withScratchPad]. rewrite accounts_fold.
  destruct (loadAccountBatchRPC _ _ net1) as [[[[results err] s2] net2]|]; [|reflexivity].
  destruct err as [e|]; reflexivity.
Qed.

Lemma markAccessed_is_Some (accounts : list (list byte)) :
  ∀ (acc : gmap (list byte) bool) (a : list byte),
    is_Some (markAccessed acc accounts !! a) ↔ is_Some (acc !! a) ∨ a ∈ accounts.
Proof.
  unfold markAccessed.
  induction accounts as [|x accounts IH]; intros acc a; cbn [foldl].
  - rewrite elem_of_nil. tauto.
  - rewrite IH, lookup_insert_is_Some, elem_of_cons.
    destruct (decide (x = a)); [subst|]; intuition congruence.
Qed.

Lemma markAccessed_keys (acc : gmap (list byte) bool) (a : list byte) :
  let accounts := reverse (map_to_list acc).*1 in
  (a ∈ accounts ↔ is_Some (acc !! a))
  ∧ (is_Some (markAccessed acc accounts !! a) ↔ is_Some (acc !! a))
  ∧ (is_Some (acc !! a) → markAccessed acc accounts !! a = Some true).
Proof.
  intros accounts.
  assert (Hin : a ∈ accounts ↔ is_Some (acc !! a)).
  { subst accounts. rewrite elem_of_reverse, list_elem_of_fmap. split.
    - intros ([k v] & -> & Hkv). apply elem_of_map_to_list in Hkv. cbn. eauto.
    - intros [v Hv]. exists (a, v). split; [reflexivity|now apply elem_of_map_to_list]. }
  split; [exact Hin|]. split.
  - rewrite markAccessed_is_Some. tauto.
  - intros Ha. apply markAccessed_lookup. left. now apply Hin.
Qed.

Lemma listed_lookup (lines : list string) (mk : Z) (pad : gmap string (list byte))
    (a slot : list byte) :
  length a = 20%nat →
  is_Some (foldl (fun pad txt => <[lineKey txt := []]> pad) pad
             (take (Z.to_nat mk) lines) !! calcStateKey a slot)
  ↔ is_Some (pad !! calcStateKey a slot)
    ∨ ∃ (i : nat) (txt : string),
        lines !! i = Some txt ∧ Z.of_nat i < mk ∧ Hex2Bytes txt = a ++ slot.
Proof.
  intros Ha. rewrite foldl_lineKey_lookup.
  destruct (decide (calcStateKey a slot ∈ lineKey <$> take (Z.to_nat mk) lines))
    as [Hin|Hnin].
  - split; [|eauto]. intros _. right.
    apply list_elem_of_fmap in Hin. destruct Hin as (txt & Hk & Hin).
    apply elem_of_take in Hin. destruct Hin as (i & Hi & Hlt).
    exists i, txt. split; [exact Hi|]. split; [lia|].
    symmetry in Hk. now apply lineKey_calcStateKey in Hk.
  - split; [tauto|]. intros [H|(i & txt & Hi & Hlt & Hx)]; [exact H|].
    exfalso. apply Hnin. apply list_elem_of_fmap. exists txt. split.
    + symmetry. now apply lineKey_calcStateKey.
    + apply elem_of_take. exists i. split; [exact Hi|lia].
Qed.

(** The scratchpad and the accessed accounts after a warm-up that met no
    failure, from those it started with. *)
Lemma warmed_up (b : Z) (pad1 : gmap string (list byte))
    (acc0 : gmap (list byte) bool) :
  let ks := cachedSlots pad1 in
  let acc1 := markAccessed acc0 (Req_Address <$> (slotReq <$> ks)) in
  let accounts := reverse (map_to_list acc1).*1 in
  let pad3 :=
    foldl storeAccount
      (foldl storeSlot pad1 (storageAnswer b <$> (slotReq <$> ks)))
      (zip accounts (accountAnswer b <$> accounts)) in
  let acc2 := markAccessed acc1 accounts in
  (∀ a slot, length a = 20%nat → length slot = 32%nat →
     pad3 !! calcStateKey a slot
     = (fun _ => upstreamValue b GET_STATE a slot) <$> pad1 !! calcStateKey a slot) ∧
  (∀ a, is_Some (acc2 !! a) ↔
        is_Some (acc0 !! a) ∨
        ∃ slot, length a = 20%nat ∧ length slot = 32%nat
                ∧ is_Some (pad1 !! calcStateKey a slot)) ∧
  (∀ a, is_Some (acc2 !! a) →
        acc2 !! a = Some true ∧
        ∀ action key, action ≠ GET_STATE →
          pad3 !! scratchpadKeyOf action a key = Some (upstreamValue b action a key)) ∧
  (∀ k, ¬ stateKey k →
        (∀ a action key, is_Some (acc2 !! a) → action ≠ GET_STATE →
                         k ≠ scratchpadKeyOf action a key) →
        pad3 !! k = pad1 !! k).
Proof.
  intros ks acc1 accounts pad3 acc2.
  destruct (cachedSlots_spec pad1) as [_ Hks]. fold ks in Hks.
  assert (Hall : Forall stateKey ks).
  { apply Forall_forall. intros k Hk. now apply Hks in Hk. }
  assert (Hacc1 : ∀ a, is_Some (acc1 !! a) ↔
            is_Some (acc0 !! a) ∨
            ∃ slot, length a = 20%nat ∧ length slot = 32%nat
                    ∧ is_Some (pad1 !! calcStateKey a slot)).
  { intros a. subst acc1. rewrite markAccessed_is_Some.
    apply or_iff_compat_l. rewrite <- list_fmap_compose, list_elem_of_fmap. split.
    - intros (k & -> & Hk). apply Hks in Hk. destruct Hk as [Hs Hv].
      destruct (stateKey_parts k Hs) as (a & slot & Ha & Hsl & -> & _).
      cbn [compose]. destruct (slotReq_calcStateKey a slot Ha Hsl) as [-> _].
      cbn [Req_Address]. eauto.
    - intros (slot & Ha & Hsl & Hv). exists (calcStateKey a slot). split.
      + cbn [compose]. now destruct (slotReq_calcStateKey a slot Ha Hsl) as [-> _].
      + apply Hks. split; [now apply stateKey_calcStateKey|exact Hv]. }
  assert (Hacc2 : ∀ a, (a ∈ accounts ↔ is_Some (acc1 !! a))
                       ∧ (is_Some (acc2 !! a) ↔ is_Some (acc1 !! a))
                       ∧ (is_Some (acc1 !! a) → acc2 !! a = Some true)).
  { intros a. apply markAccessed_keys. }
  split; [|split; [|split]].
  - intros a slot Ha Hsl. subst pad3. rewrite foldl_storeAccount_lookup.
    rewrite decide_False.
    2:{ rewrite accountEntries_keys. intros (a' & _ & Hk).
        destruct Hk as [Hk|[Hk|[Hk|Hk]]]; revert Hk; apply state_ne_account; tauto. }
    rewrite foldl_storeSlot_lookup by exact Hall.
    destruct (decide (calcStateKey a slot ∈ ks)) as [Hin|Hnin].
    + destruct (slotReq_calcStateKey a slot Ha Hsl) as [-> _]. cbn [Req_Address Req_Key].
      apply Hks in Hin. destruct Hin as [_ [v ->]]. reflexivity.
    + destruct (pad1 !! calcStateKey a slot) as [v|] eqn:E; [|reflexivity].
      exfalso. apply Hnin, Hks. split; [now apply stateKey_calcStateKey|eauto].
  - intros a. destruct (Hacc2 a) as (_ & -> & _). apply Hacc1.
  - intros a Ha. destruct (Hacc2 a) as (Hin & Hiff & Htrue).
    apply Hiff in Ha. split; [now apply Htrue|].
    intros action key Hact. subst pad3. rewrite foldl_storeAccount_lookup.
    rewrite decide_True.
    2:{ apply accountEntries_keys. exists a. split; [now apply Hin|].
        destruct action; cbn [scratchpadKeyOf]; tauto. }
    rewrite entryOf_key. now destruct action.
  - intros k Hns Hk. subst pad3. rewrite foldl_storeAccount_lookup.
    rewrite decide_False.
    2:{ rewrite accountEntries_keys. intros (a & Ha & Hka).
        destruct (Hacc2 a) as (Hin & Hiff & _).
        apply Hin, Hiff in Ha.
        destruct Hka as [Hka|[Hka|[Hka|Hka]]].
        - now apply (Hk a GET_BALANCE zeroHash Ha).
        - now apply (Hk a GET_NONCE zeroHash Ha).
        - now apply (Hk a GET_CODE zeroHash Ha).
        - now apply (Hk a GET_CODEHASH zeroHash Ha). }
    rewrite foldl_storeSlot_lookup by exact Hall.
    rewrite decide_False; [reflexivity|].
    intros Hin. apply Hks in Hin. tauto.
Qed.

Lemma resetScratchPad_quiet (g : Z) (l : Layer) (kc : KeyCache)
    (lines : list string) (net : Net) (b : Z) :
  cacheFile kc = Some lines → maxKeyCache kc < 2 ^ 64 →
  bn l = Some b → 0 < batchSize l → script net = [] →
  let pad1 :=
    foldl (fun pad txt => <[lineKey txt := []]> pad) (scratchPad l)
      (take (Z.to_nat (maxKeyCache kc)) lines) in
  let ks := cachedSlots pad1 in
  let acc1 := markAccessed (accessedAccounts l) (Req_Address <$> (slotReq <$> ks)) in
  let accounts := reverse (map_to_list acc1).*1 in
  ∃ net' tr,
    resetScratchPad (mkDB g (Root l)) kc false net
    = Some ((mkDB g (Root (mkLayer (bn l)
               (foldl storeAccount
                  (foldl storeSlot pad1 (storageAnswer b <$> (slotReq <$> ks)))
                  (zip accounts (accountAnswer b <$> accounts)))
               (batchSize l) (markAccessed acc1 accounts) (txLogs l) (receipts l)
               (currentTxHash l) (currentBlockHash l) (deriveCnt l)
               (int64 (rpcCnt l + 1)) (reason l))),
             fileOf (keyLine <$> ks)), net') ∧
    advances net net' tr ∧ sleeps tr = [].
Proof.
  intros Hfile Hmk Hbn Hstep Hq pad1 ks acc1 accounts.
  rewrite (resetScratchPad_prefetch g l kc lines net Hfile Hmk). cbv zeta.
  fold pad1. fold ks. fold acc1.
  destruct (loadStateBatchRPC_quiet
              (withAccessedAccounts (withScratchPad l pad1) acc1) (slotReq <$> ks) net b
              Hbn Hstep Hq) as (net1 & tr1 & -> & Hq1 & Hadv1 & Hsl1).
  cbn [accessedAccounts withRpcCnt withAccessedAccounts withScratchPad scratchPad].
  fold accounts.
  match goal with
  | |- context [loadAccountBatchRPC ?s accounts net1] =>
      destruct (loadAccountBatchRPC_quiet s accounts net1 b Hbn Hstep Hq1)
        as (ws & -> & _)
  end.
  eexists _, (tr1 ++ map (fun w => EvBatchCall w None) ws).
  split; [reflexivity|]. split.
  - eapply advances_trans; [exact Hadv1|].
    unfold advances. cbn [trace script]. rewrite Hq1.
    repeat split; try done.
    + intros Hf. exfalso. apply Hf. clear. induction ws as [|w ws IH]; [reflexivity|exact IH].
    + clear. induction ws as [|w ws IH]; [reflexivity|exact IH].
  - rewrite sleeps_app, Hsl1. clear. induction ws as [|w ws IH]; [reflexivity|exact IH].
Qed.

Lemma getRootState_nested (db : OverlayStateDB) (Ws : list (list Write)) :
  getRootState (state (nested db Ws)) = getRootState (state db)
  ∧ refundGas (nested db Ws) = refundGas db.
Proof.
  destruct (nested_shape Ws db) as (ls & -> & -> & _). split; [|reflexivity].
  induction ls as [|l ls IH]; [reflexivity|exact IH].
Qed.

Lemma read_root_hit (g : Z) (c l : Layer) (a : list byte) (action : RequestType)
    (key v : list byte) (net : Net) :
  scratchPad c = ∅ →
  scratchPad l !! scratchpadKeyOf action a key = Some v →
  read (mkDB g (Derived c (Root l))) a action key net
  = Some ((v, mkDB g (Derived c (Root l))), net).
Proof.
  intros Hc Hv. unfold read. munfold. cbn [state].
  rewrite (get_hit _ a action key net v); [reflexivity|].
  rewrite shadowed_Derived, Hc, lookup_empty. now rewrite shadowed_Root.
Qed.

(** X20, [InitState] goes back to the root: whatever snapshots were taken
    on the facade and whatever was written in them, the outcome is the one
    without them, for each choice of the flags.  Without a fetch it returns
    at once, with no traffic and the key file untouched: the new current
    layer sits right above the root, every key is seen as the root holds it,
    so that no write made above the root survives, and the refund counter is
    kept. *)
Theorem InitState_drops_snapshots_and_writes (db : OverlayStateDB) (kc : KeyCache)
    (Ws : list (list Write)) (fetchNewState clearCache : bool) (net : Net) :
  is_Some (stateBN kc) →
  InitState (nested db Ws) kc fetchNewState clearCache net
  = InitState db kc fetchNewState clearCache net
  ∧ ∃ db',
      InitState (nested db Ws) kc false clearCache net = Some ((db', None), net) ∧
      getRootState (state db') = getRootState (state db) ∧
      GetOverlayDepth db' = int64 (deriveCnt (this (getRootState (state db))) + 1) ∧
      refundGas db' = refundGas db ∧
      ∀ k, shadowed (state db') k = scratchPad (this (getRootState (state db))) !! k.
Proof.
  intros [b0 HBN]. destruct (getRootState_nested db Ws) as [Hroot Hg].
  unfold InitState. rewrite HBN. unfold withState. rewrite Hroot, Hg.
  split; [reflexivity|].
  munfold. cbn [state refundGas].
  eexists. split; [reflexivity|]. cbn [state refundGas GetOverlayDepth this Derive deriveCnt].
  rewrite (getRootState_Root (state db)). cbn [getRootState this].
  repeat split.
  intros k. unfold Derive. rewrite shadowed_Derived. cbn [scratchPad]. rewrite lookup_empty.
  apply shadowed_Root.
Qed.

(** X21, a clearing reset: [InitState(true, true)] with a key file that
    opens returns with no traffic, the cache and the set of accessed
    accounts emptied and the key file truncated; every read that follows is
    answered by the upstream node at the pinned block, whatever was cached or
    written before. *)
Theorem a_clearing_reset_empties_the_cache (db : OverlayStateDB) (kc : KeyCache)
    (net : Net) :
  canFetch (state db) → is_Some (stateBN kc) → is_Some (cacheFile kc) →
  ∃ db',
    InitState db kc true true net = Some ((db', Some EmptyString), net) ∧
    CacheSize db' = 0 ∧
    accessedAccounts (this (getRootState (state db'))) = ∅ ∧
    RPCRequestCount db' = RPCRequestCount db ∧
    GetOverlayDepth db' = int64 (deriveCnt (this (getRootState (state db))) + 1) ∧
    refundGas db' = refundGas db ∧
    ∀ a action key net2,
      ∃ db'' net3,
        read db' a action key net2
        = Some ((upstreamValue (pinnedBlock (state db)) action a key, db''), net3).
Proof.
  intros [[b Hbn] Hstep] [b0 HBN] [lines Hfile].
  unfold InitState. rewrite HBN. rewrite (getRootState_Root (state db)).
  set (root := this (getRootState (state db))) in *.
  unfold resetScratchPad. rewrite Hfile. munfold.
  cbn [withState state refundGas update this].
  eexists. split; [reflexivity|].
  set (cleared := withAccessedAccounts (withScratchPad root ∅) ∅).
  cbn [withState state getRootState Derive this refundGas].
  split; [unfold CacheSize; cbn [state getRootState this]; apply map_fold_empty|].
  split; [reflexivity|]. split; [reflexivity|]. split; [reflexivity|].
  split; [reflexivity|].
  intros a action key net2.
  match goal with
  | |- context [read ?d a action key net2] =>
      destruct (read_untouched d a action key net2) as (s' & net3 & Hread & _)
  end.
  - unfold canFetch. subst cleared.
    cbn [state withState getRootState Derive this bn batchSize withScratchPad
         withAccessedAccounts].
    split; [now exists b|exact Hstep].
  - unfold untouched. subst cleared.
    cbn [state withState getRootState Derive this overlays scratchPad withScratchPad
         withAccessedAccounts].
    split.
    + constructor; [apply lookup_empty|constructor].
    + intros v Hv. now rewrite lookup_empty in Hv.
  - rewrite Hread. unfold pinnedBlock. subst cleared.
    cbn [state withState getRootState Derive this bn withScratchPad withAccessedAccounts].
    eauto.
Qed.

(** X22, a warm-up that meets no transport failure: [InitState(true,
    false)] returns with the current layer right above the root and one
    request more on the counter.  The root then caches exactly the slots it
    cached before and those named by the first [maxKeyCache] lines of the key
    file, and marks as accessed exactly the accounts that were so before and
    the accounts of these slots; every such slot, and the balance, nonce,
    code and code hash of every such account, is then read from the cache,
    with no traffic, as the upstream node holds it at the pinned block. *)
Theorem a_prefetching_reset_refreshes_the_cache (db : OverlayStateDB) (kc : KeyCache)
    (lines : list string) (net : Net) :
  canFetch (state db) → is_Some (stateBN kc) → cacheFile kc = Some lines →
  maxKeyCache kc < 2 ^ 64 → script net = [] →
  let root := this (getRootState (state db)) in
  let b := pinnedBlock (state db) in
  ∃ db' content net',
    InitState db kc true false net = Some ((db', Some content), net') ∧
    let root' := this (getRootState (state db')) in
    refundGas db' = refundGas db ∧
    GetOverlayDepth db' = int64 (deriveCnt root + 1) ∧
    RPCRequestCount db' = int64 (RPCRequestCount db + 1) ∧
    (∀ a slot, length a = 20%nat → length slot = 32%nat →
       (is_Some (scratchPad root' !! calcStateKey a slot) ↔
        is_Some (scratchPad root !! calcStateKey a slot) ∨
        ∃ (i : nat) (txt : string),
          lines !! i = Some txt ∧ Z.of_nat i < maxKeyCache kc
          ∧ Hex2Bytes txt = a ++ slot)) ∧
    (∀ a, is_Some (accessedAccounts root' !! a) ↔
          is_Some (accessedAccounts root !! a) ∨
          ∃ slot, length a = 20%nat ∧ length slot = 32%nat
                  ∧ is_Some (scratchPad root' !! calcStateKey a slot)) ∧
    (∀ a action key net2,
       (if decide (action = GET_STATE)
        then length a = 20%nat ∧ length key = 32%nat
             ∧ is_Some (scratchPad root' !! calcStateKey a key)
        else is_Some (accessedAccounts root' !! a)) →
       read db' a action key net2 = Some ((upstreamValue b action a key, db'), net2)).
Proof.
  intros [[bb Hbn] Hstep] [b0 HBN] Hfile Hmk Hq root b.
  assert (b = bb) as -> by (unfold b, pinnedBlock; now rewrite Hbn).
  unfold InitState. rewrite HBN. rewrite (getRootState_Root (state db)). fold root.
  unfold withState at 2. cbn [refundGas]. munfold.
  destruct (resetScratchPad_quiet (refundGas db) root kc lines net bb Hfile Hmk Hbn Hstep Hq)
    as (net' & tr & -> & _).
  eexists _, _, net'. split; [reflexivity|].
  cbn [withState state refundGas Derive getRootState this GetOverlayDepth RPCRequestCount
       deriveCnt rpcCnt scratchPad accessedAccounts].
  destruct (warmed_up bb
              (foldl (fun pad txt => <[lineKey txt := []]> pad) (scratchPad root)
                 (take (Z.to_nat (maxKeyCache kc)) lines))
              (accessedAccounts root)) as (HS & HA & HT & _).
  split; [reflexivity|]. split; [reflexivity|]. split; [reflexivity|].
  split; [|split].
  - intros a slot Ha Hsl. rewrite (HS a slot Ha Hsl), fmap_is_Some.
    now apply listed_lookup.
  - intros a. rewrite HA. apply or_iff_compat_l.
    split; intros (slot & Ha & Hsl & Hv); exists slot; (split; [exact Ha|]);
      (split; [exact Hsl|]); rewrite (HS a slot Ha Hsl), fmap_is_Some in *; exact Hv.
  - intros a action key net2 Hc. apply read_root_hit; [reflexivity|].
    cbn [scratchPad]. destruct (decide (action = GET_STATE)) as [->|Hne].
    + destruct Hc as (Ha & Hsl & Hv). cbn [scratchpadKeyOf].
      rewrite (HS a key Ha Hsl) in Hv |- *. apply fmap_is_Some in Hv.
      destruct Hv as [v ->]. reflexivity.
    + destruct (HT a Hc) as [_ Hall]. now apply Hall.
Qed.

(** X23, the key file after a warm-up that meets no transport failure: it
    holds one line for each storage key of the cache, each key once, the
    line being the address and the slot in hex; read back by the scan loop of
    the next warm-up, the lines name exactly these keys (when there are no
    more than [maxKeyCache] of them). *)
Theorem the_key_file_lists_the_cached_slots (db : OverlayStateDB) (kc : KeyCache)
    (lines : list string) (net : Net) :
  canFetch (state db) → is_Some (stateBN kc) → cacheFile kc = Some lines →
  maxKeyCache kc < 2 ^ 64 → script net = [] →
  ∃ db' ks net',
    InitState db kc true false net = Some ((db', Some (fileOf (keyLine <$> ks))), net') ∧
    NoDup ks ∧
    (∀ k, k ∈ ks ↔
          is_Some (scratchPad (this (getRootState (state db'))) !! k) ∧
          ∃ a slot, length a = 20%nat ∧ length slot = 32%nat ∧ k = calcStateKey a slot) ∧
    (∀ a slot, length a = 20%nat → length slot = 32%nat →
       keyLine (calcStateKey a slot) = Bytes2Hex (a ++ slot)
       ∧ Hex2Bytes (Bytes2Hex (a ++ slot)) = a ++ slot) ∧
    (∀ pad mk k, Z.of_nat (length ks) ≤ mk < 2 ^ 64 →
       is_Some (scanKeys (keyLine <$> ks) 0 mk pad !! k) ↔ k ∈ ks ∨ is_Some (pad !! k)).
Proof.
  intros [[bb Hbn] Hstep] [b0 HBN] Hfile Hmk Hq.
  unfold InitState. rewrite HBN. rewrite (getRootState_Root (state db)).
  set (root := this (getRootState (state db))).
  unfold withState at 2. cbn [refundGas]. munfold.
  destruct (resetScratchPad_quiet (refundGas db) root kc lines net bb Hfile Hmk Hbn Hstep Hq)
    as (net' & tr & -> & _).
  set (pad1 := foldl (fun pad txt => <[lineKey txt := []]> pad) (scratchPad root)
                 (take (Z.to_nat (maxKeyCache kc)) lines)).
  eexists _, (cachedSlots pad1), net'. split; [reflexivity|].
  cbn [withState state Derive getRootState this scratchPad].
  destruct (cachedSlots_spec pad1) as [Hnd Hks].
  destruct (warmed_up bb pad1 (accessedAccounts root)) as (HS & _).
  split; [exact Hnd|]. split; [|split].
  - intros k. rewrite Hks, stateKey_iff. split.
    + intros [(a & slot & Ha & Hsl & ->) Hv]. split; [|eauto].
      now rewrite (HS a slot Ha Hsl), fmap_is_Some.
    + intros [Hv (a & slot & Ha & Hsl & ->)]. split; [eauto|].
      now rewrite (HS a slot Ha Hsl), fmap_is_Some in Hv.
  - intros a slot Ha Hsl. split; [apply (slotReq_calcStateKey a slot Ha Hsl)|].
    apply Hex2Bytes_Bytes2Hex.
  - intros pad mk k Hmk'. rewrite scanKeys_take by lia.
    rewrite take_ge by (rewrite length_fmap; lia).
    rewrite foldl_lineKey_lookup, <- list_fmap_compose.
    assert (Hid : lineKey ∘ keyLine <$> cachedSlots pad1 = cachedSlots pad1).
    { rewrite <- (list_fmap_id (cachedSlots pad1)) at 2.
      apply Forall_fmap_ext, Forall_forall. intros x Hx.
      apply lineKey_keyLine. now apply Hks in Hx. }
    rewrite Hid. case_decide; [split; eauto|tauto].
Qed.

Lemma ceilDiv_nonneg (n b : Z) : 0 ≤ n → 0 < b → 0 ≤ ceilDiv n b.
Proof. intros Hn Hb. unfold ceilDiv. apply Z.div_pos; lia. Qed.

Lemma stateWindows_first_fails (reqs : list BatchElem) (step : Z) (net : Net)
    (e : error) (rest : list (option error)) (fuel : nat) :
  0 < step → reqs ≠ [] → script net = Some e :: rest →
  ∃ net', stateWindows (S fuel) reqs step 0 net = Some (Some e, net').
Proof.
  intros Hstep Hne Hs. cbn [stateWindows].
  assert (0 < Z.of_nat (length reqs)) by (destruct reqs; [done|cbn [length]; lia]).
  destruct (Z.ltb_spec 0 (Z.of_nat (length reqs))) as [_|]; [|lia].
  munfold. rewrite slice_ok by (destruct (Z.gtb_spec (0 + step) (Z.of_nat (length reqs))); lia).
  rewrite (BatchCallContext_fails _ net e rest Hs). eauto.
Qed.

(** The slot windows go through on a transport that lets through as many
    calls as there are windows. *)
Lemma stateWindows_passes (fuel : nat) :
  ∀ (reqs : list BatchElem) (step begin : Z) (net : Net) (rest : list (option error)),
    0 < step → 0 ≤ begin →
    script net
    = replicate (Z.to_nat (ceilDiv (Z.max 0 (Z.of_nat (length reqs) - begin)) step)) None
      ++ rest →
    (Z.to_nat (Z.of_nat (length reqs) - begin) < fuel)%nat →
    ∃ tr,
      stateWindows fuel reqs step begin net = Some (None, mkNet rest (trace net ++ tr)) ∧
      failures tr = [] ∧ sleeps tr = [].
Proof.
  induction fuel as [|fuel IH]; intros reqs step begin net rest Hstep Hbegin Hs Hfuel; [lia|].
  cbn [stateWindows].
  destruct (Z.ltb_spec begin (Z.of_nat (length reqs))) as [Hlt|Hge].
  - set (end_ := if begin + step >? Z.of_nat (length reqs) then _ else _).
    assert (Hend : begin < end_ ∧ end_ ≤ Z.of_nat (length reqs)).
    { subst end_. destruct (Z.gtb_spec (begin + step) (Z.of_nat (length reqs))); lia. }
    munfold. rewrite slice_ok by lia.
    rewrite (ceilDiv_step (Z.max 0 (Z.of_nat (length reqs) - begin)) step) in Hs by lia.
    replace (Z.max 0 (Z.max 0 (Z.of_nat (length reqs) - begin) - step))
      with (Z.max 0 (Z.of_nat (length reqs) - (begin + step))) in Hs by lia.
    rewrite Z2Nat.inj_add in Hs by (try apply ceilDiv_nonneg; lia).
    change (Z.to_nat 1) with 1%nat in Hs. cbn [Nat.add replicate app] in Hs.
    unfold BatchCallContext. rewrite Hs.
    set (w := take (Z.to_nat (end_ - begin)) (drop (Z.to_nat begin) reqs)).
    destruct (IH reqs step (begin + step)
                (mkNet (replicate (Z.to_nat (ceilDiv (Z.max 0 (Z.of_nat (length reqs)
                                                               - (begin + step))) step))
                          None ++ rest)
                   (trace net ++ [EvBatchCall w None]))
                rest Hstep ltac:(lia) eq_refl ltac:(lia)) as (tr & -> & Hf & Hsl).
    exists (EvBatchCall w None :: tr). cbn [trace]. rewrite <- app_assoc.
    split; [reflexivity|]. split; [exact Hf|exact Hsl].
  - munfold. rewrite Z.max_l in Hs by lia. rewrite ceilDiv_zero in Hs by lia.
    cbn [Z.to_nat replicate app] in Hs.
    exists []. rewrite app_nil_r. split; [|done].
    destruct net; cbn in *; now subst.
Qed.

Lemma loadStateBatchRPC_passes (s : Layer) (reqs : list StorageReq) (net : Net)
    (rest : list (option error)) (b : Z) :
  bn s = Some b → 0 < batchSize s →
  script net
  = replicate (Z.to_nat (ceilDiv (Z.of_nat (length reqs)) (batchSize s))) None ++ rest →
  ∃ tr,
    loadStateBatchRPC s reqs net
    = Some ((None, storageAnswer b <$> reqs, withRpcCnt s (int64 (rpcCnt s + 1))),
            mkNet rest (trace net ++ tr)) ∧
    failures tr = [] ∧ sleeps tr = [].
Proof.
  intros Hbn Hstep Hs. unfold loadStateBatchRPC. cbn [bn withRpcCnt batchSize].
  rewrite Hbn. munfold.
  destruct (stateWindows_passes (S (length (map (storageElem b) reqs)))
              (map (storageElem b) reqs) (batchSize s) 0 net rest Hstep ltac:(lia))
    as (tr & -> & Hf & Hsl).
  - rewrite length_map, Z.sub_0_r, Z.max_r by lia. exact Hs.
  - lia.
  - exists tr. split; [reflexivity|]. split; [exact Hf|exact Hsl].
Qed.

Lemma accountAttempts_gives_up (window : list BatchElem) (es : list error) :
  ∀ (fuel : nat) (t : Z) (net : Net) (rest : list (option error)),
    0 ≤ t ≤ 5 → length es = Z.to_nat (6 - t) →
    script net = (Some <$> es) ++ rest → (length es ≤ fuel)%nat →
    ∃ e tr,
      accountAttempts fuel window t net
      = Some ((Some e, 6), mkNet rest (trace net ++ tr)) ∧
      failures tr = es ∧ sleeps tr = replicate (length es - 1) 100.
Proof.
  induction es as [|e es IH]; intros fuel t net rest Ht Hlen Hs Hfuel.
  - cbn [length] in Hlen. lia.
  - destruct fuel as [|fuel]; [cbn [length] in Hfuel; lia|].
    cbn [accountAttempts]. munfold.
    cbn [fmap list_fmap app] in Hs.
    rewrite (BatchCallContext_fails window net e _ Hs).
    cbn [length] in Hlen, Hfuel.
    destruct (Z.gtb_spec (t + 1) 5) as [Hgt|Hle].
    + assert (t = 5) as -> by lia.
      destruct es as [|e' es]; [|cbn [length] in Hlen; lia].
      exists e, [EvBatchCall window (Some e)]. split; [reflexivity|]. done.
    + unfold Sleep at 1. cbn [script trace].
      destruct (IH fuel (t + 1)
                  (mkNet ((Some <$> es) ++ rest)
                     ((trace net ++ [EvBatchCall window (Some e)]) ++ [EvSleep 100]))
                  rest ltac:(lia) ltac:(lia) eq_refl ltac:(lia))
        as (e' & tr & -> & Hf & Hsl).
      exists e', (EvBatchCall window (Some e) :: EvSleep 100 :: tr).
      cbn [trace]. rewrite <- !app_assoc. cbn [app].
      split; [reflexivity|]. split.
      * change (failures ([EvBatchCall window (Some e); EvSleep 100] ++ tr) = e :: es).
        rewrite failures_app, Hf. reflexivity.
      * replace (length (e :: es) - 1)%nat with (length es) by (cbn [length]; lia).
        change (sleeps ([EvBatchCall window (Some e); EvSleep 100] ++ tr)
                = replicate (length es) 100).
        rewrite sleeps_app, Hsl.
        destruct es as [|e'' es]; [cbn [length] in Hlen; lia|].
        cbn [length Nat.sub]. rewrite Nat.sub_0_r. reflexivity.
Qed.

(** Six failures in a row on the first window end the account fetch. *)
Lemma loadAccountBatchRPC_gives_up (s : Layer) (accounts : list (list byte))
    (net : Net) (es : list error) (rest : list (option error)) (b : Z) :
  bn s = Some b → 0 < batchSize s → accounts ≠ [] →
  length es = 6%nat → script net = (Some <$> es) ++ rest →
  ∃ e tr,
    loadAccountBatchRPC s accounts net
    = Some (([], Some e,
             withAccessedAccounts s (markAccessed (accessedAccounts s) accounts)),
            mkNet rest (trace net ++ tr)) ∧
    failures tr = es ∧ sleeps tr = replicate 5 100.
Proof.
  intros Hbn Hstep Hne Hlen Hs. unfold loadAccountBatchRPC. rewrite Hbn.
  cbn [batchSize withAccessedAccounts]. munfold.
  set (elems := flat_map (accountElems b) accounts).
  assert (Hl : 3 ≤ Z.of_nat (length elems)).
  { subst elems. rewrite flat_map_accountElems_length.
    destruct accounts; [done|cbn [length]; lia]. }
  clearbody elems.
  replace (length elems + 7)%nat with (S (length elems + 6)) by lia.
  cbn [accountWindows].
  destruct (Z.ltb_spec 0 (Z.of_nat (length elems))) as [_|]; [|lia].
  munfold.
  rewrite slice_ok by (destruct (Z.gtb_spec (0 + batchSize s) (Z.of_nat (length elems))); lia).
  match goal with
  | |- context [accountAttempts _ ?w 0 net] =>
      destruct (accountAttempts_gives_up w es (length elems + 6) 0 net rest
                  ltac:(lia) ltac:(rewrite Hlen; reflexivity) Hs ltac:(lia))
        as (e & tr & -> & Hf & Hsl)
  end.
  exists e, tr. split; [reflexivity|]. split; [exact Hf|].
  now rewrite Hsl, Hlen.
Qed.

Lemma loadStateBatchRPC_first_fails (s : Layer) (reqs : list StorageReq) (net : Net)
    (e : error) (rest : list (option error)) (b : Z) :
  bn s = Some b → 0 < batchSize s → reqs ≠ [] → script net = Some e :: rest →
  ∃ out s' net', loadStateBatchRPC s reqs net = Some ((Some e, out, s'), net').
Proof.
  intros Hbn Hstep Hne Hs. unfold loadStateBatchRPC. cbn [bn withRpcCnt batchSize].
  rewrite Hbn. munfold.
  destruct (stateWindows_first_fails (map (storageElem b) reqs) (batchSize s) net e rest
              (length (map (storageElem b) reqs)) Hstep) as (net' & ->); [|exact Hs|eauto].
  destruct reqs; [done|discriminate].
Qed.

Lemma account_ne_lineKey (action : RequestType) (a key : list byte) (txt : string) :
  action ≠ GET_STATE → scratchpadKeyOf action a key ≠ lineKey txt.
Proof.
  intros Hact H. rewrite lineKey_bytes in H.
  change (string_of_list_byte (STATE_KEY ++ Hex2Bytes txt))
    with (calcKey STATE_KEY (Hex2Bytes txt)) in H.
  destruct action; try done; cbn [scratchpadKeyOf] in H;
    apply calcKey_inj2 in H; try reflexivity; destruct H as [H _]; discriminate H.
Qed.

(** X24, the ways [InitState] panics: when [stateBN] is nil, as it is in
    the facade [Clone] and [CloneFromRoot] make; when a fetch is asked for and
    the key file cannot be opened; and when, on a warm-up, the transport
    fails the first call of the slot fetch, there being a slot to fetch,
    cached or named in the first [maxKeyCache] lines of the key file.  The
    slot fetch is not tried again. *)
Theorem InitState_panics (db : OverlayStateDB) (kc : KeyCache)
    (fetchNewState clearCache : bool) (net : Net) :
  stateBN kc = None
  ∨ (fetchNewState = true ∧ cacheFile kc = None)
  ∨ (fetchNewState = true ∧ clearCache = false ∧ canFetch (state db) ∧
     ∃ lines e rest a slot,
       cacheFile kc = Some lines ∧ maxKeyCache kc < 2 ^ 64 ∧
       script net = Some e :: rest ∧
       length a = 20%nat ∧ length slot = 32%nat ∧
       (is_Some (scratchPad (this (getRootState (state db))) !! calcStateKey a slot)
        ∨ ∃ (i : nat) (txt : string),
            lines !! i = Some txt ∧ Z.of_nat i < maxKeyCache kc
            ∧ Hex2Bytes txt = a ++ slot)) →
  InitState db kc fetchNewState clearCache net = None.
Proof.
  unfold InitState.
  intros [->|H]; [reflexivity|].
  destruct (stateBN kc) as [b0|]; [|reflexivity].
  destruct H as [[-> Hfile]|(-> & -> & [[bb Hbn] Hstep] & H)].
  - munfold. unfold resetScratchPad. now rewrite Hfile.
  - destruct H as (lines & e & rest & a & slot & Hfile & Hmk & Hs & Ha & Hsl & Hin).
    rewrite (getRootState_Root (state db)).
    set (root := this (getRootState (state db))) in *.
    unfold withState at 2. munfold.
    rewrite (resetScratchPad_prefetch (refundGas db) root kc lines net Hfile Hmk). cbv zeta.
    set (pad1 := foldl (fun pad txt => <[lineKey txt := []]> pad) (scratchPad root)
                   (take (Z.to_nat (maxKeyCache kc)) lines)).
    destruct (cachedSlots_spec pad1) as [_ Hks].
    match goal with
    | |- context [loadStateBatchRPC ?l1 ?reqs net] =>
        destruct (loadStateBatchRPC_first_fails l1 reqs net e rest bb Hbn Hstep)
          as (out & s' & net' & ->); [|exact Hs|reflexivity]
    end.
    assert (Hk : calcStateKey a slot ∈ cachedSlots pad1).
    { apply Hks. split; [now apply stateKey_calcStateKey|]. now apply listed_lookup. }
    intros Hnil. apply (f_equal length) in Hnil. rewrite length_fmap in Hnil.
    destruct (cachedSlots pad1); [now apply elem_of_nil in Hk|discriminate Hnil].
Qed.

(** X25, a failed account fetch ends the warm-up without a word: when the
    transport lets the slot windows through and then fails six calls in a
    row, [InitState(true, false)] returns as if all went well, after five
    pauses of 100 ms and with no further call.  The key file is written and
    every cached slot holds its upstream value, but the balance, nonce, code
    and code hash of every account are left as they were, stale or
    missing. *)
Theorem a_failed_account_fetch_ends_the_warm_up_silently (db : OverlayStateDB)
    (kc : KeyCache) (lines : list string) (net : Net) (es : list error)
    (rest : list (option error)) :
  let root := this (getRootState (state db)) in
  let b := pinnedBlock (state db) in
  let slots := cachedSlots (scanKeys lines 0 (maxKeyCache kc) (scratchPad root)) in
  canFetch (state db) → is_Some (stateBN kc) → cacheFile kc = Some lines →
  maxKeyCache kc < 2 ^ 64 →
  accessedAccounts root ≠ ∅ ∨ slots ≠ [] →
  length es = 6%nat →
  script net
  = replicate (Z.to_nat (ceilDiv (Z.of_nat (length slots)) (batchSize root))) None
    ++ (Some <$> es) ++ rest →
  ∃ db' net' tr,
    InitState db kc true false net
    = Some ((db', Some (fileOf (keyLine <$> slots))), net') ∧
    script net' = rest ∧ trace net' = trace net ++ tr ∧
    failures tr = es ∧ sleeps tr = replicate 5 100 ∧
    let root' := this (getRootState (state db')) in
    (∀ a slot, length a = 20%nat → length slot = 32%nat →
       calcStateKey a slot ∈ slots →
       scratchPad root' !! calcStateKey a slot = Some (upstreamValue b GET_STATE a slot)) ∧
    (∀ a action key, action ≠ GET_STATE →
       scratchPad root' !! scratchpadKeyOf action a key
       = scratchPad root !! scratchpadKeyOf action a key).
Proof.
  intros root b slots [[bb Hbn] Hstep] [b0 HBN] Hfile Hmk Hsome Hlen Hs.
  assert (b = bb) as -> by (unfold b, pinnedBlock; now rewrite Hbn).
  fold root in Hbn, Hstep.
  unfold slots in *. clear slots. rewrite scanKeys_take in * by lia.
  rewrite Z.sub_0_r in *.
  set (pad1 := foldl (fun pad txt => <[lineKey txt := []]> pad) (scratchPad root)
                 (take (Z.to_nat (maxKeyCache kc)) lines)) in *.
  set (ks := cachedSlots pad1) in *.
  destruct (cachedSlots_spec pad1) as [_ Hks]. fold ks in Hks.
  assert (Hall : Forall stateKey ks).
  { apply Forall_forall. intros k Hk. now apply Hks in Hk. }
  unfold InitState. rewrite HBN. rewrite (getRootState_Root (state db)). fold root.
  unfold withState at 2. cbn [refundGas]. munfold.
  rewrite (resetScratchPad_prefetch (refundGas db) root kc lines net Hfile Hmk). cbv zeta.
  fold pad1. fold ks.
  set (acc1 := markAccessed (accessedAccounts root) (Req_Address <$> (slotReq <$> ks))).
  destruct (loadStateBatchRPC_passes
              (withAccessedAccounts (withScratchPad root pad1) acc1) (slotReq <$> ks) net
              ((Some <$> es) ++ rest) bb Hbn Hstep) as (tr1 & -> & Hf1 & Hsl1).
  { rewrite length_fmap. exact Hs. }
  cbn [accessedAccounts withRpcCnt withAccessedAccounts withScratchPad scratchPad].
  set (accounts := reverse (map_to_list acc1).*1).
  assert (Hne : accounts ≠ []).
  { assert (∃ a, is_Some (acc1 !! a)) as [a Ha].
    { destruct Hsome as [Hacc|Hslots].
      - apply map_choose in Hacc. destruct Hacc as (a & v & Hv). exists a.
        apply markAccessed_is_Some. left. eauto.
      - destruct ks as [|k ks'] eqn:E; [done|].
        exists (Req_Address (slotReq k)). apply markAccessed_is_Some. right.
        cbn [fmap list_fmap]. apply elem_of_cons. now left. }
    destruct (markAccessed_keys acc1 a) as [Hin _]. apply Hin in Ha. fold accounts in Ha.
    intros Hnil. rewrite Hnil in Ha. now apply elem_of_nil in Ha. }
  match goal with
  | |- context [loadAccountBatchRPC ?s accounts ?n] =>
      destruct (loadAccountBatchRPC_gives_up s accounts n es rest bb Hbn Hstep Hne Hlen eq_refl)
        as (e & tr2 & -> & Hf2 & Hsl2)
  end.
  eexists _, _, (tr1 ++ tr2). split; [reflexivity|].
  cbn [script trace]. split; [reflexivity|].
  split; [now rewrite app_assoc|].
  split; [now rewrite failures_app, Hf1, Hf2|].
  split; [now rewrite sleeps_app, Hsl1, Hsl2|].
  cbn [withState state Derive getRootState this scratchPad withAccessedAccounts
       withScratchPad].
  split.
  - intros a slot Ha Hsl Hin. rewrite foldl_storeSlot_lookup by exact Hall.
    rewrite decide_True by exact Hin.
    now destruct (slotReq_calcStateKey a slot Ha Hsl) as [-> _].
  - intros a action key Hact. rewrite foldl_storeSlot_lookup by exact Hall.
    rewrite decide_False.
    2:{ intros Hin. apply Hks in Hin. destruct Hin as [Hst _].
        apply stateKey_iff in Hst. destruct Hst as (a' & slot' & _ & _ & Heq).
        destruct action; try done; cbn [scratchpadKeyOf] in Heq; symmetry in Heq;
          revert Heq; apply state_ne_account; tauto. }
    subst pad1. rewrite foldl_lineKey_lookup.
    rewrite decide_False; [reflexivity|].
    intros Hin. apply list_elem_of_fmap in Hin. destruct Hin as (txt & Heq & _).
    revert Heq. now apply account_ne_lineKey.
Qed.

End WarmupProps.

(** ** Concrete runs *)


Lemma six_attempts_and_no_slot_retry :
  (fun r => (fst (fst (fst r)), snd (fst (fst r)),
             length (batchCalls (snd r)), length (failures (snd r)), sleeps (snd r)))
    <$> outcome (loadAccountBatchRPC (env := sampleEnv) sampleRoot [alice]) (flaky 5)
  = Some ([accountAnswer (env := sampleEnv) 17 alice], None, 6%nat, 5%nat, replicate 5 100) ∧
  (fun r => (fst (fst (fst r)), snd (fst (fst r)),
             length (batchCalls (snd r)), sleeps (snd r)))
    <$> outcome (loadStateBatchRPC (env := sampleEnv) sampleRoot (burst 1)) (flaky 1)
  = Some (Some "timeout"%string, burst 1, 1%nat, []).
Proof. split; vm_compute; reflexivity. Qed.

(** The account fetch calls its window again after a failure; the slot fetch
    does not, the tick of the coalescer runs it again a second later. *)
Example retries_on_the_trace :
  (fun r => trace (snd r))
    <$> loadAccountBatchRPC (env := sampleEnv) sampleRoot [alice] (flaky 2)
  = Some (attempts 100 (accountElems 17 alice)
            ["timeout"%string; "timeout"%string] None) ∧
  (fun r => trace (snd r))
    <$> loadStateBatchRPC (env := sampleEnv) sampleRoot (burst 1) (flaky 2)
  = Some [EvBatchCall (map (storageElem 17) (burst 1)) (Some "timeout"%string)] ∧
  (fun r => trace (snd r))
    <$> storageTick (env := sampleEnv) sampleRoot (burst 1) (flaky 1)
  = Some (failedRound 1000 ([], map (storageElem 17) (burst 1), "timeout"%string)
          ++ passed [map (storageElem 17) (burst 1)]).
Proof. repeat split; vm_compute; reflexivity. Qed.

Lemma suicide_flag_is_not_shadowed :
  shadowed (state suicidedBelow) (calcKey SUICIDE_KEY alice) = Some [x01] ∧
  HasSuicided suicidedBelow alice = false.
Proof. split; vm_compute; reflexivity. Qed.

Lemma merge_drops_logs :
  answer (db ← snapshotOpsMerge (env := sampleEnv) sampleDB [O_Write (W_AddLog sampleLog)];
          ask (env := sampleEnv) db (Q_GetLogs zeroHash)) sampleNet
  = Some (A_Logs []) ∧
  answer (db ← performAll (env := sampleEnv) sampleDB [O_Write (W_AddLog sampleLog)];
          ask (env := sampleEnv) db (Q_GetLogs zeroHash)) sampleNet
  = Some (A_Logs [sampleLog]).
Proof. split; vm_compute; reflexivity. Qed.

Lemma SubBalance_beyond_the_balance :
  Z.of_N (eth_getBalance sampleUpstream alice (hexBN 17)) = 100 ∧
  answer (db ← SubBalance (env := sampleEnv) sampleDB alice 150;
          GetBalance (env := sampleEnv) db alice) sampleNet
  = Some 50 ∧
  50 ≠ 100 - 150.
Proof.
  split; [reflexivity|]. split; [vm_compute; reflexivity|]. discriminate.
Qed.

(** *** The theorems at work *)

Lemma shadow_law_of_get_witness :
  shadowed sampleState (scratchpadKeyOf GET_BALANCE alice zeroHash) = None ∧
  canFetch sampleState ∧
  ∃ s' net' tr,
    get (env := sampleEnv) sampleState alice GET_BALANCE zeroHash sampleNet
    = Some ((upstreamValue (env := sampleEnv) (pinnedBlock sampleState)
               GET_BALANCE alice zeroHash, None, s'), net') ∧
    advances sampleNet net' tr ∧
    overlays s' = overlays sampleState ∧
    scratchPad (this (getRootState s')) !! scratchpadKeyOf GET_BALANCE alice zeroHash
    = Some (upstreamValue (env := sampleEnv) (pinnedBlock sampleState)
              GET_BALANCE alice zeroHash).
Proof.
  assert (Hnone : shadowed sampleState (scratchpadKeyOf GET_BALANCE alice zeroHash) = None)
    by (vm_compute; reflexivity).
  assert (Hcan : canFetch sampleState)
    by (split; [eexists; reflexivity|reflexivity]).
  split; [exact Hnone|]. split; [exact Hcan|].
  exact (proj1 (proj2 (shadow_law_of_get (env := sampleEnv) sampleState alice
                         GET_BALANCE zeroHash sampleNet)) Hnone Hcan).
Defined.

Lemma revert_purity_witness :
  canFetch (state sampleDB) ∧
  ∃ dbW netW db',
    performAll (env := sampleEnv) (snd (Snapshot sampleDB))
      [O_SubBalance alice 30; O_Write (W_AddLog sampleLog)] sampleNet
    = Some (dbW, netW) ∧
    RevertToSnapshot dbW (fst (Snapshot sampleDB)) = Some db' ∧
    snapshotOpsRevert (env := sampleEnv) sampleDB
      [O_SubBalance alice 30; O_Write (W_AddLog sampleLog)] sampleNet
    = Some (db', netW) ∧
    ∀ (q : Query) (n n' : Net),
      q ≠ Q_CacheSize →
      answer (ask (env := sampleEnv) db' q) n' = answer (ask (env := sampleEnv) sampleDB q) n.
Proof.
  assert (Hcan : canFetch (state sampleDB))
    by (split; [eexists; reflexivity|reflexivity]).
  split; [exact Hcan|].
  exact (proj2 (revert_purity (env := sampleEnv) sampleDB sampleNet)
           [O_SubBalance alice 30; O_Write (W_AddLog sampleLog)] Hcan).
Defined.

Lemma merge_as_direct_writes_witness :
  forallb toScratchPad [O_Write (W_SetBalance alice 200); O_AddBalance alice 5] = true ∧
  snapshotOpsMerge (env := sampleEnv) sampleDB
    [O_Write (W_SetBalance alice 200); O_AddBalance alice 5] sampleNet
  = performAll (env := sampleEnv) sampleDB
      [O_Write (W_SetBalance alice 200); O_AddBalance alice 5] sampleNet.
Proof.
  split; [reflexivity|].
  exact (proj1 (merge_as_direct_writes (env := sampleEnv) sampleDB
                  [O_Write (W_SetBalance alice 200); O_AddBalance alice 5]
                  sampleNet eq_refl)).
Defined.

Lemma account_triple_coherence_witness :
  canFetch (state sampleDB) ∧
  unwrittenAccount (env := sampleEnv) (state sampleDB) alice ∧
  ∃ v db' net',
    GetCodeHash (env := sampleEnv) sampleDB alice sampleNet = Some ((v, db'), net') ∧
    accountCached (env := sampleEnv) (this (getRootState (state db'))) alice.
Proof.
  assert (Hcan : canFetch (state sampleDB))
    by (split; [eexists; reflexivity|reflexivity]).
  assert (Hun : unwrittenAccount (env := sampleEnv) (state sampleDB) alice).
  { split.
    - repeat constructor.
    - left. repeat split; reflexivity. }
  split; [exact Hcan|]. split; [exact Hun|].
  exact (proj2 (proj2 (proj2 (account_triple_coherence (env := sampleEnv) sampleDB
                                alice sampleNet Hcan Hun)))).
Defined.


Lemma fetcher_retry_policy_witness :
  bn sampleRoot = Some 17 ∧ 0 < batchSize sampleRoot ∧
  (∃ out err s' net' tr ws ess,
     loadAccountBatchRPC (env := sampleEnv) sampleRoot [alice] (flaky 2)
     = Some ((out, err, s'), net') ∧
     trace net' = trace (flaky 2) ++ tr ∧
     length ess = length ws ∧
     Forall (fun w => 0 < Z.of_nat (length w) ≤ batchSize sampleRoot) ws ∧
     match err with
     | Some e =>
         length (failures tr) = 6%nat ∧ last (failures tr) = Some e ∧
         sleeps tr = replicate 5 100 ∧ out = [] ∧
         ∃ w es rest,
           tr = served 100 ws ess ++ attempts 100 w es (Some e) ∧
           (length (concat ess) + length es = 5)%nat ∧
           0 < Z.of_nat (length w) ≤ batchSize sampleRoot ∧
           concat ws ++ w ++ rest = flat_map (accountElems 17) [alice]
     | None =>
         (length (failures tr) ≤ 5)%nat ∧
         sleeps tr = replicate (length (failures tr)) 100 ∧
         out = map (accountAnswer (env := sampleEnv) 17) [alice] ∧
         tr = served 100 ws ess ∧
         concat ws = flat_map (accountElems 17) [alice]
     end) ∧
  (∃ out err s' net' tr ws,
     loadStateBatchRPC (env := sampleEnv) sampleRoot (burst 2) (flaky 2)
     = Some ((err, out, s'), net') ∧
     trace net' = trace (flaky 2) ++ tr ∧
     sleeps tr = [] ∧
     Forall (fun w => 0 < Z.of_nat (length w) ≤ batchSize sampleRoot) ws ∧
     match err with
     | Some e =>
         failures tr = [e] ∧ out = burst 2 ∧
         ∃ w rest,
           tr = passed ws ++ [EvBatchCall w (Some e)] ∧
           0 < Z.of_nat (length w) ≤ batchSize sampleRoot ∧
           concat ws ++ w ++ rest = map (storageElem 17) (burst 2)
     | None =>
         failures tr = [] ∧
         out = map (storageAnswer (env := sampleEnv) 17) (burst 2) ∧
         tr = passed ws ∧ concat ws = map (storageElem 17) (burst 2)
     end) ∧
  (∃ s' net' rounds ws,
     storageTick (env := sampleEnv) sampleRoot (burst 2) (flaky 2)
     = Some ((map (storageAnswer (env := sampleEnv) 17) (burst 2), s'), net') ∧
     trace net' = trace (flaky 2) ++ concat (map (failedRound 1000) rounds) ++ passed ws ∧
     Forall (fun r => windowsOf (batchSize sampleRoot) (map (storageElem 17) (burst 2))
                        (fst (fst r) ++ [snd (fst r)])) rounds ∧
     Forall (fun w => 0 < Z.of_nat (length w) ≤ batchSize sampleRoot) ws ∧
     concat ws = map (storageElem 17) (burst 2)).
Proof.
  split; [reflexivity|]. split; [reflexivity|].
  exact (fetcher_retry_policy (env := sampleEnv) sampleRoot [alice] (burst 2)
           (flaky 2) 17 eq_refl eq_refl).
Defined.

Lemma suicide_is_layer_scoped_witness :
  HasSuicided sampleDB alice = false ∧
  ∀ db',
    RevertToSnapshot
      (snd (Snapshot (snd (Suicide (snd (Snapshot sampleDB)) alice))))
      (fst (Snapshot sampleDB)) = Some db' ∨
    RevertToSnapshot (snd (Suicide (snd (Snapshot sampleDB)) alice))
      (fst (Snapshot sampleDB)) = Some db' →
    HasSuicided db' alice = false.
Proof.
  split; [reflexivity|].
  exact (proj2 (proj2 (proj2 (proj2
           (proj2 (suicide_is_layer_scoped sampleDB alice)))))
           eq_refl).
Defined.

Lemma logs_and_receipts_walk_the_chain_witness :
  overlays (state sampleLogged)
  = [] ++ this (state sampleLogged)
       :: [this (state (AddLog (StartLogCollection sampleDB tx1 zeroHash) sampleLog))] ∧
  receipts (this (state sampleLogged)) !! tx1 = Some sampleReceipt ∧
  GetLogs sampleLogged tx1 = [sampleLog] ∧
  ∃ r',
    fst (GetReceipt sampleLogged tx1) = Some r' ∧
    Receipt_Logs r' = [sampleLog] ∧
    Receipt_Status r' = 1 ∧ Receipt_TxHash r' = tx1 ∧ Receipt_GasUsed r' = 21000.
Proof.
  assert (Hov : overlays (state sampleLogged)
                = [] ++ this (state sampleLogged)
                     :: [this (state (AddLog (StartLogCollection sampleDB tx1 zeroHash)
                                        sampleLog))]) by reflexivity.
  assert (Hr : receipts (this (state sampleLogged)) !! tx1 = Some sampleReceipt)
    by (vm_compute; reflexivity).
  assert (Hl : GetLogs sampleLogged tx1 = [sampleLog]) by (vm_compute; reflexivity).
  split; [exact Hov|]. split; [exact Hr|]. split; [exact Hl|].
  destruct (proj1 (proj2 (proj2 (proj2 (logs_and_receipts_walk_the_chain sampleLogged tx1))))
              [] _ _ sampleReceipt Hov (Forall_nil_2 _) Hr)
    as (r' & Hget & Hlogs & Hst & Htx & Hgas).
  exists r'. split; [exact Hget|]. split; [now rewrite Hlogs|].
  split; [exact Hst|]. split; [exact Htx|exact Hgas].
Defined.

Lemma SubBalance_subtracts_from_upstream_witness :
  canFetch (state sampleDB) ∧
  untouched (env := sampleEnv) (state sampleDB) GET_BALANCE alice zeroHash ∧
  30 ≤ Z.of_N (eth_getBalance sampleUpstream alice (hexBN (pinnedBlock (state sampleDB)))) ∧
  ∃ db1 net1,
    SubBalance (env := sampleEnv) sampleDB alice 30 sampleNet = Some (db1, net1) ∧
    GetBalance (env := sampleEnv) db1 alice net1 = Some ((100 - 30, db1), net1).
Proof.
  assert (Hcan : canFetch (state sampleDB))
    by (split; [eexists; reflexivity|reflexivity]).
  assert (Hun : untouched (env := sampleEnv) (state sampleDB) GET_BALANCE alice zeroHash).
  { split; [repeat constructor|]. intros v Hv. vm_compute in Hv. discriminate Hv. }
  assert (Hle : 30 ≤ Z.of_N (eth_getBalance sampleUpstream alice
                               (hexBN (pinnedBlock (state sampleDB)))))
    by (vm_compute; discriminate).
  split; [exact Hcan|]. split; [exact Hun|]. split; [exact Hle|].
  destruct (SubBalance_subtracts_from_upstream (env := sampleEnv) sampleDB alice 30
              sampleNet Hcan Hun) as (db1 & net1 & Hsub & _ & Hget).
  exists db1, net1. split; [exact Hsub|exact (Hget Hle)].
Defined.


(** *** Examples *)

Example Bytes_300 : Bytes 300 = [x01; x2c].
Proof. reflexivity. Qed.

Example Bytes_neg : Bytes (-50) = [x32].
Proof. reflexivity. Qed.

Example SetBytes_300 : SetBytes [x01; x2c] = 300.
Proof. reflexivity. Qed.

Example calcKey_len : String.length (calcKey BALANCE_KEY alice) = 52%nat.
Proof. reflexivity. Qed.

Example calcStateKey_len : String.length (calcStateKey alice slot7) = 84%nat.
Proof. reflexivity. Qed.

(** A fresh read: balance 100, nonce 3, and one account batch on the wire. *)
Example fresh_read :
  answer (GetBalance (env := sampleEnv) sampleDB alice) sampleNet = Some 100 ∧
  answer (GetNonce (env := sampleEnv) sampleDB alice) sampleNet = Some 3 ∧
  answer (GetCodeSize (env := sampleEnv) sampleDB alice) sampleNet = Some 2 ∧
  answer (GetState (env := sampleEnv) sampleDB alice slot7) sampleNet = Some slot7.
Proof. repeat split; vm_compute; reflexivity. Qed.

(** Snapshot, set the balance to 200, read it, revert, read again. *)
Example snapshot_revert :
  answer (GetBalance (env := sampleEnv)
            (SetBalance (snd (Snapshot sampleDB)) alice 200) alice) sampleNet
  = Some 200 ∧
  answer (db ← snapshotWritesRevert sampleDB [W_SetBalance alice 200];
          GetBalance (env := sampleEnv) db alice) sampleNet
  = Some 100.
Proof. split; vm_compute; reflexivity. Qed.

(** Snapshot, take 30 off the balance, revert: the balance reads 100 as
    before, and the root now holds the account. *)
Example snapshot_sub_revert :
  answer (db ← snapshotOpsRevert (env := sampleEnv) sampleDB [O_SubBalance alice 30];
          '(bal, db) ← GetBalance (env := sampleEnv) db alice;
          mret ((bal, CacheSize db, CacheSize sampleDB), db)) sampleNet
  = Some (100, 244, 0).
Proof. vm_compute. reflexivity. Qed.

(** Snapshot, set the balance to 200, merge: the balance stays and the depth
    is the one of before. *)
Example snapshot_merge :
  answer (db ← snapshotOpsMerge (env := sampleEnv) sampleDB
                 [O_Write (W_SetBalance alice 200)];
          '(bal, db) ← GetBalance (env := sampleEnv) db alice;
          mret ((bal, GetOverlayDepth db), db)) sampleNet
  = Some (200, GetOverlayDepth sampleDB).
Proof. vm_compute. reflexivity. Qed.

(** Above 2^63 the nonce does not come back: 2^64 - 1 is stored as 1. *)
Example nonce_wraps :
  answer (GetNonce (env := sampleEnv) (SetNonce sampleDB alice (2 ^ 64 - 1)) alice)
    sampleNet
  = Some 1.
Proof. vm_compute. reflexivity. Qed.

(** With a batch size of 0 the window loop never ends. *)
Example batch_size_zero_hangs :
  loadStateBatchRPC (env := sampleEnv) (withBatchSize sampleRoot 0) (burst 2) sampleNet
  = None.
Proof. vm_compute. reflexivity. Qed.

(** A receipt kept at the root is not found. *)
Example receipt_at_root :
  fst (GetReceipt (AddReceipt (mkDB 0 (getRootState sampleState)) tx1 sampleReceipt) tx1)
  = None ∧
  fst (GetReceipt (AddReceipt sampleDB tx1 sampleReceipt) tx1) = Some sampleReceipt.
Proof. split; vm_compute; reflexivity. Qed.

(** *** More of the theorems at work *)

Lemma scratchpad_keys_do_not_collide_witness :
  length alice = 20%nat ∧
  (scratchpadKeyOf GET_STATE alice slot7 = scratchpadKeyOf GET_STATE alice slot7 →
   GET_STATE = GET_STATE ∧ alice = alice ∧ (GET_STATE = GET_STATE → slot7 = slot7)) ∧
  calcKey SUICIDE_KEY alice ≠ scratchpadKeyOf GET_STATE alice slot7 ∧
  (calcKey SUICIDE_KEY alice = calcKey SUICIDE_KEY alice → alice = alice).
Proof.
  split; [reflexivity|].
  exact (scratchpad_keys_do_not_collide GET_STATE GET_STATE alice alice slot7 slot7
           eq_refl eq_refl).
Defined.

Lemma a_write_changes_one_entry_witness :
  written (W_SetBalance alice 5) = Some (calcKey BALANCE_KEY alice) ∧
  calcKey BALANCE_KEY alice ≠ scratchpadKeyOf GET_NONCE alice zeroHash ∧
  read (env := sampleEnv) (write sampleDB (W_SetBalance alice 5)) alice GET_NONCE zeroHash
    sampleNet
  = match read (env := sampleEnv) sampleDB alice GET_NONCE zeroHash sampleNet with
    | Some ((val, db'), net') => Some ((val, write db' (W_SetBalance alice 5)), net')
    | None => None
    end.
Proof.
  assert (Hne : calcKey BALANCE_KEY alice ≠ scratchpadKeyOf GET_NONCE alice zeroHash)
    by (intros H; vm_compute in H; discriminate H).
  split; [reflexivity|]. split; [exact Hne|].
  exact (a_write_changes_one_entry (env := sampleEnv) sampleDB (W_SetBalance alice 5)
           (calcKey BALANCE_KEY alice) alice GET_NONCE zeroHash sampleNet eq_refl Hne).
Defined.

Lemma Suicide_only_sets_the_flag_witness :
  Q_GetBalance alice ≠ Q_HasSuicided alice ∧
  answer (ask (env := sampleEnv) (snd (Suicide sampleDB alice)) (Q_GetBalance alice))
    sampleNet
  = answer (ask (env := sampleEnv) sampleDB (Q_GetBalance alice)) sampleNet.
Proof.
  assert (H1 : Q_GetBalance alice ≠ Q_HasSuicided alice) by discriminate.
  assert (H2 : Q_GetBalance alice ≠ Q_CacheSize) by discriminate.
  split; [exact H1|].
  exact (Suicide_only_sets_the_flag (env := sampleEnv) sampleDB alice
           (Q_GetBalance alice) sampleNet H1 H2).
Defined.

Lemma AddBalance_adds_to_the_balance_witness :
  GetBalance (env := sampleEnv) (SetBalance sampleDB alice 100) alice sampleNet
  = Some ((100, SetBalance sampleDB alice 100), sampleNet) ∧
  ∃ db2,
    AddBalance (env := sampleEnv) (SetBalance sampleDB alice 100) alice 5 sampleNet
    = Some (db2, sampleNet) ∧
    GetBalance (env := sampleEnv) db2 alice sampleNet
    = Some ((Z.abs (100 + 5), db2), sampleNet) ∧
    (0 ≤ 5 →
     ∃ db3, SubBalance (env := sampleEnv) db2 alice 5 sampleNet = Some (db3, sampleNet) ∧
            GetBalance (env := sampleEnv) db3 alice sampleNet
            = Some ((100, db3), sampleNet)).
Proof.
  assert (H : GetBalance (env := sampleEnv) (SetBalance sampleDB alice 100) alice sampleNet
              = Some ((100, SetBalance sampleDB alice 100), sampleNet))
    by (vm_compute; reflexivity).
  split; [exact H|].
  exact (AddBalance_adds_to_the_balance (env := sampleEnv) _ _ alice 5 100 _ _ H).
Defined.

Lemma refund_counter_wraps_and_is_not_reverted_witness :
  0 ≤ GetRefund sampleDB < 2 ^ 64 ∧
  GetRefund (SubRefund (AddRefund sampleDB 7) 7) = GetRefund sampleDB ∧
  (GetRefund sampleDB < 7 ≤ 2 ^ 64 →
   GetRefund (SubRefund sampleDB 7) = 2 ^ 64 + GetRefund sampleDB - 7).
Proof.
  assert (H : 0 ≤ GetRefund sampleDB < 2 ^ 64) by (split; [discriminate|reflexivity]).
  split; [exact H|].
  pose proof (refund_counter_wraps_and_is_not_reverted sampleDB 7 H) as (H1 & H2 & _).
  exact (conj H1 H2).
Defined.

Lemma revert_unwinds_nested_snapshots_witness :
  Z.of_nat (length [[W_AddLog sampleLog]]) < 2 ^ 64 - 1 ∧
  RevertToSnapshot
    (nested sampleDB ([[W_SetBalance alice 1]] ++ [W_Suicide alice] :: [[W_AddLog sampleLog]]))
    (fst (Snapshot (nested sampleDB [[W_SetBalance alice 1]])))
  = Some (nested sampleDB [[W_SetBalance alice 1]]).
Proof.
  split; [reflexivity|].
  exact (revert_unwinds_nested_snapshots sampleDB [[W_SetBalance alice 1]]
           [W_Suicide alice] [[W_AddLog sampleLog]] eq_refl).
Defined.

Lemma MergeTo_keeps_every_read_witness :
  MergeTo sampleStack 1 = Some sampleMerged ∧
  canFetch (state sampleStack) ∧
  GetOverlayDepth sampleMerged = 1 ∧
  GetRefund sampleMerged = GetRefund sampleStack ∧
  RPCRequestCount sampleMerged = RPCRequestCount sampleStack ∧
  (∀ k, shadowed (state sampleMerged) k = shadowed (state sampleStack) k) ∧
  ∀ account action key net,
    answer (read (env := sampleEnv) sampleMerged account action key) net
    = answer (read (env := sampleEnv) sampleStack account action key) net.
Proof.
  assert (H : MergeTo sampleStack 1 = Some sampleMerged) by (vm_compute; reflexivity).
  assert (Hcan : canFetch (state sampleStack))
    by (split; [eexists; reflexivity|reflexivity]).
  split; [exact H|]. split; [exact Hcan|].
  destruct (MergeTo_keeps_every_read (env := sampleEnv) sampleStack sampleMerged 1 H)
    as (H1 & H2 & H3 & H4 & H5).
  exact (conj H1 (conj H2 (conj H3 (conj H4 (H5 Hcan))))).
Defined.


Lemma a_slot_read_waits_out_an_outage_witness :
  bn sampleRoot = Some 17 ∧ 0 < batchSize sampleRoot ∧
  script (failing ["timeout"; "reset"]%string) = map Some ["timeout"; "reset"]%string ∧
  loadState (env := sampleEnv) sampleRoot alice slot7 (failing ["timeout"; "reset"]%string)
  = Some ((eth_getStorageAt (up (Env := sampleEnv)) alice slot7 (hexBN 17),
           withRpcCnt sampleRoot (int64 (rpcCnt sampleRoot + Z.of_nat 2 + 1))),
          mkNet [] (trace (failing ["timeout"; "reset"]%string)
                    ++ outage (EvBatchCall [eth_getStorageAt_req alice slot7 (hexBN 17)])
                         (fun _ => 1000) ["timeout"; "reset"]%string)).
Proof.
  split; [reflexivity|]. split; [reflexivity|]. split; [reflexivity|].
  exact (a_slot_read_waits_out_an_outage (env := sampleEnv) sampleRoot alice slot7
           ["timeout"; "reset"]%string (failing ["timeout"; "reset"]%string) 17
           eq_refl eq_refl eq_refl).
Defined.

Lemma an_account_read_waits_out_an_outage_witness :
  bn sampleRoot = Some 17 ∧ 3 ≤ batchSize sampleRoot ∧
  script (flaky 7) = map Some (replicate 7 "timeout"%string) ∧
  loadAccount (env := sampleEnv) sampleRoot alice (flaky 7)
  = Some ((accountAnswer (env := sampleEnv) 17 alice,
           withAccessedAccounts sampleRoot
             (<[alice := true]> (accessedAccounts sampleRoot))),
          mkNet [] (trace (flaky 7)
                    ++ outage (EvBatchCall (accountElems 17 alice)) pauseAfter
                         (replicate 7 "timeout"%string))).
Proof.
  assert (H3 : 3 ≤ batchSize sampleRoot) by discriminate.
  split; [reflexivity|]. split; [exact H3|]. split; [reflexivity|].
  exact (an_account_read_waits_out_an_outage (env := sampleEnv) sampleRoot alice
           (replicate 7 "timeout"%string) (flaky 7) 17 eq_refl H3 eq_refl).
Defined.

Lemma a_batch_size_below_one_blocks_every_fetch_witness :
  0 ≤ 0 ∧
  ∀ db account action key net,
    shadowed (state db) (scratchpadKeyOf action account key) = None →
    read (env := sampleEnv) (SetBatchSize db 0) account action key net = None.
Proof.
  assert (H : 0 ≤ 0) by discriminate.
  split; [exact H|].
  exact (proj2 (proj2 (proj2 (proj2
           (a_batch_size_below_one_blocks_every_fetch (env := sampleEnv) 0 H))))).
Defined.

Lemma Empty_costs_one_fetch_witness :
  bn (this (getRootState (state sampleDB))) = Some 17 ∧
  3 ≤ batchSize (this (getRootState (state sampleDB))) ∧
  script sampleNet = [] ∧
  shadowed (state sampleDB) (calcKey CODE_KEY alice) = None ∧
  ∃ e db',
    let net' := mkNet [] (trace sampleNet ++ [EvBatchCall (accountElems 17 alice) None]) in
    Empty (env := sampleEnv) sampleDB alice sampleNet = Some ((e, db'), net') ∧
    Exist (env := sampleEnv) sampleDB alice sampleNet = Some ((negb e, db'), net') ∧
    (shadowed (state sampleDB) (calcKey NONCE_KEY alice) = None →
     shadowed (state sampleDB) (calcKey BALANCE_KEY alice) = None →
     e = (length (eth_getCode (up (Env := sampleEnv)) alice (hexBN 17)) =? 0)%nat
         && (uint64 (eth_getTransactionCount (up (Env := sampleEnv)) alice (hexBN 17)) =? 0)
         && (Z.of_N (eth_getBalance (up (Env := sampleEnv)) alice (hexBN 17)) =? 0)).
Proof.
  assert (H3 : 3 ≤ batchSize (this (getRootState (state sampleDB)))) by discriminate.
  assert (Hc : shadowed (state sampleDB) (calcKey CODE_KEY alice) = None)
    by (vm_compute; reflexivity).
  split; [reflexivity|]. split; [exact H3|]. split; [reflexivity|]. split; [exact Hc|].
  exact (Empty_costs_one_fetch (env := sampleEnv) sampleDB alice sampleNet 17
           eq_refl H3 eq_refl Hc).
Defined.

Lemma the_state_diff_exports_the_overlays_witness :
  canonicalOverlays (state sampleWrites) ∧
  ∃ diff,
    GetStateDiff (env := sampleEnv) sampleWrites sampleNet
    = Some ((diff, sampleWrites), sampleNet) ∧
    exported (overlaid (state sampleWrites)) diff.
Proof.
  assert (H : canonicalOverlays (state sampleWrites)).
  { constructor; [|constructor]. intros k Hk.
    exists alice. split; [reflexivity|].
    cbn [scratchPad withScratchPad] in Hk.
    apply lookup_insert_is_Some in Hk as [<-|[_ Hk]].
    { right. right. right. right. right. exists slot7. split; reflexivity. }
    apply lookup_insert_is_Some in Hk as [<-|[_ Hk]]; [tauto|].
    apply lookup_insert_is_Some in Hk as [<-|[_ Hk]]; [tauto|].
    rewrite lookup_empty in Hk. destruct Hk. discriminate. }
  split; [exact H|].
  exact (the_state_diff_exports_the_overlays (env := sampleEnv) sampleWrites sampleNet H).
Defined.

Example state_diff_of_three_writes :
  (fun r => (Override_Balance <$> (r !! alice), Override_Code <$> (r !! alice),
             (fun o => sd ← Override_StateDiff o; sd !! slot7) <$> (r !! alice),
             size r))
    <$> answer (GetStateDiff (env := sampleEnv) sampleWrites) sampleNet
  = Some (Some (Some 5), Some (Some [x60]), Some (Some tx1), 1%nat).
Proof. vm_compute. reflexivity. Qed.

Lemma InitState_drops_snapshots_and_writes_witness :
  is_Some (stateBN sampleKeyCache) ∧
  InitState (env := sampleEnv)
    (nested sampleDB [[W_SetBalance alice 5; W_SetNonce alice 9]; [W_SetBalance alice 7]])
    sampleKeyCache false false sampleNet
  = InitState (env := sampleEnv) sampleDB sampleKeyCache false false sampleNet.
Proof.
  assert (H : is_Some (stateBN sampleKeyCache)) by (now exists 17).
  split; [exact H|].
  exact (proj1 (InitState_drops_snapshots_and_writes (env := sampleEnv) sampleDB
                  sampleKeyCache
                  [[W_SetBalance alice 5; W_SetNonce alice 9]; [W_SetBalance alice 7]]
                  false false sampleNet H)).
Defined.

Lemma a_clearing_reset_empties_the_cache_witness :
  canFetch (state sampleWrites) ∧ is_Some (stateBN sampleKeyCache) ∧
  is_Some (cacheFile sampleKeyCache) ∧
  ∃ db',
    InitState (env := sampleEnv) sampleWrites sampleKeyCache true true sampleNet
    = Some ((db', Some EmptyString), sampleNet) ∧
    CacheSize db' = 0.
Proof.
  assert (Hc : canFetch (state sampleWrites)) by (split; [now exists 17|reflexivity]).
  assert (Hb : is_Some (stateBN sampleKeyCache)) by (now exists 17).
  assert (Hf : is_Some (cacheFile sampleKeyCache)) by (now eexists).
  split; [exact Hc|]. split; [exact Hb|]. split; [exact Hf|].
  destruct (a_clearing_reset_empties_the_cache (env := sampleEnv) sampleWrites
              sampleKeyCache sampleNet Hc Hb Hf) as (db' & Hrun & Hsize & _).
  exists db'. split; [exact Hrun|exact Hsize].
Defined.

Lemma a_prefetching_reset_refreshes_the_cache_witness :
  canFetch (state sampleDB) ∧ is_Some (stateBN sampleKeyCache) ∧
  maxKeyCache sampleKeyCache < 2 ^ 64 ∧ script sampleNet = [] ∧
  ∃ db' content net',
    InitState (env := sampleEnv) sampleDB sampleKeyCache true false sampleNet
    = Some ((db', Some content), net') ∧
    RPCRequestCount db' = int64 (RPCRequestCount sampleDB + 1) ∧
    ∀ net2,
      read (env := sampleEnv) db' alice GET_STATE slot7 net2
      = Some ((upstreamValue (env := sampleEnv) 17 GET_STATE alice slot7, db'), net2).
Proof.
  assert (Hc : canFetch (state sampleDB)) by (split; [now exists 17|reflexivity]).
  assert (Hb : is_Some (stateBN sampleKeyCache)) by (now exists 17).
  assert (Hm : maxKeyCache sampleKeyCache < 2 ^ 64) by reflexivity.
  split; [exact Hc|]. split; [exact Hb|]. split; [exact Hm|]. split; [reflexivity|].
  destruct (a_prefetching_reset_refreshes_the_cache (env := sampleEnv) sampleDB
              sampleKeyCache [Bytes2Hex (alice ++ slot7)] sampleNet Hc Hb eq_refl Hm eq_refl)
    as (db' & content & net' & Hrun & _ & _ & Hcnt & Hslots & _ & Hread).
  exists db', content, net'. split; [exact Hrun|]. split; [exact Hcnt|].
  intros net2. apply (Hread alice GET_STATE slot7 net2).
  rewrite decide_True by reflexivity.
  split; [reflexivity|]. split; [reflexivity|].
  apply Hslots; [reflexivity..|]. right.
  exists 0%nat, (Bytes2Hex (alice ++ slot7)).
  split; [reflexivity|]. split; [reflexivity|]. apply Hex2Bytes_Bytes2Hex.
Defined.

Lemma the_key_file_lists_the_cached_slots_witness :
  canFetch (state sampleDB) ∧ is_Some (stateBN sampleKeyCache) ∧
  maxKeyCache sampleKeyCache < 2 ^ 64 ∧ script sampleNet = [] ∧
  ∃ db' ks net',
    InitState (env := sampleEnv) sampleDB sampleKeyCache true false sampleNet
    = Some ((db', Some (fileOf (keyLine <$> ks))), net') ∧
    NoDup ks.
Proof.
  assert (Hc : canFetch (state sampleDB)) by (split; [now exists 17|reflexivity]).
  assert (Hb : is_Some (stateBN sampleKeyCache)) by (now exists 17).
  assert (Hm : maxKeyCache sampleKeyCache < 2 ^ 64) by reflexivity.
  split; [exact Hc|]. split; [exact Hb|]. split; [exact Hm|]. split; [reflexivity|].
  destruct (the_key_file_lists_the_cached_slots (env := sampleEnv) sampleDB
              sampleKeyCache [Bytes2Hex (alice ++ slot7)] sampleNet Hc Hb eq_refl Hm eq_refl)
    as (db' & ks & net' & Hrun & Hnd & _).
  exists db', ks, net'. split; [exact Hrun|exact Hnd].
Defined.

Lemma InitState_panics_witness :
  canFetch (state sampleDB) ∧ script (failing ["timeout"%string]) = [Some "timeout"%string] ∧
  InitState (env := sampleEnv) sampleDB sampleKeyCache true false
    (failing ["timeout"%string]) = None.
Proof.
  assert (Hc : canFetch (state sampleDB)) by (split; [now exists 17|reflexivity]).
  split; [exact Hc|]. split; [reflexivity|].
  apply (InitState_panics (env := sampleEnv)). right. right.
  split; [reflexivity|]. split; [reflexivity|]. split; [exact Hc|].
  exists [Bytes2Hex (alice ++ slot7)], "timeout"%string, [], alice, slot7.
  split; [reflexivity|]. split; [reflexivity|]. split; [reflexivity|].
  split; [reflexivity|]. split; [reflexivity|]. right.
  exists 0%nat, (Bytes2Hex (alice ++ slot7)).
  split; [reflexivity|]. split; [reflexivity|]. apply Hex2Bytes_Bytes2Hex.
Defined.

Lemma a_failed_account_fetch_ends_the_warm_up_silently_witness :
  let es := replicate 6 "timeout"%string in
  let root := this (getRootState (state sampleDB)) in
  let slots := cachedSlots (scanKeys [Bytes2Hex (alice ++ slot7)] 0 10 (scratchPad root)) in
  canFetch (state sampleDB) ∧ slots ≠ [] ∧ length es = 6%nat ∧
  script (failingAfter 1 es)
  = replicate (Z.to_nat (ceilDiv (Z.of_nat (length slots)) (batchSize root))) None
    ++ (Some <$> es) ++ [] ∧
  ∃ db' net' tr,
    InitState (env := sampleEnv) sampleDB sampleKeyCache true false (failingAfter 1 es)
    = Some ((db', Some (fileOf (keyLine <$> slots))), net') ∧
    script net' = [] ∧ failures tr = es ∧ sleeps tr = replicate 5 100 ∧
    scratchPad (this (getRootState (state db'))) !! calcStateKey alice slot7
    = Some (upstreamValue (env := sampleEnv) 17 GET_STATE alice slot7) ∧
    scratchPad (this (getRootState (state db'))) !! calcKey BALANCE_KEY alice = None.
Proof.
  intros es root slots.
  assert (Hc : canFetch (state sampleDB)) by (split; [now exists 17|reflexivity]).
  assert (Hb : is_Some (stateBN sampleKeyCache)) by (now exists 17).
  assert (Hm : maxKeyCache sampleKeyCache < 2 ^ 64) by reflexivity.
  assert (Hslots : slots = [calcStateKey alice slot7]) by (vm_compute; reflexivity).
  assert (Hne : slots ≠ []) by (intros H; vm_compute in H; discriminate H).
  assert (Hs : script (failingAfter 1 es)
               = replicate (Z.to_nat (ceilDiv (Z.of_nat (length slots)) (batchSize root))) None
                 ++ (Some <$> es) ++ []) by (vm_compute; reflexivity).
  split; [exact Hc|]. split; [exact Hne|]. split; [reflexivity|]. split; [exact Hs|].
  destruct (a_failed_account_fetch_ends_the_warm_up_silently (env := sampleEnv) sampleDB
              sampleKeyCache [Bytes2Hex (alice ++ slot7)] (failingAfter 1 es) es []
              Hc Hb eq_refl Hm (or_intror Hne) eq_refl Hs)
    as (db' & net' & tr & Hrun & Hrest & _ & Hf & Hsl & Hfresh & Hstale).
  exists db', net', tr. split; [exact Hrun|]. split; [exact Hrest|].
  split; [exact Hf|]. split; [exact Hsl|]. split.
  - apply Hfresh; [reflexivity..|].
    exact (eq_ind_r (fun l => calcStateKey alice slot7 ∈ l) (list_elem_of_here _ _) Hslots).
  - exact (Hstale alice GET_BALANCE zeroHash ltac:(discriminate)).
Defined.

(** A warm-up on a facade with local writes: the slot named by the key file
    and the account of it are cached as upstream holds them, under a fresh
    layer; the local writes are gone and the key file is written back. *)
Example warm_up_of_one_slot :
  (fun r =>
     (snd (fst r),
      GetOverlayDepth (fst (fst r)),
      scratchPad (this (state (fst (fst r)))) !! calcKey BALANCE_KEY alice,
      scratchPad (this (getRootState (state (fst (fst r))))) !! calcStateKey alice slot7,
      length (batchCalls (trace (snd r)))))
    <$> InitState (env := sampleEnv) sampleWrites sampleKeyCache true false sampleNet
  = Some (Some (Bytes2Hex (alice ++ slot7) ++ newline)%string, 1, None,
          Some (eth_getStorageAt (up (Env := sampleEnv)) alice slot7 17), 2%nat).
Proof. vm_compute. reflexivity. Qed.
